(** * LLLMP household dataset generator: world model and simulator

    A shallow embedding of [src/dataset.py]: the entity model (rooms,
    stationary items, movable items, the person), the placement engine
    ([Container.generate_instance]), the world generator
    ([DatasetGenerator.__init__]), the action simulator
    ([generate_state_change]) and the problem encoder
    ([generate_problem_pddl]).

    Python objects that are shared and mutated through several references
    (movable items, stationary items) live in two heaps and are named by
    their address; the pseudo-random source is an explicit stream of draws
    with a cursor; exceptions and unbounded [while True] loops are explicit
    in the result type. *)

From Stdlib Require Import String Ascii List Arith Lia Permutation.
From stdpp Require Import base option list strings gmap pretty.

Open Scope string_scope.
Open Scope list_scope.

(** ** Python built-ins used by the program *)

Module Py.

Definition is_upper (c : ascii) : bool :=
  let n := nat_of_ascii c in Nat.leb 65 n && Nat.leb n 90.
Definition is_lower (c : ascii) : bool :=
  let n := nat_of_ascii c in Nat.leb 97 n && Nat.leb n 122.
Definition is_digit (c : ascii) : bool :=
  let n := nat_of_ascii c in Nat.leb 48 n && Nat.leb n 57.
Definition is_alnum (c : ascii) : bool := is_upper c || is_lower c || is_digit c.

Definition lower_char (c : ascii) : ascii :=
  if is_upper c then ascii_of_nat (nat_of_ascii c + 32) else c.
Definition upper_char (c : ascii) : ascii :=
  if is_lower c then ascii_of_nat (nat_of_ascii c - 32) else c.

(** [str.lower] *)
Fixpoint lower (s : string) : string :=
  match s with
  | EmptyString => EmptyString
  | String c r => String (lower_char c) (lower r)
  end.

(** [str.capitalize]: first character upper case, the rest lower case. *)
Definition capitalize (s : string) : string :=
  match s with
  | EmptyString => EmptyString
  | String c r => String (upper_char c) (lower r)
  end.

(** [re.sub(r"[^a-zA-Z0-9]+", "-", s)]: every maximal run of characters
    that are not letters or digits becomes one dash. *)
Fixpoint re_sub_run (in_run : bool) (s : string) : string :=
  match s with
  | EmptyString => EmptyString
  | String c r =>
      if is_alnum c then String c (re_sub_run false r)
      else if in_run then re_sub_run true r
      else String "-"%char (re_sub_run true r)
  end.
Definition re_sub_non_alnum (s : string) : string := re_sub_run false s.

(** [str(n)] for a natural number. *)
Definition str (n : nat) : string := pretty n.

Definition tab : string := String (ascii_of_nat 9) EmptyString.
Definition nl : string := String (ascii_of_nat 10) EmptyString.
Definition dquote : string := String (ascii_of_nat 34) EmptyString.

(** [s[0] in "aeiou"]; [None] is the [IndexError] of the empty string. *)
Definition first_in_aeiou (s : string) : option bool :=
  match s with
  | EmptyString => None
  | String c _ => Some (bool_decide (c ∈ ["a"; "e"; "i"; "o"; "u"]%char))
  end.

(** [sep.join(l)] *)
Definition join (sep : string) (l : list string) : string := String.concat sep l.

(** [x[i], x[j] = x[j], x[i]] on a list. *)
Definition swap {A} (x : list A) (i j : nat) : list A :=
  match x !! i, x !! j with
  | Some a, Some b => <[j:=a]> (<[i:=b]> x)
  | _, _ => x
  end.

(** [list.remove(v)]: drops the first element equal to [v]; [None] is the
    [ValueError] of a list without [v]. *)
Fixpoint remove (v : nat) (l : list nat) : option (list nat) :=
  match l with
  | [] => None
  | x :: r => if decide (x = v) then Some r else cons x <$> remove v r
  end.

(** [list.pop(i)] as the pair of the element and the rest. *)
Definition pop_at {A} (i : nat) (l : list A) : option (A * list A) :=
  match l !! i with
  | Some a => Some (a, delete i l)
  | None => None
  end.

End Py.

(** ** Entity model *)

(** The concrete subclasses of [MovableItem], [StationaryItem] and [Room]. *)
Inductive MovableType := Book | Pen | Food | Kitchenware | Phone.
Inductive StationaryType := Table | Shelf | Fridge | Sink | Window | Light | TV.
Inductive RoomType := Kitchen | LivingRoom | Bedroom.

#[global] Instance MovableType_eq_dec : EqDecision MovableType.
Proof. solve_decision. Defined.
#[global] Instance StationaryType_eq_dec : EqDecision StationaryType.
Proof. solve_decision. Defined.
#[global] Instance RoomType_eq_dec : EqDecision RoomType.
Proof. solve_decision. Defined.

(** [cls.__name__.lower()] *)
Definition movable_type_name (t : MovableType) : string :=
  match t with
  | Book => "book" | Pen => "pen" | Food => "food"
  | Kitchenware => "kitchenware" | Phone => "phone"
  end.
Definition stationary_type_name (t : StationaryType) : string :=
  match t with
  | Table => "table" | Shelf => "shelf" | Fridge => "fridge" | Sink => "sink"
  | Window => "window" | Light => "light" | TV => "tv"
  end.
Definition room_type_name (t : RoomType) : string :=
  match t with
  | Kitchen => "kitchen" | LivingRoom => "livingroom" | Bedroom => "bedroom"
  end.

(** [issubclass(t, Container)] *)
Definition is_container (t : StationaryType) : bool :=
  match t with
  | Table | Shelf | Fridge | Sink => true
  | Window | Light | TV => false
  end.

(** [Container.can_hold], per container class; the other stationary classes
    have no such method and hold nothing. *)
Definition can_hold (t : StationaryType) (item_type : MovableType) : bool :=
  match t with
  | Table => true
  | Shelf => true
  | Fridge => match item_type with Food => true | _ => false end
  | Sink => match item_type with Kitchenware => true | _ => false end
  | Window | Light | TV => false
  end.

(** [Room.can_hold], per room class. *)
Definition Kitchen_can_hold (t : StationaryType) : bool :=
  match t with
  | Fridge | Sink | Light => true
  | _ => false
  end.
Definition room_can_hold (r : RoomType) (t : StationaryType) : bool :=
  match r with
  | Kitchen => Kitchen_can_hold t
  | LivingRoom | Bedroom =>
      negb (Kitchen_can_hold t) || bool_decide (t = Light)
  end.

(** [TV.Channel] *)
Record Channel := { ch_name : string; ch_pddl_name : string }.
Definition mkChannel (name : string) : Channel :=
  {| ch_name := name; ch_pddl_name := Py.lower (Py.re_sub_non_alnum name) |}.
Definition Channel_TYPE_NAME : string := "channel".
Definition TV_CHANNELS : list Channel :=
  [ mkChannel "the Discovery Channel"; mkChannel "Cartoon Network";
    mkChannel "NBC"; mkChannel "CNN"; mkChannel "Fox News"; mkChannel "ESPN" ].
Definition TV_CHANNEL_OBJECTS : list string :=
  map (fun c => ch_pddl_name c +:+ " - " +:+ Channel_TYPE_NAME) TV_CHANNELS.

(** What a stationary item keeps of its parent [Room]: the room's class and
    its two names, which never change after the room is built. *)
Record RoomId := {
  room_class : RoomType;
  room_name : string;
  room_pddl_name : string
}.

(** The attributes a stationary class adds to [name], [pddl_name], [parent]. *)
Inductive StationaryState :=
| IsTable
| IsShelf (levels : nat)
| IsFridge
| IsSink (faucet_on : bool)
| IsWindow (open : bool)
| IsLight (on : bool)
| IsTV (on : bool) (curr_channel : Channel).

Record StationaryItem := {
  s_name : string;
  s_pddl_name : string;
  s_parent : RoomId;
  s_state : StationaryState
}.

Definition stationary_type_of (st : StationaryState) : StationaryType :=
  match st with
  | IsTable => Table | IsShelf _ => Shelf | IsFridge => Fridge | IsSink _ => Sink
  | IsWindow _ => Window | IsLight _ => Light | IsTV _ _ => TV
  end.
Definition s_type (x : StationaryItem) : StationaryType := stationary_type_of (s_state x).

(** Values stored in [extra_location_info]. *)
Inductive Value := VInt (n : nat) | VStr (s : string).

(** [MovableItem]; [m_container] is the address of a stationary item,
    [m_ringing] is the attribute [Phone] adds. *)
Record MovableItem := {
  m_type : MovableType;
  m_name : string;
  m_pddl_name : string;
  m_shortened_name : string;
  m_container : option nat;
  m_relative_location : option string;
  m_extra_location_info : gmap string Value;
  m_use_default_article : bool;
  m_ringing : bool
}.

Record Person := { p_item : option nat; p_pddl_name : string }.
Definition Person_TYPE_NAME : string := "person".

Record Room := {
  r_class : RoomType;
  r_name : string;
  r_pddl_name : string;
  r_items : list nat
}.
Definition room_id (r : Room) : RoomId :=
  {| room_class := r_class r; room_name := r_name r; room_pddl_name := r_pddl_name r |}.

(** ** Program state *)

(** Class attributes that generation consumes. *)
Record Classes := {
  Book_available_titles : list string;
  Pen_available_colors : list string;
  Food_available_foods : list string;
  Kitchenware_available_kitchenware : list string;
  Phone_available_names : list string;
  Bedroom_available_names : list string;
  Kitchen_generated : bool;
  LivingRoom_generated : bool
}.

(** Module-level type lists, [list(set(...))] of the concrete subclasses:
    their order is whatever the set iteration gives. *)
Record Globals := {
  item_types : list (MovableType + StationaryType);
  movable_types : list MovableType;
  stationary_types : list StationaryType;
  room_types : list RoomType
}.

(** The two heaps and the fields of the [DatasetGenerator] object. *)
Record World := {
  movables : list MovableItem;
  stationaries : list StationaryItem;
  rooms : list Room;
  movable_items : list nat;
  person : Person;
  description : string
}.

Record State := {
  rand : nat -> nat;
  cursor : nat;
  classes : Classes;
  globals : Globals;
  world : World
}.

(** ** Results, exceptions and the state monad *)

(** [DanglingRef] is an address outside a heap; Python has no such failure,
    and no state reachable from the generator produces it. *)
Inductive Exn :=
| AssertionError | KeyError | IndexError | ValueError | TypeError
| AttributeError | DanglingRef.

(** [OutOfFuel] stands for a [while True] loop that has not returned within
    the given number of iterations. *)
Inductive Res (A : Type) :=
| Ok (a : A)
| Raise (e : Exn)
| OutOfFuel.
Arguments Ok {A} a.
Arguments Raise {A} e.
Arguments OutOfFuel {A}.

(** The exception monad of the read-only methods. *)
Definition Res_bind {A B} (m : Res A) (f : A -> Res B) : Res B :=
  match m with
  | Ok a => f a
  | Raise e => Raise e
  | OutOfFuel => OutOfFuel
  end.

(** The monad of the methods that mutate the program state. *)
Definition M (A : Type) : Type := State -> Res (A * State).

Definition ret {A} (a : A) : M A := fun s => Ok (a, s).
Definition bind {A B} (m : M A) (f : A -> M B) : M B := fun s =>
  match m s with
  | Ok (a, s') => f a s'
  | Raise e => Raise e
  | OutOfFuel => OutOfFuel
  end.

Notation "x <- m ;; k" := (bind m (fun x => k))
  (at level 20, m at level 99, k at level 200, right associativity).
Notation "' p <- m ;; k" := (bind m (fun x => match x with p => k end))
  (at level 20, p pattern, m at level 99, k at level 200, right associativity).
Notation "m ;;; k" := (bind m (fun _ => k))
  (at level 100, k at level 200, right associativity).
Notation "x <~ m ;; k" := (Res_bind m (fun x => k))
  (at level 20, m at level 99, k at level 200, right associativity).

Definition with_world (s : State) (w : World) : State :=
  {| rand := rand s; cursor := cursor s; classes := classes s;
     globals := globals s; world := w |}.
Definition with_classes (s : State) (c : Classes) : State :=
  {| rand := rand s; cursor := cursor s; classes := c;
     globals := globals s; world := world s |}.
Definition with_cursor (s : State) (n : nat) : State :=
  {| rand := rand s; cursor := n; classes := classes s;
     globals := globals s; world := world s |}.

Definition raise {A} (e : Exn) : M A := fun _ => Raise e.
Definition timeout {A} : M A := fun _ => OutOfFuel.
Definition get_world : M World := fun s => Ok (world s, s).
Definition put_world (w : World) : M unit := fun s => Ok (tt, with_world s w).
Definition get_classes : M Classes := fun s => Ok (classes s, s).
Definition put_classes (c : Classes) : M unit := fun s => Ok (tt, with_classes s c).
Definition get_globals : M Globals := fun s => Ok (globals s, s).
Definition lift {A} (r : Res A) : M A := fun s =>
  match r with
  | Ok a => Ok (a, s)
  | Raise e => Raise e
  | OutOfFuel => OutOfFuel
  end.

(** *** Field updates of the world *)

Definition with_movables (w : World) (l : list MovableItem) : World :=
  {| movables := l; stationaries := stationaries w; rooms := rooms w;
     movable_items := movable_items w; person := person w;
     description := description w |}.
Definition with_stationaries (w : World) (l : list StationaryItem) : World :=
  {| movables := movables w; stationaries := l; rooms := rooms w;
     movable_items := movable_items w; person := person w;
     description := description w |}.
Definition with_rooms (w : World) (l : list Room) : World :=
  {| movables := movables w; stationaries := stationaries w; rooms := l;
     movable_items := movable_items w; person := person w;
     description := description w |}.
Definition with_movable_items (w : World) (l : list nat) : World :=
  {| movables := movables w; stationaries := stationaries w; rooms := rooms w;
     movable_items := l; person := person w;
     description := description w |}.
Definition with_person (w : World) (p : Person) : World :=
  {| movables := movables w; stationaries := stationaries w; rooms := rooms w;
     movable_items := movable_items w; person := p;
     description := description w |}.
Definition with_description (w : World) (d : string) : World :=
  {| movables := movables w; stationaries := stationaries w; rooms := rooms w;
     movable_items := movable_items w; person := person w;
     description := d |}.

Definition with_item (p : Person) (i : option nat) : Person :=
  {| p_item := i; p_pddl_name := p_pddl_name p |}.
Definition with_state (x : StationaryItem) (st : StationaryState) : StationaryItem :=
  {| s_name := s_name x; s_pddl_name := s_pddl_name x; s_parent := s_parent x;
     s_state := st |}.
Definition with_location (it : MovableItem) (c : option nat)
    (loc : option string) (extra : gmap string Value) : MovableItem :=
  {| m_type := m_type it; m_name := m_name it; m_pddl_name := m_pddl_name it;
     m_shortened_name := m_shortened_name it; m_container := c;
     m_relative_location := loc; m_extra_location_info := extra;
     m_use_default_article := m_use_default_article it;
     m_ringing := m_ringing it |}.
Definition with_ringing (it : MovableItem) (b : bool) : MovableItem :=
  {| m_type := m_type it; m_name := m_name it; m_pddl_name := m_pddl_name it;
     m_shortened_name := m_shortened_name it; m_container := m_container it;
     m_relative_location := m_relative_location it;
     m_extra_location_info := m_extra_location_info it;
     m_use_default_article := m_use_default_article it;
     m_ringing := b |}.

(** *** Heap access *)

Definition deref {A} (heap : list A) (a : nat) : Res A :=
  match heap !! a with
  | Some x => Ok x
  | None => Raise DanglingRef
  end.

Definition get_movable (a : nat) : M MovableItem :=
  w <- get_world ;; lift (deref (movables w) a).
Definition set_movable (a : nat) (it : MovableItem) : M unit :=
  w <- get_world ;; put_world (with_movables w (<[a:=it]> (movables w))).
Definition get_stationary (a : nat) : M StationaryItem :=
  w <- get_world ;; lift (deref (stationaries w) a).
Definition set_stationary (a : nat) (x : StationaryItem) : M unit :=
  w <- get_world ;; put_world (with_stationaries w (<[a:=x]> (stationaries w))).
Definition get_person : M Person := w <- get_world ;; ret (person w).
Definition set_person (p : Person) : M unit :=
  w <- get_world ;; put_world (with_person w p).

(** *** The [random] module

    Every call consumes one draw of the stream [rand]. *)

Definition randbelow (n : nat) : M nat := fun s =>
  Ok (rand s (cursor s) mod n, with_cursor s (S (cursor s))).

(** [random.randrange(n)] *)
Definition randrange (n : nat) : M nat :=
  if decide (n = 0) then raise ValueError else randbelow n.

(** [random.randint(a, b)] *)
Definition randint (a b : nat) : M nat :=
  if decide (b < a) then raise ValueError
  else k <- randbelow (b - a + 1) ;; ret (a + k).

(** [random.choice(seq)] *)
Definition random_choice {A} (seq : list A) : M A :=
  match seq with
  | [] => raise IndexError
  | d :: _ => k <- randbelow (length seq) ;; ret (nth k seq d)
  end.

(** [random.choice([True, False])] *)
Definition coin : M bool := random_choice [true; false].

(** [random.shuffle(x)]: for [i] from [len(x) - 1] down to 1, swap [x[i]]
    with [x[randbelow(i + 1)]]. *)
Fixpoint shuffle_from {A} (i : nat) (x : list A) : M (list A) :=
  match i with
  | 0 => ret x
  | S i' => j <- randbelow (S i) ;; shuffle_from i' (Py.swap x i j)
  end.
Definition shuffle {A} (x : list A) : M (list A) := shuffle_from (length x - 1) x.

(** ** Stationary and movable items: actions *)

(** The [{}] of [str.format] applied to an optional string. *)
Definition fmt (o : option string) : string :=
  match o with
  | Some s => s
  | None => "None"
  end.

Definition on_off (b : bool) : string := if b then "on" else "off".

(** [StationaryItem.get_full_name_with_room] *)
Definition get_full_name_with_room (x : StationaryItem) : string :=
  s_name x +:+ " in " +:+ room_name (s_parent x).

Definition Shelf_MIN_LEVELS : nat := 3.
Definition Shelf_MAX_LEVELS : nat := 10.
Definition Shelf_LEVEL_TYPE : string := "level".

(** [Shelf.get_level_name] *)
Definition get_level_name (level : nat) : string := "level-" +:+ Py.str level.

Definition Shelf_LEVEL_OBJECTS : list string :=
  map (fun i => get_level_name (i + 1) +:+ " - " +:+ Shelf_LEVEL_TYPE)
      (seq 0 Shelf_MAX_LEVELS).

(** [Shelf.integer_to_ordinal] *)
Definition integer_to_ordinal (number : nat) : string :=
  if bool_decide (number mod 100 ∈ [11; 12; 13]) then Py.str number +:+ "th"
  else if decide (number mod 10 = 1) then Py.str number +:+ "st"
  else if decide (number mod 10 = 2) then Py.str number +:+ "nd"
  else if decide (number mod 10 = 3) then Py.str number +:+ "rd"
  else Py.str number +:+ "th".

(** [generate_relative_location] of [Table], [Shelf], [Fridge] and [Sink]. *)
Definition generate_relative_location (x : StationaryItem)
  : M (string * gmap string Value) :=
  match s_state x with
  | IsTable => ret ("on", ∅)
  | IsShelf levels =>
      k <- randrange levels ;;
      let level := k + 1 in
      ret ("on the " +:+ integer_to_ordinal level +:+ " level of",
            <["level" := VInt level]>
              (<["pddl_level" := VStr (get_level_name level)]> ∅))
  | IsFridge => ret ("inside", ∅)
  | IsSink _ => ret ("in", ∅)
  | _ => raise AttributeError
  end.

(** [MovableItem.perform_action] *)
Definition MovableItem_perform_action (self : nat) : M (option string) :=
  p <- get_person ;;
  match p_item p with
  | Some _ => ret None
  | None =>
      it <- get_movable self ;;
      match m_container it with
      | None => raise AssertionError
      | Some c =>
          cont <- get_stationary c ;;
          let action :=
            "I picked up " +:+ (if m_use_default_article it then "the " else "")
              +:+ m_shortened_name it +:+ " " +:+ fmt (m_relative_location it)
              +:+ " the " +:+ get_full_name_with_room cont +:+ "." in
          set_person (with_item p (Some self)) ;;;
          set_movable self (with_location it None None (m_extra_location_info it)) ;;;
          ret (Some action)
      end
  end.

(** [Container.perform_action] *)
Definition Container_perform_action (self : nat) : M (option string) :=
  p <- get_person ;;
  cont <- get_stationary self ;;
  match p_item p with
  | None => ret None
  | Some i =>
      item <- get_movable i ;;
      if negb (can_hold (s_type cont) (m_type item)) then ret None
      else
        set_person (with_item p None) ;;;
        '(loc, extra) <- generate_relative_location cont ;;
        set_movable i (with_location item (Some self) (Some loc) extra) ;;;
        ret (Some ("I placed the " +:+ m_shortened_name item
                      +:+ " I was holding " +:+ loc +:+ " the "
                      +:+ get_full_name_with_room cont +:+ "."))
  end.

(** [Sink.interact] *)
Definition Sink_interact (self : nat) : M (option string) :=
  x <- get_stationary self ;;
  match s_state x with
  | IsSink faucet_on =>
      set_stationary self (with_state x (IsSink (negb faucet_on))) ;;;
      ret (Some ("I turned " +:+ on_off (negb faucet_on) +:+ " the faucet of the "
                    +:+ get_full_name_with_room x +:+ "."))
  | _ => raise AttributeError
  end.

(** [InteractableContainer.perform_action]: [while True], one iteration per
    unit of fuel. *)
Fixpoint InteractableContainer_perform_action (fuel : nat) (self : nat)
  : M (option string) :=
  match fuel with
  | 0 => timeout
  | S fuel' =>
      b <- coin ;;
      action <- (if b then Sink_interact self else Container_perform_action self) ;;
      match action with
      | Some a => ret (Some a)
      | None => InteractableContainer_perform_action fuel' self
      end
  end.

(** [Window.perform_action] *)
Definition Window_perform_action (self : nat) : M (option string) :=
  x <- get_stationary self ;;
  match s_state x with
  | IsWindow open =>
      set_stationary self (with_state x (IsWindow (negb open))) ;;;
      ret (Some ("I " +:+ (if negb open then "opened" else "closed")
                    +:+ " the blinds of the " +:+ get_full_name_with_room x +:+ "."))
  | _ => raise AttributeError
  end.

(** [Light.perform_action] *)
Definition Light_perform_action (self : nat) : M (option string) :=
  x <- get_stationary self ;;
  match s_state x with
  | IsLight on =>
      set_stationary self (with_state x (IsLight (negb on))) ;;;
      ret (Some ("I turned " +:+ on_off (negb on) +:+ " the "
                    +:+ get_full_name_with_room x +:+ "."))
  | _ => raise AttributeError
  end.

(** [TV.perform_action] *)
Definition TV_perform_action (self : nat) : M (option string) :=
  x <- get_stationary self ;;
  match s_state x with
  | IsTV true curr_channel =>
      b <- coin ;;
      if b then
        ch <- random_choice TV_CHANNELS ;;
        set_stationary self (with_state x (IsTV true ch)) ;;;
        ret (Some ("I switched the channel of the TV in " +:+ room_name (s_parent x)
                      +:+ " to " +:+ ch_name ch +:+ "."))
      else
        set_stationary self (with_state x (IsTV false curr_channel)) ;;;
        ret (Some ("I turned off the TV in " +:+ room_name (s_parent x) +:+ "."))
  | IsTV false _ =>
      ch <- random_choice TV_CHANNELS ;;
      set_stationary self (with_state x (IsTV true ch)) ;;;
      ret (Some ("I turned on the TV in " +:+ room_name (s_parent x)
                    +:+ " and set it to " +:+ ch_name ch +:+ "."))
  | _ => raise AttributeError
  end.

(** [Phone.interact] *)
Definition Phone_interact (self : nat) : M (option string) :=
  it <- get_movable self ;;
  set_movable self (with_ringing it (negb (m_ringing it))) ;;;
  ret (Some (m_shortened_name it +:+ " "
                +:+ (if negb (m_ringing it) then "started" else "stopped")
                +:+ " ringing.")).

(** [MovableInteractable.perform_action]: [while True], one iteration per
    unit of fuel. *)
Fixpoint MovableInteractable_perform_action (fuel : nat) (self : nat)
  : M (option string) :=
  match fuel with
  | 0 => timeout
  | S fuel' =>
      b <- coin ;;
      action <- (if b then Phone_interact self else MovableItem_perform_action self) ;;
      match action with
      | Some a => ret (Some a)
      | None => MovableInteractable_perform_action fuel' self
      end
  end.

(** Method resolution of [item.perform_action(person)] on a stationary item
    and on a movable item. *)
Definition stationary_perform_action (fuel : nat) (self : nat) : M (option string) :=
  x <- get_stationary self ;;
  match s_state x with
  | IsTable | IsShelf _ | IsFridge => Container_perform_action self
  | IsSink _ => InteractableContainer_perform_action fuel self
  | IsWindow _ => Window_perform_action self
  | IsLight _ => Light_perform_action self
  | IsTV _ _ => TV_perform_action self
  end.

Definition movable_perform_action (fuel : nat) (self : nat) : M (option string) :=
  it <- get_movable self ;;
  match m_type it with
  | Phone => MovableInteractable_perform_action fuel self
  | _ => MovableItem_perform_action self
  end.

(** ** Rooms and the action simulator *)

(** The loop of [Room.perform_action]; [usable_items.pop()] takes the last
    element, so the list is given here in popping order. *)
Fixpoint Room_perform_action_loop (fuel : nat) (popping_order : list nat)
  : M (option string) :=
  match popping_order with
  | [] => ret None
  | item :: rest =>
      action <- stationary_perform_action fuel item ;;
      match action with
      | Some a => ret (Some a)
      | None => Room_perform_action_loop fuel rest
      end
  end.

(** [Room.perform_action] *)
Definition Room_perform_action (fuel : nat) (self : Room) : M (option string) :=
  usable_items <- shuffle (r_items self) ;;
  Room_perform_action_loop fuel (rev usable_items).

(** The [while True] loop of [generate_state_change], with what is left of
    the two local pools when it returns. *)
Fixpoint generate_state_change_loop (fuel : nat)
    (usable_rooms : list Room) (usable_movables : list nat)
  : M (string * list Room * list nat) :=
  match fuel with
  | 0 => timeout
  | S fuel' =>
      if bool_decide (usable_rooms = [] ∧ usable_movables = []) then raise AssertionError
      else
        b <- (match usable_rooms return M bool with [] => ret false | _ => coin end) ;;
        '(usable_rooms, found) <-
          (if b then
             k <- randrange (length usable_rooms) ;;
             match Py.pop_at k usable_rooms with
             | None => raise IndexError
             | Some (room, rest) =>
                 action <- Room_perform_action fuel' room ;;
                 ret (rest, action)
             end
           else ret (usable_rooms, None)) ;;
        match found with
        | Some a => ret (a, usable_rooms, usable_movables)
        | None =>
            match usable_movables with
            | [] => generate_state_change_loop fuel' usable_rooms usable_movables
            | _ =>
                k <- randrange (length usable_movables) ;;
                match Py.pop_at k usable_movables with
                | None => raise IndexError
                | Some (item, rest) =>
                    action <- movable_perform_action fuel' item ;;
                    match action with
                    | Some a => ret (a, usable_rooms, rest)
                    | None => generate_state_change_loop fuel' usable_rooms rest
                    end
                end
            end
        end
  end.

(** [DatasetGenerator.generate_state_change] *)
Definition generate_state_change (fuel : nat) : M string :=
  w <- get_world ;;
  r <- generate_state_change_loop fuel (rooms w) (movable_items w) ;;
  ret (r.1.1).

(** ** The problem encoder *)

(** [Person.get_in_hand_predicate], [Person.get_empty_hand_predicate] *)
Definition get_in_hand_predicate (person_param item_param : string) : string :=
  "in-hand " +:+ person_param +:+ " " +:+ item_param.
Definition get_empty_hand_predicate (person_param : string) : string :=
  "hand-empty " +:+ person_param.

(** [Room.get_in_room_predicate] *)
Definition get_in_room_predicate_name (t : RoomType) : string :=
  "in-" +:+ room_type_name t.
Definition get_in_room_predicate (t : RoomType) (room_param container_param : string)
  : string :=
  get_in_room_predicate_name t +:+ " " +:+ room_param +:+ " " +:+ container_param.

(** [Container.get_contains_predicate] and its override in [Shelf], which
    reads [kwargs["pddl_level"]]. *)
Definition get_contains_predicate_name (t : StationaryType) : string :=
  stationary_type_name t +:+ "-contains".
Definition Container_get_contains_predicate (t : StationaryType)
    (container_param item_param : string) : string :=
  get_contains_predicate_name t +:+ " " +:+ container_param +:+ " " +:+ item_param.
Definition get_contains_predicate (t : StationaryType)
    (container_param item_param : string) (kwargs : gmap string Value) : Res string :=
  match t with
  | Shelf =>
      match kwargs !! "pddl_level" with
      | Some (VStr l) =>
          Ok (Container_get_contains_predicate t container_param item_param +:+ " " +:+ l)
      | Some (VInt _) => Raise TypeError
      | None => Raise KeyError
      end
  | _ => Ok (Container_get_contains_predicate t container_param item_param)
  end.

(** [RoomItem.get_pddl_objects] *)
Definition stationary_get_pddl_objects (x : StationaryItem) : list string :=
  [s_pddl_name x +:+ " - " +:+ stationary_type_name (s_type x)].
Definition movable_get_pddl_objects (it : MovableItem) : list string :=
  [m_pddl_name it +:+ " - " +:+ movable_type_name (m_type it)].

(** [get_static_pddl_objects], per item class. *)
Definition get_static_pddl_objects (t : MovableType + StationaryType) : list string :=
  match t with
  | inr Shelf => Shelf_LEVEL_OBJECTS
  | inr TV => TV_CHANNEL_OBJECTS
  | _ => []
  end.

(** [Person.get_pddl_objects], [Person.get_init_conditions] *)
Definition Person_get_pddl_objects (p : Person) : list string :=
  [p_pddl_name p +:+ " - " +:+ Person_TYPE_NAME].
Definition Person_get_init_conditions (p : Person) : list string :=
  match p_item p with
  | None => [get_empty_hand_predicate (p_pddl_name p)]
  | Some _ => []
  end.

(** [StationaryItem.get_init_conditions] *)
Definition StationaryItem_get_init_conditions (x : StationaryItem) : list string :=
  [get_in_room_predicate (room_class (s_parent x)) (room_pddl_name (s_parent x))
     (s_pddl_name x)].

(** [get_special_init_conditions] of [Sink], [Window], [Light] and [TV]. *)
Definition get_special_init_conditions (x : StationaryItem) : list string :=
  match s_state x with
  | IsSink true => ["faucet-on " +:+ s_pddl_name x]
  | IsWindow true => ["window-open " +:+ s_pddl_name x]
  | IsLight true => ["light-on " +:+ s_pddl_name x]
  | IsTV true curr_channel =>
      ["tv-on " +:+ s_pddl_name x;
       "tv-playing-channel " +:+ s_pddl_name x +:+ " " +:+ ch_pddl_name curr_channel]
  | _ => []
  end.

(** [item.get_init_conditions(person)] on a stationary item: [Shelf] adds one
    [shelf-has-level] per level, the interactable classes add their special
    conditions. *)
Definition stationary_get_init_conditions (x : StationaryItem) : list string :=
  match s_state x with
  | IsTable | IsFridge => StationaryItem_get_init_conditions x
  | IsShelf levels =>
      StationaryItem_get_init_conditions x
        ++ map (fun i => "shelf-has-level " +:+ s_pddl_name x +:+ " "
                           +:+ get_level_name (i + 1))
               (seq 0 levels)
  | IsSink _ | IsWindow _ | IsLight _ | IsTV _ _ =>
      StationaryItem_get_init_conditions x ++ get_special_init_conditions x
  end.

(** [MovableItem.get_init_conditions] *)
Definition MovableItem_get_init_conditions (w : World) (it : MovableItem)
  : Res (list string) :=
  match m_container it with
  | None => Ok [get_in_hand_predicate (p_pddl_name (person w)) (m_pddl_name it)]
  | Some c =>
      cont <~ deref (stationaries w) c ;;
      pr <~ get_contains_predicate (s_type cont) (s_pddl_name cont) (m_pddl_name it)
              (m_extra_location_info it) ;;
      Ok [pr]
  end.

(** [Phone.get_special_init_conditions] *)
Definition Phone_get_special_init_conditions (it : MovableItem) : list string :=
  if m_ringing it then ["phone-ringing " +:+ m_pddl_name it] else [].

(** [item.get_init_conditions(person)] on a movable item. *)
Definition movable_get_init_conditions (w : World) (it : MovableItem)
  : Res (list string) :=
  match m_type it with
  | Phone =>
      l <~ MovableItem_get_init_conditions w it ;;
      Ok (l ++ Phone_get_special_init_conditions it)
  | _ => MovableItem_get_init_conditions w it
  end.

(** [for x in l: acc += f(x)] *)
Fixpoint concat_for {A} (f : A -> Res (list string)) (l : list A) : Res (list string) :=
  match l with
  | [] => Ok []
  | x :: rest =>
      h <~ f x ;;
      t <~ concat_for f rest ;;
      Ok (h ++ t)
  end.

(** [Room.get_init_conditions], [Room.get_pddl_objects] *)
Definition Room_get_init_conditions (w : World) (r : Room) : Res (list string) :=
  concat_for (fun a => x <~ deref (stationaries w) a ;;
                       Ok (stationary_get_init_conditions x))
             (r_items r).
Definition Room_get_pddl_objects (w : World) (r : Room) : Res (list string) :=
  items <~ concat_for (fun a => x <~ deref (stationaries w) a ;;
                                Ok (stationary_get_pddl_objects x))
                      (r_items r) ;;
  Ok ((r_pddl_name r +:+ " - " +:+ room_type_name (r_class r)) :: items).

(** The list [objects] that [generate_problem_pddl] builds. *)
Definition problem_objects (g : Globals) (w : World) : Res (list string) :=
  from_rooms <~ concat_for (Room_get_pddl_objects w) (rooms w) ;;
  from_items <~ concat_for (fun a => it <~ deref (movables w) a ;;
                                     Ok (movable_get_pddl_objects it))
                           (movable_items w) ;;
  Ok (Person_get_pddl_objects (person w) ++ from_rooms ++ from_items
        ++ concat (map get_static_pddl_objects (item_types g))).

(** The list [init_conditions] that [generate_problem_pddl] builds. *)
Definition problem_init (w : World) : Res (list string) :=
  from_rooms <~ concat_for (Room_get_init_conditions w) (rooms w) ;;
  from_items <~ concat_for (fun a => it <~ deref (movables w) a ;;
                                     movable_get_init_conditions w it)
                           (movable_items w) ;;
  Ok (Person_get_init_conditions (person w) ++ from_rooms ++ from_items).

(** [DatasetGenerator.generate_problem_pddl] *)
Definition generate_problem_pddl (g : Globals) (w : World) : Res string :=
  objects <~ problem_objects g w ;;
  init_conditions <~ problem_init w ;;
  Ok ("(define (problem simulation-a)" +:+ Py.nl
        +:+ Py.tab +:+ "(:domain simulation)" +:+ Py.nl
        +:+ Py.tab +:+ "(:objects" +:+ Py.nl
        +:+ Py.tab +:+ Py.tab +:+ Py.join (Py.nl +:+ Py.tab +:+ Py.tab) objects +:+ Py.nl
        +:+ Py.tab +:+ ")" +:+ Py.nl
        +:+ Py.tab +:+ "(:init" +:+ Py.nl
        +:+ Py.tab +:+ Py.tab +:+ "("
        +:+ Py.join (")" +:+ Py.nl +:+ Py.tab +:+ Py.tab +:+ "(") init_conditions
        +:+ ")" +:+ Py.nl
        +:+ Py.tab +:+ ")" +:+ Py.nl
        +:+ ")" +:+ Py.nl).

(** ** World generation *)

(** *** Movable items *)

Definition new_MovableItem (t : MovableType) (name pddl_name shortened_name : string)
    (use_default_article : bool) : MovableItem :=
  {| m_type := t; m_name := name; m_pddl_name := pddl_name;
     m_shortened_name := shortened_name; m_container := None;
     m_relative_location := None; m_extra_location_info := ∅;
     m_use_default_article := use_default_article; m_ringing := false |}.

(** The constructors [Book(title)], [Pen(color)], [Food(name)],
    [Kitchenware(name)] and [Phone(owner)]. *)
Definition new_movable (t : MovableType) (x : string) : MovableItem :=
  match t with
  | Book =>
      new_MovableItem Book ("book called " +:+ Py.dquote +:+ x +:+ Py.dquote)
        (Py.lower (Py.re_sub_non_alnum x) +:+ "-book")
        (Py.dquote +:+ x +:+ Py.dquote +:+ " book") true
  | Pen => new_MovableItem Pen (x +:+ " pen") (x +:+ "-pen") (x +:+ " pen") true
  | Food => new_MovableItem Food x (Py.lower (Py.re_sub_non_alnum x)) x true
  | Kitchenware => new_MovableItem Kitchenware x (Py.lower (Py.re_sub_non_alnum x)) x true
  | Phone =>
      new_MovableItem Phone ("phone that belongs to " +:+ x) (Py.lower x +:+ "-phone")
        (x +:+ "'s phone") false
  end.

(** The class-level pool of names each movable class draws from. *)
Definition pool_of (t : MovableType) (c : Classes) : list string :=
  match t with
  | Book => Book_available_titles c
  | Pen => Pen_available_colors c
  | Food => Food_available_foods c
  | Kitchenware => Kitchenware_available_kitchenware c
  | Phone => Phone_available_names c
  end.
Definition with_pool (t : MovableType) (c : Classes) (l : list string) : Classes :=
  {| Book_available_titles := if decide (t = Book) then l else Book_available_titles c;
     Pen_available_colors := if decide (t = Pen) then l else Pen_available_colors c;
     Food_available_foods := if decide (t = Food) then l else Food_available_foods c;
     Kitchenware_available_kitchenware :=
       if decide (t = Kitchenware) then l else Kitchenware_available_kitchenware c;
     Phone_available_names := if decide (t = Phone) then l else Phone_available_names c;
     Bedroom_available_names := Bedroom_available_names c;
     Kitchen_generated := Kitchen_generated c;
     LivingRoom_generated := LivingRoom_generated c |}.
Definition with_bedroom_names (c : Classes) (l : list string) : Classes :=
  {| Book_available_titles := Book_available_titles c;
     Pen_available_colors := Pen_available_colors c;
     Food_available_foods := Food_available_foods c;
     Kitchenware_available_kitchenware := Kitchenware_available_kitchenware c;
     Phone_available_names := Phone_available_names c;
     Bedroom_available_names := l;
     Kitchen_generated := Kitchen_generated c;
     LivingRoom_generated := LivingRoom_generated c |}.
Definition with_generated (c : Classes) (kitchen living_room : bool) : Classes :=
  {| Book_available_titles := Book_available_titles c;
     Pen_available_colors := Pen_available_colors c;
     Food_available_foods := Food_available_foods c;
     Kitchenware_available_kitchenware := Kitchenware_available_kitchenware c;
     Phone_available_names := Phone_available_names c;
     Bedroom_available_names := Bedroom_available_names c;
     Kitchen_generated := kitchen;
     LivingRoom_generated := living_room |}.

(** [pool.pop(random.randrange(len(pool)))], guarded by [len(pool) == 0]. *)
Definition pop_random (pool : list string) : M (option (string * list string)) :=
  match pool with
  | [] => ret None
  | _ =>
      idx <- randrange (length pool) ;;
      match Py.pop_at idx pool with
      | Some r => ret (Some r)
      | None => raise IndexError
      end
  end.

(** A new object on the heap; the result is its address. *)
Definition alloc_movable (it : MovableItem) : M nat :=
  w <- get_world ;;
  put_world (with_movables w (movables w ++ [it])) ;;;
  ret (length (movables w)).
Definition alloc_stationary (x : StationaryItem) : M nat :=
  w <- get_world ;;
  put_world (with_stationaries w (stationaries w ++ [x])) ;;;
  ret (length (stationaries w)).

(** [movable_type.generate_instance()] *)
Definition movable_generate_instance (t : MovableType) : M (option nat) :=
  c <- get_classes ;;
  r <- pop_random (pool_of t c) ;;
  match r with
  | None => ret None
  | Some (x, rest) =>
      put_classes (with_pool t c rest) ;;;
      a <- alloc_movable (new_movable t x) ;;
      ret (Some a)
  end.

(** *** Stationary items and placement *)

(** [StationaryItem.__init__] *)
Definition new_StationaryItem (name : string) (parent : RoomId) (st : StationaryState)
  : StationaryItem :=
  {| s_name := name;
     s_pddl_name := room_pddl_name parent +:+ "-" +:+ Py.lower (Py.re_sub_non_alnum name);
     s_parent := parent; s_state := st |}.

(** [cls.generate_empty(parent)] of the container classes. *)
Definition generate_empty (t : StationaryType) (parent : RoomId) : M nat :=
  match t with
  | Table => alloc_stationary (new_StationaryItem "table" parent IsTable)
  | Shelf =>
      levels <- randint Shelf_MIN_LEVELS Shelf_MAX_LEVELS ;;
      alloc_stationary (new_StationaryItem "shelf" parent (IsShelf levels))
  | Fridge => alloc_stationary (new_StationaryItem "fridge" parent IsFridge)
  | Sink =>
      b <- coin ;;
      alloc_stationary (new_StationaryItem "sink" parent (IsSink b))
  | _ => raise AttributeError
  end.

(** [Container.get_item_list_description] *)
Fixpoint get_item_list_description_from (len i : nat) (item_list : list MovableItem)
  : Res string :=
  match item_list with
  | [] => Ok ""
  | item :: rest =>
      v <~ (match Py.first_in_aeiou (m_name item) with
            | Some v => Ok v
            | None => Raise IndexError
            end) ;;
      let this := "a" +:+ (if v then "n" else "") +:+ " " +:+ m_name item in
      let sep :=
        if bool_decide (len = 2 ∧ i = 0) then " and "
        else (if bool_decide (i + 1 < len ∧ (i + 2 ≠ len ∨ 2 < len)) then ", " else "")
               +:+ (if bool_decide (i + 2 = len) then "and " else "") in
      r <~ get_item_list_description_from len (S i) rest ;;
      Ok (this +:+ sep +:+ r)
  end.
Definition get_item_list_description (item_list : list MovableItem) : Res string :=
  get_item_list_description_from (length item_list) 0 item_list.

(** [Container.get_description] *)
Definition Container_get_description (x : StationaryItem) (items : list MovableItem)
  : Res string :=
  match items with
  | [] => Ok ("The " +:+ s_name x +:+ " is empty. ")
  | _ =>
      d <~ get_item_list_description items ;;
      Ok ("The " +:+ s_name x +:+ " has " +:+ d +:+ ". ")
  end.

(** [item.extra_location_info["level"]] as a key of [items_by_level]. *)
Definition level_key (levels : nat) (item : MovableItem) : Res nat :=
  match m_extra_location_info item !! "level" with
  | Some (VInt k) => if bool_decide (1 <= k <= levels) then Ok k else Raise KeyError
  | _ => Raise KeyError
  end.

Fixpoint items_at_level (levels level : nat) (items : list MovableItem)
  : Res (list MovableItem) :=
  match items with
  | [] => Ok []
  | item :: rest =>
      k <~ level_key levels item ;;
      r <~ items_at_level levels level rest ;;
      Ok (if decide (k = level) then item :: r else r)
  end.

(** [Shelf.get_description] *)
Fixpoint Shelf_level_descriptions (levels : nat) (todo : list nat)
    (items : list MovableItem) : Res string :=
  match todo with
  | [] => Ok ""
  | level :: rest =>
      item_list <~ items_at_level levels level items ;;
      this <~ (match item_list with
               | [] => Ok ""
               | _ =>
                   d <~ get_item_list_description item_list ;;
                   Ok ("The " +:+ integer_to_ordinal level +:+ " level of the shelf has "
                         +:+ d +:+ ". ")
               end) ;;
      r <~ Shelf_level_descriptions levels rest items ;;
      Ok (this +:+ r)
  end.
Definition Shelf_get_description (levels : nat) (items : list MovableItem) : Res string :=
  _ <~ items_at_level levels 0 items ;;
  d <~ Shelf_level_descriptions levels (seq 1 levels) items ;;
  Ok ("The shelf has " +:+ Py.str levels +:+ " levels. " +:+ d).

(** [container.get_description(chosen_items)], with what
    [InteractableContainer.generate_instance] appends for a sink. *)
Definition get_description (x : StationaryItem) (items : list MovableItem) : Res string :=
  match s_state x with
  | IsShelf levels => Shelf_get_description levels items
  | IsSink faucet_on =>
      d <~ Container_get_description x items ;;
      Ok (d +:+ "The sink has a faucet that can be turned on and off. It is currently "
            +:+ on_off faucet_on +:+ ". ")
  | _ => Container_get_description x items
  end.

(** [[item for item in items if cls.can_hold(type(item))]] *)
Fixpoint holdables_of (t : StationaryType) (items : list nat) : M (list nat) :=
  match items with
  | [] => ret []
  | a :: rest =>
      it <- get_movable a ;;
      r <- holdables_of t rest ;;
      ret (if can_hold t (m_type it) then a :: r else r)
  end.

(** The [while] loop of [Container.generate_instance]; [holdables.pop()]
    takes the last element, so the list is given in popping order. *)
Fixpoint choose_items (max_allowed : nat) (popping_order items chosen_items : list nat)
  : Res (list nat * list nat) :=
  match popping_order with
  | [] => Ok (items, chosen_items)
  | item :: rest =>
      if decide (length chosen_items < max_allowed) then
        match Py.remove item items with
        | Some items' => choose_items max_allowed rest items' (chosen_items ++ [item])
        | None => Raise ValueError
        end
      else Ok (items, chosen_items)
  end.

(** [for item in chosen_items: item.container = container; ...] *)
Fixpoint place_chosen (container : nat) (chosen_items : list nat) : M unit :=
  match chosen_items with
  | [] => ret tt
  | a :: rest =>
      item <- get_movable a ;;
      cont <- get_stationary container ;;
      '(loc, extra) <- generate_relative_location cont ;;
      set_movable a (with_location item (Some container) (Some loc) extra) ;;;
      place_chosen container rest
  end.

Fixpoint get_movables (l : list nat) : M (list MovableItem) :=
  match l with
  | [] => ret []
  | a :: rest => it <- get_movable a ;; r <- get_movables rest ;; ret (it :: r)
  end.

(** [Container.generate_instance]; the third component of the result is the
    caller's list [items] after the chosen items were removed from it. *)
Definition Container_generate_instance (t : StationaryType) (parent : RoomId)
    (items : list nat) (max_allowed : nat) : M (nat * string * list nat) :=
  holdables <- holdables_of t items ;;
  holdables <- shuffle holdables ;;
  '(items, chosen_items) <- lift (choose_items max_allowed (rev holdables) items []) ;;
  container <- generate_empty t parent ;;
  place_chosen container chosen_items ;;;
  chosen_items <- shuffle chosen_items ;;
  cont <- get_stationary container ;;
  chosen <- get_movables chosen_items ;;
  d <- lift (get_description cont chosen) ;;
  ret (container, d, items).

(** [item_type.generate_instance(room, items=movable_items, max_allowed=2)]
    for every stationary class. *)
Definition stationary_generate_instance (t : StationaryType) (parent : RoomId)
    (items : list nat) (max_allowed : nat) : M (nat * string * list nat) :=
  match t with
  | Table | Shelf | Fridge | Sink => Container_generate_instance t parent items max_allowed
  | Window =>
      b <- coin ;;
      a <- alloc_stationary (new_StationaryItem "window" parent (IsWindow b)) ;;
      ret (a, "The window has blinds that can open and close. They are currently "
                +:+ (if b then "open" else "closed") +:+ ". ", items)
  | Light =>
      b <- coin ;;
      a <- alloc_stationary (new_StationaryItem "overhead light" parent (IsLight b)) ;;
      ret (a, "The light turns on and off. It is currently " +:+ on_off b +:+ ". ", items)
  | TV =>
      b <- coin ;;
      ch <- random_choice TV_CHANNELS ;;
      a <- alloc_stationary (new_StationaryItem "TV" parent (IsTV b ch)) ;;
      ret (a, if b then "The TV is currently on and is playing " +:+ ch_name ch +:+ ". "
              else "The TV is currently off. ", items)
  end.

(** *** Rooms *)

(** [cls.generate_empty()] of the three room classes. *)
Definition Room_generate_empty (t : RoomType) : M (option RoomId) :=
  c <- get_classes ;;
  match t with
  | Kitchen =>
      if Kitchen_generated c then ret None
      else
        put_classes (with_generated c true (LivingRoom_generated c)) ;;;
        ret (Some {| room_class := Kitchen; room_name := "the kitchen";
                     room_pddl_name := "kitchen" |})
  | LivingRoom =>
      if LivingRoom_generated c then ret None
      else
        put_classes (with_generated c (Kitchen_generated c) true) ;;;
        ret (Some {| room_class := LivingRoom; room_name := "the living room";
                     room_pddl_name := "living-room" |})
  | Bedroom =>
      r <- pop_random (Bedroom_available_names c) ;;
      match r with
      | None => ret None
      | Some (name, rest) =>
          put_classes (with_bedroom_names c rest) ;;;
          ret (Some {| room_class := Bedroom; room_name := name +:+ "'s bedroom";
                       room_pddl_name := Py.lower name +:+ "-bedroom" |})
      end
  end.

(** The second [for item_type in stationary_types] loop of
    [Room.generate_with_description]. *)
Fixpoint generate_stationaries (parent : RoomId) (types : list StationaryType)
    (movable_items : list nat) : M (list nat * list (nat * string) * list nat) :=
  match types with
  | [] => ret ([], [], movable_items)
  | item_type :: rest =>
      if negb (room_can_hold (room_class parent) item_type) then
        generate_stationaries parent rest movable_items
      else
        '(item, description, movable_items) <-
          stationary_generate_instance item_type parent movable_items 2 ;;
        '(items, item_descriptions, movable_items) <-
          generate_stationaries parent rest movable_items ;;
        ret (item :: items, (item, description) :: item_descriptions, movable_items)
  end.

(** The [for i, pair in enumerate(item_descriptions)] loop. *)
Fixpoint room_description_from (room_name : string) (i : nat)
    (item_descriptions : list (nat * string)) : M string :=
  match item_descriptions with
  | [] => ret ""
  | (item, description) :: rest =>
      x <- get_stationary item ;;
      v <- lift (match Py.first_in_aeiou (s_name x) with
                 | Some v => Ok v
                 | None => Raise IndexError
                 end) ;;
      r <- room_description_from room_name (S i) rest ;;
      ret (Py.capitalize room_name +:+ (if decide (i = 0) then "" else " also")
             +:+ " has a" +:+ (if v then "n" else "") +:+ " " +:+ s_name x +:+ ". "
             +:+ description +:+ r)
  end.

(** [cls.generate_with_description(movable_items)]; the second component is
    the caller's list [movable_items] after the placements. *)
Definition Room_generate_with_description (t : RoomType) (movable_items : list nat)
  : M (option (Room * string) * list nat) :=
  r <- Room_generate_empty t ;;
  match r with
  | None => ret (None, movable_items)
  | Some parent =>
      g <- get_globals ;;
      '(items, item_descriptions, movable_items) <-
        generate_stationaries parent (stationary_types g) movable_items ;;
      items <- shuffle items ;;
      item_descriptions <- shuffle item_descriptions ;;
      room_description <- room_description_from (room_name parent) 0 item_descriptions ;;
      ret (Some ({| r_class := room_class parent; r_name := room_name parent;
                    r_pddl_name := room_pddl_name parent; r_items := items |},
                 room_description), movable_items)
  end.

(** *** The generator *)

Definition MAX_ROOMS : nat := 5.
Definition MAX_ITEMS : nat := 20.

(** [while count < MAX_ITEMS / len(movable_types)]: the quotient is a real
    number, so the test is [count * len(movable_types) < MAX_ITEMS]. *)
Fixpoint generate_movables_loop (fuel count : nat) (movable_type : MovableType) : M unit :=
  match fuel with
  | 0 => timeout
  | S fuel' =>
      g <- get_globals ;;
      if decide (count * length (movable_types g) < MAX_ITEMS) then
        item <- movable_generate_instance movable_type ;;
        match item with
        | None => ret tt
        | Some a =>
            w <- get_world ;;
            put_world (with_movable_items w (movable_items w ++ [a])) ;;;
            generate_movables_loop fuel' (S count) movable_type
        end
      else ret tt
  end.

Fixpoint generate_movables (types : list MovableType) : M unit :=
  match types with
  | [] => ret tt
  | movable_type :: rest =>
      generate_movables_loop (S MAX_ITEMS) 0 movable_type ;;;
      generate_movables rest
  end.

(** [while count < MAX_ROOMS / len(room_types)] *)
Fixpoint generate_rooms_loop (fuel count : nat) (room_type : RoomType)
    (remaining_movables : list nat) : M (list nat) :=
  match fuel with
  | 0 => timeout
  | S fuel' =>
      g <- get_globals ;;
      if decide (count * length (room_types g) < MAX_ROOMS) then
        '(pair_, remaining_movables) <-
          Room_generate_with_description room_type remaining_movables ;;
        match pair_ with
        | None => ret remaining_movables
        | Some (room, room_description) =>
            w <- get_world ;;
            put_world (with_description (with_rooms w (rooms w ++ [room]))
                         (description w +:+ room_description +:+ Py.nl +:+ Py.nl)) ;;;
            generate_rooms_loop fuel' (S count) room_type remaining_movables
        end
      else ret remaining_movables
  end.

Fixpoint generate_rooms (types : list RoomType) (remaining_movables : list nat)
  : M (list nat) :=
  match types with
  | [] => ret remaining_movables
  | room_type :: rest =>
      remaining_movables <-
        generate_rooms_loop (S MAX_ROOMS) 0 room_type remaining_movables ;;
      generate_rooms rest remaining_movables
  end.

(** [for item in remaining_movables: self.movable_items.remove(item)] *)
Fixpoint remove_all (remaining_movables : list nat) (movable_items : list nat)
  : Res (list nat) :=
  match remaining_movables with
  | [] => Ok movable_items
  | item :: rest =>
      match Py.remove item movable_items with
      | Some l => remove_all rest l
      | None => Raise ValueError
      end
  end.

(** [DatasetGenerator.__init__], first part: the fields are initialised and
    the pool [self.movable_items] is filled. *)
Definition DatasetGenerator_init_movables : M unit :=
  w <- get_world ;;
  put_world {| movables := movables w; stationaries := stationaries w; rooms := [];
               movable_items := [];
               person := {| p_item := None; p_pddl_name := "me" |};
               description := "" |} ;;;
  g <- get_globals ;;
  generate_movables (movable_types g).

(** [DatasetGenerator.__init__], second part: the rooms are generated, the
    items left in [remaining_movables] are removed from the pool, and the pool
    and the rooms are shuffled. *)
Definition DatasetGenerator_init_rooms : M unit :=
  g <- get_globals ;;
  w <- get_world ;;
  remaining_movables <- generate_rooms (room_types g) (movable_items w) ;;
  w <- get_world ;;
  kept <- lift (remove_all remaining_movables (movable_items w)) ;;
  kept <- shuffle kept ;;
  put_world (with_movable_items w kept) ;;;
  w <- get_world ;;
  shuffled_rooms <- shuffle (rooms w) ;;
  put_world (with_rooms w shuffled_rooms).

(** [DatasetGenerator.__init__] *)
Definition DatasetGenerator_init : M unit :=
  DatasetGenerator_init_movables ;;;
  DatasetGenerator_init_rooms.

(** ** More of the room classes *)

(** [Room.get_holdable_items] *)
Definition get_holdable_items (g : Globals) (t : RoomType) : list StationaryType :=
  List.filter (room_can_hold t) (stationary_types g).

(** [Container.get_holdable_types] *)
Definition get_holdable_types (g : Globals) (t : StationaryType) : list MovableType :=
  List.filter (can_hold t) (movable_types g).

(** ** The domain encoder *)

(** [Predicate] and [Predicate.__str__] *)
Record Predicate := { pred_name : string; pred_parameter_list : list string }.
Definition Predicate_str (p : Predicate) : string :=
  "(" +:+ pred_name p +:+ " " +:+ Py.join " " (pred_parameter_list p) +:+ ")".

(** [Action] and [Action.__str__] *)
Record Action := {
  act_name : string;
  act_parameter_list : list string;
  act_preconditions : list string;
  act_effects : list string
}.
Definition Action_str (a : Action) : string :=
  Py.tab +:+ "(:action " +:+ act_name a +:+ Py.nl
    +:+ Py.tab +:+ Py.tab +:+ ":parameters ("
    +:+ Py.join " " (act_parameter_list a) +:+ ")" +:+ Py.nl
    +:+ Py.tab +:+ Py.tab +:+ ":precondition (and" +:+ Py.nl
    +:+ Py.tab +:+ Py.tab +:+ Py.tab +:+ "("
    +:+ Py.join (")" +:+ Py.nl +:+ Py.tab +:+ Py.tab +:+ Py.tab +:+ "(")
          (act_preconditions a)
    +:+ ")" +:+ Py.nl
    +:+ Py.tab +:+ Py.tab +:+ ")" +:+ Py.nl
    +:+ Py.tab +:+ Py.tab +:+ ":effect (and" +:+ Py.nl
    +:+ Py.tab +:+ Py.tab +:+ Py.tab +:+ "("
    +:+ Py.join (")" +:+ Py.nl +:+ Py.tab +:+ Py.tab +:+ Py.tab +:+ "(") (act_effects a)
    +:+ ")" +:+ Py.nl
    +:+ Py.tab +:+ Py.tab +:+ ")" +:+ Py.nl
    +:+ Py.tab +:+ ")" +:+ Py.nl.

(** The class attributes [CONTAINER_PARAM], [ITEM_PARAM], [PERSON_PARAM] and
    [EXTRA_INFO] of [Container], with the overrides of [Shelf]. *)
Definition CONTAINER_PARAM : string := "?a".
Definition ITEM_PARAM : string := "?b".
Definition Shelf_LEVEL_PARAM : string := "?c".
Definition PERSON_PARAM (t : StationaryType) : string :=
  match t with Shelf => "?d" | _ => "?c" end.
Definition EXTRA_INFO (t : StationaryType) : gmap string Value :=
  match t with
  | Shelf => <["pddl_level" := VStr Shelf_LEVEL_PARAM]> ∅
  | _ => ∅
  end.

(** [Container.get_place_action_name], [Container.get_remove_action_name] *)
Definition get_place_action_name (t : StationaryType) : string :=
  "place-among-" +:+ stationary_type_name t.
Definition get_remove_action_name (t : StationaryType) : string :=
  "remove-from-" +:+ stationary_type_name t.

(** [Container.get_default_parameter_list], with the override of [Shelf]. *)
Definition get_default_parameter_list (g : Globals) (t : StationaryType) : list string :=
  let holdable_types := map movable_type_name (get_holdable_types g t) in
  [CONTAINER_PARAM +:+ " - " +:+ stationary_type_name t;
   ITEM_PARAM +:+ " - (either " +:+ Py.join " " holdable_types +:+ ")"]
  ++ match t with
     | Shelf => [Shelf_LEVEL_PARAM +:+ " - " +:+ Shelf_LEVEL_TYPE]
     | _ => []
     end.

(** [get_special_domain_predicates], [get_special_domain_actions] of [Sink] *)
Definition Sink_get_special_domain_predicates : list Predicate :=
  [{| pred_name := "faucet-on";
      pred_parameter_list := ["?a - " +:+ stationary_type_name Sink] |}].
Definition Sink_get_special_domain_actions : list Action :=
  [{| act_name := "turn-on-faucet";
      act_parameter_list := ["?a - " +:+ stationary_type_name Sink];
      act_preconditions := ["not (faucet-on ?a)"]; act_effects := ["faucet-on ?a"] |};
   {| act_name := "turn-off-faucet";
      act_parameter_list := ["?a - " +:+ stationary_type_name Sink];
      act_preconditions := ["faucet-on ?a"]; act_effects := ["not (faucet-on ?a)"] |}].

(** [get_pddl_domain_predicates] of the stationary classes. *)
Definition stationary_get_pddl_domain_predicates (g : Globals) (t : StationaryType)
  : list Predicate :=
  let contains := {| pred_name := get_contains_predicate_name t;
                     pred_parameter_list := get_default_parameter_list g t |} in
  match t with
  | Table | Fridge => [contains]
  | Shelf =>
      [contains;
       {| pred_name := "shelf-has-level";
          pred_parameter_list := ["?a - " +:+ stationary_type_name Shelf;
                                  "?b - " +:+ Shelf_LEVEL_TYPE] |}]
  | Sink => [contains] ++ Sink_get_special_domain_predicates
  | Window => [{| pred_name := "window-open"; pred_parameter_list := ["?a - window"] |}]
  | Light =>
      [{| pred_name := "light-on";
          pred_parameter_list := ["?a - " +:+ stationary_type_name Light] |}]
  | TV =>
      [{| pred_name := "tv-on"; pred_parameter_list := ["?a - tv"] |};
       {| pred_name := "tv-playing-channel";
          pred_parameter_list := ["?a - tv"; "?b - channel"] |}]
  end.

(** [get_pddl_domain_predicates] of the movable classes. *)
Definition movable_get_pddl_domain_predicates (t : MovableType) : list Predicate :=
  match t with
  | Phone =>
      [{| pred_name := "is-ringing";
          pred_parameter_list := ["?a - " +:+ movable_type_name Phone] |}]
  | _ => []
  end.

(** [Person.get_pddl_domain_predicates] *)
Definition Person_get_pddl_domain_predicates (g : Globals) : list Predicate :=
  [{| pred_name := "in-hand";
      pred_parameter_list :=
        ["?a - " +:+ Person_TYPE_NAME;
         "?b - (either " +:+ Py.join " " (map movable_type_name (movable_types g))
           +:+ ")"] |};
   {| pred_name := "hand-empty"; pred_parameter_list := ["?a - " +:+ Person_TYPE_NAME] |}].

(** [Room.get_pddl_domain_predicates] *)
Definition ROOM_PARAM : string := "?a".
Definition Room_ITEM_PARAM : string := "?b".
Definition Room_get_pddl_domain_predicates (g : Globals) (t : RoomType) : list Predicate :=
  let holdable_types := map stationary_type_name (get_holdable_items g t) in
  [{| pred_name := get_in_room_predicate_name t;
      pred_parameter_list :=
        [ROOM_PARAM +:+ " - " +:+ room_type_name t;
         Room_ITEM_PARAM +:+ " - (either " +:+ Py.join " " holdable_types +:+ ")"] |}].

(** [Container.get_place_action], with what [Shelf.get_place_action] appends
    to the preconditions. *)
Definition get_place_action (g : Globals) (t : StationaryType) : Res Action :=
  let param_list := get_default_parameter_list g t
                    ++ [PERSON_PARAM t +:+ " - " +:+ Person_TYPE_NAME] in
  let in_hand_predicate := get_in_hand_predicate (PERSON_PARAM t) ITEM_PARAM in
  let empty_hand_predicate := get_empty_hand_predicate (PERSON_PARAM t) in
  contains_predicate <~ get_contains_predicate t CONTAINER_PARAM ITEM_PARAM (EXTRA_INFO t) ;;
  let place_preconditions := [in_hand_predicate] in
  let place_effects := ["not (" +:+ in_hand_predicate +:+ ")";
                        empty_hand_predicate; contains_predicate] in
  Ok {| act_name := get_place_action_name t;
        act_parameter_list := param_list;
        act_preconditions :=
          place_preconditions
          ++ match t with
             | Shelf => ["shelf-has-level " +:+ CONTAINER_PARAM +:+ " " +:+ Shelf_LEVEL_PARAM]
             | _ => []
             end;
        act_effects := place_effects |}.

(** [Container.get_remove_action] *)
Definition get_remove_action (g : Globals) (t : StationaryType) : Res Action :=
  let param_list := get_default_parameter_list g t
                    ++ [PERSON_PARAM t +:+ " - " +:+ Person_TYPE_NAME] in
  let in_hand_predicate := get_in_hand_predicate (PERSON_PARAM t) ITEM_PARAM in
  let empty_hand_predicate := get_empty_hand_predicate (PERSON_PARAM t) in
  contains_predicate <~ get_contains_predicate t CONTAINER_PARAM ITEM_PARAM (EXTRA_INFO t) ;;
  let remove_preconditions := [contains_predicate; empty_hand_predicate] in
  let remove_effects := ["not (" +:+ contains_predicate +:+ ")";
                         "not (" +:+ empty_hand_predicate +:+ ")";
                         in_hand_predicate] in
  Ok {| act_name := get_remove_action_name t;
        act_parameter_list := param_list;
        act_preconditions := remove_preconditions;
        act_effects := remove_effects |}.

(** [get_pddl_domain_actions] of the stationary classes. *)
Definition stationary_get_pddl_domain_actions (g : Globals) (t : StationaryType)
  : Res (list Action) :=
  match t with
  | Table | Shelf | Fridge =>
      place <~ get_place_action g t ;;
      remove <~ get_remove_action g t ;;
      Ok [place; remove]
  | Sink =>
      place <~ get_place_action g t ;;
      remove <~ get_remove_action g t ;;
      Ok ([place; remove] ++ Sink_get_special_domain_actions)
  | Window =>
      Ok [{| act_name := "open-window"; act_parameter_list := ["?a - window"];
             act_preconditions := ["not (window-open ?a)"];
             act_effects := ["window-open ?a"] |};
          {| act_name := "close-window"; act_parameter_list := ["?a - window"];
             act_preconditions := ["window-open ?a"];
             act_effects := ["not (window-open ?a)"] |}]
  | Light =>
      Ok [{| act_name := "turn-on-light";
             act_parameter_list := ["?a - " +:+ stationary_type_name Light];
             act_preconditions := ["not (light-on ?a)"];
             act_effects := ["light-on ?a"] |};
          {| act_name := "turn-off-light";
             act_parameter_list := ["?a - " +:+ stationary_type_name Light];
             act_preconditions := ["light-on ?a"];
             act_effects := ["not (light-on ?a)"] |}]
  | TV =>
      Ok [{| act_name := "turn-tv-on"; act_parameter_list := ["?a - tv"; "?b - channel"];
             act_preconditions := ["not (tv-on ?a)"];
             act_effects := ["tv-on ?a"; "tv-playing-channel ?a ?b"] |};
          {| act_name := "turn-tv-off"; act_parameter_list := ["?a - tv"; "?b - channel"];
             act_preconditions := ["tv-on ?a"; "tv-playing-channel ?a ?b"];
             act_effects := ["not (tv-on ?a)"; "not (tv-playing-channel ?a ?b)"] |};
          {| act_name := "switch-tv-channel";
             act_parameter_list := ["?a - tv"; "?b - channel"; "?c - channel"];
             act_preconditions := ["tv-playing-channel ?a ?b"];
             act_effects := ["tv-playing-channel ?a ?c";
                             "not (tv-playing-channel ?a ?b)"] |}]
  end.

(** [get_pddl_domain_actions] of the movable classes. *)
Definition movable_get_pddl_domain_actions (t : MovableType) : list Action :=
  match t with
  | Phone =>
      [{| act_name := "answer-phone";
          act_parameter_list := ["?a - " +:+ movable_type_name Phone];
          act_preconditions := ["is-ringing ?a"];
          act_effects := ["not (is-ringing ?a)"] |}]
  | _ => []
  end.

(** [get_required_types] of the item classes and of the room classes. *)
Definition item_get_required_types (t : MovableType + StationaryType) : list string :=
  match t with
  | inl m => [movable_type_name m]
  | inr Shelf => [stationary_type_name Shelf; Shelf_LEVEL_TYPE]
  | inr TV => [stationary_type_name TV; Channel_TYPE_NAME]
  | inr s => [stationary_type_name s]
  end.
Definition Room_get_required_types (t : RoomType) : list string := [room_type_name t].

(** The three lists that [generate_domain_pddl] builds. *)
Definition item_get_pddl_domain_predicates (g : Globals) (t : MovableType + StationaryType)
  : list Predicate :=
  match t with
  | inl m => movable_get_pddl_domain_predicates m
  | inr s => stationary_get_pddl_domain_predicates g s
  end.
Definition item_get_pddl_domain_actions (g : Globals) (t : MovableType + StationaryType)
  : Res (list Action) :=
  match t with
  | inl m => Ok (movable_get_pddl_domain_actions m)
  | inr s => stationary_get_pddl_domain_actions g s
  end.

Definition domain_predicates (g : Globals) : list Predicate :=
  Person_get_pddl_domain_predicates g
  ++ concat (map (item_get_pddl_domain_predicates g) (item_types g))
  ++ concat (map (Room_get_pddl_domain_predicates g) (room_types g)).

Fixpoint domain_actions_for (g : Globals) (l : list (MovableType + StationaryType))
  : Res (list Action) :=
  match l with
  | [] => Ok []
  | t :: rest =>
      h <~ item_get_pddl_domain_actions g t ;;
      r <~ domain_actions_for g rest ;;
      Ok (h ++ r)
  end.
Definition domain_actions (g : Globals) : Res (list Action) :=
  domain_actions_for g (item_types g).

Definition domain_required_types (g : Globals) : list string :=
  [Person_TYPE_NAME]
  ++ concat (map item_get_required_types (item_types g))
  ++ concat (map Room_get_required_types (room_types g)).

(** [DatasetGenerator.generate_domain_pddl] *)
Definition generate_domain_pddl (g : Globals) : Res string :=
  actions <~ domain_actions g ;;
  let predicates := domain_predicates g in
  let required_types := domain_required_types g in
  let formatted_predicates := map Predicate_str predicates in
  let formatted_actions := map Action_str actions in
  Ok ("(define (domain simulation)" +:+ Py.nl
        +:+ Py.tab +:+ "(:requirements :typing :negative-preconditions)" +:+ Py.nl
        +:+ Py.tab +:+ "(:types" +:+ Py.nl
        +:+ Py.tab +:+ Py.tab +:+ Py.join (Py.nl +:+ Py.tab +:+ Py.tab) required_types
        +:+ Py.nl
        +:+ Py.tab +:+ ")" +:+ Py.nl
        +:+ Py.tab +:+ "(:predicates" +:+ Py.nl
        +:+ Py.tab +:+ Py.tab
        +:+ Py.join (Py.nl +:+ Py.tab +:+ Py.tab) formatted_predicates +:+ Py.nl
        +:+ Py.tab +:+ ")" +:+ Py.nl +:+ Py.nl
        +:+ Py.join Py.nl formatted_actions
        +:+ ")" +:+ Py.nl).

(** ** Queries *)

(** The stationary classes that inherit [Queryable]: [Sink] through
    [InteractableContainer], and [Window], [Light] and [TV] through
    [StationaryInteractable]. *)
Definition is_queryable (t : StationaryType) : bool :=
  match t with
  | Sink | Window | Light | TV => true
  | Table | Shelf | Fridge => false
  end.

(** [Room.queryable_items]: [add_item] appends an item to [items] and, when it
    is [Queryable], to [queryable_items], and nothing else writes to either
    list; the second list is read here off the first. *)
Fixpoint queryables_of (w : World) (items : list nat) : Res (list nat) :=
  match items with
  | [] => Ok []
  | a :: rest =>
      x <~ deref (stationaries w) a ;;
      r <~ queryables_of w rest ;;
      Ok (if is_queryable (s_type x) then a :: r else r)
  end.

(** [generate_query_answer] of [Sink], [Window], [Light] and [TV]; the other
    stationary classes have no such method. *)
Definition stationary_generate_query_answer (x : StationaryItem) : Res (string * string) :=
  match s_state x with
  | IsSink faucet_on =>
      Ok ("Is the faucet of the " +:+ get_full_name_with_room x +:+ " on or off?",
          "The faucet is " +:+ on_off faucet_on +:+ ".")
  | IsWindow open =>
      Ok ("Are the blinds of the " +:+ get_full_name_with_room x +:+ " open or closed?",
          "The window blinds are " +:+ (if open then "open" else "closed") +:+ ".")
  | IsLight on =>
      Ok ("Is the " +:+ get_full_name_with_room x +:+ " on or off?",
          "The light is " +:+ on_off on +:+ ".")
  | IsTV on curr_channel =>
      Ok ("Is the TV in " +:+ room_name (s_parent x)
            +:+ " on or off? If it's on, what channel is it playing?",
          "The TV is " +:+ on_off on
            +:+ (if on then " and is playing " +:+ ch_name curr_channel else "") +:+ ".")
  | IsTable | IsShelf _ | IsFridge => Raise AttributeError
  end.

(** [MovableItem.generate_query_answer] *)
Definition MovableItem_generate_query_answer (w : World) (it : MovableItem)
  : Res (string * string) :=
  let query := "Where is the " +:+ m_shortened_name it +:+ "?" in
  match m_container it with
  | None => Ok (query, "You are holding the " +:+ m_shortened_name it +:+ ".")
  | Some c =>
      cont <~ deref (stationaries w) c ;;
      Ok (query, "The " +:+ m_shortened_name it +:+ " is " +:+ fmt (m_relative_location it)
                   +:+ " the " +:+ get_full_name_with_room cont +:+ ".")
  end.

(** [Phone.generate_interactable_qa] *)
Definition Phone_generate_interactable_qa (it : MovableItem) : string * string :=
  ("Is " +:+ m_shortened_name it +:+ " ringing?", if m_ringing it then "Yes." else "No.").

(** [item.generate_query_answer()] on a movable item: the method of
    [MovableInteractable] for a phone, of [MovableItem] for the others. *)
Definition movable_generate_query_answer (self : nat) : M (string * string) :=
  it <- get_movable self ;;
  w <- get_world ;;
  match m_type it with
  | Phone =>
      b <- coin ;;
      if b then ret (Phone_generate_interactable_qa it)
      else lift (MovableItem_generate_query_answer w it)
  | _ => lift (MovableItem_generate_query_answer w it)
  end.

(** [Room.generate_query_answer] *)
Definition Room_generate_query_answer (self : Room) : M (string * string) :=
  w <- get_world ;;
  queryable_items <- lift (queryables_of w (r_items self)) ;;
  a <- random_choice queryable_items ;;
  x <- get_stationary a ;;
  lift (stationary_generate_query_answer x).

(** [DatasetGenerator.generate_query_answer] *)
Definition DatasetGenerator_generate_query_answer : M (string * string) :=
  b <- coin ;;
  w <- get_world ;;
  if b then
    i <- random_choice (movable_items w) ;;
    movable_generate_query_answer i
  else
    r <- random_choice (rooms w) ;;
    Room_generate_query_answer r.

(** * Specification

    The notions the properties of the program are stated with. *)

(** ** Predicates of the [:init] list *)

Definition light_on_predicate (x : StationaryItem) : string :=
  "light-on " +:+ s_pddl_name x.


(** ** Sample data for the examples *)

Definition sample_classes : Classes :=
  {| Book_available_titles := ["Dune"; "Emma"];
     Pen_available_colors := ["red"; "blue"];
     Food_available_foods := ["apple"; "bread"; "cheese"];
     Kitchenware_available_kitchenware := ["plate"; "bowl"; "fork"; "spoon"; "knife"];
     Phone_available_names := ["Alice"; "Bob"];
     Bedroom_available_names := ["Alice"; "Bob"];
     Kitchen_generated := false; LivingRoom_generated := false |}.

Definition sample_globals : Globals :=
  {| item_types := [inl Book; inl Pen; inl Food; inl Kitchenware; inl Phone;
                    inr Table; inr Shelf; inr Fridge; inr Sink; inr Window;
                    inr Light; inr TV];
     movable_types := [Book; Pen; Food; Kitchenware; Phone];
     stationary_types := [Table; Shelf; Fridge; Sink; Window; Light; TV];
     room_types := [Kitchen; LivingRoom; Bedroom] |}.

Definition empty_world : World :=
  {| movables := []; stationaries := []; rooms := []; movable_items := [];
     person := {| p_item := None; p_pddl_name := "me" |}; description := "" |}.

Definition sample_state (r : nat -> nat) (w : World) : State :=
  {| rand := r; cursor := 0; classes := sample_classes; globals := sample_globals;
     world := w |}.

Definition the_kitchen : RoomId :=
  {| room_class := Kitchen; room_name := "the kitchen"; room_pddl_name := "kitchen" |}.
Definition the_living_room : RoomId :=
  {| room_class := LivingRoom; room_name := "the living room";
     room_pddl_name := "living-room" |}.

Definition sample_light : StationaryItem :=
  new_StationaryItem "overhead light" the_kitchen (IsLight true).

(** ** One state-mutating action *)

(** What [generate_relative_location] of a container can return. *)
Inductive relative_location_of (x : StationaryItem) : string -> gmap string Value -> Prop :=
| loc_table : s_state x = IsTable -> relative_location_of x "on" ∅
| loc_shelf levels level :
    s_state x = IsShelf levels -> 1 <= level <= levels ->
    relative_location_of x ("on the " +:+ integer_to_ordinal level +:+ " level of")
      (<["level" := VInt level]> (<["pddl_level" := VStr (get_level_name level)]> ∅))
| loc_fridge : s_state x = IsFridge -> relative_location_of x "inside" ∅
| loc_sink faucet_on : s_state x = IsSink faucet_on -> relative_location_of x "in" ∅.

(** The world after the person put the held item [i] into container [a]. *)
Definition place_effect (w : World) (a i : nat) (item : MovableItem)
    (loc : string) (extra : gmap string Value) : World :=
  with_movables (with_person w (with_item (person w) None))
    (<[i := with_location item (Some a) (Some loc) extra]> (movables w)).

(** The world after the person picked up item [i]. *)
Definition pick_up_effect (w : World) (i : nat) (it : MovableItem) : World :=
  with_movables (with_person w (with_item (person w) (Some i)))
    (<[i := with_location it None None (m_extra_location_info it)]> (movables w)).

(** The world after the stationary item [a] changed its own state. *)
Definition state_effect (w : World) (a : nat) (x : StationaryItem)
    (st : StationaryState) : World :=
  with_stationaries w (<[a := with_state x st]> (stationaries w)).

(** The world after phone [i] started or stopped ringing. *)
Definition ring_effect (w : World) (i : nat) (it : MovableItem) : World :=
  with_movables w (<[i := with_ringing it (negb (m_ringing it))]> (movables w)).

(** The state changes an interactable stationary item makes to itself. *)
Inductive toggles : StationaryState -> StationaryState -> Prop :=
| toggle_faucet b : toggles (IsSink b) (IsSink (negb b))
| toggle_blinds b : toggles (IsWindow b) (IsWindow (negb b))
| toggle_light b : toggles (IsLight b) (IsLight (negb b))
| tv_switch ch ch' : ch' ∈ TV_CHANNELS -> toggles (IsTV true ch) (IsTV true ch')
| tv_off ch : toggles (IsTV true ch) (IsTV false ch)
| tv_on ch ch' : ch' ∈ TV_CHANNELS -> toggles (IsTV false ch) (IsTV true ch').

(** One action of the stationary item at address [a]. *)
Inductive stationary_acts (w : World) (a : nat) : World -> Prop :=
| act_place x i item loc extra :
    stationaries w !! a = Some x ->
    p_item (person w) = Some i ->
    movables w !! i = Some item ->
    can_hold (s_type x) (m_type item) = true ->
    relative_location_of x loc extra ->
    stationary_acts w a (place_effect w a i item loc extra)
| act_toggle x st :
    stationaries w !! a = Some x ->
    toggles (s_state x) st ->
    stationary_acts w a (state_effect w a x st).

(** One action of the movable item at address [i]. *)
Inductive movable_acts (w : World) (i : nat) : World -> Prop :=
| act_pick_up it c cont :
    p_item (person w) = None ->
    movables w !! i = Some it ->
    m_container it = Some c ->
    stationaries w !! c = Some cont ->
    movable_acts w i (pick_up_effect w i it)
| act_ring it :
    movables w !! i = Some it ->
    m_type it = Phone ->
    movable_acts w i (ring_effect w i it).

(** One action of one candidate of the two pools of [generate_state_change]. *)
Definition one_action (w w' : World) : Prop :=
  (exists r a, r ∈ rooms w /\ a ∈ r_items r /\ stationary_acts w a w')
  \/ (exists i, i ∈ movable_items w /\ movable_acts w i w').

(** ** Invariants *)

(** Every item of the pool is in the person's hand exactly when it has no
    container. *)
Definition ownership (w : World) : Prop :=
  forall i, i ∈ movable_items w ->
    exists it, movables w !! i = Some it
               /\ (m_container it = None <-> p_item (person w) = Some i).

Definition stationary_ok (x : StationaryItem) : Prop :=
  match s_state x with
  | IsShelf levels => Shelf_MIN_LEVELS <= levels <= Shelf_MAX_LEVELS
  | IsTV _ ch => ch ∈ TV_CHANNELS
  | _ => True
  end.

(** The placement metadata an item needs inside container [x]. *)
Definition location_ok (x : StationaryItem) (it : MovableItem) : Prop :=
  match s_state x with
  | IsShelf levels =>
      exists level, 1 <= level <= levels
        /\ m_extra_location_info it !! "level" = Some (VInt level)
        /\ m_extra_location_info it !! "pddl_level" = Some (VStr (get_level_name level))
  | _ => True
  end.

(** Item [it] lies in the container at address [c]. *)
Definition placed (w : World) (it : MovableItem) (c : nat) : Prop :=
  exists x, stationaries w !! c = Some x
            /\ can_hold (s_type x) (m_type it) = true
            /\ location_ok x it
            /\ exists r, r ∈ rooms w /\ c ∈ r_items r.

Record Inv (w : World) : Prop := {
  inv_own : ownership w;
  inv_hand : forall i, p_item (person w) = Some i -> i ∈ movable_items w;
  inv_placed : forall i it c,
      i ∈ movable_items w -> movables w !! i = Some it -> m_container it = Some c ->
      placed w it c;
  inv_rooms : forall r a, r ∈ rooms w -> a ∈ r_items r ->
      exists x, stationaries w !! a = Some x /\ s_parent x = room_id r /\ stationary_ok x
}.

(** ** Eligibility *)

(** Whether the person holds an item that container [x] accepts. *)
Definition can_place (w : World) (x : StationaryItem) : bool :=
  match p_item (person w) with
  | Some i =>
      match movables w !! i with
      | Some item => can_hold (s_type x) (m_type item)
      | None => false
      end
  | None => false
  end.

(** Whether [perform_action] of a candidate returns a narration in [w]. *)
Definition stationary_can_act (w : World) (a : nat) : bool :=
  match stationaries w !! a with
  | Some x =>
      match s_state x with
      | IsTable | IsShelf _ | IsFridge => can_place w x
      | _ => true
      end
  | None => false
  end.

Definition room_can_act (w : World) (r : Room) : bool :=
  existsb (stationary_can_act w) (r_items r).

Definition movable_can_act (w : World) (i : nat) : bool :=
  match movables w !! i with
  | Some it =>
      match m_type it with
      | Phone => true
      | _ => match p_item (person w) with None => true | Some _ => false end
      end
  | None => false
  end.

Definition world_can_act (w : World) : bool :=
  existsb (room_can_act w) (rooms w) || existsb (movable_can_act w) (movable_items w).

(** The coin of the random source comes up [True] again and again. *)
Definition fair (r : nat -> nat) : Prop :=
  forall n, exists k, r (n + k) mod 2 = 0.

(** [f] returns [r] from state [s] whenever it is given enough fuel. *)
Definition converges {A} (f : nat -> M A) (s : State) (r : Res (A * State)) : Prop :=
  exists n0, forall fuel, n0 <= fuel -> f fuel s = r.

(** The addresses of [l] name stationary items of the expected shape. *)
Definition items_valid (w : World) (l : list nat) : Prop :=
  forall a, a ∈ l -> exists x, stationaries w !! a = Some x /\ stationary_ok x.

(** Whether some candidate left in the two local pools can act. *)
Definition pools_can_act (w : World) (rs : list Room) (ms : list nat) : bool :=
  existsb (room_can_act w) rs || existsb (movable_can_act w) ms.

(** The two halves of one iteration of the loop of [generate_state_change]:
    the room candidate, taken when the coin [b] says so, and the movable
    candidate. *)
Definition room_phase (fuel' : nat) (b : bool) (usable_rooms : list Room)
  : M (list Room * option string) :=
  if b then
    k <- randrange (length usable_rooms) ;;
    match Py.pop_at k usable_rooms with
    | None => raise IndexError
    | Some (room, rest) =>
        action <- Room_perform_action fuel' room ;;
        ret (rest, action)
    end
  else ret (usable_rooms, None).

Definition movable_phase (fuel' : nat) (usable_rooms : list Room)
    (usable_movables : list nat) : M (string * list Room * list nat) :=
  match usable_movables with
  | [] => generate_state_change_loop fuel' usable_rooms usable_movables
  | _ =>
      k <- randrange (length usable_movables) ;;
      match Py.pop_at k usable_movables with
      | None => raise IndexError
      | Some (item, rest) =>
          action <- movable_perform_action fuel' item ;;
          match action with
          | Some a => ret (a, usable_rooms, rest)
          | None => generate_state_change_loop fuel' usable_rooms rest
          end
      end
  end.

(** With enough fuel, [f] returns a result when [can] holds and raises
    [AssertionError] when it does not. *)
Definition outcome {A} (f : nat -> M A) (s : State) (can : bool) : Prop :=
  if can then exists r s', converges f s (Ok (r, s'))
  else converges f s (Raise AssertionError).

(** What the loop of [generate_state_change] relies on: a well-formed world,
    local pools drawn from the generator's pools, a fair coin. *)
Definition loop_pre (rs : list Room) (ms : list nat) (s : State) : Prop :=
  Inv (world s)
  /\ (forall r, r ∈ rs -> r ∈ rooms (world s))
  /\ (forall i, i ∈ ms -> i ∈ movable_items (world s))
  /\ fair (rand s).

(** The loop settles for all pools of at most [m] candidates. *)
Definition loop_outcome (m : nat) : Prop :=
  forall rs ms s, length rs + length ms <= m -> loop_pre rs ms s ->
    outcome (fun fuel => generate_state_change_loop fuel rs ms) s
            (pools_can_act (world s) rs ms).

(** ** World generation *)

(** The heap of movable items after the chosen items were put into
    container [c], whose record is [x]. *)
Definition placed_into (x : StationaryItem) (c : nat)
    (chosen : list nat) (before after : list MovableItem) : Prop :=
  length after = length before
  /\ (forall i, i ∈ chosen ->
        exists it it', before !! i = Some it /\ after !! i = Some it'
                       /\ m_container it' = Some c
                       /\ m_type it' = m_type it
                       /\ m_pddl_name it' = m_pddl_name it
                       /\ location_ok x it')
  /\ (forall i, i ∉ chosen -> after !! i = before !! i).

(** The container of the movable item at address [i], if it has one. *)
Definition item_container (w : World) (i : nat) : option nat :=
  match movables w !! i with
  | Some it => m_container it
  | None => None
  end.

(** The items of the pool that lie in the container at address [c]. *)
Definition contents (w : World) (c : nat) : list nat :=
  filter (fun i => item_container w i = Some c) (movable_items w).

(** No container holds more than [cap] items of the pool. *)
Definition capped (cap : nat) (w : World) : Prop :=
  forall c, length (contents w c) <= cap.

(** The stationary item at address [c] belongs to a room of the generator. *)
Definition in_rooms (w : World) (c : nat) : Prop :=
  exists r, r ∈ rooms w /\ c ∈ r_items r.

(** The invariant of room generation: [remaining] are the movable items not
    placed yet, [pending] the stationary items built for the room under
    construction, whose identity is [parent]. *)
Record GInv (w : World) (remaining pending : list nat) (parent : RoomId) : Prop := {
  g_hand : p_item (person w) = None;
  g_pool_nodup : NoDup (movable_items w);
  g_rem_nodup : NoDup remaining;
  g_rem_sub : forall i, i ∈ remaining -> i ∈ movable_items w;
  g_unplaced : forall i, i ∈ remaining ->
      exists it, movables w !! i = Some it /\ m_container it = None;
  g_placed : forall i, i ∈ movable_items w -> i ∉ remaining ->
      exists it c x,
        movables w !! i = Some it /\ m_container it = Some c
        /\ stationaries w !! c = Some x
        /\ can_hold (s_type x) (m_type it) = true /\ location_ok x it
        /\ (c ∈ pending \/ in_rooms w c);
  g_rooms : forall r a, r ∈ rooms w -> a ∈ r_items r ->
      exists x, stationaries w !! a = Some x /\ s_parent x = room_id r /\ stationary_ok x;
  g_pending : forall a, a ∈ pending ->
      exists x, stationaries w !! a = Some x /\ s_parent x = parent /\ stationary_ok x;
  g_cap : capped 2 w
}.

(** The stream and the type lists are the same in [s] and [s']. *)
Definition same_globals (s s' : State) : Prop :=
  rand s' = rand s /\ globals s' = globals s.

(** The part of the state that only generation touches, and the stream. *)
Definition same_env (s s' : State) : Prop :=
  rand s' = rand s /\ classes s' = classes s /\ globals s' = globals s.

(** The two pools of the generator are the same in [w] and [w']. *)
Definition same_pools (w w' : World) : Prop :=
  rooms w' = rooms w /\ movable_items w' = movable_items w.

(** The invariant of the first part of generation: no room yet, and every
    item of the pool is a fresh, unplaced object. *)
Record MInv (w : World) : Prop := {
  mi_hand : p_item (person w) = None;
  mi_rooms : rooms w = [];
  mi_nodup : NoDup (movable_items w);
  mi_fresh : forall i, i ∈ movable_items w ->
      i < length (movables w)
      /\ exists it, movables w !! i = Some it /\ m_container it = None
}.

(** The states of a run: the world that [DatasetGenerator.__init__] builds
    from [s0], and every state that [generate_state_change] leads to. *)
Inductive reachable (s0 : State) : State -> Prop :=
| reach_init u s : DatasetGenerator_init s0 = Ok (u, s) -> reachable s0 s
| reach_step s fuel narration s' :
    reachable s0 s -> generate_state_change fuel s = Ok (narration, s') ->
    reachable s0 s'.

(** ** The two states of a movable item *)

Definition held_by_person (w : World) (i : nat) (it : MovableItem) : Prop :=
  m_container it = None /\ p_item (person w) = Some i.

Definition inside_container (w : World) (i : nat) (it : MovableItem) : Prop :=
  p_item (person w) <> Some i
  /\ exists c x, m_container it = Some c
                 /\ stationaries w !! c = Some x
                 /\ is_container (s_type x) = true
                 /\ can_hold (s_type x) (m_type it) = true.

(** ** A sample run *)

Definition sample_initial : State := sample_state (fun n => n) empty_world.

Definition sample_generated : State :=
  match DatasetGenerator_init sample_initial with
  | Ok (_, s) => s
  | _ => sample_initial
  end.

Definition sample_after_change : State :=
  match generate_state_change 5 sample_generated with
  | Ok (_, s) => s
  | _ => sample_generated
  end.


(** The state of the sample run after the first part of [__init__], and the
    shelf that [Container.generate_instance] builds from it for the living
    room. *)
Definition sample_pooled : State :=
  match DatasetGenerator_init_movables sample_initial with
  | Ok (_, s) => s
  | _ => sample_initial
  end.

Definition sample_shelf_call : Res (nat * string * list nat * State) :=
  Container_generate_instance Shelf the_living_room
    (movable_items (world sample_pooled)) 2 sample_pooled.

Definition sample_shelf : nat * string * list nat * State :=
  match sample_shelf_call with
  | Ok r => r
  | _ => (0, "", [], sample_pooled)
  end.








(** ** Symbols of the problem text *)

(** A name that can stand as one symbol of the problem text. *)
Fixpoint no_space (s : string) : bool :=
  match s with
  | EmptyString => true
  | String c r => negb (Ascii.eqb c " "%char) && no_space r
  end.

(** The pieces of a line between its spaces. *)
Fixpoint split_space (s : string) : list string :=
  match s with
  | EmptyString => [EmptyString]
  | String c r =>
      if Ascii.eqb c " "%char then EmptyString :: split_space r
      else match split_space r with
           | w :: ws => String c w :: ws
           | [] => [String c EmptyString]
           end
  end.

(** The words of a line: its pieces that are not empty. *)
Definition words (s : string) : list string :=
  List.filter (fun w => negb (String.eqb w EmptyString)) (split_space s).





(** A [contains] predicate of some container class. *)
Definition is_contains_predicate (c : string) : bool :=
  existsb (fun t => String.prefix (get_contains_predicate_name t +:+ " ") c)
          [Table; Shelf; Fridge; Sink].

(** A [contains] predicate whose item argument is the symbol [sym]. *)
Definition contains_item (sym c : string) : bool :=
  is_contains_predicate c
  && match split_space c with
     | _ :: _ :: x :: _ => String.eqb x sym
     | _ => false
     end.

Definition is_hand_empty (c : string) : bool := String.prefix "hand-empty " c.

(** The names of the world are single words: the person's, the rooms',
    those of the stationary items of the rooms and of the movable items of
    the pool. *)
Definition stationary_name_ok (w : World) (a : nat) : bool :=
  match stationaries w !! a with
  | Some x => no_space (s_pddl_name x)
  | None => true
  end.

Definition room_names_ok (w : World) (r : Room) : bool :=
  no_space (r_pddl_name r) && forallb (stationary_name_ok w) (r_items r).

Definition movable_name (w : World) (i : nat) : string :=
  match movables w !! i with
  | Some it => m_pddl_name it
  | None => EmptyString
  end.

Definition names_ok (w : World) : bool :=
  no_space (p_pddl_name (person w))
  && forallb (room_names_ok w) (rooms w)
  && forallb (fun i => no_space (movable_name w i)) (movable_items w).

(** No two items of the pool share a name. *)
Definition names_distinct (w : World) : Prop :=
  NoDup (map (movable_name w) (movable_items w)).

(** The record at address 1 of the sample run. *)
Definition sample_item : MovableItem :=
  match movables (world sample_generated) !! 1 with
  | Some it => it
  | None => new_MovableItem Book "" "" "" true
  end.

(** ** The furniture of a room *)

(** The class of the stationary item at address [a]. *)
Definition stationary_type_at (w : World) (a : nat) : option StationaryType :=
  s_type <$> stationaries w !! a.

(** Room [r] holds one item of each stationary class that its class can
    hold, and nothing else. *)
Definition furnished (g : Globals) (w : World) (r : Room) : Prop :=
  stationary_type_at w <$> r_items r ≡ₚ Some <$> get_holdable_items g (r_class r).

(** The heap of stationary items of [w'] extends the one of [w]. *)
Definition grows (w w' : World) : Prop :=
  exists new, stationaries w' = stationaries w ++ new.

(** Every room of the generator is furnished. *)
Definition all_furnished (s : State) : Prop :=
  forall r, r ∈ rooms (world s) -> furnished (globals s) (world s) r.

(** A room of the sample run. *)
Definition sample_room : Room :=
  match rooms (world sample_generated) with
  | r :: _ => r
  | [] => {| r_class := Kitchen; r_name := ""; r_pddl_name := ""; r_items := [] |}
  end.

(** ** Rooms that exist once *)

(** The class-level flag [generated] of the room classes that have one. *)
Definition generated_flag (t : RoomType) (c : Classes) : bool :=
  match t with
  | Kitchen => Kitchen_generated c
  | LivingRoom => LivingRoom_generated c
  | Bedroom => false
  end.

(** The number of rooms of class [t]. *)
Definition count_rooms (t : RoomType) (l : list Room) : nat :=
  length (List.filter (fun r => bool_decide (r_class r = t)) l).

(** While the flag of [t] is down the generator has no room of class [t],
    and it never has more than one. *)
Definition once (t : RoomType) (s : State) : Prop :=
  (generated_flag t (classes s) = false -> count_rooms t (rooms (world s)) = 0)
  /\ count_rooms t (rooms (world s)) <= 1.

(** ** The domain and the problem *)

(** The predicate a line of [:init] instantiates, and the number of its
    arguments: its first piece, and the number of the others. *)
Definition predicate_name (c : string) : string := hd EmptyString (split_space c).
Definition line_arity (c : string) : nat := length (tail (split_space c)).

(** The type that a line [symbol - type] of [:objects] gives. *)
Definition object_type (o : string) : string := List.last (words o) EmptyString.

(** The lists of classes hold every class of the program. *)
Definition registry_complete (g : Globals) : Prop :=
  (forall t, t ∈ item_types g) /\ (forall t, t ∈ room_types g).

(** A run of [n] calls of [generate_state_change]; a call that fails leaves
    the state as it is. *)
Fixpoint run (n : nat) (s : State) : State :=
  match n with
  | 0 => s
  | S n' =>
      match generate_state_change 20 (run n' s) with
      | Ok (_, s') => s'
      | _ => run n' s
      end
  end.

(** The sample run after the person picked up the red pen, and after
    Alice's phone started ringing. *)
Definition sample_holding : State := run 2 sample_generated.
Definition sample_ringing : State := run 3 sample_generated.

(** The predicate names that the problem encoder writes. *)
Definition init_predicate_names : list string :=
  ["hand-empty"; "in-hand"; "phone-ringing"; "shelf-has-level"; "faucet-on";
   "window-open"; "light-on"; "tv-on"; "tv-playing-channel"]
  ++ map get_in_room_predicate_name [Kitchen; LivingRoom; Bedroom]
  ++ map get_contains_predicate_name [Table; Shelf; Fridge; Sink].

(** The [:init] of two states of the sample run. *)
Definition sample_init : list string :=
  match problem_init (world sample_generated) with
  | Ok l => l
  | _ => []
  end.
Definition sample_ringing_init : list string :=
  match problem_init (world sample_ringing) with
  | Ok l => l
  | _ => []
  end.
Definition sample_objects : list string :=
  match problem_objects (globals sample_generated) (world sample_generated) with
  | Ok l => l
  | _ => []
  end.

(** The negation of a literal, as the actions of the domain write it. *)
Definition negate (l : string) : string := "not (" +:+ l +:+ ")".

(** Action [b] reverses every effect of action [a]. *)
Definition undoes (a b : Action) : Prop :=
  forall l, l ∈ act_effects a ->
    negate l ∈ act_effects b \/ exists l', l = negate l' /\ l' ∈ act_effects b.

(** ** The literals of an action *)

(** The tokens of a literal: its words once every parenthesis is read as a
    space. *)
Fixpoint strip_parens (s : string) : string :=
  match s with
  | EmptyString => EmptyString
  | String c r =>
      String (if (Ascii.eqb c "(" || Ascii.eqb c ")")%bool then " "%char else c)
             (strip_parens r)
  end.
Definition tokens (l : string) : list string := words (strip_parens l).

(** The variables of a literal, and the predicate it applies: its first token
    other than [not]. *)
Definition is_variable (t : string) : bool := String.prefix "?" t.
Definition literal_variables (l : string) : list string :=
  List.filter is_variable (tokens l).
Definition literal_predicate (l : string) : string :=
  hd EmptyString (List.filter (fun t => negb (String.eqb t "not")) (tokens l)).

(** The literals of an action, the variables they use and the variables that
    its parameters declare. *)
Definition action_literals (a : Action) : list string :=
  act_preconditions a ++ act_effects a.
Definition parameter_variable (p : string) : string := hd EmptyString (split_space p).
Definition declared_variables (a : Action) : list string :=
  map parameter_variable (act_parameter_list a).

(** The actions of the domain of the sample run, and the first of them. *)
Definition sample_actions : list Action :=
  match domain_actions sample_globals with
  | Ok l => l
  | _ => []
  end.
Definition sample_action : Action :=
  match sample_actions with
  | a :: _ => a
  | [] => {| act_name := EmptyString; act_parameter_list := [];
             act_preconditions := []; act_effects := [] |}
  end.

(** ** Placing and toggling *)

(** The living room of the sample run, its table, and the pen that the
    person holds after the second action. *)
Definition sample_living_room : Room :=
  match rooms (world sample_holding) !! 1 with
  | Some r => r
  | None => sample_room
  end.
Definition sample_table : StationaryItem :=
  match stationaries (world sample_holding) !! 3 with
  | Some x => x
  | None => {| s_name := EmptyString; s_pddl_name := EmptyString;
               s_parent := {| room_class := Kitchen; room_name := EmptyString;
                              room_pddl_name := EmptyString |};
               s_state := IsTable |}
  end.
Definition sample_pen : MovableItem :=
  match movables (world sample_holding) !! 2 with
  | Some it => it
  | None => new_MovableItem Pen EmptyString EmptyString EmptyString true
  end.

(** The shelf of the living room of the sample run, and the [:init] of the
    problem when the person holds the pen. *)
Definition sample_living_room_shelf : StationaryItem :=
  match stationaries (world sample_holding) !! 4 with
  | Some x => x
  | None => sample_table
  end.
Definition sample_holding_init : list string :=
  match problem_init (world sample_holding) with
  | Ok l => l
  | _ => []
  end.

(** The blue pen of the sample run, which lies on the table of the living
    room. *)
Definition sample_blue_pen : MovableItem :=
  match movables (world sample_generated) !! 3 with
  | Some it => it
  | None => new_MovableItem Pen EmptyString EmptyString EmptyString true
  end.

(** ** Descriptions *)

(** A name with its indefinite article; only a lower-case vowel gives
    [an]. *)
Definition starts_with_vowel (name : string) : bool :=
  match name with
  | String c _ => bool_decide (c ∈ ["a"; "e"; "i"; "o"; "u"]%char)
  | EmptyString => false
  end.
Definition with_article (name : string) : string :=
  (if starts_with_vowel name then "an " else "a ") +:+ name.

(** An enumeration in English: [x], [x and y], [x, y, and z]. *)
Fixpoint enumeration (l : list string) : string :=
  match l with
  | [] => EmptyString
  | x :: r =>
      match r with
      | [] => x
      | [y] => x +:+ ", and " +:+ y
      | _ => x +:+ ", " +:+ enumeration r
      end
  end.
Definition item_list_text (l : list string) : string :=
  match l with
  | [x; y] => x +:+ " and " +:+ y
  | _ => enumeration l
  end.

(** ** Names in use and names available *)

Definition all_movable_types : list MovableType := [Book; Pen; Food; Kitchenware; Phone].

(** The name of the object that class [t] builds from the entry [x] of its
    pool. *)
Definition pddl_name_of (t : MovableType) (x : string) : string :=
  m_pddl_name (new_movable t x).

(** The names that the pools of the movable classes can still give. *)
Definition available_names (c : Classes) : list string :=
  concat (map (fun t => map (pddl_name_of t) (pool_of t c)) all_movable_types).

(** The names of the items of the pool of the generator. *)
Definition used_names (w : World) : list string :=
  map (movable_name w) (movable_items w).

(** The names of the rooms. *)
Definition room_names (w : World) : list string := map r_pddl_name (rooms w).

(** The names that the room classes can still give: the kitchen and the
    living room while they are not generated, and the bedrooms of the names
    left. *)
Definition available_room_names (c : Classes) : list string :=
  (if Kitchen_generated c then [] else ["kitchen"])
  ++ (if LivingRoom_generated c then [] else ["living-room"])
  ++ map (fun name => Py.lower name +:+ "-bedroom") (Bedroom_available_names c).

(** The name of a stationary item is the name of its room, a dash and its
    own name in lower case, with a dash for every run of other characters. *)
Definition well_named (x : StationaryItem) : Prop :=
  s_pddl_name x
  = room_pddl_name (s_parent x) +:+ "-" +:+ Py.lower (Py.re_sub_non_alnum (s_name x)).

Definition rooms_well_named (w : World) : Prop :=
  forall r a, r ∈ rooms w -> a ∈ r_items r ->
    exists x, stationaries w !! a = Some x /\ well_named x.

(** The entries of the pools that go into a name as they are: the colours of
    the pens and the names of the owners of phones and bedrooms. *)
Definition raw_names (c : Classes) : list string :=
  pool_of Pen c ++ pool_of Phone c ++ Bedroom_available_names c.

(** ** Narrated actions *)










(** ** Worlds for the retry loop *)







(** ** A world with two books of one symbol *)

(** The titles [A B] and [A-B] both give the symbol [a-b-book]. *)
Definition twin_classes : Classes :=
  {| Book_available_titles := ["A B"; "A-B"];
     Pen_available_colors := [];
     Food_available_foods := [];
     Kitchenware_available_kitchenware := [];
     Phone_available_names := [];
     Bedroom_available_names := [];
     Kitchen_generated := false; LivingRoom_generated := false |}.

Definition twin_initial : State :=
  {| rand := fun n => n; cursor := 0; classes := twin_classes;
     globals := sample_globals; world := empty_world |}.

Definition twin_generated : State :=
  match DatasetGenerator_init twin_initial with
  | Ok (_, s) => s
  | _ => twin_initial
  end.

(** The state after the person picked up the book at address 0. *)
Definition twin_holding : State :=
  match MovableItem_perform_action 0 twin_generated with
  | Ok (_, s) => s
  | _ => twin_generated
  end.

(** * Proofs *)

(** ** The monad *)

Lemma bind_Ok {A B} (m : M A) (f : A -> M B) s r :
  bind m f s = Ok r -> exists a s1, m s = Ok (a, s1) /\ f a s1 = Ok r.
Proof.
  unfold bind. destruct (m s) as [[a s1]| |]; try discriminate. eauto.
Qed.

Lemma Res_bind_Ok {A B} (m : Res A) (f : A -> Res B) r :
  Res_bind m f = Ok r -> exists a, m = Ok a /\ f a = Ok r.
Proof. destruct m; simpl; try discriminate. eauto. Qed.

Lemma lift_Ok {A} (r : Res A) s a s' : lift r s = Ok (a, s') -> r = Ok a /\ s' = s.
Proof. destruct r; simpl; intros H; inversion H; auto. Qed.

Lemma bind_run {A B} (m : M A) (f : A -> M B) s a s1 :
  m s = Ok (a, s1) -> bind m f s = f a s1.
Proof. unfold bind. intros ->. reflexivity. Qed.

Lemma with_world_id s : with_world s (world s) = s.
Proof. destruct s; reflexivity. Qed.

Lemma with_stationaries_id w : with_stationaries w (stationaries w) = w.
Proof. destruct w; reflexivity. Qed.

Lemma with_movables_id w : with_movables w (movables w) = w.
Proof. destruct w; reflexivity. Qed.


(** ** Heap access *)

Lemma get_stationary_run s a x :
  stationaries (world s) !! a = Some x -> get_stationary a s = Ok (x, s).
Proof. intros H. unfold get_stationary, bind, get_world, lift, deref. rewrite H. reflexivity. Qed.

Lemma get_stationary_inv s a x s' :
  get_stationary a s = Ok (x, s') -> s' = s /\ stationaries (world s) !! a = Some x.
Proof.
  unfold get_stationary, bind, get_world, lift, deref.
  destruct (stationaries (world s) !! a); intros H; inversion H; auto.
Qed.

Lemma get_movable_run s a it :
  movables (world s) !! a = Some it -> get_movable a s = Ok (it, s).
Proof. intros H. unfold get_movable, bind, get_world, lift, deref. rewrite H. reflexivity. Qed.

Lemma get_movable_inv s a it s' :
  get_movable a s = Ok (it, s') -> s' = s /\ movables (world s) !! a = Some it.
Proof.
  unfold get_movable, bind, get_world, lift, deref.
  destruct (movables (world s) !! a); intros H; inversion H; auto.
Qed.

(** ** Strings *)

Lemma append_inj_l (a b c : string) : a +:+ b = a +:+ c -> b = c.
Proof. induction a; simpl; intros H; [assumption | inversion H; auto]. Qed.

Lemma prefix_append (a b : string) : String.prefix a (a +:+ b) = true.
Proof.
  induction a as [|c a IH]; simpl.
  - destruct b; reflexivity.
  - destruct (ascii_dec c c); [assumption | congruence].
Qed.

Lemma set_stationary_inv s a x u s' :
  set_stationary a x s = Ok (u, s') ->
  s' = with_world s (with_stationaries (world s) (<[a:=x]> (stationaries (world s)))).
Proof. unfold set_stationary, bind, get_world, put_world. intros H; inversion H; reflexivity. Qed.

Lemma set_movable_inv s a it u s' :
  set_movable a it s = Ok (u, s') ->
  s' = with_world s (with_movables (world s) (<[a:=it]> (movables (world s)))).
Proof. unfold set_movable, bind, get_world, put_world. intros H; inversion H; reflexivity. Qed.

Lemma set_person_inv s p u s' :
  set_person p s = Ok (u, s') -> s' = with_world s (with_person (world s) p).
Proof. unfold set_person, bind, get_world, put_world. intros H; inversion H; reflexivity. Qed.

Lemma get_person_inv s p s' :
  get_person s = Ok (p, s') -> s' = s /\ p = person (world s).
Proof. unfold get_person, bind, get_world, ret. intros H; inversion H; auto. Qed.

(** ** The random source *)

Lemma randbelow_inv n s k s' :
  randbelow n s = Ok (k, s') ->
  k = rand s (cursor s) mod n /\ s' = with_cursor s (S (cursor s)).
Proof. unfold randbelow. intros H; inversion H; auto. Qed.

Lemma randrange_inv n s k s' :
  randrange n s = Ok (k, s') ->
  n <> 0 /\ k < n /\ k = rand s (cursor s) mod n /\ s' = with_cursor s (S (cursor s)).
Proof.
  unfold randrange. destruct (decide (n = 0)); [discriminate|].
  intros H. apply randbelow_inv in H. destruct H as [-> ->].
  repeat split; auto. apply Nat.mod_upper_bound. assumption.
Qed.

Lemma randrange_run n s :
  n <> 0 -> randrange n s = Ok (rand s (cursor s) mod n, with_cursor s (S (cursor s))).
Proof. intros H. unfold randrange. destruct (decide (n = 0)); [contradiction | reflexivity]. Qed.

Lemma random_choice_run {A} (d : A) l s :
  random_choice (d :: l) s =
    Ok (nth (rand s (cursor s) mod length (d :: l)) (d :: l) d, with_cursor s (S (cursor s))).
Proof. reflexivity. Qed.

Lemma random_choice_inv {A} (l : list A) s x s' :
  random_choice l s = Ok (x, s') -> x ∈ l /\ s' = with_cursor s (S (cursor s)).
Proof.
  destruct l as [|d l]; [discriminate|].
  rewrite random_choice_run. intros H.
  assert (Hx : x = nth (rand s (cursor s) mod length (d :: l)) (d :: l) d) by congruence.
  assert (Hs : s' = with_cursor s (S (cursor s))) by congruence.
  split; [|assumption]. rewrite Hx.
  apply list_elem_of_In. apply nth_In. apply Nat.mod_upper_bound. discriminate.
Qed.

Lemma coin_run s :
  coin s = Ok (bool_decide (rand s (cursor s) mod 2 = 0), with_cursor s (S (cursor s))).
Proof.
  unfold coin. rewrite random_choice_run. change (length [true; false]) with 2.
  assert (Hlt : rand s (cursor s) mod 2 < 2) by (apply Nat.mod_upper_bound; discriminate).
  destruct (rand s (cursor s) mod 2) as [|[|n]]; [reflexivity | reflexivity | lia].
Qed.

Lemma coin_inv s b s' :
  coin s = Ok (b, s') ->
  b = bool_decide (rand s (cursor s) mod 2 = 0) /\ s' = with_cursor s (S (cursor s)).
Proof. rewrite coin_run. intros H. split; congruence. Qed.

Lemma same_env_refl s : same_env s s.
Proof. repeat split. Qed.

Lemma same_env_trans s1 s2 s3 : same_env s1 s2 -> same_env s2 s3 -> same_env s1 s3.
Proof. unfold same_env. intros (-> & -> & ->) (-> & -> & ->). repeat split. Qed.

Lemma same_env_with_cursor s n : same_env s (with_cursor s n).
Proof. repeat split. Qed.

Lemma same_env_with_world s w : same_env s (with_world s w).
Proof. repeat split. Qed.

(** *** Swaps and shuffles are permutations *)

Lemma swap_length {A} (x : list A) i j : length (Py.swap x i j) = length x.
Proof.
  unfold Py.swap. destruct (x !! i), (x !! j); try reflexivity.
  rewrite !length_insert. reflexivity.
Qed.

Lemma insert_Permutation_delete {A} (l : list A) i a b :
  l !! i = Some a -> <[i:=b]> l ≡ₚ b :: delete i l.
Proof.
  revert i. induction l as [|y l IH]; intros [|i] H; simpl in *; try discriminate.
  - reflexivity.
  - rewrite (IH i H). apply perm_swap.
Qed.

Lemma swap_insert_Permutation {A} (x : list A) i j a b :
  x !! i = Some a -> x !! j = Some b -> i <> j -> <[j:=a]> (<[i:=b]> x) ≡ₚ x.
Proof.
  revert i j. induction x as [|y x IH]; intros [|i] [|j] Hi Hj Hne;
    simpl in *; try discriminate; try congruence.
  - inversion Hi; subst.
    rewrite (insert_Permutation_delete x j b a Hj).
    rewrite (delete_Permutation x j b Hj) at 2. apply perm_swap.
  - inversion Hj; subst.
    rewrite (insert_Permutation_delete x i a b Hi).
    rewrite (delete_Permutation x i a Hi) at 2. apply perm_swap.
  - apply perm_skip. apply IH; auto.
Qed.

Lemma swap_Permutation {A} (x : list A) i j : Py.swap x i j ≡ₚ x.
Proof.
  unfold Py.swap. destruct (x !! i) as [a|] eqn:Hi; [|reflexivity].
  destruct (x !! j) as [b|] eqn:Hj; [|reflexivity].
  destruct (decide (i = j)) as [->|Hne].
  - assert (a = b) by congruence. subst b.
    rewrite list_insert_insert_eq. rewrite (list_insert_id _ _ _ Hi). reflexivity.
  - apply swap_insert_Permutation; assumption.
Qed.

Lemma shuffle_from_inv {A} i (x : list A) s l s' :
  shuffle_from i x s = Ok (l, s') ->
  l ≡ₚ x /\ world s' = world s /\ same_env s s'.
Proof.
  revert x s. induction i as [|i IH]; intros x s H; simpl in H.
  - unfold ret in H. inversion H; subst.
    split; [reflexivity | split; [reflexivity | apply same_env_refl]].
  - apply bind_Ok in H. destruct H as (j & s1 & Hj & H).
    apply randbelow_inv in Hj. destruct Hj as [-> ->].
    apply IH in H. destruct H as (Hp & Hw & He).
    split; [rewrite Hp; apply swap_Permutation|]. split; [exact Hw|].
    eapply same_env_trans; [apply same_env_with_cursor | exact He].
Qed.

Lemma shuffle_inv {A} (x : list A) s l s' :
  shuffle x s = Ok (l, s') -> l ≡ₚ x /\ world s' = world s /\ same_env s s'.
Proof. apply shuffle_from_inv. Qed.

Lemma shuffle_from_total {A} i (x : list A) s :
  exists l s', shuffle_from i x s = Ok (l, s').
Proof.
  revert x s. induction i as [|i IH]; intros x s; simpl.
  - eexists _, _. reflexivity.
  - unfold bind, randbelow. apply IH.
Qed.

Lemma shuffle_total {A} (x : list A) s : exists l s', shuffle x s = Ok (l, s').
Proof. apply shuffle_from_total. Qed.

(** ** The actions, one by one *)

(** Inversion of a successful monadic computation, one step at a time. *)
Ltac inv_M :=
  repeat match goal with
  | H : bind _ _ _ = Ok _ |- _ =>
      let a := fresh "v" in let s1 := fresh "s" in let H1 := fresh "Hm" in
      apply bind_Ok in H; destruct H as (a & s1 & H1 & H)
  | H : ret _ _ = Ok _ |- _ => unfold ret in H; inversion H; subst; clear H
  | H : raise _ _ = Ok _ |- _ => discriminate H
  | H : timeout _ = Ok _ |- _ => discriminate H
  | H : get_person _ = Ok _ |- _ => apply get_person_inv in H; destruct H as [? ?]; subst
  | H : get_stationary _ _ = Ok _ |- _ =>
      apply get_stationary_inv in H; destruct H as [? H]; subst
  | H : get_movable _ _ = Ok _ |- _ =>
      apply get_movable_inv in H; destruct H as [? H]; subst
  | H : set_stationary _ _ _ = Ok _ |- _ => apply set_stationary_inv in H; subst
  | H : set_movable _ _ _ = Ok _ |- _ => apply set_movable_inv in H; subst
  | H : set_person _ _ = Ok _ |- _ => apply set_person_inv in H; subst
  | H : get_world _ = Ok _ |- _ => unfold get_world in H; inversion H; subst; clear H
  | H : get_globals _ = Ok _ |- _ => unfold get_globals in H; inversion H; subst; clear H
  | H : get_classes _ = Ok _ |- _ => unfold get_classes in H; inversion H; subst; clear H
  | H : put_world _ _ = Ok _ |- _ => unfold put_world in H; inversion H; subst; clear H
  | H : put_classes _ _ = Ok _ |- _ => unfold put_classes in H; inversion H; subst; clear H
  | H : lift _ _ = Ok _ |- _ => apply lift_Ok in H; destruct H as [H ?]; subst
  end.

Lemma generate_relative_location_inv x s loc extra s' :
  generate_relative_location x s = Ok ((loc, extra), s') ->
  relative_location_of x loc extra /\ world s' = world s /\ same_env s s'.
Proof.
  unfold generate_relative_location. intros H.
  destruct (s_state x) as [|levels| |b|b|b|b ch] eqn:Hst; inv_M.
  - split; [apply loc_table; assumption | split; [reflexivity | apply same_env_refl]].
  - apply randrange_inv in Hm. destruct Hm as (Hn & Hlt & -> & ->).
    split; [|split; [reflexivity | apply same_env_with_cursor]].
    eapply loc_shelf; [eassumption | lia].
  - split; [apply loc_fridge; assumption | split; [reflexivity | apply same_env_refl]].
  - split; [eapply loc_sink; eassumption | split; [reflexivity | apply same_env_refl]].
Qed.

Lemma Container_perform_action_spec a s r s' :
  Container_perform_action a s = Ok (r, s') ->
  same_env s s'
  /\ match r with
     | None => s' = s
     | Some _ =>
         exists x i item loc extra,
           stationaries (world s) !! a = Some x
           /\ p_item (person (world s)) = Some i
           /\ movables (world s) !! i = Some item
           /\ can_hold (s_type x) (m_type item) = true
           /\ relative_location_of x loc extra
           /\ world s' = place_effect (world s) a i item loc extra
     end.
Proof.
  unfold Container_perform_action. intros H. inv_M.
  match goal with Hx : stationaries _ !! a = Some ?x |- _ => rename x into cont end.
  destruct (p_item (person (world s))) as [i|] eqn:Hp; inv_M.
  2: { split; [apply same_env_refl | reflexivity]. }
  match goal with Hx : movables _ !! i = Some ?x |- _ => rename x into item end.
  destruct (can_hold (s_type cont) (m_type item)) eqn:Hc; simpl in H; inv_M.
  2: { split; [apply same_env_refl | reflexivity]. }
  match goal with Hx : generate_relative_location _ _ = Ok (?p, _) |- _ =>
    destruct p as [loc extra]; apply generate_relative_location_inv in Hx;
    destruct Hx as (Hloc & Hw & He) end.
  inv_M. split.
  - eapply same_env_trans; [|eapply same_env_trans; [exact He|apply same_env_with_world]].
    apply same_env_with_world.
  - exists cont, i, item, loc, extra. repeat (split; [first [assumption | reflexivity]|]).
    simpl. rewrite Hw. reflexivity.
Qed.

Lemma Sink_interact_spec a s r s' :
  Sink_interact a s = Ok (r, s') ->
  same_env s s'
  /\ exists n x st, r = Some n /\ stationaries (world s) !! a = Some x
                    /\ toggles (s_state x) st
                    /\ world s' = state_effect (world s) a x st.
Proof.
  unfold Sink_interact. intros H. inv_M.
  match goal with Hx : stationaries _ !! a = Some ?x |- _ => rename x into cont end.
  destruct (s_state cont) eqn:Hst; inv_M.
  split; [apply same_env_with_world|].
  eexists _, cont, _. split; [reflexivity|]. split; [assumption|].
  split; [rewrite Hst; constructor | reflexivity].
Qed.

Lemma Window_perform_action_spec a s r s' :
  Window_perform_action a s = Ok (r, s') ->
  same_env s s'
  /\ exists n x st, r = Some n /\ stationaries (world s) !! a = Some x
                    /\ toggles (s_state x) st
                    /\ world s' = state_effect (world s) a x st.
Proof.
  unfold Window_perform_action. intros H. inv_M.
  match goal with Hx : stationaries _ !! a = Some ?x |- _ => rename x into cont end.
  destruct (s_state cont) eqn:Hst; inv_M.
  split; [apply same_env_with_world|].
  eexists _, cont, _. split; [reflexivity|]. split; [assumption|].
  split; [rewrite Hst; constructor | reflexivity].
Qed.

Lemma Light_perform_action_spec a s r s' :
  Light_perform_action a s = Ok (r, s') ->
  same_env s s'
  /\ exists n x st, r = Some n /\ stationaries (world s) !! a = Some x
                    /\ toggles (s_state x) st
                    /\ world s' = state_effect (world s) a x st.
Proof.
  unfold Light_perform_action. intros H. inv_M.
  match goal with Hx : stationaries _ !! a = Some ?x |- _ => rename x into cont end.
  destruct (s_state cont) eqn:Hst; inv_M.
  split; [apply same_env_with_world|].
  eexists _, cont, _. split; [reflexivity|]. split; [assumption|].
  split; [rewrite Hst; constructor | reflexivity].
Qed.

Lemma TV_perform_action_spec a s r s' :
  TV_perform_action a s = Ok (r, s') ->
  same_env s s'
  /\ exists n x st, r = Some n /\ stationaries (world s) !! a = Some x
                    /\ toggles (s_state x) st
                    /\ world s' = state_effect (world s) a x st.
Proof.
  unfold TV_perform_action. intros H. inv_M.
  match goal with Hx : stationaries _ !! a = Some ?x |- _ => rename x into cont end.
  destruct (s_state cont) as [| | | | | |on ch] eqn:Hst; inv_M.
  destruct on; inv_M.
  - match goal with Hc : coin _ = Ok (?b, _) |- _ =>
      apply coin_inv in Hc; destruct Hc as [_ ->]; destruct b end; inv_M.
    + match goal with Hc : random_choice _ _ = Ok _ |- _ =>
        apply random_choice_inv in Hc; destruct Hc as [Hin ->] end.
      split; [repeat split|].
      eexists _, cont, _. split; [reflexivity|]. split; [assumption|].
      split; [rewrite Hst; apply tv_switch; exact Hin | reflexivity].
    + split; [repeat split|].
      eexists _, cont, _. split; [reflexivity|]. split; [assumption|].
      split; [rewrite Hst; apply tv_off | reflexivity].
  - match goal with Hc : random_choice _ _ = Ok _ |- _ =>
      apply random_choice_inv in Hc; destruct Hc as [Hin ->] end.
    split; [repeat split|].
    eexists _, cont, _. split; [reflexivity|]. split; [assumption|].
    split; [rewrite Hst; apply tv_on; exact Hin | reflexivity].
Qed.

Lemma InteractableContainer_perform_action_spec fuel a s r s' :
  InteractableContainer_perform_action fuel a s = Ok (r, s') ->
  same_env s s' /\ exists n, r = Some n /\ stationary_acts (world s) a (world s').
Proof.
  revert s. induction fuel as [|fuel IH]; intros s H; simpl in H; [discriminate|].
  inv_M.
  match goal with Hc : coin _ = Ok (?b, _) |- _ =>
    apply coin_inv in Hc; destruct Hc as [_ ->]; destruct b end.
  - match goal with Hc : Sink_interact _ _ = Ok _ |- _ =>
      apply Sink_interact_spec in Hc; destruct Hc as (He & n & x & st & -> & Hx & Ht & Hw) end.
    inv_M. split; [exact He|]. eexists. split; [reflexivity|].
    rewrite Hw. apply act_toggle; assumption.
  - match goal with Hc : Container_perform_action _ _ = Ok (?o, _) |- _ =>
      apply Container_perform_action_spec in Hc; destruct o as [n|] end.
    + destruct Hm0 as (He & x & i & item & loc & extra & Hx & Hp & Hi & Hc & Hl & Hw).
      inv_M. split; [exact He|]. eexists. split; [reflexivity|].
      rewrite Hw. eapply act_place; eassumption.
    + destruct Hm0 as (He & ->). apply IH in H. destruct H as (He' & n & -> & Hact).
      split; [exact He'|]. eexists. split; [reflexivity|]. exact Hact.
Qed.

Lemma stationary_perform_action_spec fuel a s r s' :
  stationary_perform_action fuel a s = Ok (r, s') ->
  same_env s s'
  /\ match r with
     | None => world s' = world s
     | Some _ => stationary_acts (world s) a (world s')
     end.
Proof.
  unfold stationary_perform_action. intros H. inv_M.
  match goal with Hx : stationaries _ !! a = Some ?x |- _ => rename x into cont end.
  assert (Htog : forall f : nat -> M (option string),
             (forall r s', f a s = Ok (r, s') ->
                same_env s s' /\ exists n x st, r = Some n
                  /\ stationaries (world s) !! a = Some x /\ toggles (s_state x) st
                  /\ world s' = state_effect (world s) a x st) ->
             f a s = Ok (r, s') ->
             same_env s s' /\ match r with
                              | None => world s' = world s
                              | Some _ => stationary_acts (world s) a (world s')
                              end).
  { intros f Hf Hr. apply Hf in Hr. destruct Hr as (He & n & x & st & -> & Hx & Ht & Hw).
    split; [exact He|]. rewrite Hw. apply act_toggle; assumption. }
  assert (Hcon : Container_perform_action a s = Ok (r, s') ->
             same_env s s' /\ match r with
                              | None => world s' = world s
                              | Some _ => stationary_acts (world s) a (world s')
                              end).
  { intros Hr. apply Container_perform_action_spec in Hr. destruct r as [n|].
    - destruct Hr as (He & x & i & item & loc & extra & Hx & Hp & Hi & Hc & Hl & Hw).
      split; [exact He|]. rewrite Hw. eapply act_place; eassumption.
    - destruct Hr as (He & ->). split; [exact He | reflexivity]. }
  destruct (s_state cont); auto.
  - apply InteractableContainer_perform_action_spec in H.
    destruct H as (He & n & -> & Hact). split; assumption.
  - apply (Htog Window_perform_action); [apply Window_perform_action_spec | assumption].
  - apply (Htog Light_perform_action); [apply Light_perform_action_spec | assumption].
  - apply (Htog TV_perform_action); [apply TV_perform_action_spec | assumption].
Qed.

Lemma MovableItem_perform_action_spec i s r s' :
  MovableItem_perform_action i s = Ok (r, s') ->
  same_env s s'
  /\ match r with
     | None => s' = s /\ p_item (person (world s)) <> None
     | Some _ =>
         exists it c cont,
           p_item (person (world s)) = None
           /\ movables (world s) !! i = Some it
           /\ m_container it = Some c
           /\ stationaries (world s) !! c = Some cont
           /\ world s' = pick_up_effect (world s) i it
     end.
Proof.
  unfold MovableItem_perform_action. intros H. inv_M.
  destruct (p_item (person (world s))) as [j|] eqn:Hp; inv_M.
  { split; [apply same_env_refl | split; [reflexivity | discriminate]]. }
  match goal with Hx : movables _ !! i = Some ?x |- _ => rename x into it end.
  destruct (m_container it) as [c|] eqn:Hc; inv_M.
  match goal with Hx : stationaries _ !! c = Some ?x |- _ => rename x into cont end.
  split; [repeat split|].
  exists it, c, cont. repeat (split; [first [assumption | reflexivity]|]). reflexivity.
Qed.

Lemma Phone_interact_spec i s r s' :
  Phone_interact i s = Ok (r, s') ->
  same_env s s'
  /\ exists n it, r = Some n /\ movables (world s) !! i = Some it
                  /\ world s' = ring_effect (world s) i it.
Proof.
  unfold Phone_interact. intros H. inv_M.
  match goal with Hx : movables _ !! i = Some ?x |- _ => rename x into it end.
  split; [repeat split|]. eexists _, it. repeat split; assumption.
Qed.

Lemma MovableInteractable_perform_action_spec fuel i s r s' :
  (exists it, movables (world s) !! i = Some it /\ m_type it = Phone) ->
  MovableInteractable_perform_action fuel i s = Ok (r, s') ->
  same_env s s' /\ exists n, r = Some n /\ movable_acts (world s) i (world s').
Proof.
  intros Hphone. revert s Hphone.
  induction fuel as [|fuel IH]; intros s Hphone H; simpl in H; [discriminate|].
  inv_M.
  match goal with Hc : coin _ = Ok (?b, _) |- _ =>
    apply coin_inv in Hc; destruct Hc as [_ ->]; destruct b end.
  - match goal with Hc : Phone_interact _ _ = Ok _ |- _ =>
      apply Phone_interact_spec in Hc; destruct Hc as (He & n & it & -> & Hx & Hw) end.
    inv_M. split; [exact He|]. eexists. split; [reflexivity|].
    rewrite Hw. destruct Hphone as (it' & Hit' & Hty).
    apply act_ring; [exact Hx|]. simpl in Hx. congruence.
  - match goal with Hc : MovableItem_perform_action _ _ = Ok (?o, _) |- _ =>
      apply MovableItem_perform_action_spec in Hc; destruct o as [n|] end.
    + destruct Hm0 as (He & it & c & cont & Hp & Hi & Hc & Hx & Hw).
      inv_M. split; [exact He|]. eexists. split; [reflexivity|].
      rewrite Hw. eapply act_pick_up; eassumption.
    + destruct Hm0 as (He & -> & _). apply IH in H; [|exact Hphone].
      destruct H as (He' & n & -> & Hact).
      split; [exact He'|]. eexists. split; [reflexivity|]. exact Hact.
Qed.

Lemma movable_perform_action_spec fuel i s r s' :
  movable_perform_action fuel i s = Ok (r, s') ->
  same_env s s'
  /\ match r with
     | None => world s' = world s
     | Some _ => movable_acts (world s) i (world s')
     end.
Proof.
  unfold movable_perform_action. intros H. inv_M.
  match goal with Hx : movables _ !! i = Some ?x |- _ => rename x into it end.
  assert (Hplain : MovableItem_perform_action i s = Ok (r, s') ->
             same_env s s' /\ match r with
                              | None => world s' = world s
                              | Some _ => movable_acts (world s) i (world s')
                              end).
  { intros Hr. apply MovableItem_perform_action_spec in Hr. destruct r as [n|].
    - destruct Hr as (He & it' & c & cont & Hp & Hi & Hc & Hx & Hw).
      split; [exact He|]. rewrite Hw. eapply act_pick_up; eassumption.
    - destruct Hr as (He & -> & _). split; [exact He | reflexivity]. }
  destruct (m_type it) eqn:Hty; auto.
  apply MovableInteractable_perform_action_spec in H; [|eauto].
  destruct H as (He & n & -> & Hact). split; assumption.
Qed.

Lemma Room_perform_action_loop_spec fuel l s r s' :
  Room_perform_action_loop fuel l s = Ok (r, s') ->
  same_env s s'
  /\ match r with
     | None => world s' = world s
     | Some _ => exists a, a ∈ l /\ stationary_acts (world s) a (world s')
     end.
Proof.
  revert s. induction l as [|a l IH]; intros s H; simpl in H; inv_M.
  { split; [apply same_env_refl | reflexivity]. }
  match goal with Hc : stationary_perform_action _ _ _ = Ok (?o, _) |- _ =>
    apply stationary_perform_action_spec in Hc; destruct Hc as (He & Hres);
    destruct o as [n|] end.
  - inv_M. split; [exact He|]. exists a. split; [apply list_elem_of_here | exact Hres].
  - apply IH in H. destruct H as (He' & H).
    split; [eapply same_env_trans; eassumption|].
    destruct r as [n|].
    + destruct H as (b & Hb & Hact). exists b. split; [apply list_elem_of_further; exact Hb|].
      rewrite <- Hres. exact Hact.
    + congruence.
Qed.

Lemma Room_perform_action_spec fuel room s r s' :
  Room_perform_action fuel room s = Ok (r, s') ->
  same_env s s'
  /\ match r with
     | None => world s' = world s
     | Some _ => exists a, a ∈ r_items room /\ stationary_acts (world s) a (world s')
     end.
Proof.
  unfold Room_perform_action. intros H. inv_M.
  match goal with Hc : shuffle _ _ = Ok _ |- _ =>
    apply shuffle_inv in Hc; destruct Hc as (Hperm & Hw & He) end.
  apply Room_perform_action_loop_spec in H. destruct H as (He' & H).
  split; [eapply same_env_trans; eassumption|].
  destruct r as [n|].
  - destruct H as (a & Ha & Hact). exists a. split.
    + rewrite <- Hperm. apply list_elem_of_In, in_rev, list_elem_of_In. exact Ha.
    + rewrite <- Hw. exact Hact.
  - congruence.
Qed.

Lemma pop_at_inv {A} k (l : list A) x rest :
  Py.pop_at k l = Some (x, rest) -> l ≡ₚ x :: rest.
Proof.
  unfold Py.pop_at. destruct (l !! k) as [y|] eqn:Hk; [|discriminate].
  intros H. inversion H; subst. apply delete_Permutation. assumption.
Qed.

Lemma pop_at_run {A} k (l : list A) :
  k < length l -> exists x rest, Py.pop_at k l = Some (x, rest).
Proof.
  intros Hk. unfold Py.pop_at. destruct (lookup_lt_is_Some_2 l k Hk) as [x Hx].
  rewrite Hx. eauto.
Qed.

(** What a successful pass through the loop of [generate_state_change] did:
    one action of one candidate still in the pools, and at least one
    candidate was taken out of them. *)
Lemma generate_state_change_loop_spec fuel rs ms s n rs' ms' s' :
  generate_state_change_loop fuel rs ms s = Ok ((n, rs', ms'), s') ->
  same_env s s'
  /\ ((exists r a, r ∈ rs /\ a ∈ r_items r /\ stationary_acts (world s) a (world s'))
      \/ (exists i, i ∈ ms /\ movable_acts (world s) i (world s')))
  /\ length rs' + length ms' < length rs + length ms.
Proof.
  revert rs ms s. induction fuel as [|fuel IH]; intros rs ms s H; simpl in H;
    [discriminate|].
  destruct (bool_decide (rs = [] /\ ms = [])); [discriminate|].
  apply bind_Ok in H. destruct H as (b & s1 & Hb & H).
  assert (Hs1 : world s1 = world s /\ same_env s s1 /\ (b = true -> rs <> [])).
  { destruct rs; inv_M.
    - repeat split. discriminate.
    - apply coin_inv in Hb. destruct Hb as [_ ->]. repeat split. discriminate. }
  destruct Hs1 as (Hw1 & He1 & Hne). clear Hb.
  apply bind_Ok in H. destruct H as ([rs1 found] & s2 & Hroom & H).
  assert (Hroom' : same_env s1 s2
            /\ length rs1 <= length rs
            /\ (forall r, r ∈ rs1 -> r ∈ rs)
            /\ match found with
               | Some _ => length rs1 < length rs
                           /\ exists r a, r ∈ rs /\ a ∈ r_items r
                                          /\ stationary_acts (world s1) a (world s2)
               | None => world s2 = world s1
               end).
  { destruct b; inv_M.
    - match goal with Hc : randrange _ _ = Ok _ |- _ =>
        apply randrange_inv in Hc; destruct Hc as (_ & Hlt & _ & ->) end.
      destruct (Py.pop_at _ rs) as [[room rest]|] eqn:Hpop; inv_M.
      apply pop_at_inv in Hpop.
      match goal with Hc : Room_perform_action _ _ _ = Ok _ |- _ =>
        apply Room_perform_action_spec in Hc; destruct Hc as (He2 & Hres) end.
      split; [eapply same_env_trans; [apply same_env_with_cursor | exact He2]|].
      assert (Hlen : length rs = S (length rs1)) by (rewrite Hpop; reflexivity).
      split; [lia|]. split.
      { intros r Hr. rewrite Hpop. apply list_elem_of_further. exact Hr. }
      destruct found as [n0|].
      + split; [lia|]. destruct Hres as (a & Ha & Hact).
        exists room, a. split; [rewrite Hpop; apply list_elem_of_here|].
        split; [exact Ha | exact Hact].
      + exact Hres.
    - split; [apply same_env_refl|]. split; [lia|]. split; [auto | reflexivity]. }
  clear Hroom. destruct Hroom' as (He2 & Hlen1 & Hsub1 & Hfound).
  destruct found as [n0|].
  { inv_M. destruct Hfound as (Hlt & r & a & Hr & Ha & Hact).
    split; [eapply same_env_trans; eassumption|]. split; [|lia].
    left. exists r, a. rewrite <- Hw1. auto. }
  assert (Hw2 : world s2 = world s) by congruence.
  assert (He02 : same_env s s2) by (eapply same_env_trans; eassumption).
  destruct ms as [|m0 ms0] eqn:Hms.
  { apply IH in H. destruct H as (He3 & Hact & Hlen).
    split; [eapply same_env_trans; eassumption|].
    split.
    - destruct Hact as [(r & a & Hr & Ha & Hact) | (i & Hi & _)].
      + left. exists r, a. rewrite <- Hw2. auto.
      + inversion Hi.
    - lia. }
  rewrite <- Hms in *. clear Hms.
  inv_M.
  match goal with Hc : randrange _ _ = Ok _ |- _ =>
    apply randrange_inv in Hc; destruct Hc as (_ & Hlt & _ & ->) end.
  destruct (Py.pop_at _ ms) as [[item rest]|] eqn:Hpop; inv_M.
  apply pop_at_inv in Hpop.
  assert (Hlen : length ms = S (length rest)) by (rewrite Hpop; reflexivity).
  match goal with Hc : movable_perform_action _ _ _ = Ok (?o, _) |- _ =>
    apply movable_perform_action_spec in Hc; destruct Hc as (He3 & Hres);
    destruct o as [n1|] end.
  - inv_M. split; [eapply same_env_trans; [exact He02|];
                   eapply same_env_trans; [apply same_env_with_cursor | exact He3]|].
    split; [|lia]. right. exists item. split; [rewrite Hpop; apply list_elem_of_here|].
    simpl in Hres. rewrite <- Hw2. exact Hres.
  - apply IH in H. destruct H as (He4 & Hact & Hlen').
    split; [eapply same_env_trans; [exact He02|];
            eapply same_env_trans; [apply same_env_with_cursor|];
            eapply same_env_trans; eassumption|].
    simpl in Hres. split; [|lia].
    destruct Hact as [(r & a & Hr & Ha & Hact) | (i & Hi & Hact)].
    + left. exists r, a. rewrite <- Hw2, <- Hres. auto.
    + right. exists i. split; [rewrite Hpop; apply list_elem_of_further; exact Hi|].
      rewrite <- Hw2, <- Hres. exact Hact.
Qed.

(** ** The invariant is kept by every action *)

Lemma relative_location_ok x loc extra it c :
  relative_location_of x loc extra ->
  location_ok x (with_location it c (Some loc) extra).
Proof.
  intros H. unfold location_ok. destruct H as [Hst|levels level Hst Hl|Hst|b Hst];
    rewrite Hst; auto.
  exists level. split; [assumption|]. simpl. split; [apply lookup_insert_eq|].
  rewrite lookup_insert_ne by discriminate. apply lookup_insert_eq.
Qed.

Lemma Inv_place w a i item loc extra x r :
  Inv w ->
  r ∈ rooms w -> a ∈ r_items r ->
  stationaries w !! a = Some x ->
  p_item (person w) = Some i ->
  movables w !! i = Some item ->
  can_hold (s_type x) (m_type item) = true ->
  relative_location_of x loc extra ->
  Inv (place_effect w a i item loc extra).
Proof.
  intros [Hown Hhand Hplaced Hrooms] Hr Ha Hx Hp Hi Hc Hloc.
  assert (Hlt : i < length (movables w)) by (eapply lookup_lt_Some; eauto).
  split; unfold ownership; simpl.
  - intros j Hj. destruct (decide (i = j)) as [<-|Hne].
    + eexists. split; [apply list_lookup_insert_eq; exact Hlt|]. simpl.
      split; discriminate.
    + destruct (Hown j Hj) as (it & Hit & Hiff).
      exists it. split; [rewrite list_lookup_insert_ne by exact Hne; exact Hit|].
      split; [|discriminate]. intros Hnone. apply Hiff in Hnone. congruence.
  - discriminate.
  - intros j it c Hj Hit Hcont. destruct (decide (i = j)) as [<-|Hne].
    + rewrite list_lookup_insert_eq in Hit by exact Hlt. inversion Hit; subst it.
      simpl in Hcont. inversion Hcont; subst c.
      exists x. split; [exact Hx|]. split; [exact Hc|].
      split; [apply relative_location_ok; exact Hloc | eauto].
    + rewrite list_lookup_insert_ne in Hit by exact Hne.
      exact (Hplaced j it c Hj Hit Hcont).
  - exact Hrooms.
Qed.

Lemma toggles_type st st' : toggles st st' -> stationary_type_of st' = stationary_type_of st.
Proof. destruct 1; reflexivity. Qed.

Lemma toggles_not_shelf st st' levels : toggles st st' -> st <> IsShelf levels /\ st' <> IsShelf levels.
Proof. destruct 1; split; discriminate. Qed.

Lemma Inv_toggle w a x st :
  Inv w ->
  stationaries w !! a = Some x ->
  toggles (s_state x) st ->
  Inv (state_effect w a x st).
Proof.
  intros [Hown Hhand Hplaced Hrooms] Hx Ht.
  assert (Hlt : a < length (stationaries w)) by (eapply lookup_lt_Some; eauto).
  assert (Hlook : forall c y, stationaries w !! c = Some y ->
            exists y', <[a:=with_state x st]> (stationaries w) !! c = Some y'
                       /\ s_type y' = s_type y /\ s_parent y' = s_parent y
                       /\ (stationary_ok y -> stationary_ok y')
                       /\ (forall it, location_ok y it -> location_ok y' it)).
  { intros c y Hy. destruct (decide (a = c)) as [<-|Hne].
    - exists (with_state x st). rewrite list_lookup_insert_eq by exact Hlt.
      assert (y = x) by congruence. subst y.
      split; [reflexivity|]. split; [apply (toggles_type _ _ Ht)|]. split; [reflexivity|].
      split.
      + unfold stationary_ok. simpl. inversion Ht; subst; simpl; auto;
          match goal with H : _ = s_state x |- _ => rewrite <- H end; auto.
      + intros it. unfold location_ok. simpl. inversion Ht; subst; simpl; auto.
    - exists y. rewrite list_lookup_insert_ne by exact Hne. auto. }
  split; unfold ownership; simpl.
  - exact Hown.
  - exact Hhand.
  - intros j it c Hj Hit Hcont.
    destruct (Hplaced j it c Hj Hit Hcont) as (y & Hy & Hc & Hl & Hr).
    destruct (Hlook c y Hy) as (y' & Hy' & Hty & _ & _ & Hl').
    exists y'. split; [exact Hy'|]. split; [rewrite Hty; exact Hc|]. auto.
  - intros r c Hr Hc. destruct (Hrooms r c Hr Hc) as (y & Hy & Hpar & Hok).
    destruct (Hlook c y Hy) as (y' & Hy' & _ & Hpar' & Hok' & _).
    exists y'. split; [exact Hy'|]. split; [congruence | auto].
Qed.

Lemma Inv_pick_up w i it c :
  Inv w ->
  i ∈ movable_items w ->
  p_item (person w) = None ->
  movables w !! i = Some it ->
  m_container it = Some c ->
  Inv (pick_up_effect w i it).
Proof.
  intros [Hown Hhand Hplaced Hrooms] Hi Hp Hit Hc.
  assert (Hlt : i < length (movables w)) by (eapply lookup_lt_Some; eauto).
  split; unfold ownership; simpl.
  - intros j Hj. destruct (decide (i = j)) as [<-|Hne].
    + eexists. split; [apply list_lookup_insert_eq; exact Hlt|]. simpl. split; auto.
    + destruct (Hown j Hj) as (it' & Hit' & Hiff).
      exists it'. split; [rewrite list_lookup_insert_ne by exact Hne; exact Hit'|].
      split.
      * intros Hnone. apply Hiff in Hnone. congruence.
      * intros Heq. congruence.
  - intros j Hj. inversion Hj; subst. exact Hi.
  - intros j it' c' Hj Hit' Hcont. destruct (decide (i = j)) as [<-|Hne].
    + rewrite list_lookup_insert_eq in Hit' by exact Hlt. inversion Hit'; subst it'.
      discriminate Hcont.
    + rewrite list_lookup_insert_ne in Hit' by exact Hne.
      exact (Hplaced j it' c' Hj Hit' Hcont).
  - exact Hrooms.
Qed.

Lemma Inv_ring w i it :
  Inv w -> movables w !! i = Some it -> Inv (ring_effect w i it).
Proof.
  intros [Hown Hhand Hplaced Hrooms] Hit.
  assert (Hlt : i < length (movables w)) by (eapply lookup_lt_Some; eauto).
  split; unfold ownership; simpl.
  - intros j Hj. destruct (decide (i = j)) as [<-|Hne].
    + destruct (Hown i Hj) as (it' & Hit' & Hiff).
      assert (it' = it) by congruence. subst it'.
      eexists. split; [apply list_lookup_insert_eq; exact Hlt|]. exact Hiff.
    + destruct (Hown j Hj) as (it' & Hit' & Hiff).
      exists it'. split; [rewrite list_lookup_insert_ne by exact Hne; exact Hit'|]. exact Hiff.
  - exact Hhand.
  - intros j it' c Hj Hit' Hcont. destruct (decide (i = j)) as [<-|Hne].
    + rewrite list_lookup_insert_eq in Hit' by exact Hlt. inversion Hit'; subst it'.
      exact (Hplaced i it c Hj Hit Hcont).
    + rewrite list_lookup_insert_ne in Hit' by exact Hne.
      exact (Hplaced j it' c Hj Hit' Hcont).
  - exact Hrooms.
Qed.

Lemma Inv_one_action w w' : Inv w -> one_action w w' -> Inv w'.
Proof.
  intros HI [(r & a & Hr & Ha & Hact) | (i & Hi & Hact)].
  - destruct Hact as [x i item loc extra Hx Hp Hi Hc Hl | x st Hx Ht].
    + eapply Inv_place; eassumption.
    + eapply Inv_toggle; eassumption.
  - destruct Hact as [it c cont Hp Hit Hc Hx | it Hit Hty].
    + eapply Inv_pick_up; eassumption.
    + eapply Inv_ring; eassumption.
Qed.

(** ** Candidates that cannot act, candidates that can *)

Lemma Inv_hand_valid w i :
  Inv w -> p_item (person w) = Some i -> exists item, movables w !! i = Some item.
Proof.
  intros HI Hp. destruct (inv_own w HI i (inv_hand w HI i Hp)) as (it & Hit & _). eauto.
Qed.

Lemma Container_perform_action_None a s x :
  Inv (world s) ->
  stationaries (world s) !! a = Some x ->
  match s_state x with IsTable | IsShelf _ | IsFridge | IsSink _ => True | _ => False end ->
  can_place (world s) x = false ->
  Container_perform_action a s = Ok (None, s).
Proof.
  intros HI Hx Hcont Hno. unfold can_place in Hno. unfold Container_perform_action.
  unfold get_person. rewrite (bind_run _ _ _ _ _ (eq_refl : bind get_world _ s = Ok (person (world s), s))).
  rewrite (bind_run _ _ _ _ _ (get_stationary_run _ _ _ Hx)).
  destruct (p_item (person (world s))) as [i|] eqn:Hp; [|reflexivity].
  destruct (Inv_hand_valid _ _ HI Hp) as (item & Hitem). rewrite Hitem in Hno.
  rewrite (bind_run _ _ _ _ _ (get_movable_run _ _ _ Hitem)). rewrite Hno. reflexivity.
Qed.

Lemma generate_relative_location_total x s :
  stationary_ok x ->
  match s_state x with IsTable | IsShelf _ | IsFridge | IsSink _ => True | _ => False end ->
  exists loc extra s', generate_relative_location x s = Ok ((loc, extra), s')
                       /\ world s' = world s.
Proof.
  intros Hok Hcont. unfold generate_relative_location, stationary_ok in *.
  destruct (s_state x) as [|levels| |b|b|b|b ch]; try contradiction;
    try (eexists _, _, _; split; reflexivity).
  unfold Shelf_MIN_LEVELS in Hok.
  rewrite (bind_run _ _ _ _ _ (randrange_run levels s ltac:(lia))).
  eexists _, _, _; split; reflexivity.
Qed.

Lemma Container_perform_action_Some a s x :
  stationaries (world s) !! a = Some x ->
  stationary_ok x ->
  match s_state x with IsTable | IsShelf _ | IsFridge | IsSink _ => True | _ => False end ->
  can_place (world s) x = true ->
  exists n s', Container_perform_action a s = Ok (Some n, s').
Proof.
  intros Hx Hok Hcont Hcp. unfold can_place in Hcp.
  destruct (p_item (person (world s))) as [i|] eqn:Hp; [|discriminate].
  destruct (movables (world s) !! i) as [item|] eqn:Hitem; [|discriminate].
  rename Hcp into Hc. unfold Container_perform_action.
  unfold get_person. rewrite (bind_run _ _ _ _ _ (eq_refl : bind get_world _ s = Ok (person (world s), s))).
  rewrite (bind_run _ _ _ _ _ (get_stationary_run _ _ _ Hx)). rewrite Hp.
  rewrite (bind_run _ _ _ _ _ (get_movable_run _ _ _ Hitem)). rewrite Hc. simpl.
  unfold set_person at 1.
  match goal with |- context [generate_relative_location x] => idtac end.
  set (s1 := with_world s (with_person (world s) (with_item (person (world s)) None))).
  destruct (generate_relative_location_total x s1 Hok Hcont) as (loc & extra & s2 & Hg & Hw).
  exists ("I placed the " +:+ m_shortened_name item +:+ " I was holding " +:+ loc
            +:+ " the " +:+ get_full_name_with_room x +:+ "."). eexists.
  unfold bind at 1. unfold bind at 1. simpl. fold s1.
  unfold bind at 1. rewrite Hg. reflexivity.
Qed.

Lemma Sink_interact_run a s x b :
  stationaries (world s) !! a = Some x -> s_state x = IsSink b ->
  exists n s', Sink_interact a s = Ok (Some n, s').
Proof.
  intros Hx Hst. unfold Sink_interact.
  rewrite (bind_run _ _ _ _ _ (get_stationary_run _ _ _ Hx)). rewrite Hst.
  eexists _, _. reflexivity.
Qed.

Lemma InteractableContainer_perform_action_total k : forall s a x b,
  Inv (world s) -> stationaries (world s) !! a = Some x -> s_state x = IsSink b ->
  rand s (cursor s + k) mod 2 = 0 ->
  exists n s', forall fuel, k < fuel ->
    InteractableContainer_perform_action fuel a s = Ok (Some n, s').
Proof.
  induction k as [|k IH]; intros s a x b HI Hx Hst Hk.
  - rewrite Nat.add_0_r in Hk.
    destruct (Sink_interact_run a (with_cursor s (S (cursor s))) x b Hx Hst) as (n & s' & Hrun).
    exists n, s'. intros [|fuel] Hlt; [lia|]. simpl.
    rewrite (bind_run _ _ _ _ _ (coin_run s)). rewrite bool_decide_eq_true_2 by exact Hk.
    rewrite (bind_run _ _ _ _ _ Hrun). reflexivity.
  - set (s1 := with_cursor s (S (cursor s))).
    destruct (bool_decide (rand s (cursor s) mod 2 = 0)) eqn:Hc.
    + destruct (Sink_interact_run a s1 x b Hx Hst) as (n & s' & Hrun).
      exists n, s'. intros [|fuel] Hlt; [lia|]. simpl.
      rewrite (bind_run _ _ _ _ _ (coin_run s)). rewrite Hc.
      rewrite (bind_run _ _ _ _ _ Hrun). reflexivity.
    + assert (Hcont : match s_state x with
                      | IsTable | IsShelf _ | IsFridge | IsSink _ => True
                      | _ => False end) by (rewrite Hst; exact I).
      assert (Hok : stationary_ok x) by (unfold stationary_ok; rewrite Hst; exact I).
      destruct (can_place (world s1) x) eqn:Hcp.
      * destruct (Container_perform_action_Some a s1 x Hx Hok Hcont Hcp) as (n & s' & Hrun).
        exists n, s'. intros [|fuel] Hlt; [lia|]. simpl.
        rewrite (bind_run _ _ _ _ _ (coin_run s)). rewrite Hc.
        rewrite (bind_run _ _ _ _ _ Hrun). reflexivity.
      * pose proof (Container_perform_action_None a s1 x HI Hx Hcont Hcp) as Hrun.
        destruct (IH s1 a x b HI Hx Hst) as (n & s' & Hall).
        { simpl. replace (S (cursor s + k)) with (cursor s + S k) by lia. exact Hk. }
        exists n, s'. intros [|fuel] Hlt; [lia|]. simpl.
        rewrite (bind_run _ _ _ _ _ (coin_run s)). rewrite Hc.
        rewrite (bind_run _ _ _ _ _ Hrun). apply Hall. lia.
Qed.

Lemma toggle_actions_total a s x :
  stationaries (world s) !! a = Some x ->
  stationary_ok x ->
  match s_state x with
  | IsWindow _ => exists n s', Window_perform_action a s = Ok (Some n, s')
  | IsLight _ => exists n s', Light_perform_action a s = Ok (Some n, s')
  | IsTV _ _ => exists n s', TV_perform_action a s = Ok (Some n, s')
  | _ => True
  end.
Proof.
  intros Hx Hok. destruct (s_state x) as [| | | |b|b|b ch] eqn:Hst; try exact I.
  - unfold Window_perform_action.
    rewrite (bind_run _ _ _ _ _ (get_stationary_run _ _ _ Hx)). rewrite Hst.
    eexists _, _. reflexivity.
  - unfold Light_perform_action.
    rewrite (bind_run _ _ _ _ _ (get_stationary_run _ _ _ Hx)). rewrite Hst.
    eexists _, _. reflexivity.
  - unfold TV_perform_action.
    rewrite (bind_run _ _ _ _ _ (get_stationary_run _ _ _ Hx)). rewrite Hst.
    destruct b.
    + rewrite (bind_run _ _ _ _ _ (coin_run s)).
      destruct (bool_decide (rand s (cursor s) mod 2 = 0)).
      * unfold TV_CHANNELS. rewrite (bind_run _ _ _ _ _ (random_choice_run _ _ _)).
        eexists _, _. reflexivity.
      * eexists _, _. reflexivity.
    + unfold TV_CHANNELS. rewrite (bind_run _ _ _ _ _ (random_choice_run _ _ _)).
      eexists _, _. reflexivity.
Qed.

Lemma stationary_cannot_act fuel a s x :
  Inv (world s) ->
  stationaries (world s) !! a = Some x ->
  stationary_can_act (world s) a = false ->
  stationary_perform_action fuel a s = Ok (None, s).
Proof.
  intros HI Hx Hno. unfold stationary_can_act in Hno. rewrite Hx in Hno.
  unfold stationary_perform_action.
  rewrite (bind_run _ _ _ _ _ (get_stationary_run _ _ _ Hx)).
  destruct (s_state x) eqn:Hst; try discriminate;
    apply (Container_perform_action_None a s x HI Hx); try assumption;
    rewrite Hst; exact I.
Qed.

Lemma stationary_can_act_converges a s x :
  Inv (world s) ->
  stationaries (world s) !! a = Some x ->
  stationary_ok x ->
  fair (rand s) ->
  stationary_can_act (world s) a = true ->
  exists n s', converges (fun fuel => stationary_perform_action fuel a) s (Ok (Some n, s')).
Proof.
  intros HI Hx Hok Hfair Hyes. unfold stationary_can_act in Hyes. rewrite Hx in Hyes.
  pose proof (toggle_actions_total a s x Hx Hok) as Htog.
  assert (Hcon : match s_state x with
                 | IsTable | IsShelf _ | IsFridge => True | _ => False end ->
                 exists n s', Container_perform_action a s = Ok (Some n, s')).
  { intros Hc. apply (Container_perform_action_Some a s x Hx Hok).
    - destruct (s_state x); try contradiction; exact I.
    - destruct (s_state x); try contradiction; exact Hyes. }
  unfold converges, stationary_perform_action.
  destruct (s_state x) as [|levels| |b|b|b|b ch] eqn:Hst.
  1-3: destruct (Hcon I) as (n & s' & Hrun); exists n, s', 0; intros fuel _;
       rewrite (bind_run _ _ _ _ _ (get_stationary_run _ _ _ Hx)); rewrite Hst; exact Hrun.
  2-4: destruct Htog as (n & s' & Hrun); exists n, s', 0; intros fuel _;
       rewrite (bind_run _ _ _ _ _ (get_stationary_run _ _ _ Hx)); rewrite Hst; exact Hrun.
  destruct (Hfair (cursor s)) as (k & Hk).
  destruct (InteractableContainer_perform_action_total k s a x b HI Hx Hst Hk)
    as (n & s' & Hall).
  exists n, s', (S k). intros fuel Hle.
  rewrite (bind_run _ _ _ _ _ (get_stationary_run _ _ _ Hx)). rewrite Hst.
  apply Hall. lia.
Qed.

Lemma existsb_Permutation {A} (f : A -> bool) l l' :
  l ≡ₚ l' -> existsb f l = existsb f l'.
Proof.
  induction 1; simpl; try congruence.
  destruct (f x), (f y); reflexivity.
Qed.

Lemma Room_loop_cannot_act fuel l s :
  Inv (world s) -> items_valid (world s) l ->
  existsb (stationary_can_act (world s)) l = false ->
  Room_perform_action_loop fuel l s = Ok (None, s).
Proof.
  intros HI. induction l as [|a l IH]; intros Hv Hno; simpl; [reflexivity|].
  simpl in Hno. apply orb_false_iff in Hno. destruct Hno as [Ha Hl].
  destruct (Hv a (list_elem_of_here _ _)) as (x & Hx & _).
  rewrite (bind_run _ _ _ _ _ (stationary_cannot_act fuel a s x HI Hx Ha)).
  apply IH; [|exact Hl]. intros b Hb. apply Hv. apply list_elem_of_further. exact Hb.
Qed.

Lemma Room_loop_can_act l s :
  Inv (world s) -> items_valid (world s) l -> fair (rand s) ->
  existsb (stationary_can_act (world s)) l = true ->
  exists n s', converges (fun fuel => Room_perform_action_loop fuel l) s (Ok (Some n, s')).
Proof.
  intros HI Hv Hfair. induction l as [|a l IH]; intros Hyes; simpl in Hyes; [discriminate|].
  destruct (Hv a (list_elem_of_here _ _)) as (x & Hx & Hok).
  destruct (stationary_can_act (world s) a) eqn:Ha.
  - destruct (stationary_can_act_converges a s x HI Hx Hok Hfair Ha) as (n & s' & n0 & Hrun).
    exists n, s', n0. intros fuel Hle. simpl.
    rewrite (bind_run _ _ _ _ _ (Hrun fuel Hle)). reflexivity.
  - destruct IH as (n & s' & n0 & Hrun).
    { intros b Hb. apply Hv. apply list_elem_of_further. exact Hb. }
    { exact Hyes. }
    exists n, s', n0. intros fuel Hle. simpl.
    rewrite (bind_run _ _ _ _ _ (stationary_cannot_act fuel a s x HI Hx Ha)).
    apply Hrun. exact Hle.
Qed.

Lemma room_items_valid w r : Inv w -> r ∈ rooms w -> items_valid w (r_items r).
Proof.
  intros HI Hr a Ha. destruct (inv_rooms w HI r a Hr Ha) as (x & Hx & _ & Hok). eauto.
Qed.

Lemma items_valid_Permutation w l l' : l ≡ₚ l' -> items_valid w l -> items_valid w l'.
Proof. intros Hp Hv a Ha. apply Hv. rewrite Hp. exact Ha. Qed.

Lemma Room_cannot_act r s :
  Inv (world s) -> r ∈ rooms (world s) ->
  room_can_act (world s) r = false ->
  exists s1, world s1 = world s /\ same_env s s1
             /\ forall fuel, Room_perform_action fuel r s = Ok (None, s1).
Proof.
  intros HI Hr Hno. unfold Room_perform_action.
  destruct (shuffle_total (r_items r) s) as (l & s1 & Hsh).
  destruct (shuffle_inv _ _ _ _ Hsh) as (Hperm & Hw & He).
  exists s1. split; [exact Hw|]. split; [exact He|]. intros fuel.
  rewrite (bind_run _ _ _ _ _ Hsh).
  apply Room_loop_cannot_act.
  - rewrite Hw. exact HI.
  - rewrite Hw. apply (items_valid_Permutation _ (r_items r)).
    + rewrite <- Hperm. apply Permutation_rev.
    + apply room_items_valid; assumption.
  - rewrite Hw. rewrite <- Hno. unfold room_can_act. apply existsb_Permutation.
    rewrite <- Hperm. symmetry. apply Permutation_rev.
Qed.

Lemma Room_can_act_converges r s :
  Inv (world s) -> r ∈ rooms (world s) -> fair (rand s) ->
  room_can_act (world s) r = true ->
  exists n s', converges (fun fuel => Room_perform_action fuel r) s (Ok (Some n, s')).
Proof.
  intros HI Hr Hfair Hyes. unfold Room_perform_action.
  destruct (shuffle_total (r_items r) s) as (l & s1 & Hsh).
  destruct (shuffle_inv _ _ _ _ Hsh) as (Hperm & Hw & (Hrand & _)).
  destruct (Room_loop_can_act (rev l) s1) as (n & s' & n0 & Hrun).
  - rewrite Hw. exact HI.
  - rewrite Hw. apply (items_valid_Permutation _ (r_items r)).
    + rewrite <- Hperm. apply Permutation_rev.
    + apply room_items_valid; assumption.
  - rewrite Hrand. exact Hfair.
  - rewrite Hw. rewrite <- Hyes. unfold room_can_act. apply existsb_Permutation.
    rewrite <- Hperm. symmetry. apply Permutation_rev.
  - exists n, s', n0. intros fuel Hle. rewrite (bind_run _ _ _ _ _ Hsh). apply Hrun. exact Hle.
Qed.

Lemma MovableItem_perform_action_None i s j :
  p_item (person (world s)) = Some j -> MovableItem_perform_action i s = Ok (None, s).
Proof.
  intros Hp. unfold MovableItem_perform_action, get_person.
  rewrite (bind_run _ _ _ _ _ (eq_refl : bind get_world _ s = Ok (person (world s), s))).
  rewrite Hp. reflexivity.
Qed.

Lemma MovableItem_perform_action_Some i s :
  Inv (world s) -> i ∈ movable_items (world s) ->
  p_item (person (world s)) = None ->
  exists n s', MovableItem_perform_action i s = Ok (Some n, s').
Proof.
  intros HI Hi Hp. destruct (inv_own _ HI i Hi) as (it & Hit & Hiff).
  destruct (m_container it) as [c|] eqn:Hc.
  2: { destruct Hiff as [Hiff _]. specialize (Hiff eq_refl). congruence. }
  destruct (inv_placed _ HI i it c Hi Hit Hc) as (x & Hx & _).
  unfold MovableItem_perform_action, get_person.
  rewrite (bind_run _ _ _ _ _ (eq_refl : bind get_world _ s = Ok (person (world s), s))).
  rewrite Hp. rewrite (bind_run _ _ _ _ _ (get_movable_run _ _ _ Hit)). rewrite Hc.
  rewrite (bind_run _ _ _ _ _ (get_stationary_run _ _ _ Hx)).
  eexists _, _. reflexivity.
Qed.

Lemma Phone_interact_run i s it :
  movables (world s) !! i = Some it -> exists n s', Phone_interact i s = Ok (Some n, s').
Proof.
  intros Hit. unfold Phone_interact.
  rewrite (bind_run _ _ _ _ _ (get_movable_run _ _ _ Hit)). eexists _, _. reflexivity.
Qed.

Lemma MovableInteractable_perform_action_total k : forall s i,
  Inv (world s) -> i ∈ movable_items (world s) ->
  rand s (cursor s + k) mod 2 = 0 ->
  exists n s', forall fuel, k < fuel ->
    MovableInteractable_perform_action fuel i s = Ok (Some n, s').
Proof.
  induction k as [|k IH]; intros s i HI Hi Hk.
  - rewrite Nat.add_0_r in Hk. destruct (inv_own _ HI i Hi) as (it & Hit & _).
    destruct (Phone_interact_run i (with_cursor s (S (cursor s))) it Hit) as (n & s' & Hrun).
    exists n, s'. intros [|fuel] Hlt; [lia|]. simpl.
    rewrite (bind_run _ _ _ _ _ (coin_run s)). rewrite bool_decide_eq_true_2 by exact Hk.
    rewrite (bind_run _ _ _ _ _ Hrun). reflexivity.
  - set (s1 := with_cursor s (S (cursor s))).
    destruct (inv_own _ HI i Hi) as (it & Hit & _).
    destruct (bool_decide (rand s (cursor s) mod 2 = 0)) eqn:Hc.
    + destruct (Phone_interact_run i s1 it Hit) as (n & s' & Hrun).
      exists n, s'. intros [|fuel] Hlt; [lia|]. simpl.
      rewrite (bind_run _ _ _ _ _ (coin_run s)). rewrite Hc.
      rewrite (bind_run _ _ _ _ _ Hrun). reflexivity.
    + destruct (p_item (person (world s1))) as [j|] eqn:Hp.
      * pose proof (MovableItem_perform_action_None i s1 j Hp) as Hrun.
        destruct (IH s1 i HI Hi) as (n & s' & Hall).
        { simpl. replace (S (cursor s + k)) with (cursor s + S k) by lia. exact Hk. }
        exists n, s'. intros [|fuel] Hlt; [lia|]. simpl.
        rewrite (bind_run _ _ _ _ _ (coin_run s)). rewrite Hc.
        rewrite (bind_run _ _ _ _ _ Hrun). apply Hall. lia.
      * destruct (MovableItem_perform_action_Some i s1 HI Hi Hp) as (n & s' & Hrun).
        exists n, s'. intros [|fuel] Hlt; [lia|]. simpl.
        rewrite (bind_run _ _ _ _ _ (coin_run s)). rewrite Hc.
        rewrite (bind_run _ _ _ _ _ Hrun). reflexivity.
Qed.

Lemma movable_cannot_act fuel i s :
  Inv (world s) -> i ∈ movable_items (world s) ->
  movable_can_act (world s) i = false ->
  movable_perform_action fuel i s = Ok (None, s).
Proof.
  intros HI Hi Hno. destruct (inv_own _ HI i Hi) as (it & Hit & _).
  unfold movable_can_act in Hno. rewrite Hit in Hno.
  unfold movable_perform_action.
  rewrite (bind_run _ _ _ _ _ (get_movable_run _ _ _ Hit)).
  destruct (m_type it); try discriminate;
    destruct (p_item (person (world s))) as [j|] eqn:Hp; try discriminate;
    apply (MovableItem_perform_action_None i s j Hp).
Qed.

Lemma movable_can_act_converges i s :
  Inv (world s) -> i ∈ movable_items (world s) -> fair (rand s) ->
  movable_can_act (world s) i = true ->
  exists n s', converges (fun fuel => movable_perform_action fuel i) s (Ok (Some n, s')).
Proof.
  intros HI Hi Hfair Hyes. destruct (inv_own _ HI i Hi) as (it & Hit & _).
  unfold movable_can_act in Hyes. rewrite Hit in Hyes.
  unfold converges, movable_perform_action.
  assert (Hplain : m_type it <> Phone ->
            exists n s', MovableItem_perform_action i s = Ok (Some n, s')).
  { intros Hty. apply MovableItem_perform_action_Some; try assumption.
    destruct (m_type it); try congruence;
      destruct (p_item (person (world s))); congruence. }
  destruct (m_type it) eqn:Hty.
  1-4: destruct (Hplain ltac:(discriminate)) as (n & s' & Hrun); exists n, s', 0;
       intros fuel _; rewrite (bind_run _ _ _ _ _ (get_movable_run _ _ _ Hit));
       rewrite Hty; exact Hrun.
  destruct (Hfair (cursor s)) as (k & Hk).
  destruct (MovableInteractable_perform_action_total k s i HI Hi Hk) as (n & s' & Hall).
  exists n, s', (S k). intros fuel Hle.
  rewrite (bind_run _ _ _ _ _ (get_movable_run _ _ _ Hit)). rewrite Hty.
  apply Hall. lia.
Qed.

(** ** Termination of the retry loop *)

Lemma loop_S fuel rs ms :
  generate_state_change_loop (S fuel) rs ms =
    if bool_decide (rs = [] /\ ms = []) then raise AssertionError
    else
      b <- (match rs return M bool with [] => ret false | _ => coin end) ;;
      '(rs1, found) <- room_phase fuel b rs ;;
      match found with
      | Some a => ret (a, rs1, ms)
      | None => movable_phase fuel rs1 ms
      end.
Proof. reflexivity. Qed.

Lemma outcome_ext {A} (f g : nat -> M A) s s' c :
  (forall fuel, f fuel s = g fuel s') -> outcome g s' c -> outcome f s c.
Proof.
  intros Heq. unfold outcome, converges. destruct c.
  - intros (r & s2 & n0 & H). exists r, s2, n0. intros fuel Hle. rewrite Heq. auto.
  - intros (n0 & H). exists n0. intros fuel Hle. rewrite Heq. auto.
Qed.

Lemma outcome_step {A} (f g : nat -> M A) s s' c :
  (forall fuel, f (S fuel) s = g fuel s') -> outcome g s' c -> outcome f s c.
Proof.
  intros Heq. unfold outcome, converges. destruct c.
  - intros (r & s2 & n0 & H). exists r, s2, (S n0). intros [|fuel] Hle; [lia|].
    rewrite Heq. apply H. lia.
  - intros (n0 & H). exists (S n0). intros [|fuel] Hle; [lia|].
    rewrite Heq. apply H. lia.
Qed.

Lemma movable_phase_outcome m :
  loop_outcome m ->
  forall rs ms s, ms <> [] -> length rs + length ms <= S m -> loop_pre rs ms s ->
    outcome (fun fuel => movable_phase fuel rs ms) s (pools_can_act (world s) rs ms).
Proof.
  intros IH rs ms s Hne Hlen (HI & Hrs & Hms & Hfair).
  assert (Hlen0 : length ms <> 0) by (destruct ms; [contradiction | discriminate]).
  set (k := rand s (cursor s) mod length ms).
  set (s1 := with_cursor s (S (cursor s))).
  destruct (pop_at_run k ms) as (item & rest & Hpop).
  { apply Nat.mod_upper_bound. exact Hlen0. }
  pose proof (pop_at_inv _ _ _ _ Hpop) as Hperm.
  assert (Hitem : item ∈ movable_items (world s)).
  { apply Hms. rewrite Hperm. apply list_elem_of_here. }
  assert (Hex : existsb (movable_can_act (world s)) ms =
                movable_can_act (world s) item || existsb (movable_can_act (world s)) rest).
  { rewrite (existsb_Permutation _ _ _ Hperm). reflexivity. }
  assert (Hunf : forall fuel, movable_phase fuel rs ms s =
            (action <- movable_perform_action fuel item ;;
             match action with
             | Some a => ret (a, rs, rest)
             | None => generate_state_change_loop fuel rs rest
             end) s1).
  { intros fuel. unfold movable_phase. destruct ms as [|m0 ms0]; [contradiction|].
    rewrite (bind_run _ _ _ _ _ (randrange_run _ s Hlen0)). fold k. rewrite Hpop.
    reflexivity. }
  destruct (movable_can_act (world s) item) eqn:Hact.
  - unfold pools_can_act. rewrite Hex. rewrite orb_true_l, orb_true_r. unfold outcome.
    destruct (movable_can_act_converges item s1 HI Hitem Hfair Hact) as (n & s' & n0 & Hrun).
    exists (n, rs, rest), s', n0. intros fuel Hle. rewrite Hunf.
    rewrite (bind_run _ _ _ _ _ (Hrun fuel Hle)). reflexivity.
  - assert (Hsame : pools_can_act (world s) rs ms = pools_can_act (world s1) rs rest).
    { unfold pools_can_act. rewrite Hex. reflexivity. }
    rewrite Hsame. eapply outcome_ext; [|apply (IH rs rest s1)].
    + intros fuel. rewrite Hunf.
      rewrite (bind_run _ _ _ _ _ (movable_cannot_act fuel item s1 HI Hitem Hact)).
      reflexivity.
    + assert (length ms = S (length rest)) by (rewrite Hperm; reflexivity). lia.
    + split; [exact HI|]. split; [exact Hrs|]. split; [|exact Hfair].
      intros i Hi. apply Hms. rewrite Hperm. apply list_elem_of_further. exact Hi.
Qed.

Lemma room_taken_outcome m :
  loop_outcome m ->
  forall rs ms s, rs <> [] -> length rs + length ms <= S m -> loop_pre rs ms s ->
    outcome (fun fuel =>
               '(rs1, found) <- room_phase fuel true rs ;;
               match found with
               | Some a => ret (a, rs1, ms)
               | None => movable_phase fuel rs1 ms
               end) s (pools_can_act (world s) rs ms).
Proof.
  intros IH rs ms s Hne Hlen (HI & Hrs & Hms & Hfair).
  assert (Hlen0 : length rs <> 0) by (destruct rs; [contradiction | discriminate]).
  set (k := rand s (cursor s) mod length rs).
  set (s1 := with_cursor s (S (cursor s))).
  destruct (pop_at_run k rs) as (room & rest & Hpop).
  { apply Nat.mod_upper_bound. exact Hlen0. }
  pose proof (pop_at_inv _ _ _ _ Hpop) as Hperm.
  assert (Hroom : room ∈ rooms (world s)).
  { apply Hrs. rewrite Hperm. apply list_elem_of_here. }
  assert (Hex : existsb (room_can_act (world s)) rs =
                room_can_act (world s) room || existsb (room_can_act (world s)) rest).
  { rewrite (existsb_Permutation _ _ _ Hperm). reflexivity. }
  assert (Hlenr : length rs = S (length rest)) by (rewrite Hperm; reflexivity).
  assert (Hunf : forall fuel,
            ('(rs1, found) <- room_phase fuel true rs ;;
             match found with
             | Some a => ret (a, rs1, ms)
             | None => movable_phase fuel rs1 ms
             end) s =
            (action <- Room_perform_action fuel room ;;
             match action with
             | Some a => ret (a, rest, ms)
             | None => movable_phase fuel rest ms
             end) s1).
  { intros fuel. unfold room_phase.
    unfold bind at 1. unfold bind at 1.
    rewrite (randrange_run _ s Hlen0). fold k. fold s1. rewrite Hpop.
    unfold bind. destruct (Room_perform_action fuel room s1) as [[o s2]| |]; reflexivity. }
  destruct (room_can_act (world s) room) eqn:Hact.
  - unfold pools_can_act. rewrite Hex. rewrite !orb_true_l. unfold outcome.
    destruct (Room_can_act_converges room s1 HI Hroom Hfair Hact) as (n & s' & n0 & Hrun).
    exists (n, rest, ms), s', n0. intros fuel Hle. cbv beta. rewrite Hunf.
    rewrite (bind_run _ _ _ _ _ (Hrun fuel Hle)). reflexivity.
  - destruct (Room_cannot_act room s1 HI Hroom Hact) as (s2 & Hw & (Hrand & _) & Hrun).
    assert (Hsame : pools_can_act (world s) rs ms = pools_can_act (world s2) rest ms).
    { unfold pools_can_act. rewrite Hex, Hw. reflexivity. }
    assert (Hpre : loop_pre rest ms s2).
    { split; [rewrite Hw; exact HI|]. split; [|split].
      - intros r Hr. rewrite Hw. apply Hrs. rewrite Hperm. apply list_elem_of_further. exact Hr.
      - intros i Hi. rewrite Hw. apply Hms. exact Hi.
      - rewrite Hrand. exact Hfair. }
    rewrite Hsame. eapply (outcome_ext _ (fun fuel => movable_phase fuel rest ms)).
    { intros fuel. cbv beta. rewrite Hunf. rewrite (bind_run _ _ _ _ _ (Hrun fuel)). reflexivity. }
    destruct ms as [|m0 ms0].
    + apply (IH rest [] s2); [simpl in *; lia | exact Hpre].
    + apply (movable_phase_outcome m IH); [discriminate | simpl in *; lia | exact Hpre].
Qed.

Lemma loop_empty_outcome s :
  outcome (fun fuel => generate_state_change_loop fuel [] []) s false.
Proof. exists 1. intros [|fuel] Hle; [lia | reflexivity]. Qed.

Lemma coin_outcome m :
  loop_outcome m ->
  forall k rs ms s, length rs + length ms <= S m -> loop_pre rs ms s ->
    rand s (cursor s + k) mod 2 = 0 ->
    outcome (fun fuel => generate_state_change_loop fuel rs ms) s
            (pools_can_act (world s) rs ms).
Proof.
  intros IH. induction k as [|k IHk]; intros rs ms s Hlen Hpre Hk.
  - destruct rs as [|r0 rs0].
    + destruct ms as [|m0 ms0]; [apply loop_empty_outcome|].
      eapply outcome_step; [|apply (movable_phase_outcome m IH [] (m0 :: ms0) s);
                              [discriminate | exact Hlen | exact Hpre]].
      intros fuel. rewrite loop_S. reflexivity.
    + rewrite Nat.add_0_r in Hk.
      eapply outcome_step; [|apply (room_taken_outcome m IH (r0 :: rs0) ms
                                      (with_cursor s (S (cursor s))));
                              [discriminate | exact Hlen | exact Hpre]].
      intros fuel. rewrite loop_S.
      rewrite bool_decide_eq_false_2 by (intros [? _]; discriminate).
      rewrite (bind_run _ _ _ _ _ (coin_run s)).
      rewrite bool_decide_eq_true_2 by exact Hk. reflexivity.
  - destruct rs as [|r0 rs0].
    + destruct ms as [|m0 ms0]; [apply loop_empty_outcome|].
      eapply outcome_step; [|apply (movable_phase_outcome m IH [] (m0 :: ms0) s);
                              [discriminate | exact Hlen | exact Hpre]].
      intros fuel. rewrite loop_S. reflexivity.
    + destruct (bool_decide (rand s (cursor s) mod 2 = 0)) eqn:Hc.
      * eapply outcome_step; [|apply (room_taken_outcome m IH (r0 :: rs0) ms
                                        (with_cursor s (S (cursor s))));
                                [discriminate | exact Hlen | exact Hpre]].
        intros fuel. rewrite loop_S.
        rewrite bool_decide_eq_false_2 by (intros [? _]; discriminate).
        rewrite (bind_run _ _ _ _ _ (coin_run s)). rewrite Hc. reflexivity.
      * assert (Hstep : forall fuel,
                  generate_state_change_loop (S fuel) (r0 :: rs0) ms s =
                  movable_phase fuel (r0 :: rs0) ms (with_cursor s (S (cursor s)))).
        { intros fuel. rewrite loop_S.
          rewrite bool_decide_eq_false_2 by (intros [? _]; discriminate).
          rewrite (bind_run _ _ _ _ _ (coin_run s)). rewrite Hc. reflexivity. }
        apply (outcome_step _ (fun fuel => movable_phase fuel (r0 :: rs0) ms) s
                 (with_cursor s (S (cursor s)))); [exact Hstep|].
        destruct ms as [|m0 ms0].
        -- simpl. apply (IHk (r0 :: rs0) [] (with_cursor s (S (cursor s)))).
           ++ exact Hlen.
           ++ exact Hpre.
           ++ simpl. replace (S (cursor s + k)) with (cursor s + S k) by lia. exact Hk.
        -- apply (movable_phase_outcome m IH (r0 :: rs0) (m0 :: ms0)
                    (with_cursor s (S (cursor s)))); [discriminate | exact Hlen | exact Hpre].
Qed.

Lemma loop_outcome_all m : loop_outcome m.
Proof.
  induction m as [|m IH]; intros rs ms s Hlen Hpre.
  - destruct rs; [|simpl in Hlen; lia]. destruct ms; [|simpl in Hlen; lia].
    apply loop_empty_outcome.
  - destruct Hpre as (HI & Hrs & Hms & Hfair).
    destruct (Hfair (cursor s)) as (k & Hk).
    apply (coin_outcome m IH k);
      [exact Hlen | exact (conj HI (conj Hrs (conj Hms Hfair))) | exact Hk].
Qed.

(** ** World generation: what each step does to the state *)

Lemma alloc_stationary_inv x s a s' :
  alloc_stationary x s = Ok (a, s') ->
  a = length (stationaries (world s))
  /\ s' = with_world s (with_stationaries (world s) (stationaries (world s) ++ [x])).
Proof. unfold alloc_stationary. intros H. inv_M. auto. Qed.

Lemma alloc_movable_inv it s a s' :
  alloc_movable it s = Ok (a, s') ->
  a = length (movables (world s))
  /\ s' = with_world s (with_movables (world s) (movables (world s) ++ [it])).
Proof. unfold alloc_movable. intros H. inv_M. auto. Qed.

Lemma randint_inv a b s k s' :
  randint a b s = Ok (k, s') -> a <= k <= b /\ s' = with_cursor s (S (cursor s)).
Proof.
  unfold randint. destruct (decide (b < a)); [discriminate|]. intros H. inv_M.
  match goal with Hc : randbelow _ _ = Ok _ |- _ =>
    apply randbelow_inv in Hc; destruct Hc as [-> ->] end.
  split; [|reflexivity].
  assert (rand s (cursor s) mod (b - a + 1) < b - a + 1)
    by (apply Nat.mod_upper_bound; lia).
  lia.
Qed.

Lemma generate_empty_inv t parent s c s' :
  generate_empty t parent s = Ok (c, s') ->
  exists x s1,
    c = length (stationaries (world s))
    /\ s' = with_world s1 (with_stationaries (world s) (stationaries (world s) ++ [x]))
    /\ world s1 = world s /\ same_env s s1
    /\ s_type x = t /\ s_parent x = parent /\ stationary_ok x
    /\ is_container t = true.
Proof.
  unfold generate_empty. intros H. destruct t; inv_M.
  - apply alloc_stationary_inv in H. destruct H as [-> ->].
    eexists _, s. repeat split.
  - match goal with Hc : randint _ _ _ = Ok _ |- _ =>
      apply randint_inv in Hc; destruct Hc as [Hlv ->] end.
    apply alloc_stationary_inv in H. destruct H as [-> ->].
    eexists _, _. split; [reflexivity|]. split; [reflexivity|]. repeat split.
    + unfold stationary_ok. simpl. lia.
    + unfold stationary_ok. simpl. lia.
  - apply alloc_stationary_inv in H. destruct H as [-> ->].
    eexists _, s. repeat split.
  - match goal with Hc : coin _ = Ok _ |- _ =>
      apply coin_inv in Hc; destruct Hc as [_ ->] end.
    apply alloc_stationary_inv in H. destruct H as [-> ->].
    eexists _, _. split; [reflexivity|]. split; [reflexivity|]. repeat split.
Qed.

Lemma holdables_of_inv t items s h s' :
  holdables_of t items s = Ok (h, s') ->
  s' = s
  /\ sublist h items
  /\ forall a, a ∈ h ->
       exists it, movables (world s) !! a = Some it /\ can_hold t (m_type it) = true.
Proof.
  revert h s'. induction items as [|a items IH]; intros h s' H; simpl in H; inv_M.
  - split; [reflexivity|]. split; [constructor|]. intros a Ha. inversion Ha.
  - match goal with Hc : holdables_of _ _ _ = Ok _ |- _ =>
      apply IH in Hc; destruct Hc as (-> & Hsub & Hall) end.
    split; [reflexivity|].
    match goal with Hx : movables _ !! a = Some ?x |- _ => rename x into it end.
    destruct (can_hold t (m_type it)) eqn:Hc.
    + split; [apply sublist_skip; exact Hsub|]. intros b Hb.
      apply elem_of_cons in Hb. destruct Hb as [-> | Hb]; eauto.
    + split; [apply sublist_cons; exact Hsub | exact Hall].
Qed.

Lemma remove_inv v l l' : Py.remove v l = Some l' -> l ≡ₚ v :: l'.
Proof.
  revert l'. induction l as [|x l IH]; intros l' H; simpl in H; [discriminate|].
  destruct (decide (x = v)) as [->|Hne].
  - inversion H; subst. reflexivity.
  - destruct (Py.remove v l) as [r|] eqn:Hr; simpl in H; [|discriminate].
    inversion H; subst. rewrite (IH r eq_refl). apply perm_swap.
Qed.

Lemma choose_items_inv max_allowed l : forall items acc items' chosen,
  choose_items max_allowed l items acc = Ok (items', chosen) ->
  exists taken rest, chosen = acc ++ taken
                /\ l = taken ++ rest
                /\ items ≡ₚ taken ++ items'
                /\ (length acc <= max_allowed -> length chosen <= max_allowed).
Proof.
  induction l as [|x l IH]; intros items acc items' chosen H; simpl in H.
  - inversion H; subst. exists [], []. rewrite app_nil_r. repeat split; auto.
  - destruct (decide (length acc < max_allowed)) as [Hlt|Hge].
    + destruct (Py.remove x items) as [r|] eqn:Hr; [|discriminate].
      apply IH in H. destruct H as (taken & rest & -> & -> & Hperm & Hlen).
      exists (x :: taken), rest. rewrite <- app_assoc. split; [reflexivity|].
      split; [reflexivity|]. split.
      * rewrite (remove_inv _ _ _ Hr). simpl. rewrite Hperm. reflexivity.
      * intros _. rewrite <- app_assoc in Hlen. apply Hlen. rewrite length_app. simpl. lia.
    + inversion H; subst. exists [], (x :: l). rewrite app_nil_r. repeat split; auto.
Qed.

Lemma place_chosen_inv c x chosen : forall s u s',
  stationaries (world s) !! c = Some x ->
  (forall i, i ∈ chosen -> exists it, movables (world s) !! i = Some it) ->
  NoDup chosen ->
  place_chosen c chosen s = Ok (u, s') ->
  exists ms', world s' = with_movables (world s) ms'
              /\ same_env s s'
              /\ placed_into x c chosen (movables (world s)) ms'.
Proof.
  induction chosen as [|a chosen IH]; intros s u s' Hx Hvalid Hnd H; simpl in H.
  - assert (s' = s) by (unfold ret in H; congruence). subst s'.
    exists (movables (world s)). rewrite with_movables_id. split; [reflexivity|].
    split; [apply same_env_refl|]. split; [reflexivity|]. split; [|reflexivity].
    intros i Hi. inversion Hi.
  - inv_M.
    match goal with Hm : movables _ !! a = Some ?y |- _ => rename y into it; rename Hm into Hit end.
    match goal with Hm : stationaries _ !! c = Some ?y |- _ =>
      assert (y = x) by congruence; subst y end.
    match goal with Hc : generate_relative_location _ _ = Ok (?p, _) |- _ =>
      destruct p as [loc extra]; apply generate_relative_location_inv in Hc;
      destruct Hc as (Hloc & Hw & He) end.
    inv_M.
    match goal with Hc : place_chosen _ _ ?s0 = Ok _ |- _ => set (s3 := s0) in * end.
    assert (Hlt : a < length (movables (world s))) by (eapply lookup_lt_Some; eauto).
    inversion Hnd as [|? ? Hnotin Hnd']; subst.
    apply IH in H.
    + destruct H as (ms' & Hw' & He' & Hlen & Hin & Hout).
      exists ms'. split; [|split].
      * rewrite Hw'. subst s3. simpl. rewrite Hw. destruct (world s); reflexivity.
      * eapply same_env_trans; [exact He|].
        eapply same_env_trans; [apply same_env_with_world | exact He'].
      * subst s3. simpl in *. rewrite Hw in *. rewrite length_insert in Hlen.
        split; [exact Hlen|]. split.
        -- intros i Hi. apply elem_of_cons in Hi. destruct Hi as [-> | Hi].
           ++ exists it. eexists. split; [exact Hit|].
              rewrite (Hout a Hnotin). rewrite list_lookup_insert_eq by exact Hlt.
              split; [reflexivity|]. simpl. split; [reflexivity|]. split; [reflexivity|].
              split; [reflexivity|]. apply relative_location_ok; exact Hloc.
           ++ destruct (Hin i Hi) as (it0 & it' & Hb & Ha & Hrest).
              assert (Hne : a <> i) by (intros ->; contradiction).
              rewrite list_lookup_insert_ne in Hb by exact Hne.
              exists it0, it'. auto.
        -- intros i Hi. apply not_elem_of_cons in Hi. destruct Hi as [Hne Hi].
           rewrite (Hout i Hi). apply list_lookup_insert_ne. congruence.
    + subst s3. simpl. rewrite Hw. exact Hx.
    + intros i Hi. subst s3. simpl. rewrite Hw.
      destruct (decide (a = i)) as [<-|Hne].
      * rewrite list_lookup_insert_eq by exact Hlt. eauto.
      * rewrite list_lookup_insert_ne by exact Hne. apply Hvalid.
        apply list_elem_of_further. exact Hi.
    + exact Hnd'.
Qed.

Lemma get_movables_inv l s r s' : get_movables l s = Ok (r, s') -> s' = s.
Proof.
  revert r s'. induction l as [|a l IH]; intros r s' H; simpl in H; inv_M; [reflexivity|].
  match goal with Hc : get_movables _ _ = Ok _ |- _ => apply IH in Hc; subst end.
  reflexivity.
Qed.

Lemma Container_generate_instance_spec t parent items max_allowed s c d items' s' :
  NoDup items ->
  Container_generate_instance t parent items max_allowed s = Ok ((c, d, items'), s') ->
  exists x chosen ms',
    c = length (stationaries (world s))
    /\ world s' = with_movables
                   (with_stationaries (world s) (stationaries (world s) ++ [x])) ms'
    /\ same_env s s'
    /\ s_type x = t /\ s_parent x = parent /\ stationary_ok x /\ is_container t = true
    /\ items ≡ₚ chosen ++ items'
    /\ length chosen <= max_allowed
    /\ (forall i, i ∈ chosen ->
          exists it, movables (world s) !! i = Some it /\ can_hold t (m_type it) = true)
    /\ placed_into x c chosen (movables (world s)) ms'.
Proof.
  intros Hnd H. unfold Container_generate_instance in H.
  apply bind_Ok in H. destruct H as (h & s1 & Hh & H).
  apply holdables_of_inv in Hh. destruct Hh as (-> & Hsub & Hhold).
  apply bind_Ok in H. destruct H as (h' & s2 & Hsh & H).
  apply shuffle_inv in Hsh. destruct Hsh as (Hperm & Hw2 & He2).
  apply bind_Ok in H. destruct H as ([items1 chosen] & s3 & Hch & H).
  apply lift_Ok in Hch. destruct Hch as [Hch ->].
  apply choose_items_inv in Hch.
  destruct Hch as (taken & rest & Hchosen & Hrev & Hitems & Hlen).
  simpl in Hchosen. subst chosen.
  apply bind_Ok in H. destruct H as (c0 & s4 & Hge & H).
  apply generate_empty_inv in Hge.
  destruct Hge as (x & s3 & -> & -> & Hw3 & He3 & Hty & Hpar & Hok & Hcont).
  apply bind_Ok in H. destruct H as (u & s5 & Hpl & H).
  assert (Hnd_h : NoDup h) by (eapply sublist_NoDup; eassumption).
  assert (Hnd_t : NoDup taken).
  { assert (Hnd_rev : NoDup (rev h')).
    { rewrite <- (Permutation_rev h'). rewrite Hperm. exact Hnd_h. }
    rewrite Hrev in Hnd_rev. apply NoDup_app in Hnd_rev. tauto. }
  assert (Hin_t : forall i, i ∈ taken -> i ∈ h).
  { intros i Hi. rewrite <- Hperm. rewrite (Permutation_rev h'). rewrite Hrev.
    apply elem_of_app. left. exact Hi. }
  apply (place_chosen_inv _ x) in Hpl.
  2: { simpl. rewrite Hw2. apply list_lookup_middle. reflexivity. }
  2: { intros i Hi. simpl. rewrite Hw2.
       destruct (Hhold i (Hin_t i Hi)) as (it & Hit & _). eauto. }
  2: { exact Hnd_t. }
  destruct Hpl as (ms' & Hw5 & He5 & Hplaced).
  apply bind_Ok in H. destruct H as (chosen' & s6 & Hsh2 & H).
  apply shuffle_inv in Hsh2. destruct Hsh2 as (_ & Hw6 & He6).
  inv_M.
  match goal with Hc : get_movables _ _ = Ok _ |- _ => apply get_movables_inv in Hc; subst end.
  exists x, taken, ms'. split; [rewrite Hw2; reflexivity|]. split.
  { rewrite Hw6, Hw5. simpl. rewrite Hw2. reflexivity. }
  split.
  { eapply same_env_trans; [exact He2|]. eapply same_env_trans; [exact He3|].
    eapply same_env_trans; [apply same_env_with_world|].
    eapply same_env_trans; [exact He5 | exact He6]. }
  repeat (split; [first [assumption | reflexivity]|]).
  split; [apply Hlen; simpl; lia|]. split.
  - intros i Hi. apply Hhold. apply Hin_t. exact Hi.
  - simpl in Hplaced. rewrite Hw2 in *. exact Hplaced.
Qed.

(** ** The invariant of room generation *)

Lemma filter_length_mono {A} (P Q : A -> Prop) `{!forall x, Decision (P x)}
    `{!forall x, Decision (Q x)} (l : list A) :
  (forall x, x ∈ l -> P x -> Q x) -> length (filter P l) <= length (filter Q l).
Proof.
  induction l as [|a l IH]; intros Himp; [reflexivity|].
  rewrite !filter_cons.
  assert (IH' : length (filter P l) <= length (filter Q l)).
  { apply IH. intros x Hx. apply Himp. apply list_elem_of_further. exact Hx. }
  destruct (decide (P a)) as [Hp|Hp]; destruct (decide (Q a)) as [Hq|Hq]; simpl; try lia.
  exfalso. apply Hq. apply Himp; [apply list_elem_of_here | exact Hp].
Qed.

Lemma filter_length_chosen {A} (P : A -> Prop) `{!forall x, Decision (P x)}
    (l chosen : list A) :
  NoDup l -> (forall x, x ∈ l -> P x -> x ∈ chosen) ->
  length (filter P l) <= length chosen.
Proof.
  intros Hnd Himp. apply submseteq_length. apply NoDup_submseteq.
  - apply NoDup_filter. exact Hnd.
  - intros x Hx. apply list_elem_of_filter in Hx. destruct Hx as [Hp Hx]. auto.
Qed.

Lemma GInv_place w items pend parent x chosen items' ms' :
  GInv w items pend parent ->
  s_parent x = parent -> stationary_ok x ->
  items ≡ₚ chosen ++ items' ->
  (forall i, i ∈ chosen ->
     exists it, movables w !! i = Some it /\ can_hold (s_type x) (m_type it) = true) ->
  placed_into x (length (stationaries w)) chosen (movables w) ms' ->
  length chosen <= 2 ->
  GInv (with_movables (with_stationaries w (stationaries w ++ [x])) ms')
       items' (length (stationaries w) :: pend) parent.
Proof.
  intros [Hhand Hpnd Hrnd Hsub Hunp Hpl Hrooms Hpend Hcap] Hpar Hok Hperm Hhold
         (Hlen & Hin & Hout) Hlen2.
  assert (Hnd : NoDup (chosen ++ items')) by (rewrite <- Hperm; exact Hrnd).
  apply NoDup_app in Hnd. destruct Hnd as (Hndc & Hdisj & Hndi).
  assert (Hold : forall c y, stationaries w !! c = Some y ->
            (stationaries w ++ [x]) !! c = Some y).
  { intros c y Hy. rewrite lookup_app_l; [exact Hy|]. eapply lookup_lt_Some; eauto. }
  split; simpl.
  - exact Hhand.
  - exact Hpnd.
  - exact Hndi.
  - intros i Hi. apply Hsub. rewrite Hperm. apply elem_of_app. right. exact Hi.
  - intros i Hi.
    assert (Hnc : i ∉ chosen) by (intros Hc; exact (Hdisj i Hc Hi)).
    rewrite (Hout i Hnc). apply Hunp. rewrite Hperm. apply elem_of_app. right. exact Hi.
  - intros i Hi Hni. destruct (decide (i ∈ chosen)) as [Hc|Hnc].
    + destruct (Hin i Hc) as (it & it' & Hb & Ha & Hcont & Hty & _ & Hloc).
      destruct (Hhold i Hc) as (it0 & Hit0 & Hch).
      assert (it0 = it) by congruence. subst it0.
      exists it', (length (stationaries w)), x. split; [exact Ha|]. split; [exact Hcont|].
      split; [apply list_lookup_middle; reflexivity|]. split; [rewrite Hty; exact Hch|].
      split; [exact Hloc|]. left. apply list_elem_of_here.
    + assert (Hnr : i ∉ items).
      { rewrite Hperm. intros Hx. apply elem_of_app in Hx. tauto. }
      destruct (Hpl i Hi Hnr) as (it & c & y & Hit & Hcont & Hy & Hch & Hloc & Hwhere).
      exists it, c, y. rewrite (Hout i Hnc). split; [exact Hit|]. split; [exact Hcont|].
      split; [apply Hold; exact Hy|]. split; [exact Hch|]. split; [exact Hloc|].
      destruct Hwhere as [Hp | Hr]; [left; apply list_elem_of_further; exact Hp | right; exact Hr].
  - intros r a Hr Ha. destruct (Hrooms r a Hr Ha) as (y & Hy & Hrest).
    exists y. split; [apply Hold; exact Hy | exact Hrest].
  - intros a Ha. apply elem_of_cons in Ha. destruct Ha as [-> | Ha].
    + exists x. split; [apply list_lookup_middle; reflexivity | auto].
    + destruct (Hpend a Ha) as (y & Hy & Hrest).
      exists y. split; [apply Hold; exact Hy | exact Hrest].
  - intros c. unfold contents, item_container. simpl.
    destruct (decide (c = length (stationaries w))) as [->|Hne].
    + etransitivity; [|exact Hlen2]. apply filter_length_chosen; [exact Hpnd|].
      intros i Hi Hc. destruct (decide (i ∈ chosen)) as [Hin'|Hnc]; [exact Hin'|exfalso].
      rewrite (Hout i Hnc) in Hc.
      destruct (decide (i ∈ items)) as [Hr|Hnr].
      * destruct (Hunp i Hr) as (it & Hit & Hnone). rewrite Hit in Hc. congruence.
      * destruct (Hpl i Hi Hnr) as (it & c & y & Hit & Hcont & Hy & _).
        rewrite Hit in Hc. assert (c = length (stationaries w)) by congruence. subst c.
        apply lookup_lt_Some in Hy. lia.
    + etransitivity; [|exact (Hcap c)]. unfold contents, item_container.
      apply filter_length_mono. intros i Hi Hc.
      destruct (decide (i ∈ chosen)) as [Hin'|Hnc].
      * destruct (Hin i Hin') as (it & it' & _ & Ha & Hcont & _).
        rewrite Ha in Hc. congruence.
      * rewrite (Hout i Hnc) in Hc. exact Hc.
Qed.

Lemma GInv_alloc w items pend parent x :
  GInv w items pend parent ->
  s_parent x = parent -> stationary_ok x ->
  GInv (with_stationaries w (stationaries w ++ [x])) items
       (length (stationaries w) :: pend) parent.
Proof.
  intros HG Hpar Hok.
  apply (GInv_place w items pend parent x [] items (movables w) HG Hpar Hok).
  - reflexivity.
  - intros i Hi. inversion Hi.
  - split; [reflexivity|]. split; [|reflexivity]. intros i Hi. inversion Hi.
  - simpl. lia.
Qed.

Lemma GInv_pending w items pend pend' parent :
  (forall a, a ∈ pend' <-> a ∈ pend) ->
  GInv w items pend parent -> GInv w items pend' parent.
Proof.
  intros Heq [Hhand Hpnd Hrnd Hsub Hunp Hpl Hrooms Hpend Hcap]. split; auto.
  - intros i Hi Hni. destruct (Hpl i Hi Hni) as (it & c & y & H1 & H2 & H3 & H4 & H5 & Hw).
    exists it, c, y. repeat (split; [assumption|]).
    destruct Hw as [Hp | Hr]; [left; apply Heq; exact Hp | right; exact Hr].
  - intros a Ha. apply Hpend. apply Heq. exact Ha.
Qed.

Lemma same_env_globals s s' : same_env s s' -> same_globals s s'.
Proof. intros (H1 & _ & H2). split; assumption. Qed.

Lemma same_globals_refl s : same_globals s s.
Proof. split; reflexivity. Qed.

Lemma same_globals_trans s1 s2 s3 :
  same_globals s1 s2 -> same_globals s2 s3 -> same_globals s1 s3.
Proof. unfold same_globals. intros (-> & ->) (-> & ->). split; reflexivity. Qed.

Lemma same_pools_trans w1 w2 w3 : same_pools w1 w2 -> same_pools w2 w3 -> same_pools w1 w3.
Proof. unfold same_pools. intros (-> & ->) (-> & ->). split; reflexivity. Qed.

Lemma stationary_generate_instance_GInv t parent items s a d items' s' pend :
  GInv (world s) items pend parent ->
  stationary_generate_instance t parent items 2 s = Ok ((a, d, items'), s') ->
  GInv (world s') items' (a :: pend) parent /\ same_env s s'
  /\ same_pools (world s) (world s').
Proof.
  intros HG H.
  assert (Hcon : Container_generate_instance t parent items 2 s = Ok ((a, d, items'), s') ->
            GInv (world s') items' (a :: pend) parent /\ same_env s s'
            /\ same_pools (world s) (world s')).
  { intros Hc. apply Container_generate_instance_spec in Hc; [|exact (g_rem_nodup _ _ _ _ HG)].
    destruct Hc as (x & chosen & ms' & -> & Hw & He & <- & Hpar & Hok & _ & Hperm & Hlen2
                    & Hhold & Hplaced).
    split; [|split; [exact He | rewrite Hw; split; reflexivity]].
    rewrite Hw. eapply GInv_place; eassumption. }
  assert (Halloc : forall x s1, world s1 = world s -> same_env s s1 ->
            s_parent x = parent -> stationary_ok x ->
            alloc_stationary x s1 = Ok (a, s') -> items' = items ->
            GInv (world s') items' (a :: pend) parent /\ same_env s s'
            /\ same_pools (world s) (world s')).
  { intros x s1 Hw He Hpar Hok Ha ->. apply alloc_stationary_inv in Ha.
    destruct Ha as [-> ->]. simpl. rewrite Hw. split; [|split].
    - apply GInv_alloc; assumption.
    - eapply same_env_trans; [exact He | apply same_env_with_world].
    - split; reflexivity. }
  unfold stationary_generate_instance in H. destruct t; auto; inv_M.
  - match goal with Hc : coin _ = Ok _ |- _ => apply coin_inv in Hc; destruct Hc as [_ ->] end.
    eapply Halloc; try eassumption; try reflexivity. apply same_env_with_cursor.
  - match goal with Hc : coin _ = Ok _ |- _ => apply coin_inv in Hc; destruct Hc as [_ ->] end.
    eapply Halloc; try eassumption; try reflexivity. apply same_env_with_cursor.
  - match goal with Hc : coin _ = Ok _ |- _ => apply coin_inv in Hc; destruct Hc as [_ ->] end.
    match goal with Hc : random_choice _ _ = Ok _ |- _ =>
      apply random_choice_inv in Hc; destruct Hc as [Hin ->] end.
    eapply Halloc; try eassumption; try reflexivity.
    + eapply same_env_trans; apply same_env_with_cursor.
    + exact Hin.
Qed.

Lemma generate_stationaries_GInv parent types : forall items s its descs items' s' pend,
  GInv (world s) items pend parent ->
  generate_stationaries parent types items s = Ok ((its, descs, items'), s') ->
  GInv (world s') items' (its ++ pend) parent /\ same_env s s'
  /\ same_pools (world s) (world s').
Proof.
  induction types as [|t types IH]; intros items s its descs items' s' pend HG H;
    simpl in H.
  - unfold ret in H. inversion H; subst.
    split; [exact HG | split; [apply same_env_refl | split; reflexivity]].
  - destruct (room_can_hold (room_class parent) t); simpl in H.
    + apply bind_Ok in H. destruct H as ([[a d] items1] & s1 & Hgen & H).
      apply (stationary_generate_instance_GInv _ _ _ _ _ _ _ _ pend HG) in Hgen.
      destruct Hgen as (HG1 & He1 & Hp1).
      apply bind_Ok in H. destruct H as ([[its0 descs0] items2] & s2 & Hrest & H).
      apply (IH _ _ _ _ _ _ _ HG1) in Hrest. destruct Hrest as (HG2 & He2 & Hp2).
      unfold ret in H. inversion H; subst. split; [|split].
      * eapply GInv_pending; [|exact HG2]. intros b. simpl.
        rewrite !elem_of_cons, !elem_of_app, !elem_of_cons. tauto.
      * eapply same_env_trans; eassumption.
      * eapply same_pools_trans; eassumption.
    + apply (IH _ _ _ _ _ _ _ HG H).
Qed.

Lemma pop_random_inv pool s r s' :
  pop_random pool s = Ok (r, s') -> world s' = world s /\ same_env s s'.
Proof.
  unfold pop_random. destruct pool as [|p pool]; intros H; inv_M.
  - split; [reflexivity | apply same_env_refl].
  - match goal with Hc : randrange _ _ = Ok _ |- _ =>
      apply randrange_inv in Hc; destruct Hc as (_ & _ & _ & ->) end.
    destruct (Py.pop_at _ _); inv_M. split; [reflexivity | apply same_env_with_cursor].
Qed.

Lemma Room_generate_empty_inv t s r s' :
  Room_generate_empty t s = Ok (r, s') -> world s' = world s /\ same_globals s s'.
Proof.
  unfold Room_generate_empty. intros H.
  apply bind_Ok in H. destruct H as (c & s1 & Hc & H).
  unfold get_classes in Hc. inversion Hc; subst c s1. clear Hc.
  assert (Hput : forall c u s2, put_classes c s = Ok (u, s2) ->
            world s2 = world s /\ same_globals s s2).
  { intros c u s2 Hp. unfold put_classes in Hp. inversion Hp; subst.
    split; [reflexivity | split; reflexivity]. }
  destruct t.
  - destruct (Kitchen_generated (classes s)).
    + unfold ret in H. inversion H; subst. split; [reflexivity | apply same_globals_refl].
    + apply bind_Ok in H. destruct H as (u & s2 & Hp & H). apply Hput in Hp.
      unfold ret in H. inversion H; subst. exact Hp.
  - destruct (LivingRoom_generated (classes s)).
    + unfold ret in H. inversion H; subst. split; [reflexivity | apply same_globals_refl].
    + apply bind_Ok in H. destruct H as (u & s2 & Hp & H). apply Hput in Hp.
      unfold ret in H. inversion H; subst. exact Hp.
  - apply bind_Ok in H. destruct H as (o & s2 & Hp & H).
    apply pop_random_inv in Hp. destruct Hp as (Hw & He). apply same_env_globals in He.
    destruct o as [[name rest]|].
    + apply bind_Ok in H. destruct H as (u & s3 & Hp & H).
      unfold put_classes in Hp. inversion Hp; subst u s3. clear Hp.
      unfold ret in H. inversion H; subst. split; [exact Hw|].
      destruct He as [Hr Hg]. split; [exact Hr | exact Hg].
    + unfold ret in H. inversion H; subst. split; [exact Hw | exact He].
Qed.

Lemma room_description_from_inv name i l s d s' :
  room_description_from name i l s = Ok (d, s') -> s' = s.
Proof.
  revert i d s'. induction l as [|[a ds] l IH]; intros i d s' H; simpl in H; inv_M.
  - reflexivity.
  - match goal with Hc : room_description_from _ _ _ _ = Ok _ |- _ => apply IH in Hc end.
    assumption.
Qed.

Lemma room_id_of_parent parent items :
  room_id {| r_class := room_class parent; r_name := room_name parent;
             r_pddl_name := room_pddl_name parent; r_items := items |} = parent.
Proof. destruct parent; reflexivity. Qed.

Lemma Room_generate_with_description_spec t items s res items' s' parent0 :
  GInv (world s) items [] parent0 ->
  Room_generate_with_description t items s = Ok ((res, items'), s') ->
  same_globals s s'
  /\ match res with
     | None => items' = items /\ world s' = world s
     | Some (room, _) => GInv (world s') items' (r_items room) (room_id room)
                         /\ rooms (world s') = rooms (world s)
                         /\ movable_items (world s') = movable_items (world s)
     end.
Proof.
  intros HG H. unfold Room_generate_with_description in H.
  apply bind_Ok in H. destruct H as (r & s1 & Hr & H).
  apply Room_generate_empty_inv in Hr. destruct Hr as (Hw1 & He1).
  destruct r as [parent|].
  2: { unfold ret in H. inversion H; subst. split; [exact He1 | split; [reflexivity | exact Hw1]]. }
  apply bind_Ok in H. destruct H as (g & s2 & Hg & H).
  unfold get_globals in Hg. inversion Hg; subst g s2. clear Hg.
  apply bind_Ok in H. destruct H as ([[its descs] items1] & s2 & Hgen & H).
  assert (HG1 : GInv (world s1) items [] parent).
  { rewrite Hw1. destruct HG. split; auto. intros a Ha. inversion Ha. }
  apply (generate_stationaries_GInv _ _ _ _ _ _ _ _ [] HG1) in Hgen.
  destruct Hgen as (HG2 & He2 & Hp2). rewrite app_nil_r in HG2.
  apply bind_Ok in H. destruct H as (its' & s3 & Hsh & H).
  apply shuffle_inv in Hsh. destruct Hsh as (Hperm & Hw3 & He3).
  apply bind_Ok in H. destruct H as (descs' & s4 & Hsh2 & H).
  apply shuffle_inv in Hsh2. destruct Hsh2 as (_ & Hw4 & He4).
  apply bind_Ok in H. destruct H as (rd & s5 & Hd & H).
  apply room_description_from_inv in Hd. subst s5.
  unfold ret in H. inversion H; subst. clear H.
  split.
  { eapply same_globals_trans; [exact He1|]. apply same_env_globals.
    eapply same_env_trans; [exact He2|]. eapply same_env_trans; eassumption. }
  rewrite room_id_of_parent. simpl. rewrite Hw4, Hw3. split.
  - eapply GInv_pending; [|exact HG2]. intros a. rewrite Hperm. reflexivity.
  - rewrite <- Hw1. exact Hp2.
Qed.

(** ** The generator establishes the invariant *)

Lemma GInv_add_room w items room d parent' :
  GInv w items (r_items room) (room_id room) ->
  GInv (with_description (with_rooms w (rooms w ++ [room])) d) items [] parent'.
Proof.
  intros [Hhand Hpnd Hrnd Hsub Hunp Hpl Hrooms Hpend Hcap]. split; simpl; auto.
  - intros i Hi Hni. destruct (Hpl i Hi Hni) as (it & c & y & H1 & H2 & H3 & H4 & H5 & Hw).
    exists it, c, y. repeat (split; [assumption|]). right.
    destruct Hw as [Hp | (r & Hr & Hc)].
    + exists room. split; [apply elem_of_app; right; apply list_elem_of_here | exact Hp].
    + exists r. split; [apply elem_of_app; left; exact Hr | exact Hc].
  - intros r a Hr Ha. apply elem_of_app in Hr. destruct Hr as [Hr | Hr].
    + apply Hrooms; assumption.
    + apply list_elem_of_singleton in Hr. subst r. apply Hpend. exact Ha.
  - intros a Ha. inversion Ha.
Qed.

Lemma generate_rooms_loop_spec t fuel : forall count remaining s rem' s' parent0,
  GInv (world s) remaining [] parent0 ->
  generate_rooms_loop fuel count t remaining s = Ok (rem', s') ->
  GInv (world s') rem' [] parent0 /\ same_globals s s'
  /\ movable_items (world s') = movable_items (world s).
Proof.
  induction fuel as [|fuel IH]; intros count remaining s rem' s' parent0 HG H;
    simpl in H; [discriminate|].
  apply bind_Ok in H. destruct H as (g & s1 & Hg & H).
  unfold get_globals in Hg. inversion Hg; subst g s1. clear Hg.
  destruct (decide (count * length (room_types (globals s)) < MAX_ROOMS)).
  2: { unfold ret in H. inversion H; subst.
       split; [exact HG | split; [apply same_globals_refl | reflexivity]]. }
  apply bind_Ok in H. destruct H as ([res rem1] & s1 & Hroom & H).
  apply (Room_generate_with_description_spec _ _ _ _ _ _ _ HG) in Hroom.
  destruct Hroom as (He1 & Hres). destruct res as [[room rd]|].
  - destruct Hres as (HG1 & Hr1 & Hp1).
    apply bind_Ok in H. destruct H as (w & s2 & Hw & H).
    unfold get_world in Hw. inversion Hw; subst w s2. clear Hw.
    apply bind_Ok in H. destruct H as (u & s2 & Hput & H).
    unfold put_world in Hput. inversion Hput; subst u s2. clear Hput.
    apply (IH _ _ _ _ _ parent0) in H.
    + destruct H as (HG2 & He2 & Hp2). split; [exact HG2|]. split.
      * eapply same_globals_trans; [exact He1|].
        eapply same_globals_trans; [|exact He2]. split; reflexivity.
      * rewrite Hp2. simpl. exact Hp1.
    + simpl. apply GInv_add_room. exact HG1.
  - destruct Hres as (-> & Hw). unfold ret in H. inversion H; subst.
    split; [rewrite Hw; exact HG|]. split; [exact He1 | rewrite Hw; reflexivity].
Qed.

Lemma generate_rooms_cons t types rem :
  generate_rooms (t :: types) rem =
    (r <- generate_rooms_loop (S MAX_ROOMS) 0 t rem ;; generate_rooms types r).
Proof. reflexivity. Qed.

Lemma generate_movables_cons t types :
  generate_movables (t :: types) =
    (generate_movables_loop (S MAX_ITEMS) 0 t ;;; generate_movables types).
Proof. reflexivity. Qed.

Lemma generate_rooms_spec types : forall remaining s rem' s' parent0,
  GInv (world s) remaining [] parent0 ->
  generate_rooms types remaining s = Ok (rem', s') ->
  GInv (world s') rem' [] parent0 /\ same_globals s s'
  /\ movable_items (world s') = movable_items (world s).
Proof.
  induction types as [|t types IH]; intros remaining s rem' s' parent0 HG H.
  - simpl in H. unfold ret in H. inversion H; subst.
    split; [exact HG | split; [apply same_globals_refl | reflexivity]].
  - rewrite generate_rooms_cons in H. apply bind_Ok in H. destruct H as (rem1 & s1 & Hloop & H).
    apply (generate_rooms_loop_spec _ _ _ _ _ _ _ _ HG) in Hloop.
    destruct Hloop as (HG1 & He1 & Hp1).
    apply (IH _ _ _ _ _ HG1) in H. destruct H as (HG2 & He2 & Hp2).
    split; [exact HG2|]. split; [eapply same_globals_trans; eassumption | congruence].
Qed.

Lemma remove_all_inv rem : forall pool kept,
  remove_all rem pool = Ok kept -> pool ≡ₚ rem ++ kept.
Proof.
  induction rem as [|x rem IH]; intros pool kept H; simpl in H.
  - inversion H; subst. reflexivity.
  - destruct (Py.remove x pool) as [l|] eqn:Hr; [|discriminate].
    apply IH in H. rewrite (remove_inv _ _ _ Hr). simpl. rewrite H. reflexivity.
Qed.

Lemma remove_all_total rem : forall pool,
  NoDup rem -> (forall i, i ∈ rem -> i ∈ pool) -> exists kept, remove_all rem pool = Ok kept.
Proof.
  induction rem as [|x rem IH]; intros pool Hnd Hsub; simpl; [eauto|].
  inversion Hnd as [|? ? Hx Hnd']; subst.
  assert (Hrm : forall l, x ∈ l -> exists l', Py.remove x l = Some l').
  { induction l as [|y l IHl]; intros Hin; [inversion Hin|]. simpl.
    destruct (decide (y = x)); [eauto|].
    apply elem_of_cons in Hin. destruct Hin as [-> | Hin]; [congruence|].
    destruct (IHl Hin) as (l' & ->). simpl. eauto. }
  destruct (Hrm pool (Hsub x (list_elem_of_here _ _))) as (l' & Hl'). rewrite Hl'.
  apply IH; [exact Hnd'|]. intros i Hi.
  assert (Hip : i ∈ pool) by (apply Hsub; apply list_elem_of_further; exact Hi).
  rewrite (remove_inv _ _ _ Hl') in Hip. apply elem_of_cons in Hip.
  destruct Hip as [-> | Hip]; [contradiction | exact Hip].
Qed.

Lemma MInv_GInv w parent0 : MInv w -> GInv w (movable_items w) [] parent0.
Proof.
  intros [Hhand Hrooms Hnd Hfresh]. split; auto.
  - intros i Hi. apply (Hfresh i Hi).
  - intros i Hi Hni. contradiction.
  - intros r a Hr. rewrite Hrooms in Hr. inversion Hr.
  - intros a Ha. inversion Ha.
  - intros c. unfold contents. etransitivity; [|apply (Nat.le_0_l 2)].
    apply (filter_length_chosen _ _ []); [exact Hnd|].
    intros i Hi Hc. exfalso. unfold item_container in Hc.
    destruct (Hfresh i Hi) as (_ & it & Hit & Hnone). rewrite Hit in Hc. congruence.
Qed.

Lemma movable_generate_instance_inv t s r s' :
  movable_generate_instance t s = Ok (r, s') ->
  same_globals s s'
  /\ match r with
     | None => world s' = world s
     | Some a => exists x, a = length (movables (world s))
                   /\ world s' = with_movables (world s)
                                   (movables (world s) ++ [new_movable t x])
     end.
Proof.
  unfold movable_generate_instance. intros H.
  apply bind_Ok in H. destruct H as (c & s1 & Hc & H).
  unfold get_classes in Hc. inversion Hc; subst c s1. clear Hc.
  apply bind_Ok in H. destruct H as (o & s1 & Hp & H).
  apply pop_random_inv in Hp. destruct Hp as (Hw & He). apply same_env_globals in He.
  destruct o as [[x rest]|].
  - apply bind_Ok in H. destruct H as (u & s2 & Hp & H).
    unfold put_classes in Hp. inversion Hp; subst u s2. clear Hp.
    apply bind_Ok in H. destruct H as (a & s2 & Ha & H).
    apply alloc_movable_inv in Ha. destruct Ha as [-> ->].
    unfold ret in H. inversion H; subst. simpl. split.
    + destruct He as [Hr Hg]. split; [exact Hr | exact Hg].
    + exists x. rewrite Hw. split; reflexivity.
  - unfold ret in H. inversion H; subst. split; [exact He | exact Hw].
Qed.

Lemma MInv_new_movable w t x :
  MInv w ->
  MInv (with_movable_items (with_movables w (movables w ++ [new_movable t x]))
          (movable_items w ++ [length (movables w)])).
Proof.
  intros [Hhand Hrooms Hnd Hfresh]. split; simpl; auto.
  - apply NoDup_app. split; [exact Hnd|]. split; [|apply NoDup_singleton].
    intros i Hi Hin. apply list_elem_of_singleton in Hin. subst i.
    destruct (Hfresh _ Hi) as [Hlt _]. lia.
  - intros i Hi. rewrite length_app. simpl. apply elem_of_app in Hi. destruct Hi as [Hi | Hi].
    + destruct (Hfresh i Hi) as (Hlt & it & Hit & Hc). split; [lia|].
      exists it. split; [rewrite lookup_app_l by exact Hlt; exact Hit | exact Hc].
    + apply list_elem_of_singleton in Hi. subst i. split; [lia|].
      exists (new_movable t x). split; [apply list_lookup_middle; reflexivity|].
      destruct t; reflexivity.
Qed.

Lemma generate_movables_loop_spec t fuel : forall count s u s',
  MInv (world s) ->
  generate_movables_loop fuel count t s = Ok (u, s') ->
  MInv (world s') /\ same_globals s s'.
Proof.
  induction fuel as [|fuel IH]; intros count s u s' HM H; simpl in H; [discriminate|].
  apply bind_Ok in H. destruct H as (g & s1 & Hg & H).
  unfold get_globals in Hg. inversion Hg; subst g s1. clear Hg.
  destruct (decide (count * length (movable_types (globals s)) < MAX_ITEMS)).
  2: { unfold ret in H. inversion H; subst. split; [exact HM | apply same_globals_refl]. }
  apply bind_Ok in H. destruct H as (o & s1 & Hgen & H).
  apply movable_generate_instance_inv in Hgen. destruct Hgen as (He1 & Hres).
  destruct o as [a|].
  - destruct Hres as (x & -> & Hw).
    apply bind_Ok in H. destruct H as (w & s2 & Hgw & H).
    unfold get_world in Hgw. inversion Hgw; subst w s2. clear Hgw.
    apply bind_Ok in H. destruct H as (u' & s2 & Hput & H).
    unfold put_world in Hput. inversion Hput; subst u' s2. clear Hput.
    apply IH in H.
    + destruct H as (HM2 & He2). split; [exact HM2|].
      eapply same_globals_trans; [exact He1|].
      eapply same_globals_trans; [|exact He2]. split; reflexivity.
    + simpl. rewrite Hw. simpl. apply MInv_new_movable. exact HM.
  - unfold ret in H. inversion H; subst. split; [rewrite Hres; exact HM | exact He1].
Qed.

Lemma generate_movables_spec types : forall s u s',
  MInv (world s) ->
  generate_movables types s = Ok (u, s') ->
  MInv (world s') /\ same_globals s s'.
Proof.
  induction types as [|t types IH]; intros s u s' HM H.
  - simpl in H. unfold ret in H. inversion H; subst.
    split; [exact HM | apply same_globals_refl].
  - rewrite generate_movables_cons in H. apply bind_Ok in H. destruct H as (u1 & s1 & Hloop & H).
    apply (generate_movables_loop_spec _ _ _ _ _ _ HM) in Hloop.
    destruct Hloop as (HM1 & He1). apply (IH _ _ _ HM1) in H.
    destruct H as (HM2 & He2). split; [exact HM2 | eapply same_globals_trans; eassumption].
Qed.

Lemma DatasetGenerator_init_movables_spec s u s1 :
  DatasetGenerator_init_movables s = Ok (u, s1) ->
  MInv (world s1) /\ same_globals s s1.
Proof.
  unfold DatasetGenerator_init_movables. intros H.
  apply bind_Ok in H. destruct H as (w & s0 & Hgw & H).
  unfold get_world in Hgw. inversion Hgw; subst w s0. clear Hgw.
  apply bind_Ok in H. destruct H as (u' & s2 & Hput & H).
  unfold put_world in Hput. inversion Hput; subst u' s2. clear Hput.
  apply bind_Ok in H. destruct H as (g & s2 & Hg & H).
  unfold get_globals in Hg. inversion Hg; subst g s2. clear Hg.
  apply generate_movables_spec in H.
  - destruct H as (HM & He). split; [exact HM|].
    eapply same_globals_trans; [|exact He]. split; reflexivity.
  - split; simpl; auto.
    + apply NoDup_nil_2.
    + intros i Hi. inversion Hi.
Qed.

Lemma GInv_final w rem kept rooms' parent0 :
  GInv w rem [] parent0 ->
  movable_items w ≡ₚ rem ++ kept ->
  rooms' ≡ₚ rooms w ->
  Inv (with_rooms (with_movable_items w kept) rooms')
  /\ NoDup kept
  /\ (forall i, i ∈ movable_items w ->
        exists it, movables w !! i = Some it /\ (m_container it = None <-> i ∉ kept))
  /\ capped 2 (with_rooms (with_movable_items w kept) rooms').
Proof.
  intros [Hhand Hpnd Hrnd Hsub Hunp Hpl Hrooms Hpend Hcap] Hperm Hrp.
  assert (Hnd : NoDup (rem ++ kept)) by (rewrite <- Hperm; exact Hpnd).
  apply NoDup_app in Hnd. destruct Hnd as (_ & Hdisj & Hndk).
  assert (Hkept : forall i, i ∈ kept -> i ∈ movable_items w /\ i ∉ rem).
  { intros i Hi. split; [rewrite Hperm; apply elem_of_app; right; exact Hi|].
    intros Hr. exact (Hdisj i Hr Hi). }
  split; [|split; [exact Hndk|split]].
  - split; unfold ownership; simpl.
    + intros i Hi. destruct (Hkept i Hi) as [Hp Hnr].
      destruct (Hpl i Hp Hnr) as (it & c & y & Hit & Hc & _).
      exists it. split; [exact Hit|]. rewrite Hhand, Hc. split; discriminate.
    + rewrite Hhand. discriminate.
    + intros i it c Hi Hit Hc. destruct (Hkept i Hi) as [Hp Hnr].
      destruct (Hpl i Hp Hnr) as (it' & c' & y & Hit' & Hc' & Hy & Hch & Hloc & Hw).
      assert (it' = it) by congruence. subst it'.
      assert (c' = c) by congruence. subst c'.
      exists y. repeat (split; [assumption|]).
      destruct Hw as [Hw | (r & Hr & Ha)]; [inversion Hw|].
      exists r. simpl. split; [rewrite Hrp; exact Hr | exact Ha].
    + intros r a Hr Ha. rewrite Hrp in Hr. apply Hrooms; assumption.
  - intros i Hi. destruct (decide (i ∈ rem)) as [Hr | Hnr].
    + destruct (Hunp i Hr) as (it & Hit & Hc). exists it. split; [exact Hit|].
      split; [|intros _; exact Hc]. intros _ Hk. exact (Hdisj i Hr Hk).
    + destruct (Hpl i Hi Hnr) as (it & c & y & Hit & Hc & _). exists it.
      split; [exact Hit|]. rewrite Hc. split; [discriminate|].
      intros Hnk. exfalso. rewrite Hperm in Hi. apply elem_of_app in Hi. tauto.
  - intros c. etransitivity; [|exact (Hcap c)]. unfold contents, item_container. simpl.
    rewrite Hperm. rewrite filter_app, length_app. lia.
Qed.

Lemma Inv_pool_Permutation w l :
  l ≡ₚ movable_items w -> Inv w -> Inv (with_movable_items w l).
Proof.
  intros Hp [Hown Hhand Hplaced Hrooms]. split; unfold ownership; simpl.
  - intros i Hi. rewrite Hp in Hi. apply Hown. exact Hi.
  - intros i Hi. rewrite Hp. apply Hhand. exact Hi.
  - intros i it c Hi. rewrite Hp in Hi. apply Hplaced. exact Hi.
  - exact Hrooms.
Qed.

Lemma DatasetGenerator_init_rooms_spec s1 u s' :
  MInv (world s1) ->
  DatasetGenerator_init_rooms s1 = Ok (u, s') ->
  Inv (world s') /\ same_globals s1 s'
  /\ NoDup (movable_items (world s'))
  /\ (forall i, i ∈ movable_items (world s') -> i ∈ movable_items (world s1))
  /\ (forall i, i ∈ movable_items (world s1) ->
        exists it, movables (world s') !! i = Some it
                   /\ (m_container it = None <-> i ∉ movable_items (world s')))
  /\ capped 2 (world s').
Proof.
  intros HM H. unfold DatasetGenerator_init_rooms in H.
  apply bind_Ok in H. destruct H as (g & s0 & Hg & H).
  unfold get_globals in Hg. inversion Hg; subst g s0. clear Hg.
  apply bind_Ok in H. destruct H as (w & s0 & Hgw & H).
  unfold get_world in Hgw. inversion Hgw; subst w s0. clear Hgw.
  apply bind_Ok in H. destruct H as (rem & s2 & Hgen & H).
  apply (generate_rooms_spec _ _ _ _ _ the_kitchen (MInv_GInv _ _ HM)) in Hgen.
  destruct Hgen as (HG & He2 & Hp2).
  apply bind_Ok in H. destruct H as (w & s0 & Hgw & H).
  unfold get_world in Hgw. inversion Hgw; subst w s0. clear Hgw.
  apply bind_Ok in H. destruct H as (kept & s3 & Hrm & H).
  apply lift_Ok in Hrm. destruct Hrm as [Hrm ->].
  apply remove_all_inv in Hrm.
  apply bind_Ok in H. destruct H as (kept' & s3 & Hsh & H).
  apply shuffle_inv in Hsh. destruct Hsh as (Hpk & Hw3 & He3).
  apply bind_Ok in H. destruct H as (u1 & s4 & Hput & H).
  unfold put_world in Hput. inversion Hput; subst u1 s4. clear Hput.
  apply bind_Ok in H. destruct H as (w & s4 & Hgw & H).
  unfold get_world in Hgw. inversion Hgw; subst w s4. clear Hgw.
  apply bind_Ok in H. destruct H as (rooms' & s5 & Hsh2 & H).
  apply shuffle_inv in Hsh2. destruct Hsh2 as (Hpr & Hw5 & He5).
  unfold put_world in H. inversion H; subst. clear H. simpl in *.
  destruct (GInv_final (world s2) rem kept' rooms' the_kitchen HG)
    as (HI & Hndk & Hall & Hcap).
  { rewrite Hrm, Hpk. reflexivity. }
  { exact Hpr. }
  split; [exact HI|]. split.
  { eapply same_globals_trans; [exact He2|]. apply same_env_globals.
    eapply same_env_trans; [exact He3|].
    eapply same_env_trans; [apply same_env_with_world|].
    eapply same_env_trans; [exact He5 | apply same_env_with_world]. }
  split; [exact Hndk|]. split; [|split].
  - intros i Hi. rewrite <- Hp2, Hrm. apply elem_of_app. right. rewrite <- Hpk. exact Hi.
  - intros i Hi. apply Hall. rewrite Hp2. exact Hi.
  - exact Hcap.
Qed.

Lemma DatasetGenerator_init_Inv s u s' :
  DatasetGenerator_init s = Ok (u, s') -> Inv (world s') /\ same_globals s s'.
Proof.
  unfold DatasetGenerator_init. intros H.
  apply bind_Ok in H. destruct H as (u1 & s1 & H1 & H).
  apply DatasetGenerator_init_movables_spec in H1. destruct H1 as (HM & He1).
  apply (DatasetGenerator_init_rooms_spec _ _ _ HM) in H.
  destruct H as (HI & He2 & _). split; [exact HI | eapply same_globals_trans; eassumption].
Qed.

Lemma generate_state_change_spec fuel s n s' :
  generate_state_change fuel s = Ok (n, s') ->
  same_env s s' /\ one_action (world s) (world s').
Proof.
  unfold generate_state_change. intros H.
  apply bind_Ok in H. destruct H as (w & s0 & Hgw & H).
  unfold get_world in Hgw. inversion Hgw; subst w s0. clear Hgw.
  apply bind_Ok in H. destruct H as ([[n0 rs'] ms'] & s1 & Hloop & H).
  unfold ret in H. inversion H; subst. clear H.
  apply generate_state_change_loop_spec in Hloop. destruct Hloop as (He & Hact & _).
  split; [exact He | exact Hact].
Qed.

Lemma reachable_Inv s0 s : reachable s0 s -> Inv (world s) /\ same_globals s0 s.
Proof.
  induction 1 as [u s Hinit | s fuel n s' Hreach [HI He] Hstep].
  - apply DatasetGenerator_init_Inv in Hinit. exact Hinit.
  - apply generate_state_change_spec in Hstep. destruct Hstep as (He' & Hact).
    split; [eapply Inv_one_action; eassumption|].
    eapply same_globals_trans; [exact He | apply same_env_globals; exact He'].
Qed.
(** ** Lines and their symbols *)

Lemma split_space_word a r :
  no_space a = true -> split_space (a +:+ " " +:+ r) = a :: split_space r.
Proof.
  induction a as [|c a IH]; intros H; simpl in *; [reflexivity|].
  apply andb_true_iff in H. destruct H as (Hc & Ha).
  destruct (Ascii.eqb c " ") eqn:E; [discriminate Hc|].
  rewrite (IH Ha). reflexivity.
Qed.

Lemma split_space_last a : no_space a = true -> split_space a = [a].
Proof.
  induction a as [|c a IH]; intros H; simpl in *; [reflexivity|].
  apply andb_true_iff in H. destruct H as (Hc & Ha).
  destruct (Ascii.eqb c " ") eqn:E; [discriminate Hc|].
  rewrite (IH Ha). reflexivity.
Qed.

Lemma split_space_2 a b :
  no_space a = true -> no_space b = true ->
  split_space (a +:+ " " +:+ b) = [a; b].
Proof. intros Ha Hb. rewrite (split_space_word _ _ Ha), (split_space_last _ Hb). reflexivity. Qed.

Lemma split_space_3 a b c :
  no_space a = true -> no_space b = true -> no_space c = true ->
  split_space (a +:+ " " +:+ b +:+ " " +:+ c) = [a; b; c].
Proof. intros Ha Hb Hc. rewrite (split_space_word _ _ Ha), (split_space_2 _ _ Hb Hc). reflexivity. Qed.

Lemma split_space_4 a b c d :
  no_space a = true -> no_space b = true -> no_space c = true -> no_space d = true ->
  split_space (a +:+ " " +:+ b +:+ " " +:+ c +:+ " " +:+ d) = [a; b; c; d].
Proof.
  intros Ha Hb Hc Hd.
  rewrite (split_space_word _ _ Ha), (split_space_3 _ _ _ Hb Hc Hd). reflexivity.
Qed.

(** A space cuts a line in two, whatever is on either side. *)
Lemma split_space_cons s : exists w ws, split_space s = w :: ws.
Proof.
  induction s as [|c s (w & ws & IH)]; simpl; [eauto|].
  destruct (Ascii.eqb c " "); [eauto|]. rewrite IH. eauto.
Qed.

Lemma split_space_app a b :
  split_space (a +:+ " " +:+ b) = split_space a ++ split_space b.
Proof.
  induction a as [|c a IH]; [reflexivity|].
  change (String c a +:+ " " +:+ b) with (String c (a +:+ " " +:+ b)).
  simpl. rewrite IH. destruct (Ascii.eqb c " "); [reflexivity|].
  destruct (split_space_cons a) as (w & ws & ->). reflexivity.
Qed.

Lemma words_app a b : words (a +:+ " " +:+ b) = words a ++ words b.
Proof. unfold words. rewrite split_space_app. apply List.filter_app. Qed.

(** A name without spaces is one word. *)
Lemma words_symbol a : no_space a = true -> a <> EmptyString -> words a = [a].
Proof.
  intros Ha Hne. unfold words. rewrite (split_space_last _ Ha). simpl.
  destruct (String.eqb_spec a EmptyString) as [->|_]; [congruence | reflexivity].
Qed.





Lemma no_space_app a b : no_space (a +:+ b) = no_space a && no_space b.
Proof.
  induction a as [|c a IH]; simpl; [reflexivity|]. rewrite IH, andb_assoc. reflexivity.
Qed.

Lemma movable_type_name_no_space t : no_space (movable_type_name t) = true.
Proof. destruct t; reflexivity. Qed.
Lemma stationary_type_name_no_space t : no_space (stationary_type_name t) = true.
Proof. destruct t; reflexivity. Qed.
Lemma room_type_name_no_space t : no_space (room_type_name t) = true.
Proof. destruct t; reflexivity. Qed.

Lemma level_name_no_space k : k <= Shelf_MAX_LEVELS -> no_space (get_level_name k) = true.
Proof.
  intros Hk.
  assert (Hall : forallb (fun k => no_space (get_level_name k)) (seq 0 (S Shelf_MAX_LEVELS))
                 = true) by (vm_compute; reflexivity).
  rewrite forallb_forall in Hall. apply Hall, in_seq. lia.
Qed.

Lemma channel_name_no_space ch : ch ∈ TV_CHANNELS -> no_space (ch_pddl_name ch) = true.
Proof.
  intros Hch.
  assert (Hall : forallb (fun ch => no_space (ch_pddl_name ch)) TV_CHANNELS = true)
    by (vm_compute; reflexivity).
  rewrite forallb_forall in Hall. apply Hall, list_elem_of_In, Hch.
Qed.

(** Two items of the pool with the same name are the same item. *)
Lemma NoDup_map_inj {A B} (f : A -> B) l x y :
  NoDup (map f l) -> x ∈ l -> y ∈ l -> f x = f y -> x = y.
Proof.
  induction l as [|a l IH]; intros Hnd Hx Hy Hf; [inversion Hx|].
  simpl in Hnd. apply NoDup_cons in Hnd. destruct Hnd as (Hna & Hnd).
  apply elem_of_cons in Hx. apply elem_of_cons in Hy.
  destruct Hx as [->|Hx], Hy as [->|Hy].
  - reflexivity.
  - exfalso. apply Hna. rewrite Hf. apply list_elem_of_In, in_map, list_elem_of_In, Hy.
  - exfalso. apply Hna. rewrite <- Hf. apply list_elem_of_In, in_map, list_elem_of_In, Hx.
  - apply IH; assumption.
Qed.
(** ** The lists of the encoder *)

Lemma concat_for_elem {A} (f : A -> Res (list string)) l r c :
  concat_for f l = Ok r ->
  c ∈ r <-> exists x h, x ∈ l /\ f x = Ok h /\ c ∈ h.
Proof.
  revert r. induction l as [|x l IH]; intros r H; simpl in H.
  - inversion H; subst. split; [intros Hc; inversion Hc | intros (x & h & Hx & _); inversion Hx].
  - apply Res_bind_Ok in H. destruct H as (h & Hh & H).
    apply Res_bind_Ok in H. destruct H as (t & Ht & H). inversion H; subst r. clear H.
    rewrite elem_of_app, (IH _ Ht). split.
    + intros [Hc | (y & h' & Hy & Hfy & Hc)].
      * exists x, h. split; [apply list_elem_of_here|]. auto.
      * exists y, h'. split; [apply list_elem_of_further, Hy|]. auto.
    + intros (y & h' & Hy & Hfy & Hc). apply elem_of_cons in Hy. destruct Hy as [->|Hy].
      * left. congruence.
      * right. eauto.
Qed.

Lemma concat_for_total {A} (f : A -> Res (list string)) l :
  (forall x, x ∈ l -> exists h, f x = Ok h) -> exists r, concat_for f l = Ok r.
Proof.
  induction l as [|x l IH]; intros H; simpl; [eauto|].
  destruct (H x) as (h & ->); [apply list_elem_of_here|].
  destruct IH as (t & ->); [intros y Hy; apply H, list_elem_of_further, Hy|].
  simpl. eauto.
Qed.

Lemma concat_for_each {A} (f : A -> Res (list string)) l r x :
  concat_for f l = Ok r -> x ∈ l -> exists h, f x = Ok h.
Proof.
  revert r. induction l as [|y l IH]; intros r H Hx; [inversion Hx|].
  simpl in H. apply Res_bind_Ok in H. destruct H as (h & Hh & H).
  apply Res_bind_Ok in H. destruct H as (t & Ht & _).
  apply elem_of_cons in Hx. destruct Hx as [->|Hx]; eauto.
Qed.

(** *** Stationary items *)

Lemma Room_get_init_conditions_total w r :
  Inv w -> r ∈ rooms w -> exists l, Room_get_init_conditions w r = Ok l.
Proof.
  intros HI Hr. apply concat_for_total. intros a Ha.
  destruct (inv_rooms _ HI r a Hr Ha) as (x & Hx & _).
  unfold deref. rewrite Hx. simpl. eauto.
Qed.

Lemma Room_get_init_conditions_elem w r l c :
  Room_get_init_conditions w r = Ok l ->
  c ∈ l <-> exists a x, a ∈ r_items r /\ stationaries w !! a = Some x
                        /\ c ∈ stationary_get_init_conditions x.
Proof.
  intros H. unfold Room_get_init_conditions in H.
  rewrite (concat_for_elem _ _ _ c H). split.
  - intros (a & h & Ha & Hf & Hc). apply Res_bind_Ok in Hf.
    destruct Hf as (x & Hx & Hf). inversion Hf; subst h.
    unfold deref in Hx. destruct (stationaries w !! a) eqn:E; inversion Hx; subst. eauto.
  - intros (a & x & Ha & Hx & Hc). exists a, (stationary_get_init_conditions x).
    split; [exact Ha|]. split; [|exact Hc]. unfold deref. rewrite Hx. reflexivity.
Qed.

Lemma Room_get_pddl_objects_total w r :
  Inv w -> r ∈ rooms w -> exists l, Room_get_pddl_objects w r = Ok l.
Proof.
  intros HI Hr. unfold Room_get_pddl_objects.
  destruct (concat_for_total
              (fun a => x <~ deref (stationaries w) a ;; Ok (stationary_get_pddl_objects x))
              (r_items r)) as (l & ->).
  - intros a Ha. destruct (inv_rooms _ HI r a Hr Ha) as (x & Hx & _).
    unfold deref. rewrite Hx. simpl. eauto.
  - simpl. eauto.
Qed.


(** *** Movable items *)

(** The [contains] predicate of item [it] in container [x]. *)
Lemma get_contains_predicate_placed x it :
  location_ok x it ->
  exists pr,
    get_contains_predicate (s_type x) (s_pddl_name x) (m_pddl_name it)
      (m_extra_location_info it) = Ok pr
    /\ match s_state x with
       | IsShelf levels =>
           exists level, 1 <= level <= levels
             /\ pr = Container_get_contains_predicate Shelf (s_pddl_name x) (m_pddl_name it)
                       +:+ " " +:+ get_level_name level
       | _ => pr = Container_get_contains_predicate (s_type x) (s_pddl_name x)
                     (m_pddl_name it)
       end.
Proof.
  unfold location_ok, get_contains_predicate, s_type. intros Hloc.
  destruct (s_state x) eqn:Hst; simpl; try (eexists; split; reflexivity).
  destruct Hloc as (level & Hl & _ & Hp). rewrite Hp.
  eexists. split; [reflexivity|]. exists level. split; [exact Hl | reflexivity].
Qed.

Lemma MovableItem_get_init_conditions_held w it :
  m_container it = None ->
  MovableItem_get_init_conditions w it
  = Ok [get_in_hand_predicate (p_pddl_name (person w)) (m_pddl_name it)].
Proof. unfold MovableItem_get_init_conditions. intros ->. reflexivity. Qed.

Lemma MovableItem_get_init_conditions_placed w it c x pr :
  m_container it = Some c -> stationaries w !! c = Some x ->
  get_contains_predicate (s_type x) (s_pddl_name x) (m_pddl_name it)
    (m_extra_location_info it) = Ok pr ->
  MovableItem_get_init_conditions w it = Ok [pr].
Proof.
  unfold MovableItem_get_init_conditions, deref. intros Hc Hx Hpr.
  rewrite Hc, Hx. simpl. rewrite Hpr. reflexivity.
Qed.

(** What a movable item contributes: its location, and [phone-ringing] for a
    ringing phone. *)
Lemma movable_get_init_conditions_elem w it h :
  movable_get_init_conditions w it = Ok h ->
  exists l, MovableItem_get_init_conditions w it = Ok l
    /\ forall c, c ∈ h <->
         c ∈ l \/ (m_type it = Phone /\ m_ringing it = true
                   /\ c = "phone-ringing " +:+ m_pddl_name it).
Proof.
  unfold movable_get_init_conditions, Phone_get_special_init_conditions. intros H.
  destruct (m_type it) eqn:Hty.
  5: { apply Res_bind_Ok in H. destruct H as (l & Hl & H). inversion H; subst h.
       exists l. split; [exact Hl|]. intros c. rewrite elem_of_app.
       destruct (m_ringing it).
       - rewrite list_elem_of_singleton. split; (intros [Hc|Hc]; [left; exact Hc|right]);
           [repeat split; exact Hc | tauto].
       - split; [intros [Hc|Hc]; [left; exact Hc | inversion Hc]|].
         intros [Hc|(_ & Hr & _)]; [left; exact Hc | discriminate Hr]. }
  all: exists h; split; [exact H|]; intros c; split; [tauto|];
    intros [Hc|(Hp & _)]; [exact Hc | discriminate Hp].
Qed.

Lemma movable_get_init_conditions_total w i it :
  Inv w -> i ∈ movable_items w -> movables w !! i = Some it ->
  exists h, movable_get_init_conditions w it = Ok h.
Proof.
  intros HI Hi Hit.
  assert (Hm : exists l, MovableItem_get_init_conditions w it = Ok l).
  { destruct (m_container it) as [c|] eqn:Hc.
    - destruct (inv_placed _ HI i it c Hi Hit Hc) as (x & Hx & _ & Hloc & _).
      destruct (get_contains_predicate_placed x it Hloc) as (pr & Hpr & _).
      rewrite (MovableItem_get_init_conditions_placed _ _ _ _ _ Hc Hx Hpr). eauto.
    - rewrite (MovableItem_get_init_conditions_held _ _ Hc). eauto. }
  destruct Hm as (l & Hl). unfold movable_get_init_conditions. rewrite Hl.
  destruct (m_type it); simpl; eauto.
Qed.

(** *** The two lists of the problem *)

Lemma problem_init_total w : Inv w -> exists init, problem_init w = Ok init.
Proof.
  intros HI. unfold problem_init.
  destruct (concat_for_total (Room_get_init_conditions w) (rooms w)) as (l1 & ->);
    [intros r Hr; apply Room_get_init_conditions_total; assumption|].
  destruct (concat_for_total
              (fun a => it <~ deref (movables w) a ;; movable_get_init_conditions w it)
              (movable_items w)) as (l2 & ->).
  - intros i Hi. destruct (inv_own _ HI i Hi) as (it & Hit & _).
    unfold deref. rewrite Hit. simpl.
    apply (movable_get_init_conditions_total w i it HI Hi Hit).
  - simpl. eauto.
Qed.

Lemma problem_init_elem w init c :
  problem_init w = Ok init ->
  c ∈ init <->
    c ∈ Person_get_init_conditions (person w)
    \/ (exists r a x, r ∈ rooms w /\ a ∈ r_items r /\ stationaries w !! a = Some x
                      /\ c ∈ stationary_get_init_conditions x)
    \/ (exists i it h, i ∈ movable_items w /\ movables w !! i = Some it
                       /\ movable_get_init_conditions w it = Ok h /\ c ∈ h).
Proof.
  unfold problem_init. intros H.
  apply Res_bind_Ok in H. destruct H as (l1 & H1 & H).
  apply Res_bind_Ok in H. destruct H as (l2 & H2 & H). inversion H; subst init. clear H.
  rewrite !elem_of_app, (concat_for_elem _ _ _ c H1), (concat_for_elem _ _ _ c H2).
  split.
  - intros [Hc | [(r & l & Hr & Hl & Hc) | (i & h & Hi & Hh & Hc)]].
    + left. exact Hc.
    + right. left. apply (Room_get_init_conditions_elem _ _ _ _ Hl) in Hc.
      destruct Hc as (a & x & Ha & Hx & Hc). eauto 8.
    + right. right. apply Res_bind_Ok in Hh. destruct Hh as (it & Hit & Hh).
      unfold deref in Hit. destruct (movables w !! i) eqn:E; inversion Hit; subst.
      eauto 8.
  - intros [Hc | [(r & a & x & Hr & Ha & Hx & Hc) | (i & it & h & Hi & Hit & Hh & Hc)]].
    + left. exact Hc.
    + right. left. destruct (concat_for_each _ _ _ r H1 Hr) as (l & Hl).
      exists r, l. split; [exact Hr|]. split; [exact Hl|].
      apply (Room_get_init_conditions_elem _ _ _ _ Hl). eauto.
    + right. right. exists i, h. split; [exact Hi|]. split; [|exact Hc].
      unfold deref. rewrite Hit. exact Hh.
Qed.

Lemma problem_objects_total g w : Inv w -> exists objs, problem_objects g w = Ok objs.
Proof.
  intros HI. unfold problem_objects.
  destruct (concat_for_total (Room_get_pddl_objects w) (rooms w)) as (l1 & ->);
    [intros r Hr; apply Room_get_pddl_objects_total; assumption|].
  destruct (concat_for_total
              (fun a => it <~ deref (movables w) a ;; Ok (movable_get_pddl_objects it))
              (movable_items w)) as (l2 & ->).
  - intros i Hi. destruct (inv_own _ HI i Hi) as (it & Hit & _).
    unfold deref. rewrite Hit. simpl. eauto.
  - simpl. eauto.
Qed.

(** ** The shape of the [:init] predicates *)

Lemma append_assoc (a b c : string) : (a +:+ b) +:+ c = a +:+ b +:+ c.
Proof.
  induction a as [|x a IH]; [reflexivity|].
  change (String x ((a +:+ b) +:+ c) = String x (a +:+ b +:+ c)). rewrite IH. reflexivity.
Qed.

Lemma contains_name_no_space t : no_space (get_contains_predicate_name t) = true.
Proof. destruct t; reflexivity. Qed.

Lemma in_room_name_no_space t : no_space (get_in_room_predicate_name t) = true.
Proof. destruct t; reflexivity. Qed.

Lemma names_ok_elim w :
  names_ok w = true ->
  no_space (p_pddl_name (person w)) = true
  /\ (forall r, r ∈ rooms w -> no_space (r_pddl_name r) = true)
  /\ (forall r a x, r ∈ rooms w -> a ∈ r_items r -> stationaries w !! a = Some x ->
        no_space (s_pddl_name x) = true)
  /\ (forall i it, i ∈ movable_items w -> movables w !! i = Some it ->
        no_space (m_pddl_name it) = true).
Proof.
  unfold names_ok. intros H. apply andb_true_iff in H. destruct H as (H & Hm).
  apply andb_true_iff in H. destruct H as (Hp & Hr).
  rewrite forallb_forall in Hr, Hm.
  split; [exact Hp|]. split.
  { intros r Hin. apply list_elem_of_In, Hr in Hin. unfold room_names_ok in Hin.
    apply andb_true_iff in Hin. tauto. }
  split.
  { intros r a x Hin Ha Hx. apply list_elem_of_In, Hr in Hin. unfold room_names_ok in Hin.
    apply andb_true_iff in Hin. destruct Hin as (_ & Hs). rewrite forallb_forall in Hs.
    apply list_elem_of_In, Hs in Ha. unfold stationary_name_ok in Ha. rewrite Hx in Ha.
    exact Ha. }
  intros i it Hi Hit. apply list_elem_of_In, Hm in Hi. unfold movable_name in Hi.
  rewrite Hit in Hi. exact Hi.
Qed.




(** The pieces of the [contains] predicate of item [it] in container [x]:
    the predicate name, the container, the item and, in a shelf, the level. *)
Lemma contains_predicate_split x it pr :
  stationary_ok x -> location_ok x it ->
  no_space (s_pddl_name x) = true -> no_space (m_pddl_name it) = true ->
  get_contains_predicate (s_type x) (s_pddl_name x) (m_pddl_name it)
    (m_extra_location_info it) = Ok pr ->
  exists rest,
    split_space pr
    = get_contains_predicate_name (s_type x) :: s_pddl_name x :: m_pddl_name it :: rest
    /\ forall sym, sym ∈ rest ->
         exists k, 1 <= k <= Shelf_MAX_LEVELS /\ sym = get_level_name k.
Proof.
  intros Hok Hloc Hx Hit Hpr.
  destruct (get_contains_predicate_placed x it Hloc) as (pr' & Hpr' & Hshape).
  assert (pr' = pr) by congruence. subst pr'. clear Hpr'.
  unfold stationary_ok in Hok. unfold s_type.
  destruct (s_state x) as [|levels| | | | |] eqn:Hst;
    try (exists []; split; [|intros sym Hsym; inversion Hsym]; subst pr;
         unfold Container_get_contains_predicate, s_type; rewrite Hst;
         apply split_space_3; [reflexivity | exact Hx | exact Hit]).
  destruct Hshape as (level & Hl & ->). exists [get_level_name level]. split.
  - unfold Container_get_contains_predicate. rewrite !append_assoc.
    apply split_space_4; [reflexivity | exact Hx | exact Hit|].
    apply level_name_no_space. lia.
  - intros sym Hsym. apply list_elem_of_singleton in Hsym. exists level.
    split; [lia | exact Hsym].
Qed.



(** ** The narration of an action *)



























(** ** A coin that never comes up True *)




(** ** Pools without an eligible candidate *)



(** ** Ownership and the retry loop *)

Lemma can_hold_is_container t m : can_hold t m = true -> is_container t = true.
Proof. destruct t; simpl; congruence. Qed.

Lemma sample_generated_eq :
  DatasetGenerator_init sample_initial = Ok (tt, sample_generated).
Proof. vm_compute. reflexivity. Qed.

Lemma sample_generated_reachable : reachable sample_initial sample_generated.
Proof. eapply reach_init. exact sample_generated_eq. Qed.

Lemma sample_pool :
  movable_items (world sample_generated) = [1; 2; 7; 5; 6; 10; 3; 12; 11; 8; 9; 0; 4].
Proof. vm_compute. reflexivity. Qed.

Lemma sample_pool_1 : 1 ∈ movable_items (world sample_generated).
Proof. rewrite sample_pool. apply list_elem_of_In. simpl. tauto. Qed.


(** C1. At every timestep (after [__init__] and after every state-changing
    action) every movable item of the generator's pool is either held by the
    person (no container, and it is [person.item]) or inside a container whose
    [can_hold] accepts its type (and then it is not [person.item]): one of the
    two, never both. *)
Theorem C1_exactly_one_owner s0 s i :
  reachable s0 s -> i ∈ movable_items (world s) ->
  exists it, movables (world s) !! i = Some it
    /\ ((held_by_person (world s) i it /\ ~ inside_container (world s) i it)
        \/ (inside_container (world s) i it /\ ~ held_by_person (world s) i it)).
Proof.
  intros Hreach Hi. apply reachable_Inv in Hreach. destruct Hreach as [HI _].
  destruct (inv_own _ HI i Hi) as (it & Hit & Hiff). exists it. split; [exact Hit|].
  destruct (m_container it) as [c|] eqn:Hc.
  - right. destruct (inv_placed _ HI i it c Hi Hit Hc) as (x & Hx & Hch & _).
    assert (Hnot : p_item (person (world s)) <> Some i).
    { intros Hp. apply Hiff in Hp. discriminate. }
    split.
    + split; [exact Hnot|]. exists c, x. rewrite Hc. repeat split; try assumption.
      eapply can_hold_is_container; eassumption.
    + intros [Hnone _]. congruence.
  - left. split.
    + split; [exact Hc | apply Hiff; reflexivity].
    + intros [Hnot _]. apply Hnot. apply Hiff. reflexivity.
Qed.

Lemma C1_exactly_one_owner_witness :
  exists it, movables (world sample_generated) !! 1 = Some it
    /\ ((held_by_person (world sample_generated) 1 it
         /\ ~ inside_container (world sample_generated) 1 it)
        \/ (inside_container (world sample_generated) 1 it
            /\ ~ held_by_person (world sample_generated) 1 it)).
Proof.
  exact (C1_exactly_one_owner sample_initial sample_generated 1
           sample_generated_reachable sample_pool_1).
Defined.

Lemma ownership_container s i :
  ownership (world s) -> i ∈ movable_items (world s) ->
  p_item (person (world s)) = None ->
  exists it c, movables (world s) !! i = Some it /\ m_container it = Some c.
Proof.
  intros Hown Hi Hp. destruct (Hown i Hi) as (it & Hit & Hiff).
  destruct (m_container it) as [c|] eqn:Hc; [eauto|].
  destruct Hiff as [Hiff _]. specialize (Hiff eq_refl). congruence.
Qed.

Lemma MovableItem_perform_action_no_assert s i :
  ownership (world s) -> i ∈ movable_items (world s) ->
  MovableItem_perform_action i s <> Raise AssertionError
  /\ forall s', MovableItem_perform_action i s = Ok (None, s') -> s' = s.
Proof.
  intros Hown Hi. unfold MovableItem_perform_action, get_person.
  rewrite (bind_run _ _ _ _ _ (eq_refl : bind get_world _ s = Ok (person (world s), s))).
  destruct (p_item (person (world s))) as [j|] eqn:Hp.
  - split; [discriminate|]. unfold ret. intros s' H. congruence.
  - destruct (ownership_container s i Hown Hi Hp) as (it & c & Hit & Hc).
    rewrite (bind_run _ _ _ _ _ (get_movable_run _ _ _ Hit)). rewrite Hc.
    unfold bind. unfold get_stationary, bind, get_world, lift, deref.
    destruct (stationaries (world s) !! c); simpl; split; discriminate.
Qed.

(** C9. Under the ownership invariant the assertion of
    [MovableItem.perform_action] holds: when the hand is empty every item of
    the pool has a container, and neither the plain pick-up nor the action
    of a movable candidate (a phone included) ends in [AssertionError]. *)
Theorem C9_pick_up_assertion s i :
  ownership (world s) -> i ∈ movable_items (world s) ->
  (p_item (person (world s)) = None ->
     exists it c, movables (world s) !! i = Some it /\ m_container it = Some c)
  /\ MovableItem_perform_action i s <> Raise AssertionError
  /\ forall fuel, movable_perform_action fuel i s <> Raise AssertionError.
Proof.
  intros Hown Hi. split; [apply ownership_container; assumption|].
  split; [apply MovableItem_perform_action_no_assert; assumption|].
  intros fuel. unfold movable_perform_action.
  destruct (Hown i Hi) as (it & Hit & _).
  rewrite (bind_run _ _ _ _ _ (get_movable_run _ _ _ Hit)).
  assert (Hloop : forall s1, world s1 = world s ->
            MovableInteractable_perform_action fuel i s1 <> Raise AssertionError).
  { induction fuel as [|fuel IH]; intros s1 Hw; simpl; [discriminate|].
    rewrite (bind_run _ _ _ _ _ (coin_run s1)).
    set (s2 := with_cursor s1 (S (cursor s1))).
    destruct (bool_decide (rand s1 (cursor s1) mod 2 = 0)).
    - destruct (Phone_interact_run i s2 it) as (n & s3 & Hrun).
      { simpl. rewrite Hw. exact Hit. }
      rewrite (bind_run _ _ _ _ _ Hrun). discriminate.
    - assert (Hown2 : ownership (world s2)) by (simpl; rewrite Hw; exact Hown).
      assert (Hi2 : i ∈ movable_items (world s2)) by (simpl; rewrite Hw; exact Hi).
      destruct (MovableItem_perform_action_no_assert s2 i Hown2 Hi2) as [Hno Hnone].
      unfold bind at 1.
      destruct (MovableItem_perform_action i s2) as [[[n|] s3]|e|] eqn:Hrun.
      + discriminate.
      + rewrite (Hnone s3 eq_refl). apply IH. simpl. exact Hw.
      + intros Heq. apply Hno. congruence.
      + discriminate. }
  destruct (m_type it); try (apply MovableItem_perform_action_no_assert; assumption).
  apply Hloop. reflexivity.
Qed.

Lemma C9_pick_up_assertion_witness :
  MovableItem_perform_action 1 sample_generated <> Raise AssertionError.
Proof.
  exact (proj1 (proj2 (C9_pick_up_assertion sample_generated 1
           (inv_own _ (proj1 (reachable_Inv _ _ sample_generated_reachable)))
           sample_pool_1))).
Defined.

(** ** One action per state change *)

Lemma stationary_acts_can_act w a w' :
  stationary_acts w a w' -> stationary_can_act w a = true.
Proof.
  intros [x i item loc extra Hx Hp Hi Hc Hl | x st Hx Ht]; unfold stationary_can_act;
    rewrite Hx.
  - unfold can_place. rewrite Hp, Hi.
    destruct Hl as [Hs|lv level Hs _|Hs|b Hs]; rewrite Hs; auto.
  - inversion Ht; reflexivity.
Qed.

Lemma movable_acts_can_act w i w' :
  movable_acts w i w' -> movable_can_act w i = true.
Proof.
  intros [it c cont Hp Hit Hc Hx | it Hit Hty]; unfold movable_can_act; rewrite Hit.
  - rewrite Hp. destruct (m_type it); reflexivity.
  - rewrite Hty. reflexivity.
Qed.

Lemma one_action_can_act w w' : one_action w w' -> world_can_act w = true.
Proof.
  intros [(r & a & Hr & Ha & Hact) | (i & Hi & Hact)]; unfold world_can_act;
    apply orb_true_iff.
  - left. apply existsb_exists. exists r. split; [apply list_elem_of_In; exact Hr|].
    unfold room_can_act. apply existsb_exists. exists a.
    split; [apply list_elem_of_In; exact Ha|]. eapply stationary_acts_can_act; eassumption.
  - right. apply existsb_exists. exists i. split; [apply list_elem_of_In; exact Hi|].
    eapply movable_acts_can_act; eassumption.
Qed.

(** ** Termination *)

Lemma generate_state_change_outcome s :
  Inv (world s) -> fair (rand s) ->
  outcome (fun fuel => generate_state_change_loop fuel (rooms (world s))
                         (movable_items (world s))) s
          (world_can_act (world s)).
Proof.
  intros HI Hfair.
  apply (loop_outcome_all (length (rooms (world s)) + length (movable_items (world s)))).
  - lia.
  - split; [exact HI|]. split; [auto|]. split; [auto | exact Hfair].
Qed.






Lemma sample_after_change_eq :
  generate_state_change 5 sample_generated =
    Ok ("I turned on the TV in Alice's bedroom and set it to NBC.", sample_after_change).
Proof. vm_compute. reflexivity. Qed.







(** ** Placement at generation time *)

(** In the world that [__init__] builds, no container holds more than two
    items of the pool ([max_allowed] is 2 at the only call site). *)
Lemma generated_world_capped s u s' :
  DatasetGenerator_init s = Ok (u, s') -> capped 2 (world s').
Proof.
  unfold DatasetGenerator_init. intros H.
  apply bind_Ok in H. destruct H as (u1 & s1 & H1 & H).
  apply DatasetGenerator_init_movables_spec in H1. destruct H1 as (HM & _).
  apply (DatasetGenerator_init_rooms_spec _ _ _ HM) in H. tauto.
Qed.

(** C7. One call of [Container.generate_instance] builds a fresh container
    and assigns to it a list [chosen] of at most [max_allowed] items, each of
    a type the container class can hold, taken out of the shared list of
    unplaced items (what is left is handed back to the caller, so no later
    container can draw them again); a chosen item in a shelf records a level
    between 1 and the number of levels of that shelf; no other item is
    touched. With the cap 2 of the call site, no container of a generated
    world holds more than two items. *)
Theorem C7_generate_instance t parent items max_allowed s c d items' s' :
  NoDup items ->
  Container_generate_instance t parent items max_allowed s = Ok ((c, d, items'), s') ->
  exists x chosen,
    stationaries (world s) !! c = None
    /\ stationaries (world s') !! c = Some x
    /\ s_type x = t
    /\ length chosen <= max_allowed
    /\ items ≡ₚ chosen ++ items'
    /\ (forall i, i ∈ chosen ->
          exists it it',
            movables (world s) !! i = Some it
            /\ movables (world s') !! i = Some it'
            /\ m_type it' = m_type it
            /\ m_container it' = Some c
            /\ can_hold t (m_type it') = true
            /\ forall levels, s_state x = IsShelf levels ->
                 exists level, 1 <= level <= levels
                   /\ m_extra_location_info it' !! "level" = Some (VInt level))
    /\ (forall i, i ∉ chosen -> movables (world s') !! i = movables (world s) !! i)
    /\ (forall s0 u sg, DatasetGenerator_init s0 = Ok (u, sg) -> capped 2 (world sg)).
Proof.
  intros Hnd H. apply Container_generate_instance_spec in H; [|exact Hnd].
  destruct H as (x & chosen & ms' & -> & Hw & _ & Hty & _ & _ & _ & Hperm & Hlen
                 & Hhold & (_ & Hin & Hout)).
  exists x, chosen. rewrite Hw. simpl.
  split; [apply lookup_ge_None; lia|].
  split; [apply list_lookup_middle; reflexivity|].
  split; [exact Hty|]. split; [exact Hlen|]. split; [exact Hperm|].
  split; [|split; [exact Hout | exact generated_world_capped]].
  intros i Hi. destruct (Hin i Hi) as (it & it' & Hb & Ha & Hc & Hmt & _ & Hloc).
  destruct (Hhold i Hi) as (it0 & Hit0 & Hch).
  assert (it0 = it) by congruence. subst it0.
  exists it, it'. repeat (split; [first [assumption | congruence]|]).
  intros levels Hst. unfold location_ok in Hloc. rewrite Hst in Hloc.
  destruct Hloc as (level & Hl & Hkey & _). eauto.
Qed.

Lemma sample_pooled_eq :
  DatasetGenerator_init_movables sample_initial = Ok (tt, sample_pooled).
Proof. vm_compute. reflexivity. Qed.

Lemma sample_shelf_eq :
  Container_generate_instance Shelf the_living_room
    (movable_items (world sample_pooled)) 2 sample_pooled
  = Ok (sample_shelf.1.1.1, sample_shelf.1.1.2, sample_shelf.1.2, sample_shelf.2).
Proof. vm_compute. reflexivity. Qed.

Lemma C7_generate_instance_witness :
  exists x chosen,
    stationaries (world sample_pooled) !! sample_shelf.1.1.1 = None
    /\ stationaries (world sample_shelf.2) !! sample_shelf.1.1.1 = Some x
    /\ s_type x = Shelf
    /\ length chosen <= 2
    /\ movable_items (world sample_pooled) ≡ₚ chosen ++ sample_shelf.1.2
    /\ (forall i, i ∈ chosen ->
          exists it it',
            movables (world sample_pooled) !! i = Some it
            /\ movables (world sample_shelf.2) !! i = Some it'
            /\ m_type it' = m_type it
            /\ m_container it' = Some sample_shelf.1.1.1
            /\ can_hold Shelf (m_type it') = true
            /\ forall levels, s_state x = IsShelf levels ->
                 exists level, 1 <= level <= levels
                   /\ m_extra_location_info it' !! "level" = Some (VInt level))
    /\ (forall i, i ∉ chosen ->
          movables (world sample_shelf.2) !! i = movables (world sample_pooled) !! i)
    /\ (forall s0 u sg, DatasetGenerator_init s0 = Ok (u, sg) -> capped 2 (world sg)).
Proof.
  exact (C7_generate_instance Shelf the_living_room
           (movable_items (world sample_pooled)) 2 sample_pooled
           sample_shelf.1.1.1 sample_shelf.1.1.2 sample_shelf.1.2 sample_shelf.2
           (mi_nodup _ (proj1 (DatasetGenerator_init_movables_spec _ _ _ sample_pooled_eq)))
           sample_shelf_eq).
Defined.

(** ** Items that no room drew *)

Lemma concat_for_ext {A} (f g : A -> Res (list string)) l :
  (forall x, x ∈ l -> f x = g x) -> concat_for f l = concat_for g l.
Proof.
  induction l as [|x l IH]; intros H; [reflexivity|].
  simpl. rewrite (H x) by apply list_elem_of_here.
  rewrite IH; [reflexivity|]. intros y Hy. apply H, list_elem_of_further, Hy.
Qed.




(** An action changes neither of the two pools. *)
Lemma one_action_pools w w' : one_action w w' -> same_pools w w'.
Proof.
  intros [(r & a & _ & _ & H) | (i & _ & H)]; inversion H; split; reflexivity.
Qed.

(** An action leaves the records outside the pool alone. *)
Lemma one_action_outside w w' i :
  Inv w -> one_action w w' -> i ∉ movable_items w ->
  movables w' !! i = movables w !! i.
Proof.
  intros HI Hact Hi.
  destruct Hact as [(r & a & _ & _ & H) | (j & Hj & H)]; inversion H; subst; simpl.
  - apply list_lookup_insert_ne. intros ->. apply Hi, (inv_hand _ HI). assumption.
  - reflexivity.
  - apply list_lookup_insert_ne. intros ->. exact (Hi Hj).
  - apply list_lookup_insert_ne. intros ->. exact (Hi Hj).
Qed.

(** The pool of a run never changes after [__init__], nor do the records
    outside it. *)
Lemma reachable_outside s0 u s1 s i :
  DatasetGenerator_init s0 = Ok (u, s1) -> reachable s0 s ->
  movable_items (world s) = movable_items (world s1)
  /\ (i ∉ movable_items (world s1) -> movables (world s) !! i = movables (world s1) !! i).
Proof.
  intros Hinit Hr.
  induction Hr as [u' s Hinit' | s fuel n s' Hreach [IHp IHm] Hstep].
  - rewrite Hinit in Hinit'. inversion Hinit'; subst. split; [reflexivity|]. reflexivity.
  - pose proof (proj1 (reachable_Inv _ _ Hreach)) as HI.
    apply generate_state_change_spec in Hstep. destruct Hstep as (_ & Hact).
    destruct (one_action_pools _ _ Hact) as (_ & Hp).
    split; [congruence|]. intros Hi.
    rewrite (one_action_outside _ _ i HI Hact) by (rewrite IHp; exact Hi).
    apply IHm, Hi.
Qed.

Lemma DatasetGenerator_init_split s0 u s :
  DatasetGenerator_init s0 = Ok (u, s) ->
  exists s1, DatasetGenerator_init_movables s0 = Ok (tt, s1)
             /\ DatasetGenerator_init_rooms s1 = Ok (u, s).
Proof.
  unfold DatasetGenerator_init. intros H.
  apply bind_Ok in H. destruct H as ([] & s1 & H1 & H). eauto.
Qed.













(** ** Picking up an item and the initial state of the problem *)

(** No predicate of a stationary item is [hand-empty] or a [contains]. *)
Lemma stationary_init_kind x c :
  c ∈ stationary_get_init_conditions x ->
  is_hand_empty c = false /\ is_contains_predicate c = false.
Proof.
  assert (Hroom : forall c, c ∈ StationaryItem_get_init_conditions x ->
            is_hand_empty c = false /\ is_contains_predicate c = false).
  { intros c0 Hc0. apply list_elem_of_singleton in Hc0. subst c0.
    unfold get_in_room_predicate. destruct (room_class (s_parent x)); split; reflexivity. }
  unfold stationary_get_init_conditions, get_special_init_conditions. intros Hc.
  destruct (s_state x) as [|levels| |[]|[]|[]|[] ch];
    try (apply elem_of_app in Hc; destruct Hc as [Hc|Hc]);
    try (exact (Hroom _ Hc)); try (inversion Hc; fail).
  - apply list_elem_of_In, in_map_iff in Hc. destruct Hc as (i & <- & _).
    split; reflexivity.
  - apply list_elem_of_singleton in Hc. subst c. split; reflexivity.
  - apply list_elem_of_singleton in Hc. subst c. split; reflexivity.
  - apply list_elem_of_singleton in Hc. subst c. split; reflexivity.
  - apply elem_of_cons in Hc. destruct Hc as [->|Hc]; [split; reflexivity|].
    apply list_elem_of_singleton in Hc. subst c. split; reflexivity.
Qed.

Lemma contains_predicate_not_hand_empty t a b kw pr :
  get_contains_predicate t a b kw = Ok pr -> is_hand_empty pr = false.
Proof.
  unfold get_contains_predicate, Container_get_contains_predicate. intros H.
  destruct t; try (inversion H; subst pr; reflexivity).
  destruct (kw !! "pddl_level") as [[]|]; inversion H; subst pr. reflexivity.
Qed.

(** The predicates of a movable item are [in-hand], [contains] and
    [phone-ringing]: never [hand-empty]. *)
Lemma movable_init_not_hand_empty w it h c :
  movable_get_init_conditions w it = Ok h -> c ∈ h -> is_hand_empty c = false.
Proof.
  intros Hh Hc. destruct (movable_get_init_conditions_elem _ _ _ Hh) as (l & Hl & Hiff).
  apply Hiff in Hc. destruct Hc as [Hc | (_ & _ & ->)]; [|reflexivity].
  unfold MovableItem_get_init_conditions in Hl. destruct (m_container it) as [a|].
  - apply Res_bind_Ok in Hl. destruct Hl as (cont & _ & Hl).
    apply Res_bind_Ok in Hl. destruct Hl as (pr & Hpr & Hl). inversion Hl; subst l.
    apply list_elem_of_singleton in Hc. subst c.
    exact (contains_predicate_not_hand_empty _ _ _ _ _ Hpr).
  - inversion Hl; subst l. apply list_elem_of_singleton in Hc. subst c. reflexivity.
Qed.

(** [hand-empty] is in [:init] only when the hand is empty. *)
Lemma init_hand_empty w init c :
  problem_init w = Ok init -> c ∈ init -> is_hand_empty c = true ->
  p_item (person w) = None.
Proof.
  intros Hinit Hc He. apply (problem_init_elem _ _ _ Hinit) in Hc.
  destruct Hc as [Hc | [(r & a & x & _ & _ & _ & Hc) | (i & it & h & _ & _ & Hh & Hc)]].
  - unfold Person_get_init_conditions in Hc. destruct (p_item (person w)); [inversion Hc|].
    reflexivity.
  - destruct (stationary_init_kind _ _ Hc) as (Hf & _). congruence.
  - rewrite (movable_init_not_hand_empty _ _ _ _ Hh Hc) in He. discriminate He.
Qed.

(** A [contains] predicate of [:init] whose item is a movable item of the
    pool is the predicate of that item, which lies in a container. *)
Lemma init_contains_item w init i it c :
  Inv w -> names_ok w = true -> names_distinct w ->
  problem_init w = Ok init ->
  i ∈ movable_items w -> movables w !! i = Some it ->
  c ∈ init -> contains_item (m_pddl_name it) c = true ->
  m_container it <> None.
Proof.
  intros HI Hn Hd Hinit Hi Hit Hc Hci.
  unfold contains_item in Hci. apply andb_true_iff in Hci. destruct Hci as (Hk & Harg).
  destruct (names_ok_elim _ Hn) as (Hp & _ & Hs & Hm).
  apply (problem_init_elem _ _ _ Hinit) in Hc.
  destruct Hc as [Hc | [(r & a & x & _ & _ & _ & Hc) | (j & itj & h & Hj & Hitj & Hh & Hc)]].
  - unfold Person_get_init_conditions in Hc. destruct (p_item (person w)); [inversion Hc|].
    apply list_elem_of_singleton in Hc. subst c. discriminate Hk.
  - destruct (stationary_init_kind _ _ Hc) as (_ & Hf). congruence.
  - destruct (movable_get_init_conditions_elem _ _ _ Hh) as (l & Hl & Hiff).
    apply Hiff in Hc. destruct Hc as [Hc | (_ & _ & ->)]; [|discriminate Hk].
    destruct (m_container itj) as [a|] eqn:Hcont.
    + destruct (inv_placed _ HI j itj a Hj Hitj Hcont) as (x & Hx & _ & Hloc & r & Hr & Ha).
      destruct (inv_rooms _ HI r a Hr Ha) as (x' & Hx' & _ & Hok).
      assert (x' = x) by congruence. subst x'.
      destruct (get_contains_predicate_placed x itj Hloc) as (pr & Hpr & _).
      rewrite (MovableItem_get_init_conditions_placed _ _ _ _ _ Hcont Hx Hpr) in Hl.
      inversion Hl; subst l. apply list_elem_of_singleton in Hc. subst c.
      destruct (contains_predicate_split x itj pr Hok Hloc (Hs r a x Hr Ha Hx)
                  (Hm j itj Hj Hitj) Hpr) as (rest & Hsplit & _).
      rewrite Hsplit in Harg. apply String.eqb_eq in Harg.
      assert (j = i).
      { apply (NoDup_map_inj (movable_name w) (movable_items w)); try assumption.
        unfold movable_name. rewrite Hitj, Hit. exact Harg. }
      subst j. assert (itj = it) by congruence. subst itj. congruence.
    + rewrite (MovableItem_get_init_conditions_held _ _ Hcont) in Hl.
      inversion Hl; subst l. apply list_elem_of_singleton in Hc. subst c. discriminate Hk.
Qed.

Lemma prefix_word n r : String.prefix (n +:+ " ") (n +:+ " " +:+ r) = true.
Proof. rewrite <- append_assoc. apply prefix_append. Qed.

Lemma prefix_word_app n r r' :
  String.prefix (n +:+ " ") ((n +:+ " " +:+ r) +:+ r') = true.
Proof. rewrite !append_assoc. apply prefix_word. Qed.

(** The predicate of an item in a container is a [contains] predicate whose
    item is that item. *)
Lemma is_contains_predicate_own x it pr :
  location_ok x it ->
  can_hold (s_type x) (m_type it) = true ->
  get_contains_predicate (s_type x) (s_pddl_name x) (m_pddl_name it)
    (m_extra_location_info it) = Ok pr ->
  is_contains_predicate pr = true.
Proof.
  intros Hloc Hhold Hpr.
  destruct (get_contains_predicate_placed x it Hloc) as (pr' & Hpr' & Hshape).
  assert (pr' = pr) by congruence. subst pr'.
  unfold s_type in *. unfold is_contains_predicate. apply existsb_exists.
  destruct (s_state x) as [|levels| | | | |] eqn:Hst; simpl in Hhold; try discriminate Hhold.
  - subst pr. exists Table. split; [simpl; tauto | apply prefix_word].
  - destruct Hshape as (level & _ & ->). exists Shelf.
    split; [simpl; tauto | apply prefix_word_app].
  - subst pr. exists Fridge. split; [simpl; tauto | apply prefix_word].
  - subst pr. exists Sink. split; [simpl; tauto | apply prefix_word].
Qed.

Lemma contains_item_own x it pr :
  stationary_ok x -> location_ok x it ->
  can_hold (s_type x) (m_type it) = true ->
  no_space (s_pddl_name x) = true -> no_space (m_pddl_name it) = true ->
  get_contains_predicate (s_type x) (s_pddl_name x) (m_pddl_name it)
    (m_extra_location_info it) = Ok pr ->
  contains_item (m_pddl_name it) pr = true.
Proof.
  intros Hok Hloc Hhold Hx Hit Hpr.
  destruct (contains_predicate_split x it pr Hok Hloc Hx Hit Hpr) as (rest & Hsplit & _).
  unfold contains_item.
  rewrite Hsplit, String.eqb_refl, (is_contains_predicate_own x it pr Hloc Hhold Hpr).
  reflexivity.
Qed.

(** Picking up an item changes no name. *)
Lemma pick_up_movable_name w i it j :
  movables w !! i = Some it ->
  movable_name (pick_up_effect w i it) j = movable_name w j.
Proof.
  intros Hit. unfold movable_name, pick_up_effect. simpl.
  destruct (decide (j = i)) as [->|Hne].
  - rewrite list_lookup_insert_eq by (eapply lookup_lt_Some; exact Hit).
    rewrite Hit. reflexivity.
  - rewrite list_lookup_insert_ne by congruence. reflexivity.
Qed.

Lemma forallb_pointwise {A} (f g : A -> bool) l :
  (forall x, f x = g x) -> forallb f l = forallb g l.
Proof. intros H. induction l as [|x l IH]; simpl; [reflexivity|]. rewrite H, IH. reflexivity. Qed.

Lemma pick_up_names_ok w i it :
  movables w !! i = Some it -> names_ok (pick_up_effect w i it) = names_ok w.
Proof.
  intros Hit. unfold names_ok.
  rewrite (forallb_pointwise (fun j => no_space (movable_name (pick_up_effect w i it) j))
             (fun j => no_space (movable_name w j)))
    by (intros j; rewrite (pick_up_movable_name _ _ _ j Hit); reflexivity).
  reflexivity.
Qed.

Lemma pick_up_names_distinct w i it :
  movables w !! i = Some it -> names_distinct w -> names_distinct (pick_up_effect w i it).
Proof.
  intros Hit Hd. unfold names_distinct.
  rewrite (map_ext _ (movable_name w)) by (intros j; apply pick_up_movable_name, Hit).
  exact Hd.
Qed.

(** What the item itself contributes to [:init] once it is in the hand: no
    [contains] predicate. *)
Lemma held_item_init w it h c :
  m_container it = None ->
  movable_get_init_conditions w it = Ok h -> c ∈ h -> is_contains_predicate c = false.
Proof.
  intros Hc Hh Hin. destruct (movable_get_init_conditions_elem _ _ _ Hh) as (l & Hl & Hiff).
  apply Hiff in Hin. destruct Hin as [Hin | (_ & _ & ->)]; [|reflexivity].
  rewrite (MovableItem_get_init_conditions_held _ _ Hc) in Hl. inversion Hl; subst l.
  apply list_elem_of_singleton in Hin. subst c. reflexivity.
Qed.

(** C4 (amended). Take a well-formed world, an item [i] of the pool and a
    person with an empty hand. Then [i] lies in a container and the [:init]
    of the problem contains the container's [contains] predicate for [i] and
    [hand-empty] for the person; the pick-up succeeds, and in the [:init]
    generated afterwards the [in-hand] predicate for the person and [i] is
    present, [hand-empty] is absent and the item contributes no [contains]
    predicate. When the names of the world are distinct single words, so
    that a symbol names one item, no [contains] predicate of the new [:init]
    has the symbol of [i] as its item, while the one of the old [:init] had. *)
Theorem C4_pick_up_updates_init s i it :
  Inv (world s) ->
  i ∈ movable_items (world s) ->
  p_item (person (world s)) = None ->
  movables (world s) !! i = Some it ->
  exists c cont pr init narration s' init' it',
    m_container it = Some c
    /\ stationaries (world s) !! c = Some cont
    /\ get_contains_predicate (s_type cont) (s_pddl_name cont) (m_pddl_name it)
         (m_extra_location_info it) = Ok pr
    /\ is_contains_predicate pr = true
    /\ problem_init (world s) = Ok init
    /\ pr ∈ init
    /\ get_empty_hand_predicate (p_pddl_name (person (world s))) ∈ init
    /\ MovableItem_perform_action i s = Ok (Some narration, s')
    /\ problem_init (world s') = Ok init'
    /\ get_in_hand_predicate (p_pddl_name (person (world s))) (m_pddl_name it) ∈ init'
    /\ (get_empty_hand_predicate (p_pddl_name (person (world s))) ∉ init')
    /\ movables (world s') !! i = Some it'
    /\ (forall h c', movable_get_init_conditions (world s') it' = Ok h -> c' ∈ h ->
          is_contains_predicate c' = false)
    /\ (names_ok (world s) = true -> names_distinct (world s) ->
          contains_item (m_pddl_name it) pr = true
          /\ forall c', c' ∈ init' -> contains_item (m_pddl_name it) c' = false).
Proof.
  intros HI Hi Hp Hit.
  destruct (inv_own _ HI i Hi) as (it0 & Hit0 & Hiff).
  assert (it0 = it) by congruence. subst it0.
  destruct (m_container it) as [c|] eqn:Hc.
  2: { destruct Hiff as [Hiff _]. specialize (Hiff eq_refl). congruence. }
  destruct (inv_placed _ HI i it c Hi Hit Hc) as (cont & Hcont & Hhold & Hloc & r & Hr & Ha).
  destruct (inv_rooms _ HI r c Hr Ha) as (cont' & Hcont' & _ & Hok).
  assert (cont' = cont) by congruence. subst cont'.
  destruct (get_contains_predicate_placed cont it Hloc) as (pr & Hpr & _).
  destruct (problem_init_total _ HI) as (init & Hinit).
  destruct (MovableItem_perform_action_Some i s HI Hi Hp) as (n & s' & Hact).
  destruct (MovableItem_perform_action_spec _ _ _ _ Hact)
    as (_ & it1 & c1 & cont1 & _ & Hit1 & _ & _ & Hw').
  assert (it1 = it) by congruence. subst it1.
  pose proof (Inv_pick_up _ _ _ _ HI Hi Hp Hit Hc) as HI'.
  destruct (problem_init_total _ HI') as (init' & Hinit').
  assert (Hit' : movables (pick_up_effect (world s) i it) !! i
                 = Some (with_location it None None (m_extra_location_info it))).
  { unfold pick_up_effect. simpl. apply list_lookup_insert_eq.
    eapply lookup_lt_Some. exact Hit. }
  exists c, cont, pr, init, n, s', init',
    (with_location it None None (m_extra_location_info it)).
  rewrite Hw'.
  split; [reflexivity|]. split; [exact Hcont|]. split; [exact Hpr|].
  split; [exact (is_contains_predicate_own cont it pr Hloc Hhold Hpr)|].
  split; [exact Hinit|].
  split.
  { apply (problem_init_elem _ _ _ Hinit). right. right.
    destruct (movable_get_init_conditions_total _ i it HI Hi Hit) as (h & Hh).
    exists i, it, h. split; [exact Hi|]. split; [exact Hit|]. split; [exact Hh|].
    destruct (movable_get_init_conditions_elem _ _ _ Hh) as (l & Hl & Hiff').
    rewrite (MovableItem_get_init_conditions_placed _ _ _ _ _ Hc Hcont Hpr) in Hl.
    inversion Hl; subst l. apply Hiff'. left. apply list_elem_of_here. }
  split.
  { apply (problem_init_elem _ _ _ Hinit). left. unfold Person_get_init_conditions.
    rewrite Hp. apply list_elem_of_here. }
  split; [exact Hact|]. split; [exact Hinit'|].
  split.
  { apply (problem_init_elem _ _ _ Hinit'). right. right.
    destruct (movable_get_init_conditions_total _ i _ HI' Hi Hit') as (h & Hh).
    exists i, (with_location it None None (m_extra_location_info it)), h.
    split; [exact Hi|]. split; [exact Hit'|]. split; [exact Hh|].
    destruct (movable_get_init_conditions_elem _ _ _ Hh) as (l & Hl & Hiff').
    rewrite (MovableItem_get_init_conditions_held (pick_up_effect (world s) i it)
               (with_location it None None (m_extra_location_info it)) eq_refl) in Hl.
    inversion Hl; subst l. apply Hiff'. left. apply list_elem_of_here. }
  split.
  { intros Hin. apply (init_hand_empty _ _ _ Hinit') in Hin.
    - discriminate Hin.
    - apply prefix_append. }
  split; [exact Hit'|].
  split.
  { intros h c' Hh Hc'.
    exact (held_item_init _ (with_location it None None (m_extra_location_info it))
             h c' eq_refl Hh Hc'). }
  intros Hn Hd. destruct (names_ok_elim _ Hn) as (_ & _ & Hs & Hm).
  split.
  { exact (contains_item_own cont it pr Hok Hloc Hhold (Hs r c cont Hr Ha Hcont)
             (Hm i it Hi Hit) Hpr). }
  intros c' Hc'. destruct (contains_item (m_pddl_name it) c') eqn:E; [exfalso | reflexivity].
  apply (init_contains_item _ _ i (with_location it None None (m_extra_location_info it))
           c' HI') in Hinit'; try assumption.
  - apply Hinit'. reflexivity.
  - rewrite (pick_up_names_ok _ _ _ Hit). exact Hn.
  - apply pick_up_names_distinct; assumption.
Qed.

Lemma sample_names : names_ok (world sample_generated) = true.
Proof. vm_compute. reflexivity. Qed.

Lemma sample_names_distinct : names_distinct (world sample_generated).
Proof.
  apply (bool_decide_unpack (NoDup _)). vm_compute. exact I.
Qed.

Lemma sample_hand : p_item (person (world sample_generated)) = None.
Proof. vm_compute. reflexivity. Qed.

Lemma sample_item_lookup : movables (world sample_generated) !! 1 = Some sample_item.
Proof. vm_compute. reflexivity. Qed.

Lemma C4_pick_up_updates_init_witness :
  exists c cont pr init narration s' init' it',
    m_container sample_item = Some c
    /\ stationaries (world sample_generated) !! c = Some cont
    /\ get_contains_predicate (s_type cont) (s_pddl_name cont) (m_pddl_name sample_item)
         (m_extra_location_info sample_item) = Ok pr
    /\ is_contains_predicate pr = true
    /\ problem_init (world sample_generated) = Ok init
    /\ pr ∈ init
    /\ get_empty_hand_predicate (p_pddl_name (person (world sample_generated))) ∈ init
    /\ MovableItem_perform_action 1 sample_generated = Ok (Some narration, s')
    /\ problem_init (world s') = Ok init'
    /\ get_in_hand_predicate (p_pddl_name (person (world sample_generated)))
         (m_pddl_name sample_item) ∈ init'
    /\ (get_empty_hand_predicate (p_pddl_name (person (world sample_generated))) ∉ init')
    /\ movables (world s') !! 1 = Some it'
    /\ (forall h c', movable_get_init_conditions (world s') it' = Ok h -> c' ∈ h ->
          is_contains_predicate c' = false)
    /\ contains_item (m_pddl_name sample_item) pr = true
    /\ forall c', c' ∈ init' -> contains_item (m_pddl_name sample_item) c' = false.
Proof.
  destruct (C4_pick_up_updates_init sample_generated 1 sample_item
              (proj1 (reachable_Inv _ _ sample_generated_reachable))
              sample_pool_1 sample_hand sample_item_lookup)
    as (c & cont & pr & init & n & s' & init' & it' & H1 & H2 & H3 & H4 & H5 & H6 & H7
        & H8 & H9 & H10 & H11 & H12 & H13 & Hnames).
  exists c, cont, pr, init, n, s', init', it'.
  exact (conj H1 (conj H2 (conj H3 (conj H4 (conj H5 (conj H6 (conj H7 (conj H8
          (conj H9 (conj H10 (conj H11 (conj H12 (conj H13
            (Hnames sample_names sample_names_distinct)))))))))))))).
Defined.

(** ** Two items of one symbol *)

Lemma twin_generated_eq :
  DatasetGenerator_init twin_initial = Ok (tt, twin_generated).
Proof. vm_compute. reflexivity. Qed.

Lemma twin_holding_eq :
  exists narration,
    MovableItem_perform_action 0 twin_generated = Ok (Some narration, twin_holding).
Proof. eexists. vm_compute. reflexivity. Qed.

(** C4 (counterexample). The books called [A B] and [A-B] both get the
    symbol [a-b-book]. In the world that [DatasetGenerator.__init__] builds
    from them both lie on the table of the living room; after the person
    picked up the first, the [:init] of the problem holds
    [in-hand me a-b-book] and still holds the [contains] predicate of the
    table for [a-b-book], that of the second book. *)
Lemma C4_twin_titles_keep_contains :
  reachable twin_initial twin_generated
  /\ names_ok (world twin_generated) = true
  /\ ~ names_distinct (world twin_generated)
  /\ 0 ∈ movable_items (world twin_generated)
  /\ p_item (person (world twin_generated)) = None
  /\ (exists it, movables (world twin_generated) !! 0 = Some it
                 /\ m_pddl_name it = "a-b-book")
  /\ (exists narration,
        MovableItem_perform_action 0 twin_generated = Ok (Some narration, twin_holding))
  /\ exists init',
       problem_init (world twin_holding) = Ok init'
       /\ "in-hand me a-b-book" ∈ init'
       /\ "table-contains living-room-table a-b-book" ∈ init'
       /\ is_contains_predicate "table-contains living-room-table a-b-book" = true
       /\ contains_item "a-b-book" "table-contains living-room-table a-b-book" = true.
Proof.
  split; [eapply reach_init; exact twin_generated_eq|].
  split; [vm_compute; reflexivity|].
  split.
  { unfold names_distinct.
    replace (map (movable_name (world twin_generated))
               (movable_items (world twin_generated)))
      with ["a-b-book"; "a-b-book"] by (vm_compute; reflexivity).
    intros H. apply NoDup_cons in H. destruct H as [H _].
    apply H. apply list_elem_of_here. }
  split; [apply list_elem_of_In; vm_compute; tauto|].
  split; [vm_compute; reflexivity|].
  split; [eexists; split; vm_compute; reflexivity|].
  split; [exact twin_holding_eq|].
  eexists. split; [vm_compute; reflexivity|].
  split; [apply list_elem_of_In; vm_compute; tauto|].
  split; [apply list_elem_of_In; vm_compute; tauto|].
  split; vm_compute; reflexivity.
Qed.
(** ** The objects of the problem cover its initial state *)


Lemma sample_after_change_reachable : reachable sample_initial sample_after_change.
Proof.
  eapply reach_step; [exact sample_generated_reachable | exact sample_after_change_eq].
Qed.




(** ** Lights and TVs *)

Lemma Light_perform_action_run s a x on :
  stationaries (world s) !! a = Some x -> s_state x = IsLight on ->
  Light_perform_action a s =
    Ok (Some ("I turned " +:+ on_off (negb on) +:+ " the "
                +:+ get_full_name_with_room x +:+ "."),
        with_world s (with_stationaries (world s)
                        (<[a := with_state x (IsLight (negb on))]> (stationaries (world s))))).
Proof.
  intros Hx Hst. unfold Light_perform_action.
  rewrite (bind_run _ _ _ _ _ (get_stationary_run _ _ _ Hx)). rewrite Hst.
  reflexivity.
Qed.

(** C8. Performing a light's action twice in succession restores its on/off
    state (indeed the whole program state), and the [light-on] predicate of a
    light is among its init conditions exactly when the light is on. *)
Theorem C8_light_toggle_twice s a x on :
  stationaries (world s) !! a = Some x -> s_state x = IsLight on ->
  (exists n1 s1 n2 s2,
      Light_perform_action a s = Ok (Some n1, s1)
      /\ stationaries (world s1) !! a = Some (with_state x (IsLight (negb on)))
      /\ Light_perform_action a s1 = Ok (Some n2, s2)
      /\ stationaries (world s2) !! a = Some x
      /\ s2 = s)
  /\ (light_on_predicate x ∈ stationary_get_init_conditions x <-> on = true).
Proof.
  intros Hx Hst. split.
  - assert (Hlt : a < length (stationaries (world s))) by (eapply lookup_lt_Some; eauto).
    set (x1 := with_state x (IsLight (negb on))).
    set (s1 := with_world s (with_stationaries (world s) (<[a := x1]> (stationaries (world s))))).
    assert (H1 : stationaries (world s1) !! a = Some x1).
    { simpl. apply list_lookup_insert_eq. assumption. }
    assert (Hback : with_state x1 (IsLight (negb (negb on))) = x).
    { rewrite negb_involutive. subst x1. rewrite <- Hst. destruct x; reflexivity. }
    assert (Hs2 : with_world s1 (with_stationaries (world s1)
                    (<[a := with_state x1 (IsLight (negb (negb on)))]> (stationaries (world s1)))) = s).
    { rewrite Hback. simpl. rewrite list_insert_insert_eq.
      rewrite (list_insert_id _ _ _ Hx).
      destruct s as [r c cl g w]; destruct w; reflexivity. }
    eexists _, s1, _, s. repeat split.
    + apply Light_perform_action_run; assumption.
    + assumption.
    + rewrite (Light_perform_action_run s1 a x1 (negb on) H1 eq_refl).
      rewrite Hs2. reflexivity.
    + assumption.
  - unfold stationary_get_init_conditions, get_special_init_conditions,
      StationaryItem_get_init_conditions, light_on_predicate. rewrite Hst.
    destruct on; split; intros H; try reflexivity.
    + set_solver.
    + exfalso. apply list_elem_of_In in H. simpl in H.
      destruct H as [H | []]. discriminate H.
    + discriminate.
Qed.

Lemma C8_light_toggle_twice_witness :
  let s := sample_state (fun n => n) (with_stationaries empty_world [sample_light]) in
  (exists n1 s1 n2 s2,
      Light_perform_action 0 s = Ok (Some n1, s1)
      /\ stationaries (world s1) !! 0 = Some (with_state sample_light (IsLight false))
      /\ Light_perform_action 0 s1 = Ok (Some n2, s2)
      /\ stationaries (world s2) !! 0 = Some sample_light
      /\ s2 = s)
  /\ (light_on_predicate sample_light ∈ stationary_get_init_conditions sample_light
      <-> true = true).
Proof.
  exact (C8_light_toggle_twice
           (sample_state (fun n => n) (with_stationaries empty_world [sample_light]))
           0 sample_light true eq_refl eq_refl).
Defined.


Lemma coin_true_run s :
  rand s (cursor s) mod 2 = 0 -> coin s = Ok (true, with_cursor s (S (cursor s))).
Proof. intros H. rewrite coin_run, H. reflexivity. Qed.


(** * Further properties of the program *)

(** ** What a generated room contains *)

Lemma grows_refl w : grows w w.
Proof. exists []. rewrite app_nil_r. reflexivity. Qed.

Lemma grows_trans w1 w2 w3 : grows w1 w2 -> grows w2 w3 -> grows w1 w3.
Proof.
  intros (n1 & H1) (n2 & H2). exists (n1 ++ n2). rewrite H2, H1, app_assoc. reflexivity.
Qed.

Lemma grows_same w w' : stationaries w' = stationaries w -> grows w w'.
Proof. intros H. exists []. rewrite app_nil_r. exact H. Qed.

Lemma stationary_type_at_grows w w' a :
  grows w w' -> is_Some (stationary_type_at w a) ->
  stationary_type_at w' a = stationary_type_at w a.
Proof.
  intros (new & Hnew) Hs. unfold stationary_type_at in *. rewrite Hnew.
  destruct (stationaries w !! a) as [x|] eqn:Hx; [|destruct Hs as (? & Hs); discriminate Hs].
  rewrite (lookup_app_l_Some _ _ _ _ Hx). reflexivity.
Qed.

Lemma furnished_is_Some g w r a :
  furnished g w r -> a ∈ r_items r -> is_Some (stationary_type_at w a).
Proof.
  unfold furnished. intros Hf Ha.
  apply (list_elem_of_fmap_2 (stationary_type_at w)) in Ha. rewrite Hf in Ha.
  apply list_elem_of_fmap in Ha. destruct Ha as (t & -> & _). eauto.
Qed.

Lemma furnished_grows g w w' r : grows w w' -> furnished g w r -> furnished g w' r.
Proof.
  intros Hg Hf. unfold furnished in *. rewrite <- Hf.
  rewrite (list_fmap_ext (stationary_type_at w') (stationary_type_at w)); [reflexivity|].
  intros i a Ha. apply stationary_type_at_grows; [exact Hg|].
  eapply furnished_is_Some; [exact Hf|]. eapply list_elem_of_lookup_2. exact Ha.
Qed.

(** Every class builds one stationary item of its own class. *)
Lemma stationary_generate_instance_grow t parent items s a d items' s' pend :
  GInv (world s) items pend parent ->
  stationary_generate_instance t parent items 2 s = Ok ((a, d, items'), s') ->
  exists x, a = length (stationaries (world s))
            /\ stationaries (world s') = stationaries (world s) ++ [x]
            /\ s_type x = t.
Proof.
  intros HG H.
  assert (Hcon : Container_generate_instance t parent items 2 s = Ok ((a, d, items'), s') ->
            exists x, a = length (stationaries (world s))
                      /\ stationaries (world s') = stationaries (world s) ++ [x]
                      /\ s_type x = t).
  { intros Hc. apply Container_generate_instance_spec in Hc; [|exact (g_rem_nodup _ _ _ _ HG)].
    destruct Hc as (x & chosen & ms' & -> & Hw & _ & Hty & _).
    exists x. rewrite Hw. auto. }
  assert (Halloc : forall x s1, world s1 = world s -> s_type x = t ->
            alloc_stationary x s1 = Ok (a, s') ->
            exists x, a = length (stationaries (world s))
                      /\ stationaries (world s') = stationaries (world s) ++ [x]
                      /\ s_type x = t).
  { intros x s1 Hw Hty Ha. apply alloc_stationary_inv in Ha. destruct Ha as [-> ->].
    exists x. simpl. rewrite Hw. auto. }
  unfold stationary_generate_instance in H. destruct t; auto; inv_M.
  - match goal with Hc : coin _ = Ok _ |- _ => apply coin_inv in Hc; destruct Hc as [_ ->] end.
    eapply Halloc; try eassumption; reflexivity.
  - match goal with Hc : coin _ = Ok _ |- _ => apply coin_inv in Hc; destruct Hc as [_ ->] end.
    eapply Halloc; try eassumption; reflexivity.
  - match goal with Hc : coin _ = Ok _ |- _ => apply coin_inv in Hc; destruct Hc as [_ ->] end.
    match goal with Hc : random_choice _ _ = Ok _ |- _ =>
      apply random_choice_inv in Hc; destruct Hc as [_ ->] end.
    eapply Halloc; try eassumption; reflexivity.
Qed.

(** The loop over the stationary classes builds one item for each class the
    room can hold, in the order of the list of classes. *)
Lemma generate_stationaries_types parent types : forall items s its descs items' s' pend,
  GInv (world s) items pend parent ->
  generate_stationaries parent types items s = Ok ((its, descs, items'), s') ->
  grows (world s) (world s')
  /\ stationary_type_at (world s') <$> its
     = Some <$> List.filter (room_can_hold (room_class parent)) types
  /\ its = descs.*1.
Proof.
  induction types as [|t types IH]; intros items s its descs items' s' pend HG H;
    simpl in H.
  - unfold ret in H. inversion H; subst. split; [apply grows_refl | split; reflexivity].
  - simpl. destruct (room_can_hold (room_class parent) t); simpl in H.
    + apply bind_Ok in H. destruct H as ([[a d] items1] & s1 & Hgen & H).
      destruct (stationary_generate_instance_grow _ _ _ _ _ _ _ _ _ HG Hgen)
        as (x & Ha & Hst1 & Hty).
      apply (stationary_generate_instance_GInv _ _ _ _ _ _ _ _ pend HG) in Hgen.
      destruct Hgen as (HG1 & _ & _).
      apply bind_Ok in H. destruct H as ([[its0 descs0] items2] & s2 & Hrest & H).
      destruct (IH _ _ _ _ _ _ _ HG1 Hrest) as (Hgr & Htypes & Hfst).
      unfold ret in H. inversion H; subst its descs items' s'. clear H.
      split; [|split].
      * eapply grows_trans; [|exact Hgr]. exists [x]. exact Hst1.
      * rewrite !fmap_cons, Htypes. f_equal.
        rewrite (stationary_type_at_grows (world s1) (world s2) a Hgr).
        -- unfold stationary_type_at. rewrite Hst1, Ha.
           rewrite list_lookup_middle by reflexivity. simpl. rewrite Hty. reflexivity.
        -- unfold stationary_type_at. rewrite Hst1, Ha.
           rewrite list_lookup_middle by reflexivity. simpl. eauto.
      * simpl. rewrite Hfst. reflexivity.
    + apply (IH _ _ _ _ _ _ _ HG H).
Qed.

Lemma Room_generate_empty_class t s parent s' :
  Room_generate_empty t s = Ok (Some parent, s') -> room_class parent = t.
Proof.
  unfold Room_generate_empty. intros H. apply bind_Ok in H.
  destruct H as (c & s1 & Hc & H). destruct t.
  - destruct (Kitchen_generated c); inv_M. reflexivity.
  - destruct (LivingRoom_generated c); inv_M. reflexivity.
  - apply bind_Ok in H. destruct H as (r & s2 & Hr & H). destruct r as [[name rest]|]; inv_M.
    reflexivity.
Qed.

(** A room that [generate_with_description] returns is furnished. *)
Lemma Room_generate_with_description_furnished t items s res items' s' parent0 :
  GInv (world s) items [] parent0 ->
  Room_generate_with_description t items s = Ok ((res, items'), s') ->
  grows (world s) (world s')
  /\ match res with
     | None => True
     | Some (room, _) => furnished (globals s) (world s') room /\ r_class room = t
     end.
Proof.
  intros HG H. unfold Room_generate_with_description in H.
  apply bind_Ok in H. destruct H as (r & s1 & Hr & H).
  pose proof Hr as Hr'. apply Room_generate_empty_inv in Hr. destruct Hr as (Hw1 & He1).
  destruct r as [parent|].
  2: { unfold ret in H. inversion H; subst. split; [|exact I].
       apply grows_same. rewrite Hw1. reflexivity. }
  apply Room_generate_empty_class in Hr'.
  apply bind_Ok in H. destruct H as (g & s2 & Hg & H).
  unfold get_globals in Hg. inversion Hg; subst g s2. clear Hg.
  apply bind_Ok in H. destruct H as ([[its descs] items1] & s2 & Hgen & H).
  assert (HG1 : GInv (world s1) items [] parent).
  { rewrite Hw1. destruct HG. split; auto. intros a Ha. inversion Ha. }
  destruct (generate_stationaries_types _ _ _ _ _ _ _ _ _ HG1 Hgen) as (Hgr & Htypes & _).
  apply bind_Ok in H. destruct H as (its' & s3 & Hsh & H).
  apply shuffle_inv in Hsh. destruct Hsh as (Hperm & Hw3 & He3).
  apply bind_Ok in H. destruct H as (descs' & s4 & Hsh2 & H).
  apply shuffle_inv in Hsh2. destruct Hsh2 as (_ & Hw4 & He4).
  apply bind_Ok in H. destruct H as (rd & s5 & Hd & H).
  apply room_description_from_inv in Hd. subst s5.
  unfold ret in H. inversion H; subst. clear H.
  rewrite Hw4, Hw3. split; [rewrite <- Hw1; exact Hgr|].
  split; [|reflexivity]. unfold furnished, get_holdable_items. simpl.
  rewrite Hperm, Htypes. destruct He1 as (_ & ->). reflexivity.
Qed.

Lemma all_furnished_grows s s' :
  grows (world s) (world s') -> rooms (world s') = rooms (world s) ->
  globals s' = globals s -> all_furnished s -> all_furnished s'.
Proof.
  intros Hg Hr Hgl Hf r Hin. rewrite Hr in Hin. rewrite Hgl.
  eapply furnished_grows; [exact Hg | apply Hf, Hin].
Qed.

Lemma generate_rooms_loop_furnished t fuel : forall count remaining s rem' s' parent0,
  GInv (world s) remaining [] parent0 -> all_furnished s ->
  generate_rooms_loop fuel count t remaining s = Ok (rem', s') ->
  all_furnished s' /\ grows (world s) (world s').
Proof.
  induction fuel as [|fuel IH]; intros count remaining s rem' s' parent0 HG Hf H;
    simpl in H; [discriminate|].
  apply bind_Ok in H. destruct H as (g & s1 & Hg & H).
  unfold get_globals in Hg. inversion Hg; subst g s1. clear Hg.
  destruct (decide (count * length (room_types (globals s)) < MAX_ROOMS)).
  2: { unfold ret in H. inversion H; subst. split; [exact Hf | apply grows_refl]. }
  apply bind_Ok in H. destruct H as ([res rem1] & s1 & Hroom & H).
  destruct (Room_generate_with_description_furnished _ _ _ _ _ _ _ HG Hroom) as (Hgr & Hres).
  apply (Room_generate_with_description_spec _ _ _ _ _ _ _ HG) in Hroom.
  destruct Hroom as (He1 & Hres'). destruct res as [[room rd]|].
  - destruct Hres' as (HG1 & Hr1 & Hp1). destruct Hres as (Hfr & _).
    apply bind_Ok in H. destruct H as (w & s2 & Hw & H).
    unfold get_world in Hw. inversion Hw; subst w s2. clear Hw.
    apply bind_Ok in H. destruct H as (u & s2 & Hput & H).
    unfold put_world in Hput. inversion Hput; subst u s2. clear Hput.
    apply (IH _ _ _ _ _ parent0) in H.
    + destruct H as (Hf2 & Hgr2). split; [exact Hf2|].
      eapply grows_trans; [exact Hgr|]. destruct Hgr2 as (new & Hnew). exists new. exact Hnew.
    + simpl. apply GInv_add_room. exact HG1.
    + intros r Hin. simpl in Hin. simpl. destruct He1 as (_ & Hgl).
      apply elem_of_app in Hin. destruct Hin as [Hin|Hin].
      * rewrite Hgl. apply (furnished_grows _ (world s1)); [apply grows_same; reflexivity|].
        eapply furnished_grows; [exact Hgr|]. apply Hf. rewrite <- Hr1. exact Hin.
      * apply list_elem_of_singleton in Hin. subst r. rewrite Hgl.
        apply (furnished_grows _ (world s1)); [apply grows_same; reflexivity | exact Hfr].
  - destruct Hres' as (-> & Hw). unfold ret in H. inversion H; subst.
    split; [|exact Hgr]. destruct He1 as (_ & Hgl).
    intros r Hin. rewrite Hw in Hin. rewrite Hgl, Hw. apply Hf, Hin.
Qed.

Lemma generate_rooms_furnished types : forall remaining s rem' s' parent0,
  GInv (world s) remaining [] parent0 -> all_furnished s ->
  generate_rooms types remaining s = Ok (rem', s') ->
  all_furnished s' /\ grows (world s) (world s').
Proof.
  induction types as [|t types IH]; intros remaining s rem' s' parent0 HG Hf H.
  - simpl in H. unfold ret in H. inversion H; subst. split; [exact Hf | apply grows_refl].
  - rewrite generate_rooms_cons in H. apply bind_Ok in H.
    destruct H as (rem1 & s1 & Hloop & H).
    destruct (generate_rooms_loop_furnished _ _ _ _ _ _ _ _ HG Hf Hloop) as (Hf1 & Hg1).
    apply (generate_rooms_loop_spec _ _ _ _ _ _ _ parent0 HG) in Hloop.
    destruct Hloop as (HG1 & _ & _).
    destruct (IH _ _ _ _ _ HG1 Hf1 H) as (Hf2 & Hg2).
    split; [exact Hf2 | eapply grows_trans; eassumption].
Qed.

Lemma furnished_same g w w' r :
  stationaries w' = stationaries w -> furnished g w r -> furnished g w' r.
Proof. intros Hs. apply furnished_grows, grows_same, Hs. Qed.

(** After [__init__] every room is furnished. *)
Lemma DatasetGenerator_init_furnished s u s' :
  DatasetGenerator_init s = Ok (u, s') -> all_furnished s'.
Proof.
  unfold DatasetGenerator_init. intros H.
  apply bind_Ok in H. destruct H as (u1 & s1 & H1 & H).
  assert (Hr1 : rooms (world s1) = []).
  { apply DatasetGenerator_init_movables_spec in H1. exact (mi_rooms _ (proj1 H1)). }
  apply DatasetGenerator_init_movables_spec in H1. destruct H1 as (HM & _).
  unfold DatasetGenerator_init_rooms in H.
  apply bind_Ok in H. destruct H as (g & s0 & Hg & H).
  unfold get_globals in Hg. inversion Hg; subst g s0. clear Hg.
  apply bind_Ok in H. destruct H as (w & s0 & Hgw & H).
  unfold get_world in Hgw. inversion Hgw; subst w s0. clear Hgw.
  apply bind_Ok in H. destruct H as (rem & s2 & Hgen & H).
  assert (Hf1 : all_furnished s1) by (intros r Hin; rewrite Hr1 in Hin; inversion Hin).
  destruct (generate_rooms_furnished _ _ _ _ _ the_kitchen (MInv_GInv _ _ HM) Hf1 Hgen)
    as (Hf2 & _).
  apply bind_Ok in H. destruct H as (w & s0 & Hgw & H).
  unfold get_world in Hgw. inversion Hgw; subst w s0. clear Hgw.
  apply bind_Ok in H. destruct H as (kept & s3 & Hrm & H).
  apply lift_Ok in Hrm. destruct Hrm as [Hrm ->].
  apply bind_Ok in H. destruct H as (kept' & s3 & Hsh & H).
  apply shuffle_inv in Hsh. destruct Hsh as (Hpk & Hw3 & (_ & _ & Hg3)).
  apply bind_Ok in H. destruct H as (u1' & s4 & Hput & H).
  unfold put_world in Hput. inversion Hput; subst u1' s4. clear Hput.
  apply bind_Ok in H. destruct H as (w & s4 & Hgw & H).
  unfold get_world in Hgw. inversion Hgw; subst w s4. clear Hgw.
  apply bind_Ok in H. destruct H as (rooms' & s5 & Hsh2 & H).
  apply shuffle_inv in Hsh2. destruct Hsh2 as (Hpr & Hw5 & (_ & _ & Hg5)).
  unfold put_world in H. inversion H; subst. clear H.
  intros r Hin. simpl in Hin. rewrite Hpr in Hin. simpl in Hin.
  simpl. rewrite Hg5. simpl. rewrite Hg3.
  apply (furnished_same _ (world s2)); [reflexivity|]. apply Hf2, Hin.
Qed.

(** An action changes the class of no stationary item. *)
Lemma one_action_stationary_type w w' a :
  one_action w w' -> stationary_type_at w' a = stationary_type_at w a.
Proof.
  intros [(r & b & _ & _ & H) | (i & _ & H)]; inversion H; subst; try reflexivity.
  unfold stationary_type_at, state_effect. simpl.
  destruct (decide (a = b)) as [->|Hne].
  - rewrite list_lookup_insert_eq by (eapply lookup_lt_Some; eassumption).
    match goal with Hx : stationaries w !! b = Some _ |- _ => rewrite Hx end. simpl.
    unfold s_type. simpl. f_equal. apply toggles_type. assumption.
  - rewrite list_lookup_insert_ne by congruence. reflexivity.
Qed.

Lemma reachable_furnished s0 s : reachable s0 s -> all_furnished s.
Proof.
  induction 1 as [u s Hinit | s fuel n s' Hreach IH Hstep].
  - eapply DatasetGenerator_init_furnished. exact Hinit.
  - apply generate_state_change_spec in Hstep. destruct Hstep as ((_ & _ & Hgl) & Hact).
    destruct (one_action_pools _ _ Hact) as (Hr & _).
    intros r Hin. rewrite Hr in Hin. rewrite Hgl. unfold furnished.
    rewrite (list_fmap_ext (stationary_type_at (world s')) (stationary_type_at (world s)))
      by (intros; apply one_action_stationary_type; exact Hact).
    apply IH, Hin.
Qed.

Lemma sample_room_in : sample_room ∈ rooms (world sample_generated).
Proof. apply list_elem_of_In. vm_compute. left. reflexivity. Qed.

(** X1. At every timestep every room of a generated world holds exactly one
    stationary item of each class that [can_hold] of the room's class accepts
    (in some order), and no other item. *)
Theorem X1_rooms_furnished s0 s r :
  reachable s0 s -> r ∈ rooms (world s) ->
  stationary_type_at (world s) <$> r_items r
    ≡ₚ Some <$> get_holdable_items (globals s) (r_class r).
Proof. intros Hr Hin. exact (reachable_furnished s0 s Hr r Hin). Qed.

Lemma X1_rooms_furnished_witness :
  stationary_type_at (world sample_generated) <$> r_items sample_room
    ≡ₚ Some <$> get_holdable_items (globals sample_generated) (r_class sample_room).
Proof.
  exact (X1_rooms_furnished sample_initial sample_generated sample_room
           sample_generated_reachable sample_room_in).
Defined.

(** ** A generated world never runs out of actions *)

Lemma room_can_hold_Light t : room_can_hold t Light = true.
Proof. destruct t; reflexivity. Qed.

(** A furnished room whose class list has the light can always act. *)
Lemma furnished_can_act g w r :
  Light ∈ stationary_types g -> furnished g w r -> room_can_act w r = true.
Proof.
  intros HL Hf. unfold furnished in Hf.
  assert (Hin : Some Light ∈ Some <$> get_holdable_items g (r_class r)).
  { apply list_elem_of_fmap_2. unfold get_holdable_items. apply list_elem_of_In.
    apply List.filter_In. split; [apply list_elem_of_In, HL | apply room_can_hold_Light]. }
  rewrite <- Hf in Hin. apply list_elem_of_fmap in Hin. destruct Hin as (a & Ha & Hin).
  unfold room_can_act. apply existsb_exists. exists a. split; [apply list_elem_of_In, Hin|].
  unfold stationary_type_at in Ha. unfold stationary_can_act.
  destruct (stationaries w !! a) as [x|]; [|discriminate Ha].
  simpl in Ha. injection Ha as Ha. unfold s_type in Ha.
  destruct (s_state x); try discriminate Ha. reflexivity.
Qed.

(** The rooms of a run never change after [__init__]. *)
Lemma reachable_rooms s0 u s1 s :
  DatasetGenerator_init s0 = Ok (u, s1) -> reachable s0 s ->
  rooms (world s) = rooms (world s1).
Proof.
  intros Hinit Hr.
  induction Hr as [u' s Hinit' | s fuel n s' Hreach IH Hstep].
  - rewrite Hinit in Hinit'. inversion Hinit'; subst. reflexivity.
  - apply generate_state_change_spec in Hstep. destruct Hstep as (_ & Hact).
    destruct (one_action_pools _ _ Hact) as (Hr & _). congruence.
Qed.

Lemma reachable_initial s0 s :
  reachable s0 s -> exists u s1, DatasetGenerator_init s0 = Ok (u, s1).
Proof. induction 1 as [u s Hinit | s fuel n s' Hreach IH Hstep]; eauto. Qed.

(** A world with items in its pool has a room. *)
Lemma reachable_pool_rooms s0 s :
  reachable s0 s -> rooms (world s) = [] -> movable_items (world s) = [].
Proof.
  intros Hr Hnil. destruct (reachable_initial _ _ Hr) as (u & s1 & Hinit).
  destruct (reachable_outside _ _ _ _ 0 Hinit Hr) as (Hp & _).
  rewrite (reachable_rooms _ _ _ _ Hinit Hr) in Hnil. rewrite Hp. clear Hp Hr s.
  destruct (DatasetGenerator_init_split _ _ _ Hinit) as (s0' & H1 & H2).
  pose proof (proj1 (DatasetGenerator_init_movables_spec _ _ _ H1)) as HM.
  destruct (DatasetGenerator_init_rooms_spec _ _ _ HM H2)
    as (HI & _ & _ & Hsub & Hundrawn & _).
  destruct (movable_items (world s1)) as [|i l] eqn:Hpool; [reflexivity|]. exfalso.
  assert (Hi : i ∈ i :: l) by apply list_elem_of_here.
  assert (Hi' : i ∈ movable_items (world s1)) by (rewrite Hpool; exact Hi).
  destruct (Hundrawn i (Hsub i Hi)) as (it & Hit & Hiff).
  destruct (m_container it) as [c|] eqn:Hc.
  - destruct (inv_placed _ HI i it c Hi' Hit Hc) as (x & _ & _ & _ & r & Hr & _).
    rewrite Hnil in Hr. inversion Hr.
  - apply Hiff in Hi; [exact Hi | reflexivity].
Qed.

(** X2. In a generated world whose classes include the light, every room has
    a light to toggle: as long as the world has a room some candidate can
    act, and with a coin that comes up [True] again and again
    [generate_state_change] returns a narration. A generated world without a
    room has no movable item either, and [generate_state_change] raises
    [AssertionError] at once. *)
Theorem X2_generated_world_can_act s0 s :
  reachable s0 s -> Light ∈ stationary_types (globals s) ->
  (rooms (world s) <> [] ->
     world_can_act (world s) = true
     /\ (fair (rand s) ->
         exists narration s', converges generate_state_change s (Ok (narration, s'))))
  /\ (rooms (world s) = [] ->
      movable_items (world s) = []
      /\ forall fuel, generate_state_change (S fuel) s = Raise AssertionError).
Proof.
  intros Hr HL. split.
  - intros Hne.
    assert (Hcan : world_can_act (world s) = true).
    { destruct (rooms (world s)) as [|r rs] eqn:Hrooms; [congruence|].
      unfold world_can_act. rewrite Hrooms. simpl.
      rewrite (furnished_can_act (globals s) (world s) r HL); [reflexivity|].
      apply (reachable_furnished _ _ Hr). rewrite Hrooms. apply list_elem_of_here. }
    split; [exact Hcan|]. intros Hfair.
    pose proof (generate_state_change_outcome s (proj1 (reachable_Inv _ _ Hr)) Hfair) as Hout.
    rewrite Hcan in Hout. destruct Hout as ([[n rs'] ms'] & s' & n0 & Hrun).
    exists n, s', n0. intros fuel Hle. unfold generate_state_change.
    rewrite (bind_run _ _ _ _ _ (eq_refl : get_world s = Ok (world s, s))).
    rewrite (bind_run _ _ _ _ _ (Hrun fuel Hle)). reflexivity.
  - intros Hnil. pose proof (reachable_pool_rooms _ _ Hr Hnil) as Hpool.
    split; [exact Hpool|]. intros fuel. unfold generate_state_change.
    rewrite (bind_run _ _ _ _ _ (eq_refl : get_world s = Ok (world s, s))).
    rewrite Hnil, Hpool. reflexivity.
Qed.

Lemma sample_light_class : Light ∈ stationary_types (globals sample_generated).
Proof. apply list_elem_of_In. vm_compute. tauto. Qed.

Lemma X2_generated_world_can_act_witness :
  (rooms (world sample_generated) <> [] ->
     world_can_act (world sample_generated) = true
     /\ (fair (rand sample_generated) ->
         exists narration s',
           converges generate_state_change sample_generated (Ok (narration, s'))))
  /\ (rooms (world sample_generated) = [] ->
      movable_items (world sample_generated) = []
      /\ forall fuel, generate_state_change (S fuel) sample_generated
                      = Raise AssertionError).
Proof.
  exact (X2_generated_world_can_act sample_initial sample_generated
           sample_generated_reachable sample_light_class).
Defined.
(** ** Kitchens and living rooms *)

(** How an invariant of the generator passes through the loops that build
    the rooms: it is enough that it survives the generation of one room and
    its addition to the list of rooms. *)
Section RoomLoops.
Variable P : State -> Prop.
Variable t : RoomType.
Hypothesis P_step : forall s items res items' s' parent0,
  GInv (world s) items [] parent0 -> P s ->
  Room_generate_with_description t items s = Ok ((res, items'), s') ->
  match res with
  | None => P s'
  | Some (room, _) =>
      forall d, P (with_world s' (with_description
                                   (with_rooms (world s') (rooms (world s') ++ [room])) d))
  end.

Lemma generate_rooms_loop_keeps fuel : forall count remaining s rem' s' parent0,
  GInv (world s) remaining [] parent0 -> P s ->
  generate_rooms_loop fuel count t remaining s = Ok (rem', s') -> P s'.
Proof.
  induction fuel as [|fuel IH]; intros count remaining s rem' s' parent0 HG HP H;
    simpl in H; [discriminate|].
  apply bind_Ok in H. destruct H as (g & s1 & Hg & H).
  unfold get_globals in Hg. inversion Hg; subst g s1. clear Hg.
  destruct (decide (count * length (room_types (globals s)) < MAX_ROOMS)).
  2: { unfold ret in H. inversion H; subst. exact HP. }
  apply bind_Ok in H. destruct H as ([res rem1] & s1 & Hroom & H).
  pose proof (P_step _ _ _ _ _ _ HG HP Hroom) as Hstep.
  apply (Room_generate_with_description_spec _ _ _ _ _ _ _ HG) in Hroom.
  destruct Hroom as (He1 & Hres'). destruct res as [[room rd]|].
  - destruct Hres' as (HG1 & Hr1 & Hp1).
    apply bind_Ok in H. destruct H as (w & s2 & Hw & H).
    unfold get_world in Hw. inversion Hw; subst w s2. clear Hw.
    apply bind_Ok in H. destruct H as (u & s2 & Hput & H).
    unfold put_world in Hput. inversion Hput; subst u s2. clear Hput.
    apply (IH _ _ _ _ _ parent0) in H; [exact H | |apply Hstep].
    simpl. apply GInv_add_room. exact HG1.
  - unfold ret in H. inversion H; subst. exact Hstep.
Qed.
End RoomLoops.

Lemma generate_rooms_keeps (P : State -> Prop) types :
  (forall t, t ∈ types -> forall s items res items' s' parent0,
     GInv (world s) items [] parent0 -> P s ->
     Room_generate_with_description t items s = Ok ((res, items'), s') ->
     match res with
     | None => P s'
     | Some (room, _) =>
         forall d, P (with_world s' (with_description
                                      (with_rooms (world s') (rooms (world s') ++ [room])) d))
     end) ->
  forall remaining s rem' s' parent0,
    GInv (world s) remaining [] parent0 -> P s ->
    generate_rooms types remaining s = Ok (rem', s') -> P s'.
Proof.
  induction types as [|t types IH]; intros Hstep remaining s rem' s' parent0 HG HP H.
  - simpl in H. unfold ret in H. inversion H; subst. exact HP.
  - rewrite generate_rooms_cons in H. apply bind_Ok in H.
    destruct H as (rem1 & s1 & Hloop & H).
    pose proof (generate_rooms_loop_keeps P t (Hstep t (list_elem_of_here _ _))
                  _ _ _ _ _ _ parent0 HG HP Hloop) as HP1.
    apply (generate_rooms_loop_spec _ _ _ _ _ _ _ parent0 HG) in Hloop.
    destruct Hloop as (HG1 & _ & _).
    apply (IH (fun t' Ht' => Hstep t' (list_elem_of_further _ _ _ Ht')) _ _ _ _ _ HG1 HP1 H).
Qed.

Lemma count_rooms_app t l r :
  count_rooms t (l ++ [r]) = count_rooms t l + (if bool_decide (r_class r = t) then 1 else 0).
Proof.
  unfold count_rooms. rewrite List.filter_app, length_app. simpl.
  destruct (bool_decide (r_class r = t)); reflexivity.
Qed.

Lemma count_rooms_Permutation t l l' : l ≡ₚ l' -> count_rooms t l = count_rooms t l'.
Proof.
  intros H. unfold count_rooms. induction H; simpl.
  - reflexivity.
  - destruct (bool_decide (r_class x = t)); simpl; congruence.
  - destruct (bool_decide (r_class x = t)), (bool_decide (r_class y = t)); reflexivity.
  - congruence.
Qed.

(** What [generate_empty] of a room class does to the flags. *)
Lemma Room_generate_empty_flags t s r s' :
  Room_generate_empty t s = Ok (r, s') ->
  match r with
  | None =>
      (t <> Bedroom -> generated_flag t (classes s) = true)
      /\ forall t', generated_flag t' (classes s') = generated_flag t' (classes s)
  | Some parent =>
      room_class parent = t
      /\ (t <> Bedroom -> generated_flag t (classes s) = false
                          /\ generated_flag t (classes s') = true)
      /\ forall t', t' <> t -> generated_flag t' (classes s') = generated_flag t' (classes s)
  end.
Proof.
  unfold Room_generate_empty. intros H. apply bind_Ok in H.
  destruct H as (c & s1 & Hc & H). unfold get_classes in Hc. inversion Hc; subst c s1.
  clear Hc. destruct t.
  - destruct (Kitchen_generated (classes s)) eqn:Hk; inv_M.
    + split; [intros _; exact Hk | reflexivity].
    + split; [reflexivity|]. split; [intros _; split; [exact Hk | reflexivity]|].
      intros [] Hne; try congruence; reflexivity.
  - destruct (LivingRoom_generated (classes s)) eqn:Hk; inv_M.
    + split; [intros _; exact Hk | reflexivity].
    + split; [reflexivity|]. split; [intros _; split; [exact Hk | reflexivity]|].
      intros [] Hne; try congruence; reflexivity.
  - apply bind_Ok in H. destruct H as (r0 & s2 & Hr & H).
    apply pop_random_inv in Hr as Hr'. destruct Hr' as (_ & (_ & Hcl & _)).
    destruct r0 as [[name rest]|]; inv_M.
    + split; [reflexivity|]. split; [congruence|].
      intros t' _. destruct t'; reflexivity.
    + split; [congruence|]. intros t'. rewrite Hcl. reflexivity.
Qed.

Lemma Room_generate_with_description_flags t items s res items' s' parent0 :
  GInv (world s) items [] parent0 ->
  Room_generate_with_description t items s = Ok ((res, items'), s') ->
  match res with
  | None =>
      (t <> Bedroom -> generated_flag t (classes s) = true)
      /\ forall t', generated_flag t' (classes s') = generated_flag t' (classes s)
  | Some (room, _) =>
      r_class room = t
      /\ (t <> Bedroom -> generated_flag t (classes s) = false
                          /\ generated_flag t (classes s') = true)
      /\ forall t', t' <> t -> generated_flag t' (classes s') = generated_flag t' (classes s)
  end.
Proof.
  intros HG H. unfold Room_generate_with_description in H.
  apply bind_Ok in H. destruct H as (r & s1 & Hr & H).
  pose proof (Room_generate_empty_flags _ _ _ _ Hr) as Hflags.
  apply Room_generate_empty_inv in Hr. destruct Hr as (Hw1 & He1).
  destruct r as [parent|].
  2: { unfold ret in H. inversion H; subst. exact Hflags. }
  apply bind_Ok in H. destruct H as (g & s2 & Hg & H).
  unfold get_globals in Hg. inversion Hg; subst g s2. clear Hg.
  apply bind_Ok in H. destruct H as ([[its descs] items1] & s2 & Hgen & H).
  assert (HG1 : GInv (world s1) items [] parent).
  { rewrite Hw1. destruct HG. split; auto. intros a Ha. inversion Ha. }
  apply (generate_stationaries_GInv _ _ _ _ _ _ _ _ [] HG1) in Hgen.
  destruct Hgen as (_ & (_ & Hc2 & _) & _).
  apply bind_Ok in H. destruct H as (its' & s3 & Hsh & H).
  apply shuffle_inv in Hsh. destruct Hsh as (_ & _ & (_ & Hc3 & _)).
  apply bind_Ok in H. destruct H as (descs' & s4 & Hsh2 & H).
  apply shuffle_inv in Hsh2. destruct Hsh2 as (_ & _ & (_ & Hc4 & _)).
  apply bind_Ok in H. destruct H as (rd & s5 & Hd & H).
  apply room_description_from_inv in Hd. subst s5.
  unfold ret in H. inversion H; subst. clear H. simpl.
  rewrite Hc4, Hc3, Hc2. exact Hflags.
Qed.

(** The invariant [once] passes through the generation of a room. *)
Lemma once_step t0 t s items res items' s' parent0 :
  t0 <> Bedroom ->
  GInv (world s) items [] parent0 -> once t0 s ->
  Room_generate_with_description t items s = Ok ((res, items'), s') ->
  match res with
  | None => once t0 s'
  | Some (room, _) =>
      forall d, once t0 (with_world s' (with_description
                                          (with_rooms (world s') (rooms (world s') ++ [room])) d))
  end.
Proof.
  intros Ht0 HG (Hzero & Hone) H.
  pose proof (Room_generate_with_description_flags _ _ _ _ _ _ _ HG H) as Hflags.
  apply (Room_generate_with_description_spec _ _ _ _ _ _ _ HG) in H.
  destruct H as (_ & Hres). destruct res as [[room rd]|].
  - destruct Hres as (_ & Hr & _). destruct Hflags as (Hcl & Hset & Hother).
    intros d. unfold once. simpl. rewrite count_rooms_app, Hr, Hcl.
    destruct (decide (t = t0)) as [->|Hne].
    + destruct (Hset Ht0) as (Hf & Hf'). rewrite (Hzero Hf), Hf'.
      rewrite bool_decide_eq_true_2 by reflexivity. split; [discriminate | lia].
    + rewrite bool_decide_eq_false_2 by exact Hne. rewrite Nat.add_0_r.
      rewrite (Hother t0) by congruence. split; assumption.
  - destruct Hres as (_ & Hw). destruct Hflags as (_ & Hsame).
    unfold once. rewrite Hw, Hsame. split; assumption.
Qed.

(** A raised flag stays up, and keeps the class without a room. *)
Lemma flag_step t0 t s items res items' s' parent0 :
  t0 <> Bedroom ->
  GInv (world s) items [] parent0 ->
  generated_flag t0 (classes s) = true /\ count_rooms t0 (rooms (world s)) = 0 ->
  Room_generate_with_description t items s = Ok ((res, items'), s') ->
  match res with
  | None => generated_flag t0 (classes s') = true /\ count_rooms t0 (rooms (world s')) = 0
  | Some (room, _) =>
      forall d,
        generated_flag t0 (classes s') = true
        /\ count_rooms t0 (rooms (with_description
                                   (with_rooms (world s') (rooms (world s') ++ [room])) d)) = 0
  end.
Proof.
  intros Ht0 HG (Hf & Hzero) H.
  pose proof (Room_generate_with_description_flags _ _ _ _ _ _ _ HG H) as Hflags.
  apply (Room_generate_with_description_spec _ _ _ _ _ _ _ HG) in H.
  destruct H as (_ & Hres). destruct res as [[room rd]|].
  - destruct Hres as (_ & Hr & _). destruct Hflags as (Hcl & Hset & Hother).
    assert (Hne : t <> t0).
    { intros ->. destruct (Hset Ht0) as (Hf0 & _). congruence. }
    intros d. simpl. rewrite count_rooms_app, Hr, Hcl.
    rewrite bool_decide_eq_false_2 by exact Hne.
    rewrite (Hother t0) by congruence. split; [exact Hf | lia].
  - destruct Hres as (_ & Hw). destruct Hflags as (_ & Hsame).
    rewrite Hw, Hsame. split; assumption.
Qed.

(** The first part of [__init__] leaves the flags alone. *)
Lemma movable_generate_instance_flags t s r s' t0 :
  movable_generate_instance t s = Ok (r, s') ->
  generated_flag t0 (classes s') = generated_flag t0 (classes s).
Proof.
  unfold movable_generate_instance. intros H.
  apply bind_Ok in H. destruct H as (c & s1 & Hc & H).
  unfold get_classes in Hc. inversion Hc; subst c s1. clear Hc.
  apply bind_Ok in H. destruct H as (r0 & s2 & Hr & H).
  apply pop_random_inv in Hr. destruct Hr as (_ & (_ & Hcl & _)).
  destruct r0 as [[x rest]|]; inv_M.
  - match goal with Ha : alloc_movable _ _ = Ok _ |- _ =>
      apply alloc_movable_inv in Ha; destruct Ha as [_ ->] end.
    simpl. destruct t0; reflexivity.
  - rewrite Hcl. reflexivity.
Qed.

Lemma generate_movables_loop_flags t t0 fuel : forall count s u s',
  generate_movables_loop fuel count t s = Ok (u, s') ->
  generated_flag t0 (classes s') = generated_flag t0 (classes s).
Proof.
  induction fuel as [|fuel IH]; intros count s u s' H; simpl in H; [discriminate|].
  apply bind_Ok in H. destruct H as (g & s1 & Hg & H).
  unfold get_globals in Hg. inversion Hg; subst g s1. clear Hg.
  destruct (decide (count * length (movable_types (globals s)) < MAX_ITEMS)).
  2: { unfold ret in H. inversion H; subst. reflexivity. }
  apply bind_Ok in H. destruct H as (item & s1 & Hitem & H).
  apply (movable_generate_instance_flags _ _ _ _ t0) in Hitem.
  destruct item as [a|].
  - apply bind_Ok in H. destruct H as (w & s2 & Hw & H).
    unfold get_world in Hw. inversion Hw; subst w s2. clear Hw.
    apply bind_Ok in H. destruct H as (u1 & s2 & Hput & H).
    unfold put_world in Hput. inversion Hput; subst u1 s2. clear Hput.
    apply IH in H. rewrite H. simpl. exact Hitem.
  - unfold ret in H. inversion H; subst. exact Hitem.
Qed.

Lemma generate_movables_flags t0 types : forall s u s',
  generate_movables types s = Ok (u, s') ->
  generated_flag t0 (classes s') = generated_flag t0 (classes s).
Proof.
  induction types as [|t types IH]; intros s u s' H.
  - simpl in H. unfold ret in H. inversion H; subst. reflexivity.
  - rewrite generate_movables_cons in H. apply bind_Ok in H.
    destruct H as (u1 & s1 & Hloop & H).
    apply (generate_movables_loop_flags _ t0) in Hloop. apply IH in H. congruence.
Qed.

Lemma DatasetGenerator_init_movables_flags s u s1 t0 :
  DatasetGenerator_init_movables s = Ok (u, s1) ->
  generated_flag t0 (classes s1) = generated_flag t0 (classes s).
Proof.
  unfold DatasetGenerator_init_movables. intros H. inv_M.
  match goal with Hg : generate_movables _ _ = Ok _ |- _ =>
    apply (generate_movables_flags t0) in Hg; rewrite Hg end.
  reflexivity.
Qed.

(** The second part of [__init__] is the generation of the rooms, followed
    by steps that change neither the heaps nor the classes, and keep the
    rooms up to their order. *)
Lemma DatasetGenerator_init_rooms_split s1 u s' :
  DatasetGenerator_init_rooms s1 = Ok (u, s') ->
  exists rem s2,
    generate_rooms (room_types (globals s1)) (movable_items (world s1)) s1 = Ok (rem, s2)
    /\ rooms (world s') ≡ₚ rooms (world s2)
    /\ classes s' = classes s2
    /\ globals s' = globals s2
    /\ stationaries (world s') = stationaries (world s2)
    /\ movables (world s') = movables (world s2).
Proof.
  intros H. unfold DatasetGenerator_init_rooms in H.
  apply bind_Ok in H. destruct H as (g & s0 & Hg & H).
  unfold get_globals in Hg. inversion Hg; subst g s0. clear Hg.
  apply bind_Ok in H. destruct H as (w & s0 & Hgw & H).
  unfold get_world in Hgw. inversion Hgw; subst w s0. clear Hgw.
  apply bind_Ok in H. destruct H as (rem & s2 & Hgen & H).
  exists rem, s2. split; [exact Hgen|].
  apply bind_Ok in H. destruct H as (w & s0 & Hgw & H).
  unfold get_world in Hgw. inversion Hgw; subst w s0. clear Hgw.
  apply bind_Ok in H. destruct H as (kept & s3 & Hrm & H).
  apply lift_Ok in Hrm. destruct Hrm as [Hrm ->].
  apply bind_Ok in H. destruct H as (kept' & s3 & Hsh & H).
  apply shuffle_inv in Hsh. destruct Hsh as (Hpk & Hw3 & (_ & Hc3 & Hg3)).
  apply bind_Ok in H. destruct H as (u1' & s4 & Hput & H).
  unfold put_world in Hput. inversion Hput; subst u1' s4. clear Hput.
  apply bind_Ok in H. destruct H as (w & s4 & Hgw & H).
  unfold get_world in Hgw. inversion Hgw; subst w s4. clear Hgw.
  apply bind_Ok in H. destruct H as (rooms' & s5 & Hsh2 & H).
  apply shuffle_inv in Hsh2. destruct Hsh2 as (Hpr & Hw5 & (_ & Hc5 & Hg5)).
  unfold put_world in H. inversion H; subst. clear H. simpl in *.
  split; [exact Hpr|]. split; [congruence|]. split; [congruence|]. split; reflexivity.
Qed.

Lemma flag_mono_step t0 t s items res items' s' parent0 :
  GInv (world s) items [] parent0 ->
  generated_flag t0 (classes s) = true ->
  Room_generate_with_description t items s = Ok ((res, items'), s') ->
  match res with
  | None => generated_flag t0 (classes s') = true
  | Some (room, _) =>
      forall d, generated_flag t0
                  (classes (with_world s' (with_description
                              (with_rooms (world s') (rooms (world s') ++ [room])) d))) = true
  end.
Proof.
  intros HG Hf H.
  pose proof (Room_generate_with_description_flags _ _ _ _ _ _ _ HG H) as Hflags.
  destruct res as [[room rd]|].
  - destruct Hflags as (_ & Hset & Hother). intros d. simpl.
    destruct (decide (t0 = t)) as [->|Hne]; [|rewrite (Hother t0 Hne); exact Hf].
    apply Hset. intros ->. discriminate Hf.
  - destruct Hflags as (_ & Hsame). rewrite Hsame. exact Hf.
Qed.

(** The loop of a room class that has a flag leaves the flag up. *)
Lemma generate_rooms_loop_raises t fuel remaining s rem' s' parent0 :
  t <> Bedroom ->
  GInv (world s) remaining [] parent0 ->
  generate_rooms_loop (S fuel) 0 t remaining s = Ok (rem', s') ->
  generated_flag t (classes s') = true.
Proof.
  intros Ht HG H. simpl in H.
  apply bind_Ok in H. destruct H as (g & s1 & Hg & H).
  unfold get_globals in Hg. inversion Hg; subst g s1. clear Hg.
  destruct (decide (0 * length (room_types (globals s)) < MAX_ROOMS)) as [_|Hn];
    [|exfalso; apply Hn; unfold MAX_ROOMS; lia].
  apply bind_Ok in H. destruct H as ([res rem1] & s1 & Hroom & H).
  pose proof (Room_generate_with_description_flags _ _ _ _ _ _ _ HG Hroom) as Hflags.
  apply (Room_generate_with_description_spec _ _ _ _ _ _ _ HG) in Hroom.
  destruct Hroom as (_ & Hres). destruct res as [[room rd]|].
  - destruct Hres as (HG1 & _ & _). destruct Hflags as (_ & Hset & _).
    apply bind_Ok in H. destruct H as (w & s2 & Hw & H).
    unfold get_world in Hw. inversion Hw; subst w s2. clear Hw.
    apply bind_Ok in H. destruct H as (u & s2 & Hput & H).
    unfold put_world in Hput. inversion Hput; subst u s2. clear Hput.
    refine (generate_rooms_loop_keeps (fun s => generated_flag t (classes s) = true) t
              _ _ _ _ _ _ _ parent0 _ _ H).
    + intros. eapply flag_mono_step; eassumption.
    + simpl. apply GInv_add_room. exact HG1.
    + simpl. apply (Hset Ht).
  - destruct Hflags as (Hup & Hsame). unfold ret in H. inversion H; subst.
    rewrite Hsame. apply Hup, Ht.
Qed.

Lemma generate_rooms_raises t types : forall remaining s rem' s' parent0,
  t <> Bedroom -> t ∈ types ->
  GInv (world s) remaining [] parent0 ->
  generate_rooms types remaining s = Ok (rem', s') ->
  generated_flag t (classes s') = true.
Proof.
  induction types as [|t1 types IH]; intros remaining s rem' s' parent0 Ht Hin HG H;
    [inversion Hin|].
  rewrite generate_rooms_cons in H. apply bind_Ok in H.
  destruct H as (rem1 & s1 & Hloop & H).
  pose proof (generate_rooms_loop_spec _ _ _ _ _ _ _ parent0 HG Hloop) as (HG1 & _ & _).
  destruct (decide (t1 = t)) as [->|Hne].
  - apply (generate_rooms_loop_raises _ _ _ _ _ _ parent0 Ht HG) in Hloop.
    refine (generate_rooms_keeps (fun s => generated_flag t (classes s) = true) types
              _ _ _ _ _ parent0 HG1 Hloop H).
    intros. eapply flag_mono_step; eassumption.
  - apply elem_of_cons in Hin. destruct Hin as [->|Hin]; [congruence|].
    exact (IH _ _ _ _ parent0 Ht Hin HG1 H).
Qed.

(** What [__init__] does with a room class that has a flag. *)
Lemma DatasetGenerator_init_once t s u s' :
  t <> Bedroom -> DatasetGenerator_init s = Ok (u, s') ->
  count_rooms t (rooms (world s')) <= 1
  /\ (generated_flag t (classes s) = true -> count_rooms t (rooms (world s')) = 0)
  /\ (t ∈ room_types (globals s) -> generated_flag t (classes s') = true).
Proof.
  intros Ht Hinit. destruct (DatasetGenerator_init_split _ _ _ Hinit) as (s1 & H1 & H2).
  pose proof (DatasetGenerator_init_movables_flags _ _ _ t H1) as Hfl1.
  apply DatasetGenerator_init_movables_spec in H1. destruct H1 as (HM & (_ & Hgl1)).
  destruct (DatasetGenerator_init_rooms_split _ _ _ H2)
    as (rem & s2 & Hgen & Hperm & Hcl & _).
  pose proof (MInv_GInv _ the_kitchen HM) as HG.
  assert (Hcount1 : count_rooms t (rooms (world s1)) = 0)
    by (rewrite (mi_rooms _ HM); reflexivity).
  rewrite (count_rooms_Permutation _ _ _ Hperm), Hcl. split; [|split].
  - refine (proj2 (generate_rooms_keeps (once t) _ _ _ _ _ _ _ HG _ Hgen)).
    + intros. eapply once_step; eassumption.
    + split; [intros _; exact Hcount1 | lia].
  - intros Hf. rewrite <- Hfl1 in Hf.
    refine (proj2 (generate_rooms_keeps
                     (fun s => generated_flag t (classes s) = true
                               /\ count_rooms t (rooms (world s)) = 0)
                     _ _ _ _ _ _ _ HG (conj Hf Hcount1) Hgen)).
    intros t1 _ s3 items res items' s4 parent0 HG3 HP3 Hcall.
    pose proof (flag_step t t1 _ _ _ _ _ _ Ht HG3 HP3 Hcall) as Hstep.
    destruct res as [[room rd]|]; [|exact Hstep]. intros d. exact (Hstep d).
  - intros Hin. rewrite <- Hgl1 in Hin.
    exact (generate_rooms_raises _ _ _ _ _ _ the_kitchen Ht Hin HG Hgen).
Qed.

Lemma Kitchen_has_flag : Kitchen <> Bedroom.
Proof. discriminate. Qed.

(** X3. [__init__] builds at most one room of a class with a [generated]
    flag (the kitchen, the living room), and none when the flag was already
    up; it leaves the flag up whenever the class is among the room classes,
    so that a second generator started in the same process has no such
    room. *)
Theorem X3_kitchen_generated_once t s u s' :
  t <> Bedroom -> DatasetGenerator_init s = Ok (u, s') ->
  count_rooms t (rooms (world s')) <= 1
  /\ (generated_flag t (classes s) = true -> count_rooms t (rooms (world s')) = 0)
  /\ (t ∈ room_types (globals s) ->
      generated_flag t (classes s') = true
      /\ forall u2 s2, DatasetGenerator_init s' = Ok (u2, s2) ->
           count_rooms t (rooms (world s2)) = 0).
Proof.
  intros Ht Hinit. destruct (DatasetGenerator_init_once t s u s' Ht Hinit) as (H1 & H2 & H3).
  split; [exact H1|]. split; [exact H2|]. intros Hin. split; [exact (H3 Hin)|].
  intros u2 s2 Hinit2. exact (proj1 (proj2 (DatasetGenerator_init_once t _ _ _ Ht Hinit2)) (H3 Hin)).
Qed.

Lemma X3_kitchen_generated_once_witness :
  count_rooms Kitchen (rooms (world sample_generated)) <= 1
  /\ (generated_flag Kitchen (classes sample_initial) = true ->
      count_rooms Kitchen (rooms (world sample_generated)) = 0)
  /\ (Kitchen ∈ room_types (globals sample_initial) ->
      generated_flag Kitchen (classes sample_generated) = true
      /\ forall u2 s2, DatasetGenerator_init sample_generated = Ok (u2, s2) ->
           count_rooms Kitchen (rooms (world s2)) = 0).
Proof.
  exact (X3_kitchen_generated_once Kitchen sample_initial tt sample_generated
           Kitchen_has_flag sample_generated_eq).
Defined.
(** ** The caps of the generator *)

(** One run of the loop of a movable class appends [k] items to the pool,
    where the test [count < MAX_ITEMS / len(movable_types)] held before the
    last of them was added. *)
Lemma generate_movables_loop_count t fuel : forall count s u s',
  generate_movables_loop fuel count t s = Ok (u, s') ->
  globals s' = globals s
  /\ exists k, length (movable_items (world s')) = length (movable_items (world s)) + k
       /\ (k = 0 \/ (count + k - 1) * length (movable_types (globals s)) < MAX_ITEMS).
Proof.
  induction fuel as [|fuel IH]; intros count s u s' H; simpl in H; [discriminate|].
  apply bind_Ok in H. destruct H as (g & s1 & Hg & H).
  unfold get_globals in Hg. inversion Hg; subst g s1. clear Hg.
  destruct (decide (count * length (movable_types (globals s)) < MAX_ITEMS)) as [Hlt|].
  2: { unfold ret in H. inversion H; subst. split; [reflexivity|]. exists 0. split; [lia | tauto]. }
  apply bind_Ok in H. destruct H as (o & s1 & Hgen & H).
  apply movable_generate_instance_inv in Hgen. destruct Hgen as ((_ & Hg1) & Hres).
  destruct o as [a|].
  - destruct Hres as (x & -> & Hw).
    apply bind_Ok in H. destruct H as (w & s2 & Hgw & H).
    unfold get_world in Hgw. inversion Hgw; subst w s2. clear Hgw.
    apply bind_Ok in H. destruct H as (u' & s2 & Hput & H).
    unfold put_world in Hput. inversion Hput; subst u' s2. clear Hput.
    apply IH in H. destruct H as (Hg2 & k & Hlen & Hk). simpl in Hg2, Hlen, Hk.
    split; [congruence|]. rewrite Hw in Hlen. simpl in Hlen. rewrite length_app in Hlen.
    simpl in Hlen. exists (S k). split; [lia|]. right. rewrite Hg1 in Hk.
    destruct Hk as [->|Hk].
    + replace (count + 1 - 1) with count by lia. exact Hlt.
    + replace (count + S k - 1) with (S count + k - 1) by lia. exact Hk.
  - unfold ret in H. inversion H; subst. split; [exact Hg1|]. exists 0.
    rewrite Hres. split; [lia | tauto].
Qed.

Lemma generate_movables_count types : forall s u s',
  generate_movables types s = Ok (u, s') ->
  globals s' = globals s
  /\ forall q, q * length (movable_types (globals s)) = MAX_ITEMS ->
       length (movable_items (world s')) <= length (movable_items (world s)) + length types * q.
Proof.
  induction types as [|t types IH]; intros s u s' H.
  - simpl in H. unfold ret in H. inversion H; subst. split; [reflexivity|]. intros q _. simpl. lia.
  - rewrite generate_movables_cons in H. apply bind_Ok in H.
    destruct H as (u1 & s1 & Hloop & H).
    apply generate_movables_loop_count in Hloop. destruct Hloop as (Hg1 & k & Hlen & Hk).
    destruct (IH _ _ _ H) as (Hg2 & Hrest). split; [congruence|].
    intros q Hq. rewrite Hg1 in Hrest. specialize (Hrest q Hq). simpl.
    assert (k <= q); [|lia].
    destruct Hk as [->|Hk]; [lia|]. simpl in Hk. rewrite <- Hq in Hk.
    apply Nat.mul_lt_mono_pos_r in Hk; [lia|].
    destruct (length (movable_types (globals s))); [unfold MAX_ITEMS in Hq; lia | lia].
Qed.

(** X4. When the number of movable classes divides [MAX_ITEMS] (there are
    five of them and the cap is twenty), [__init__] instantiates at most
    [MAX_ITEMS] movable items, and the pool never holds more than that at any
    timestep. *)
Theorem X4_pool_cap s0 s q :
  q * length (movable_types (globals s0)) = MAX_ITEMS ->
  reachable s0 s ->
  length (movable_items (world s)) <= MAX_ITEMS.
Proof.
  intros Hq Hr. destruct (reachable_initial _ _ Hr) as (u & s1 & Hinit).
  rewrite (proj1 (reachable_outside _ _ _ _ 0 Hinit Hr)).
  destruct (DatasetGenerator_init_split _ _ _ Hinit) as (s' & H1 & H2).
  pose proof (proj1 (DatasetGenerator_init_movables_spec _ _ _ H1)) as HM.
  destruct (DatasetGenerator_init_rooms_spec _ _ _ HM H2) as (_ & _ & Hnd & Hsub & _).
  assert (Hle : length (movable_items (world s1)) <= length (movable_items (world s'))).
  { apply submseteq_length, NoDup_submseteq; assumption. }
  unfold DatasetGenerator_init_movables in H1. inv_M.
  match goal with Hg : generate_movables _ _ = Ok _ |- _ =>
    apply generate_movables_count in Hg; destruct Hg as (_ & Hcount) end.
  specialize (Hcount q Hq). simpl in Hcount. rewrite <- Hq. lia.
Qed.

Lemma sample_five_classes : 4 * length (movable_types (globals sample_initial)) = MAX_ITEMS.
Proof. reflexivity. Qed.

Lemma X4_pool_cap_witness : length (movable_items (world sample_after_change)) <= MAX_ITEMS.
Proof.
  exact (X4_pool_cap sample_initial sample_after_change 4 sample_five_classes
           sample_after_change_reachable).
Defined.

(** One run of the loop of a room class adds [k] rooms of that class, where
    the test [count < MAX_ROOMS / len(room_types)] held before the last of
    them was built; the rooms of the other classes are as before. *)
Lemma generate_rooms_loop_count t t0 fuel : forall count remaining s rem' s' parent0,
  GInv (world s) remaining [] parent0 ->
  generate_rooms_loop fuel count t remaining s = Ok (rem', s') ->
  exists k, count_rooms t0 (rooms (world s')) = count_rooms t0 (rooms (world s)) + k
    /\ (t <> t0 -> k = 0)
    /\ (k = 0 \/ (count + k - 1) * length (room_types (globals s)) < MAX_ROOMS).
Proof.
  induction fuel as [|fuel IH]; intros count remaining s rem' s' parent0 HG H;
    simpl in H; [discriminate|].
  apply bind_Ok in H. destruct H as (g & s1 & Hg & H).
  unfold get_globals in Hg. inversion Hg; subst g s1. clear Hg.
  destruct (decide (count * length (room_types (globals s)) < MAX_ROOMS)) as [Hlt|].
  2: { unfold ret in H. inversion H; subst. exists 0. split; [lia|]. split; [reflexivity | tauto]. }
  apply bind_Ok in H. destruct H as ([res rem1] & s1 & Hroom & H).
  pose proof (Room_generate_with_description_flags _ _ _ _ _ _ _ HG Hroom) as Hflags.
  apply (Room_generate_with_description_spec _ _ _ _ _ _ _ HG) in Hroom.
  destruct Hroom as ((_ & Hg1) & Hres). destruct res as [[room rd]|].
  - destruct Hres as (HG1 & Hr1 & _). destruct Hflags as (Hcl & _).
    apply bind_Ok in H. destruct H as (w & s2 & Hw & H).
    unfold get_world in Hw. inversion Hw; subst w s2. clear Hw.
    apply bind_Ok in H. destruct H as (u & s2 & Hput & H).
    unfold put_world in Hput. inversion Hput; subst u s2. clear Hput.
    apply (IH _ _ _ _ _ parent0) in H; [|simpl; apply GInv_add_room; exact HG1].
    destruct H as (k & Hcount & Hother & Hk). simpl in Hcount, Hk.
    rewrite count_rooms_app, Hr1, Hcl in Hcount. rewrite Hg1 in Hk.
    destruct (decide (t = t0)) as [->|Hne].
    + rewrite bool_decide_eq_true_2 in Hcount by reflexivity.
      exists (S k). split; [lia|]. split; [congruence|]. right.
      destruct Hk as [->|Hk].
      * replace (count + 1 - 1) with count by lia. exact Hlt.
      * replace (count + S k - 1) with (S count + k - 1) by lia. exact Hk.
    + rewrite bool_decide_eq_false_2 in Hcount by exact Hne.
      exists 0. rewrite (Hother Hne) in Hcount. split; [lia|]. split; [reflexivity | tauto].
  - destruct Hres as (_ & Hw). unfold ret in H. inversion H; subst.
    exists 0. rewrite Hw. split; [lia|]. split; [reflexivity | tauto].
Qed.

Lemma generate_rooms_count t0 types : forall remaining s rem' s' parent0,
  NoDup types ->
  GInv (world s) remaining [] parent0 ->
  generate_rooms types remaining s = Ok (rem', s') ->
  exists k, count_rooms t0 (rooms (world s')) = count_rooms t0 (rooms (world s)) + k
    /\ (t0 ∉ types -> k = 0)
    /\ (k = 0 \/ (k - 1) * length (room_types (globals s)) < MAX_ROOMS).
Proof.
  induction types as [|t types IH]; intros remaining s rem' s' parent0 Hnd HG H.
  - simpl in H. unfold ret in H. inversion H; subst. exists 0.
    split; [lia|]. split; [reflexivity | tauto].
  - rewrite generate_rooms_cons in H. apply bind_Ok in H.
    destruct H as (rem1 & s1 & Hloop & H).
    apply NoDup_cons in Hnd. destruct Hnd as (Hnotin & Hnd).
    destruct (generate_rooms_loop_count t t0 _ _ _ _ _ _ parent0 HG Hloop)
      as (k1 & Hc1 & Ho1 & Hk1).
    apply (generate_rooms_loop_spec _ _ _ _ _ _ _ parent0 HG) in Hloop.
    destruct Hloop as (HG1 & (_ & Hg1) & _).
    destruct (IH _ _ _ _ parent0 Hnd HG1 H) as (k2 & Hc2 & Ho2 & Hk2).
    rewrite Hg1 in Hk2. exists (k1 + k2). split; [lia|].
    destruct (decide (t = t0)) as [->|Hne].
    + rewrite (Ho2 Hnotin). rewrite Nat.add_0_r. split.
      * intros Hn. exfalso. apply Hn, list_elem_of_here.
      * simpl in Hk1. exact Hk1.
    + rewrite (Ho1 Hne). simpl. split; [|exact Hk2].
      intros Hn. apply Ho2. intros Hin. apply Hn, list_elem_of_further, Hin.
Qed.

Lemma length_count_rooms l :
  length l = count_rooms Kitchen l + count_rooms LivingRoom l + count_rooms Bedroom l.
Proof.
  unfold count_rooms. induction l as [|r l IH]; [reflexivity|].
  simpl. destruct (r_class r); simpl; lia.
Qed.

(** X5. With the three room classes of the program, a generated world has
    at most one kitchen, one living room and two bedrooms at every timestep:
    four rooms, one fewer than [MAX_ROOMS]. *)
Theorem X5_room_cap s0 s :
  room_types (globals s0) ≡ₚ [Kitchen; LivingRoom; Bedroom] ->
  reachable s0 s ->
  count_rooms Kitchen (rooms (world s)) <= 1
  /\ count_rooms LivingRoom (rooms (world s)) <= 1
  /\ count_rooms Bedroom (rooms (world s)) <= 2
  /\ length (rooms (world s)) < MAX_ROOMS.
Proof.
  intros Hperm Hr. destruct (reachable_initial _ _ Hr) as (u & s1 & Hinit).
  rewrite (reachable_rooms _ _ _ _ Hinit Hr). clear Hr s.
  assert (HK : count_rooms Kitchen (rooms (world s1)) <= 1)
    by (apply (DatasetGenerator_init_once Kitchen s0 u s1); [discriminate | exact Hinit]).
  assert (HL : count_rooms LivingRoom (rooms (world s1)) <= 1)
    by (apply (DatasetGenerator_init_once LivingRoom s0 u s1); [discriminate | exact Hinit]).
  assert (HB : count_rooms Bedroom (rooms (world s1)) <= 2).
  { destruct (DatasetGenerator_init_split _ _ _ Hinit) as (s' & H1 & H2).
    apply DatasetGenerator_init_movables_spec in H1. destruct H1 as (HM & (_ & Hgl1)).
    destruct (DatasetGenerator_init_rooms_split _ _ _ H2)
      as (rem & s2 & Hgen & Hp & _).
    rewrite (count_rooms_Permutation _ _ _ Hp).
    assert (Hnd : NoDup (room_types (globals s'))).
    { rewrite Hgl1, Hperm. apply (bool_decide_unpack (NoDup _)). reflexivity. }
    destruct (generate_rooms_count Bedroom _ _ _ _ _ the_kitchen Hnd (MInv_GInv _ _ HM) Hgen)
      as (k & Hc & _ & Hk).
    rewrite Hc, (mi_rooms _ HM). simpl. change (count_rooms Bedroom []) with 0.
    rewrite Hgl1, Hperm in Hk. simpl in Hk. unfold MAX_ROOMS in Hk. lia. }
  split; [exact HK|]. split; [exact HL|]. split; [exact HB|].
  rewrite length_count_rooms. unfold MAX_ROOMS. lia.
Qed.

Lemma sample_three_room_classes :
  room_types (globals sample_initial) ≡ₚ [Kitchen; LivingRoom; Bedroom].
Proof. reflexivity. Qed.

Lemma X5_room_cap_witness :
  count_rooms Kitchen (rooms (world sample_after_change)) <= 1
  /\ count_rooms LivingRoom (rooms (world sample_after_change)) <= 1
  /\ count_rooms Bedroom (rooms (world sample_after_change)) <= 2
  /\ length (rooms (world sample_after_change)) < MAX_ROOMS.
Proof.
  exact (X5_room_cap sample_initial sample_after_change sample_three_room_classes
           sample_after_change_reachable).
Defined.
(** ** The predicates of the domain *)

Lemma run_reachable s0 n : forall s, reachable s0 s -> reachable s0 (run n s).
Proof.
  induction n as [|n IH]; intros s Hr; simpl; [exact Hr|].
  destruct (generate_state_change 20 (run n s)) as [[a s']| |] eqn:E; try (apply IH, Hr).
  eapply reach_step; [apply IH, Hr | exact E].
Qed.

Lemma sample_holding_reachable : reachable sample_initial sample_holding.
Proof. apply run_reachable, sample_generated_reachable. Qed.

Lemma sample_ringing_reachable : reachable sample_initial sample_ringing.
Proof. apply run_reachable, sample_generated_reachable. Qed.

Lemma sample_registry : forall g, g = sample_globals -> registry_complete g.
Proof.
  intros g ->. split.
  - intros [[]|[]]; apply list_elem_of_In; simpl; tauto.
  - intros []; apply list_elem_of_In; simpl; tauto.
Qed.

(** A line made of a name and arguments without spaces splits into them. *)
Lemma split_space_concat args : forall a,
  no_space a = true -> Forall (fun x => no_space x = true) args ->
  split_space (String.concat " " (a :: args)) = a :: args.
Proof.
  induction args as [|b args IH]; intros a Ha Hall.
  - simpl. apply split_space_last, Ha.
  - change (String.concat " " (a :: b :: args))
      with (a +:+ " " +:+ String.concat " " (b :: args)).
    rewrite (split_space_word _ _ Ha). f_equal.
    apply Forall_cons in Hall. destruct Hall as (Hb & Hall). exact (IH b Hb Hall).
Qed.

Lemma predicate_name_line name rest :
  no_space name = true -> predicate_name (name +:+ " " +:+ rest) = name.
Proof. intros H. unfold predicate_name. rewrite (split_space_word _ _ H). reflexivity. Qed.

Lemma line_arity_line name a args :
  no_space name = true -> no_space a = true ->
  Forall (fun x => no_space x = true) args ->
  line_arity (name +:+ " " +:+ String.concat " " (a :: args)) = S (length args).
Proof.
  intros Hn Ha Hall. unfold line_arity.
  rewrite (split_space_word _ _ Hn), (split_space_concat _ _ Ha Hall). reflexivity.
Qed.

(** Where the predicates of the domain come from. *)
Lemma domain_predicates_person g p :
  p ∈ Person_get_pddl_domain_predicates g -> p ∈ domain_predicates g.
Proof. intros H. unfold domain_predicates. apply elem_of_app. left. exact H. Qed.

Lemma domain_predicates_item g t p :
  t ∈ item_types g -> p ∈ item_get_pddl_domain_predicates g t -> p ∈ domain_predicates g.
Proof.
  intros Ht H. unfold domain_predicates. apply elem_of_app. right. apply elem_of_app. left.
  apply list_elem_of_In, in_concat. exists (item_get_pddl_domain_predicates g t).
  split; [apply in_map, list_elem_of_In, Ht | apply list_elem_of_In, H].
Qed.

Lemma domain_predicates_room g t p :
  t ∈ room_types g -> p ∈ Room_get_pddl_domain_predicates g t -> p ∈ domain_predicates g.
Proof.
  intros Ht H. unfold domain_predicates. apply elem_of_app. right. apply elem_of_app. right.
  apply list_elem_of_In, in_concat. exists (Room_get_pddl_domain_predicates g t).
  split; [apply in_map, list_elem_of_In, Ht | apply list_elem_of_In, H].
Qed.

Lemma domain_predicates_elem g p :
  p ∈ domain_predicates g ->
  p ∈ Person_get_pddl_domain_predicates g
  \/ (exists t, t ∈ item_types g /\ p ∈ item_get_pddl_domain_predicates g t)
  \/ (exists t, t ∈ room_types g /\ p ∈ Room_get_pddl_domain_predicates g t).
Proof.
  unfold domain_predicates. rewrite !elem_of_app. intros [H | [H | H]]; [tauto | |].
  - right. left. apply list_elem_of_In, in_concat in H. destruct H as (l & Hl & Hp).
    apply in_map_iff in Hl. destruct Hl as (t & <- & Ht). exists t.
    split; apply list_elem_of_In; assumption.
  - right. right. apply list_elem_of_In, in_concat in H. destruct H as (l & Hl & Hp).
    apply in_map_iff in Hl. destruct Hl as (t & <- & Ht). exists t.
    split; apply list_elem_of_In; assumption.
Qed.

(** The lines of a stationary item instantiate predicates of the domain. *)
Lemma stationary_line_declared g x c :
  registry_complete g -> stationary_ok x ->
  c ∈ stationary_get_init_conditions x ->
  exists p, p ∈ domain_predicates g /\ pred_name p = predicate_name c
    /\ (no_space (room_pddl_name (s_parent x)) = true -> no_space (s_pddl_name x) = true ->
        line_arity c = length (pred_parameter_list p)).
Proof.
  intros (Hitems & Hrooms) Hok Hc.
  assert (Hroom : forall c, c ∈ StationaryItem_get_init_conditions x ->
            exists p, p ∈ domain_predicates g /\ pred_name p = predicate_name c
              /\ (no_space (room_pddl_name (s_parent x)) = true ->
                  no_space (s_pddl_name x) = true ->
                  line_arity c = length (pred_parameter_list p))).
  { intros c0 Hc0. apply list_elem_of_singleton in Hc0. subst c0.
    eexists. split; [|split].
    - apply (domain_predicates_room g (room_class (s_parent x))); [apply Hrooms|].
      apply list_elem_of_here.
    - unfold get_in_room_predicate. rewrite predicate_name_line; [reflexivity|].
      apply in_room_name_no_space.
    - intros Hrp Hsp.
      exact (line_arity_line _ _ [s_pddl_name x] (in_room_name_no_space _) Hrp
               (Forall_cons_2 _ _ _ Hsp (Forall_nil_2 _))). }
  assert (Hone : forall name t p,
            no_space name = true ->
            p ∈ stationary_get_pddl_domain_predicates g t -> pred_name p = name ->
            length (pred_parameter_list p) = 1 ->
            exists p, p ∈ domain_predicates g
              /\ pred_name p = predicate_name (name +:+ " " +:+ s_pddl_name x)
              /\ (no_space (room_pddl_name (s_parent x)) = true ->
                  no_space (s_pddl_name x) = true ->
                  line_arity (name +:+ " " +:+ s_pddl_name x)
                  = length (pred_parameter_list p))).
  { intros name t p Hn Hp Hname Hlen. exists p. split; [|split].
    - apply (domain_predicates_item g (inr t)); [apply Hitems | exact Hp].
    - rewrite (predicate_name_line _ _ Hn). exact Hname.
    - intros _ Hsp. rewrite Hlen.
      exact (line_arity_line name (s_pddl_name x) [] Hn Hsp (Forall_nil_2 _)). }
  assert (Htwo : forall name t p r,
            no_space name = true -> no_space r = true ->
            p ∈ stationary_get_pddl_domain_predicates g t -> pred_name p = name ->
            length (pred_parameter_list p) = 2 ->
            exists p, p ∈ domain_predicates g
              /\ pred_name p = predicate_name (name +:+ " " +:+ s_pddl_name x +:+ " " +:+ r)
              /\ (no_space (room_pddl_name (s_parent x)) = true ->
                  no_space (s_pddl_name x) = true ->
                  line_arity (name +:+ " " +:+ s_pddl_name x +:+ " " +:+ r)
                  = length (pred_parameter_list p))).
  { intros name t p r Hn Hr Hp Hname Hlen. exists p. split; [|split].
    - apply (domain_predicates_item g (inr t)); [apply Hitems | exact Hp].
    - rewrite (predicate_name_line _ _ Hn). exact Hname.
    - intros _ Hsp. rewrite Hlen.
      exact (line_arity_line name (s_pddl_name x) [r] Hn Hsp
               (Forall_cons_2 _ _ _ Hr (Forall_nil_2 _))). }
  unfold stationary_get_init_conditions, get_special_init_conditions in Hc.
  unfold stationary_ok in Hok.
  destruct (s_state x) as [|levels| |[]|[]|[]|[] ch] eqn:Hst;
    try (apply elem_of_app in Hc; destruct Hc as [Hc|Hc]);
    try (exact (Hroom _ Hc)); try (inversion Hc; fail).
  - apply list_elem_of_In, in_map_iff in Hc. destruct Hc as (i & <- & Hi).
    apply in_seq in Hi.
    refine (Htwo "shelf-has-level" Shelf
              {| pred_name := "shelf-has-level";
                 pred_parameter_list := ["?a - " +:+ stationary_type_name Shelf;
                                         "?b - " +:+ Shelf_LEVEL_TYPE] |}
              _ eq_refl _ _ eq_refl eq_refl).
    + apply level_name_no_space. lia.
    + simpl. apply list_elem_of_further, list_elem_of_here.
  - apply list_elem_of_singleton in Hc. subst c.
    refine (Hone "faucet-on" Sink
              {| pred_name := "faucet-on";
                 pred_parameter_list := ["?a - " +:+ stationary_type_name Sink] |}
              eq_refl _ eq_refl eq_refl).
    simpl. apply list_elem_of_further, list_elem_of_here.
  - apply list_elem_of_singleton in Hc. subst c.
    refine (Hone "window-open" Window
              {| pred_name := "window-open"; pred_parameter_list := ["?a - window"] |}
              eq_refl _ eq_refl eq_refl).
    simpl. apply list_elem_of_here.
  - apply list_elem_of_singleton in Hc. subst c.
    refine (Hone "light-on" Light
              {| pred_name := "light-on";
                 pred_parameter_list := ["?a - " +:+ stationary_type_name Light] |}
              eq_refl _ eq_refl eq_refl).
    simpl. apply list_elem_of_here.
  - apply elem_of_cons in Hc. destruct Hc as [->|Hc].
    + refine (Hone "tv-on" TV {| pred_name := "tv-on"; pred_parameter_list := ["?a - tv"] |}
                eq_refl _ eq_refl eq_refl).
      simpl. apply list_elem_of_here.
    + apply list_elem_of_singleton in Hc. subst c.
      refine (Htwo "tv-playing-channel" TV
                {| pred_name := "tv-playing-channel";
                   pred_parameter_list := ["?a - tv"; "?b - channel"] |}
                _ eq_refl (channel_name_no_space _ Hok) _ eq_refl eq_refl).
      simpl. apply list_elem_of_further, list_elem_of_here.
Qed.

Lemma contains_predicate_declared g t :
  is_container t = true ->
  {| pred_name := get_contains_predicate_name t;
     pred_parameter_list := get_default_parameter_list g t |}
  ∈ stationary_get_pddl_domain_predicates g t.
Proof. destruct t; try discriminate; intros _; simpl; apply list_elem_of_here. Qed.

(** The lines of a movable item of the pool instantiate predicates of the
    domain, but for [phone-ringing]. *)
Lemma movable_line_declared g w i it h c :
  Inv w -> registry_complete g ->
  i ∈ movable_items w -> movables w !! i = Some it ->
  movable_get_init_conditions w it = Ok h -> c ∈ h ->
  c = "phone-ringing " +:+ m_pddl_name it
  \/ exists p, p ∈ domain_predicates g /\ pred_name p = predicate_name c
       /\ (names_ok w = true -> line_arity c = length (pred_parameter_list p)).
Proof.
  intros HI (Hitems & Hrooms) Hi Hit Hh Hc.
  destruct (movable_get_init_conditions_elem _ _ _ Hh) as (l & Hl & Hiff).
  apply Hiff in Hc. destruct Hc as [Hc | (_ & _ & Hc)]; [right | left; exact Hc].
  destruct (m_container it) as [a|] eqn:Hcont.
  - destruct (inv_placed _ HI i it a Hi Hit Hcont) as (x & Hx & Hhold & Hloc & r & Hr & Ha).
    destruct (inv_rooms _ HI r a Hr Ha) as (x' & Hx' & _ & Hok).
    assert (x' = x) by congruence. subst x'.
    destruct (get_contains_predicate_placed x it Hloc) as (pr & Hpr & Hshape).
    rewrite (MovableItem_get_init_conditions_placed _ _ _ _ _ Hcont Hx Hpr) in Hl.
    inversion Hl; subst l. apply list_elem_of_singleton in Hc. subst c.
    pose proof (can_hold_is_container _ _ Hhold) as Hcon.
    eexists. split; [|split].
    + apply (domain_predicates_item g (inr (s_type x))); [apply Hitems|].
      apply contains_predicate_declared, Hcon.
    + simpl. unfold stationary_ok in Hok. unfold s_type in *.
      destruct (s_state x) as [|levels| | | | |] eqn:Hst;
        try (subst pr; unfold Container_get_contains_predicate;
             rewrite predicate_name_line; [reflexivity | apply contains_name_no_space]).
      destruct Hshape as (level & _ & ->). unfold Container_get_contains_predicate.
      rewrite !append_assoc, predicate_name_line; [reflexivity | apply contains_name_no_space].
    + intros Hn. destruct (names_ok_elim _ Hn) as (_ & _ & Hs & Hm).
      pose proof (Hs r a x Hr Ha Hx) as Hsx. pose proof (Hm i it Hi Hit) as Hmi.
      simpl. unfold stationary_ok in Hok. unfold s_type in *.
      destruct (s_state x) as [|levels| | | | |] eqn:Hst; simpl in Hcon; try discriminate Hcon;
        try (subst pr;
             exact (line_arity_line _ _ [m_pddl_name it] (contains_name_no_space _) Hsx
                      (Forall_cons_2 _ _ _ Hmi (Forall_nil_2 _)))).
      destruct Hshape as (level & Hlevel & ->). unfold Container_get_contains_predicate.
      rewrite !append_assoc.
      refine (line_arity_line _ _ [m_pddl_name it; get_level_name level]
                (contains_name_no_space _) Hsx _).
      apply Forall_cons_2; [exact Hmi|]. apply Forall_cons_2; [|apply Forall_nil_2].
      apply level_name_no_space. lia.
  - rewrite (MovableItem_get_init_conditions_held _ _ Hcont) in Hl.
    inversion Hl; subst l. apply list_elem_of_singleton in Hc. subst c.
    exists {| pred_name := "in-hand";
              pred_parameter_list :=
                ["?a - " +:+ Person_TYPE_NAME;
                 "?b - (either " +:+ Py.join " " (map movable_type_name (movable_types g))
                   +:+ ")"] |}.
    split; [apply domain_predicates_person, list_elem_of_here|]. split.
    + symmetry. exact (predicate_name_line "in-hand" _ eq_refl).
    + intros Hn. destruct (names_ok_elim _ Hn) as (Hp & _ & _ & Hm).
      exact (line_arity_line "in-hand" _ [m_pddl_name it] eq_refl Hp
               (Forall_cons_2 _ _ _ (Hm i it Hi Hit) (Forall_nil_2 _))).
Qed.

(** X6. At every timestep of a generated world, every line of the [:init]
    of the problem other than the [phone-ringing] of a ringing phone
    instantiates a predicate that the domain declares; when the names of the
    world have no space, the line has as many arguments as the predicate has
    parameters. *)
Theorem X6_init_predicates_declared s0 s init c :
  reachable s0 s -> registry_complete (globals s) ->
  problem_init (world s) = Ok init -> c ∈ init ->
  predicate_name c = "phone-ringing"
  \/ exists p, p ∈ domain_predicates (globals s) /\ pred_name p = predicate_name c
       /\ (names_ok (world s) = true -> line_arity c = length (pred_parameter_list p)).
Proof.
  intros Hr Hreg Hinit Hc. pose proof (proj1 (reachable_Inv _ _ Hr)) as HI.
  apply (problem_init_elem _ _ _ Hinit) in Hc.
  destruct Hc as [Hc | [(r & a & x & Hin & Ha & Hx & Hc) | (i & it & h & Hi & Hit & Hh & Hc)]].
  - right. unfold Person_get_init_conditions in Hc.
    destruct (p_item (person (world s))); [inversion Hc|].
    apply list_elem_of_singleton in Hc. subst c.
    exists {| pred_name := "hand-empty";
              pred_parameter_list := ["?a - " +:+ Person_TYPE_NAME] |}.
    split; [apply domain_predicates_person, list_elem_of_further, list_elem_of_here|].
    split; [symmetry; exact (predicate_name_line "hand-empty" _ eq_refl)|].
    intros Hn. destruct (names_ok_elim _ Hn) as (Hp & _).
    exact (line_arity_line "hand-empty" _ [] eq_refl Hp (Forall_nil_2 _)).
  - right. destruct (inv_rooms _ HI r a Hin Ha) as (x' & Hx' & Hparent & Hok).
    assert (x' = x) by congruence. subst x'.
    destruct (stationary_line_declared _ x c Hreg Hok Hc) as (p & Hp & Hname & Harity).
    exists p. split; [exact Hp|]. split; [exact Hname|].
    intros Hn. destruct (names_ok_elim _ Hn) as (_ & Hrn & Hs & _).
    apply Harity; [rewrite Hparent; exact (Hrn r Hin) | exact (Hs r a x Hin Ha Hx)].
  - destruct (movable_line_declared _ _ _ _ _ _ HI Hreg Hi Hit Hh Hc) as [-> | Hp].
    + left. exact (predicate_name_line "phone-ringing" _ eq_refl).
    + right. exact Hp.
Qed.

Lemma sample_registry_generated : registry_complete (globals sample_generated).
Proof. apply sample_registry. reflexivity. Qed.

Lemma sample_init_eq : problem_init (world sample_generated) = Ok sample_init.
Proof. vm_compute. reflexivity. Qed.

Lemma sample_init_hand_empty : "hand-empty me" ∈ sample_init.
Proof. apply list_elem_of_In. vm_compute. left. reflexivity. Qed.

Lemma X6_init_predicates_declared_witness :
  predicate_name "hand-empty me" = "phone-ringing"
  \/ exists p, p ∈ domain_predicates (globals sample_generated)
       /\ pred_name p = predicate_name "hand-empty me"
       /\ (names_ok (world sample_generated) = true ->
           line_arity "hand-empty me" = length (pred_parameter_list p)).
Proof.
  exact (X6_init_predicates_declared sample_initial sample_generated sample_init
           "hand-empty me" sample_generated_reachable sample_registry_generated
           sample_init_eq sample_init_hand_empty).
Defined.

(** ** The ringing phone *)

(** The vocabulary of [:init], and where [in-hand] and [hand-empty] come
    from. *)
Lemma init_line_origin w init c :
  Inv w -> problem_init w = Ok init -> c ∈ init ->
  predicate_name c ∈ init_predicate_names
  /\ (predicate_name c = "in-hand" ->
      exists i it, i ∈ movable_items w /\ movables w !! i = Some it
                   /\ m_container it = None)
  /\ (predicate_name c = "hand-empty" -> p_item (person w) = None).
Proof.
  intros HI Hinit Hc.
  assert (Hlit : forall name rest, no_space name = true ->
            name ∈ init_predicate_names ->
            name <> "in-hand" -> name <> "hand-empty" ->
            predicate_name (name +:+ " " +:+ rest) ∈ init_predicate_names
            /\ (predicate_name (name +:+ " " +:+ rest) = "in-hand" ->
                exists i it, i ∈ movable_items w /\ movables w !! i = Some it
                             /\ m_container it = None)
            /\ (predicate_name (name +:+ " " +:+ rest) = "hand-empty" ->
                p_item (person w) = None)).
  { intros name rest Hn Hin H1 H2. rewrite (predicate_name_line _ _ Hn).
    split; [exact Hin|]. split; intros; congruence. }
  assert (Hin : forall name, In name init_predicate_names -> name ∈ init_predicate_names).
  { intros name. apply list_elem_of_In. }
  apply (problem_init_elem _ _ _ Hinit) in Hc.
  destruct Hc as [Hc | [(r & a & x & Hr & Ha & Hx & Hc) | (i & it & h & Hi & Hit & Hh & Hc)]].
  - unfold Person_get_init_conditions in Hc.
    destruct (p_item (person w)) eqn:Hp; [inversion Hc|].
    apply list_elem_of_singleton in Hc. subst c. unfold get_empty_hand_predicate.
    change (predicate_name ("hand-empty " +:+ p_pddl_name (person w)))
      with (predicate_name ("hand-empty" +:+ " " +:+ p_pddl_name (person w))).
    rewrite (predicate_name_line "hand-empty" (p_pddl_name (person w)) eq_refl).
    split; [apply Hin; simpl; tauto|]. split; [discriminate | reflexivity].
  - unfold stationary_get_init_conditions, get_special_init_conditions,
      StationaryItem_get_init_conditions, get_in_room_predicate in Hc.
    assert (Hroom : forall rest,
              predicate_name (get_in_room_predicate_name (room_class (s_parent x))
                                +:+ " " +:+ rest) ∈ init_predicate_names
              /\ (predicate_name (get_in_room_predicate_name (room_class (s_parent x))
                                    +:+ " " +:+ rest) = "in-hand" ->
                  exists i it, i ∈ movable_items w /\ movables w !! i = Some it
                               /\ m_container it = None)
              /\ (predicate_name (get_in_room_predicate_name (room_class (s_parent x))
                                    +:+ " " +:+ rest) = "hand-empty" ->
                  p_item (person w) = None)).
    { intros rest. apply Hlit; [apply in_room_name_no_space| | |];
        destruct (room_class (s_parent x)); try discriminate; apply Hin; simpl; tauto. }
    destruct (s_state x) as [|levels| |[]|[]|[]|[] ch];
      try (apply elem_of_app in Hc; destruct Hc as [Hc|Hc]);
      try (apply list_elem_of_singleton in Hc; subst c; apply Hroom);
      try (inversion Hc; fail).
    + apply list_elem_of_In, in_map_iff in Hc. destruct Hc as (k & <- & _).
      apply (Hlit "shelf-has-level" _ eq_refl); try discriminate. apply Hin. simpl. tauto.
    + apply list_elem_of_singleton in Hc. subst c.
      apply (Hlit "faucet-on" _ eq_refl); try discriminate. apply Hin. simpl. tauto.
    + apply list_elem_of_singleton in Hc. subst c.
      apply (Hlit "window-open" _ eq_refl); try discriminate. apply Hin. simpl. tauto.
    + apply list_elem_of_singleton in Hc. subst c.
      apply (Hlit "light-on" _ eq_refl); try discriminate. apply Hin. simpl. tauto.
    + apply elem_of_cons in Hc. destruct Hc as [->|Hc].
      * apply (Hlit "tv-on" _ eq_refl); try discriminate. apply Hin. simpl. tauto.
      * apply list_elem_of_singleton in Hc. subst c.
        apply (Hlit "tv-playing-channel" _ eq_refl); try discriminate.
        apply Hin. simpl. tauto.
  - destruct (movable_get_init_conditions_elem _ _ _ Hh) as (l & Hl & Hiff).
    apply Hiff in Hc. destruct Hc as [Hc | (_ & _ & ->)].
    2: { apply (Hlit "phone-ringing" _ eq_refl); try discriminate. apply Hin. simpl. tauto. }
    destruct (m_container it) as [a|] eqn:Hcont.
    + destruct (inv_placed _ HI i it a Hi Hit Hcont) as (x & Hx & Hhold & Hloc & _).
      destruct (get_contains_predicate_placed x it Hloc) as (pr & Hpr & Hshape).
      rewrite (MovableItem_get_init_conditions_placed _ _ _ _ _ Hcont Hx Hpr) in Hl.
      inversion Hl; subst l. apply list_elem_of_singleton in Hc. subst c.
      pose proof (can_hold_is_container _ _ Hhold) as Hcon. unfold s_type in *.
      destruct (s_state x) as [|levels| | | | |] eqn:Hst; simpl in Hcon; try discriminate Hcon;
        try (subst pr; unfold Container_get_contains_predicate;
             apply Hlit; [reflexivity | apply Hin; simpl; tauto | discriminate | discriminate]).
      destruct Hshape as (level & _ & ->). unfold Container_get_contains_predicate.
      rewrite !append_assoc.
      apply Hlit; [reflexivity | apply Hin; simpl; tauto | discriminate | discriminate].
    + rewrite (MovableItem_get_init_conditions_held _ _ Hcont) in Hl.
      inversion Hl; subst l. apply list_elem_of_singleton in Hc. subst c.
      unfold get_in_hand_predicate. change (predicate_name ("in-hand " +:+ p_pddl_name (person w) +:+ " " +:+ m_pddl_name it))
        with (predicate_name ("in-hand" +:+ " " +:+ p_pddl_name (person w) +:+ " "
                                +:+ m_pddl_name it)).
      rewrite (predicate_name_line "in-hand"
                 (p_pddl_name (person w) +:+ " " +:+ m_pddl_name it) eq_refl).
      split; [apply Hin; simpl; tauto|]. split; [eauto | discriminate].
Qed.

Lemma init_line_names w init c :
  Inv w -> problem_init w = Ok init -> c ∈ init ->
  predicate_name c ∈ init_predicate_names.
Proof. intros HI Hinit Hc. apply (init_line_origin _ _ _ HI Hinit Hc). Qed.

(** No predicate of the domain is called [phone-ringing]. *)
Lemma phone_ringing_not_declared g p :
  p ∈ domain_predicates g -> pred_name p <> "phone-ringing".
Proof.
  intros Hp. apply domain_predicates_elem in Hp.
  destruct Hp as [Hp | [(t & _ & Hp) | (t & _ & Hp)]].
  - apply list_elem_of_In in Hp. simpl in Hp.
    destruct Hp as [<- | [<- | []]]; discriminate.
  - destruct t as [[]|[]]; apply list_elem_of_In in Hp; simpl in Hp;
      repeat (destruct Hp as [<- | Hp]; [discriminate|]); destruct Hp.
  - destruct t; apply list_elem_of_In in Hp; simpl in Hp;
      repeat (destruct Hp as [<- | Hp]; [discriminate|]); destruct Hp.
Qed.

(** The line of a ringing phone. *)
Lemma ringing_phone_line w init i it :
  problem_init w = Ok init ->
  i ∈ movable_items w -> movables w !! i = Some it ->
  m_type it = Phone -> m_ringing it = true ->
  "phone-ringing " +:+ m_pddl_name it ∈ init.
Proof.
  intros Hinit Hi Hit Hty Hring.
  unfold problem_init in Hinit. pose proof Hinit as Hinit'.
  apply Res_bind_Ok in Hinit'. destruct Hinit' as (l1 & _ & Hinit').
  apply Res_bind_Ok in Hinit'. destruct Hinit' as (l2 & H2 & _).
  destruct (concat_for_each _ _ _ i H2 Hi) as (h & Hh).
  unfold deref in Hh. rewrite Hit in Hh. simpl in Hh.
  apply (problem_init_elem _ _ _ Hinit). right. right.
  exists i, it, h. split; [exact Hi|]. split; [exact Hit|]. split; [exact Hh|].
  destruct (movable_get_init_conditions_elem _ _ _ Hh) as (l & _ & Hiff).
  apply Hiff. right. auto.
Qed.

(** X7. The problem encoder writes [phone-ringing] for a ringing phone of the
    pool, a predicate that the domain does not declare; the predicate that
    the domain declares for phones, [is-ringing], and that its action
    [answer-phone] requires, is in the [:init] of no timestep. *)
Theorem X7_phone_ringing_undeclared s0 s init :
  reachable s0 s -> problem_init (world s) = Ok init ->
  (forall i it, i ∈ movable_items (world s) -> movables (world s) !! i = Some it ->
     m_type it = Phone -> m_ringing it = true ->
     "phone-ringing " +:+ m_pddl_name it ∈ init)
  /\ (forall p, p ∈ domain_predicates (globals s) -> pred_name p <> "phone-ringing")
  /\ (forall c, c ∈ init -> predicate_name c <> "is-ringing")
  /\ (inl Phone ∈ item_types (globals s) ->
      (exists p, p ∈ domain_predicates (globals s) /\ pred_name p = "is-ringing")
      /\ exists actions a, domain_actions (globals s) = Ok actions /\ a ∈ actions
           /\ act_name a = "answer-phone" /\ act_preconditions a = ["is-ringing ?a"]).
Proof.
  intros Hr Hinit. pose proof (proj1 (reachable_Inv _ _ Hr)) as HI.
  split; [intros i it; apply ringing_phone_line; exact Hinit|].
  split; [intros p; apply phone_ringing_not_declared|].
  split.
  { intros c Hc Hname. pose proof (init_line_names _ _ _ HI Hinit Hc) as Hin.
    rewrite Hname in Hin. apply list_elem_of_In in Hin. simpl in Hin.
    repeat (destruct Hin as [Hin | Hin]; [discriminate Hin|]). exact Hin. }
  intros Hphone. split.
  { exists {| pred_name := "is-ringing";
               pred_parameter_list := ["?a - " +:+ movable_type_name Phone] |}.
    split; [|reflexivity].
    apply (domain_predicates_item _ (inl Phone) _ Hphone). apply list_elem_of_here. }
  unfold domain_actions. revert Hphone. generalize (item_types (globals s)) as l.
  induction l as [|t l IH]; intros Hin; [inversion Hin|].
  assert (Hhead : exists h, item_get_pddl_domain_actions (globals s) t = Ok h).
  { destruct t as [m|[]]; simpl; eauto. }
  destruct Hhead as (h & Hh).
  destruct (decide (t = inl Phone)) as [->|Hne].
  - assert (Htail : exists r, domain_actions_for (globals s) l = Ok r).
    { clear. induction l as [|t l (r & IH)]; simpl; [eauto|].
      rewrite IH. destruct t as [m|[]]; simpl; eauto. }
    destruct Htail as (r & Hr'). simpl. rewrite Hr'. simpl.
    eexists _, _. split; [reflexivity|]. split; [apply list_elem_of_here|].
    split; reflexivity.
  - apply elem_of_cons in Hin. destruct Hin as [Heq|Hin]; [congruence|].
    destruct (IH Hin) as (actions & a & Hact & Ha & Hname & Hpre).
    simpl. rewrite Hh, Hact. simpl. exists (h ++ actions), a.
    split; [reflexivity|]. split; [apply elem_of_app; right; exact Ha|]. split; assumption.
Qed.

Lemma sample_ringing_init_eq : problem_init (world sample_ringing) = Ok sample_ringing_init.
Proof. vm_compute. reflexivity. Qed.

Lemma X7_phone_ringing_undeclared_witness :
  (forall i it, i ∈ movable_items (world sample_ringing) ->
     movables (world sample_ringing) !! i = Some it ->
     m_type it = Phone -> m_ringing it = true ->
     "phone-ringing " +:+ m_pddl_name it ∈ sample_ringing_init)
  /\ (forall p, p ∈ domain_predicates (globals sample_ringing) ->
        pred_name p <> "phone-ringing")
  /\ (forall c, c ∈ sample_ringing_init -> predicate_name c <> "is-ringing")
  /\ (inl Phone ∈ item_types (globals sample_ringing) ->
      (exists p, p ∈ domain_predicates (globals sample_ringing)
                 /\ pred_name p = "is-ringing")
      /\ exists actions a, domain_actions (globals sample_ringing) = Ok actions
           /\ a ∈ actions
           /\ act_name a = "answer-phone" /\ act_preconditions a = ["is-ringing ?a"]).
Proof.
  exact (X7_phone_ringing_undeclared sample_initial sample_ringing sample_ringing_init
           sample_ringing_reachable sample_ringing_init_eq).
Defined.

(** ** The types of the objects *)

Lemma object_type_line x ty :
  no_space ty = true -> ty <> EmptyString -> object_type (x +:+ " - " +:+ ty) = ty.
Proof.
  intros Hty Hne. unfold object_type.
  change (x +:+ " - " +:+ ty) with (x +:+ " " +:+ "-" +:+ " " +:+ ty).
  rewrite !words_app, (words_symbol ty Hty Hne), app_assoc. apply last_last.
Qed.

(** Where a line of [:objects] comes from. *)
Lemma problem_objects_inv g w objs o :
  problem_objects g w = Ok objs -> o ∈ objs ->
  o = p_pddl_name (person w) +:+ " - " +:+ Person_TYPE_NAME
  \/ (exists r, r ∈ rooms w /\ o = r_pddl_name r +:+ " - " +:+ room_type_name (r_class r))
  \/ (exists r a x, r ∈ rooms w /\ a ∈ r_items r /\ stationaries w !! a = Some x
        /\ o = s_pddl_name x +:+ " - " +:+ stationary_type_name (s_type x))
  \/ (exists i it, i ∈ movable_items w /\ movables w !! i = Some it
        /\ o = m_pddl_name it +:+ " - " +:+ movable_type_name (m_type it))
  \/ (exists t, t ∈ item_types g /\ o ∈ get_static_pddl_objects t).
Proof.
  unfold problem_objects. intros H Ho.
  apply Res_bind_Ok in H. destruct H as (l1 & H1 & H).
  apply Res_bind_Ok in H. destruct H as (l2 & H2 & H). inversion H; subst objs. clear H.
  apply elem_of_cons in Ho. destruct Ho as [Ho|Ho].
  { left. exact Ho. }
  apply elem_of_app in Ho. destruct Ho as [Ho|Ho].
  { apply (concat_for_elem _ _ _ _ H1) in Ho. destruct Ho as (r & l & Hr & Hl & Ho).
    unfold Room_get_pddl_objects in Hl. apply Res_bind_Ok in Hl.
    destruct Hl as (items & Hitems & Hl). inversion Hl; subst l. clear Hl.
    apply elem_of_cons in Ho. destruct Ho as [->|Ho]; [right; left; eauto|].
    apply (concat_for_elem _ _ _ _ Hitems) in Ho. destruct Ho as (a & h & Ha & Hh & Ho).
    apply Res_bind_Ok in Hh. destruct Hh as (x & Hx & Hh). inversion Hh; subst h.
    unfold deref in Hx. destruct (stationaries w !! a) eqn:E; inversion Hx; subst.
    apply list_elem_of_singleton in Ho. right. right. left. exists r, a, x. auto. }
  apply elem_of_app in Ho. destruct Ho as [Ho|Ho].
  { apply (concat_for_elem _ _ _ _ H2) in Ho. destruct Ho as (i & h & Hi & Hh & Ho).
    apply Res_bind_Ok in Hh. destruct Hh as (it & Hit & Hh). inversion Hh; subst h.
    unfold deref in Hit. destruct (movables w !! i) eqn:E; inversion Hit; subst.
    apply list_elem_of_singleton in Ho. right. right. right. left. exists i, it. auto. }
  right. right. right. right.
  apply list_elem_of_In, in_concat in Ho. destruct Ho as (l & Hl & Ho).
  apply in_map_iff in Hl. destruct Hl as (t & <- & Ht).
  exists t. split; apply list_elem_of_In; assumption.
Qed.

Lemma required_types_item g t ty :
  t ∈ item_types g -> ty ∈ item_get_required_types t -> ty ∈ domain_required_types g.
Proof.
  intros Ht H. unfold domain_required_types. apply elem_of_app. right. apply elem_of_app. left.
  apply list_elem_of_In, in_concat. exists (item_get_required_types t).
  split; [apply in_map, list_elem_of_In, Ht | apply list_elem_of_In, H].
Qed.

Lemma required_types_room g t :
  t ∈ room_types g -> room_type_name t ∈ domain_required_types g.
Proof.
  intros Ht. unfold domain_required_types. apply elem_of_app. right. apply elem_of_app. right.
  apply list_elem_of_In, in_concat. exists (Room_get_required_types t).
  split; [apply in_map, list_elem_of_In, Ht | left; reflexivity].
Qed.

(** X8. Every line of the [:objects] of a problem ends with a type that is
    among the [:types] of the domain, when the lists of classes hold the
    class of every room and item of the world. *)
Theorem X8_object_types_declared g w objs o :
  registry_complete g -> problem_objects g w = Ok objs -> o ∈ objs ->
  object_type o ∈ domain_required_types g.
Proof.
  intros [Hitems Hrooms] Hobjs Ho.
  destruct (problem_objects_inv _ _ _ _ Hobjs Ho)
    as [-> | [(r & _ & ->) | [(r & a & x & _ & _ & _ & ->)
       | [(i & it & _ & _ & ->) | (t & Ht & Hin)]]]].
  - rewrite object_type_line; [|reflexivity|discriminate].
    apply list_elem_of_here.
  - rewrite object_type_line;
      [|apply room_type_name_no_space|destruct (r_class r); discriminate].
    apply required_types_room, Hrooms.
  - rewrite object_type_line;
      [|apply stationary_type_name_no_space|destruct (s_type x); discriminate].
    apply (required_types_item g (inr (s_type x))); [apply Hitems|].
    destruct (s_type x); apply list_elem_of_here.
  - rewrite object_type_line;
      [|apply movable_type_name_no_space|destruct (m_type it); discriminate].
    apply (required_types_item g (inl (m_type it))); [apply Hitems|].
    apply list_elem_of_here.
  - destruct t as [m|[]]; simpl in Hin; try (inversion Hin; fail).
    + apply list_elem_of_In, in_map_iff in Hin. destruct Hin as (k & <- & _).
      rewrite object_type_line; [|reflexivity|discriminate].
      apply (required_types_item g (inr Shelf) _ Ht).
      apply list_elem_of_further, list_elem_of_here.
    + apply list_elem_of_In, in_map_iff in Hin. destruct Hin as (ch & <- & _).
      rewrite object_type_line; [|reflexivity|discriminate].
      apply (required_types_item g (inr TV) _ Ht).
      apply list_elem_of_further, list_elem_of_here.
Qed.

Lemma sample_objects_eq :
  problem_objects (globals sample_generated) (world sample_generated) = Ok sample_objects.
Proof. vm_compute. reflexivity. Qed.

Lemma sample_objects_person : "me - person" ∈ sample_objects.
Proof. apply list_elem_of_In. vm_compute. left. reflexivity. Qed.

Lemma X8_object_types_declared_witness :
  object_type "me - person" ∈ domain_required_types (globals sample_generated).
Proof.
  exact (X8_object_types_declared (globals sample_generated) (world sample_generated)
           sample_objects "me - person" sample_registry_generated sample_objects_eq
           sample_objects_person).
Defined.

(** ** Actions that reverse each other *)

(** Finds among the literals of [l] the one that the goal negates. *)
Ltac pick_negated l :=
  match l with
  | ?x :: ?r =>
      first [ exists x; split; [reflexivity | apply list_elem_of_In; vm_compute; tauto]
            | pick_negated r ]
  end.

(** X9. The first two actions that a stationary class adds to the domain (place
    and remove for the containers, the two switches of the others) have the
    same parameters and reverse each other's effects; the second is applicable
    after the first, and the first after the second up to the [shelf-has-level]
    that placing on a shelf requires. No class lacks the entry of
    [EXTRA_INFO] that its [contains] predicate reads. *)
Theorem X9_actions_reverse g t :
  exists a b rest,
    stationary_get_pddl_domain_actions g t = Ok (a :: b :: rest)
    /\ act_parameter_list a = act_parameter_list b
    /\ undoes a b /\ undoes b a
    /\ (forall l, l ∈ act_preconditions b -> l ∈ act_effects a)
    /\ (forall l, l ∈ act_preconditions a ->
          l ∈ act_effects b \/ l = "shelf-has-level ?a ?c").
Proof.
  assert (Hmem : forall (l : list string) (P : string -> Prop),
            Forall P l -> forall x, x ∈ l -> P x).
  { intros l P H x Hx. exact (proj1 (Forall_forall _ _) H x Hx). }
  destruct t; eexists _, _, _; (split; [reflexivity|]); (split; [reflexivity|]);
    unfold undoes, negate; cbn [act_effects act_preconditions];
    repeat split; apply Hmem;
    repeat (apply Forall_cons_2; [| ]); try apply Forall_nil_2;
    try (left; apply list_elem_of_In; vm_compute; tauto);
    try (right; eexists; split; [reflexivity|]; apply list_elem_of_In; vm_compute; tauto);
    try (apply list_elem_of_In; vm_compute; tauto).
  all: try (right; reflexivity).
  all: match goal with |- _ \/ exists l', _ /\ l' ∈ ?L => right; pick_negated L end.
Qed.
(** ** Placing the held item *)

(** What [Container.perform_action] does when the container accepts the item
    in the hand. *)
Lemma Container_perform_action_place a s x i item :
  stationaries (world s) !! a = Some x -> stationary_ok x ->
  p_item (person (world s)) = Some i -> movables (world s) !! i = Some item ->
  can_hold (s_type x) (m_type item) = true ->
  exists loc extra s',
    Container_perform_action a s
    = Ok (Some ("I placed the " +:+ m_shortened_name item +:+ " I was holding " +:+ loc
                  +:+ " the " +:+ get_full_name_with_room x +:+ "."), s')
    /\ relative_location_of x loc extra
    /\ world s' = place_effect (world s) a i item loc extra.
Proof.
  intros Hx Hok Hp Hitem Hc.
  assert (Hcont : match s_state x with
                  | IsTable | IsShelf _ | IsFridge | IsSink _ => True | _ => False end).
  { pose proof (can_hold_is_container _ _ Hc) as H. unfold s_type in H.
    destruct (s_state x); simpl in H; try discriminate H; exact I. }
  unfold Container_perform_action.
  unfold get_person. rewrite (bind_run _ _ _ _ _ (eq_refl : bind get_world _ s = Ok (person (world s), s))).
  rewrite (bind_run _ _ _ _ _ (get_stationary_run _ _ _ Hx)). rewrite Hp.
  rewrite (bind_run _ _ _ _ _ (get_movable_run _ _ _ Hitem)). rewrite Hc. simpl.
  unfold set_person at 1.
  set (s1 := with_world s (with_person (world s) (with_item (person (world s)) None))).
  destruct (generate_relative_location_total x s1 Hok Hcont) as (loc & extra & s2 & Hg & Hw).
  destruct (generate_relative_location_inv _ _ _ _ _ Hg) as (Hloc & _ & _).
  exists loc, extra. eexists.
  unfold bind at 1. unfold bind at 1. simpl. fold s1.
  unfold bind at 1. rewrite Hg.
  split; [reflexivity|]. split; [exact Hloc|].
  simpl. rewrite Hw. reflexivity.
Qed.

(** The predicates of an item depend on the world only through the heap of
    stationary items and the name of the person. *)
Lemma movable_get_init_conditions_same w w' it :
  stationaries w' = stationaries w ->
  p_pddl_name (person w') = p_pddl_name (person w) ->
  movable_get_init_conditions w' it = movable_get_init_conditions w it.
Proof.
  intros Hs Hp. unfold movable_get_init_conditions, MovableItem_get_init_conditions.
  rewrite Hs, Hp. reflexivity.
Qed.

(** X10. Take a well-formed world whose person holds item [i], and a container
    [a] of a room whose class accepts the item. Then the [:init] of the problem
    has [in-hand] for the item and no [hand-empty]; [Container.perform_action]
    places the item and narrates it; and the [:init] generated afterwards is
    the old one with the [in-hand] line replaced by the [contains] predicate
    of the container for the item, at the drawn location, and [hand-empty]. No
    [in-hand] line is left. *)
Theorem X10_place_updates_init s r a x i it :
  Inv (world s) ->
  r ∈ rooms (world s) -> a ∈ r_items r -> stationaries (world s) !! a = Some x ->
  p_item (person (world s)) = Some i -> movables (world s) !! i = Some it ->
  can_hold (s_type x) (m_type it) = true ->
  exists init loc extra s' init' pr,
    problem_init (world s) = Ok init
    /\ get_in_hand_predicate (p_pddl_name (person (world s))) (m_pddl_name it) ∈ init
    /\ (forall c, c ∈ init -> predicate_name c <> "hand-empty")
    /\ Container_perform_action a s
       = Ok (Some ("I placed the " +:+ m_shortened_name it +:+ " I was holding " +:+ loc
                     +:+ " the " +:+ get_full_name_with_room x +:+ "."), s')
    /\ relative_location_of x loc extra
    /\ problem_init (world s') = Ok init'
    /\ get_contains_predicate (s_type x) (s_pddl_name x) (m_pddl_name it) extra = Ok pr
    /\ (forall c, c ∈ init' <->
          c = pr \/ c = get_empty_hand_predicate (p_pddl_name (person (world s)))
          \/ (c ∈ init
              /\ c <> get_in_hand_predicate (p_pddl_name (person (world s)))
                        (m_pddl_name it)))
    /\ (forall c, c ∈ init' -> predicate_name c <> "in-hand").
Proof.
  intros HI Hr Ha Hx Hp Hit Hc.
  destruct (inv_rooms _ HI r a Hr Ha) as (x' & Hx' & _ & Hok).
  assert (x' = x) by congruence. subst x'.
  pose proof (inv_hand _ HI i Hp) as Hi.
  destruct (inv_own _ HI i Hi) as (it0 & Hit0 & Hiff).
  assert (it0 = it) by congruence. subst it0.
  assert (Hnone : m_container it = None) by (apply Hiff, Hp).
  destruct (problem_init_total _ HI) as (init & Hinit).
  destruct (Container_perform_action_place a s x i it Hx Hok Hp Hit Hc)
    as (loc & extra & s' & Hact & Hloc & Hw').
  pose proof (Inv_place _ _ _ _ _ _ _ _ HI Hr Ha Hx Hp Hit Hc Hloc) as HI'.
  destruct (problem_init_total _ HI') as (init' & Hinit').
  set (it' := with_location it (Some a) (Some loc) extra).
  assert (Hlt : i < length (movables (world s))) by (eapply lookup_lt_Some; exact Hit).
  assert (Hit' : movables (place_effect (world s) a i it loc extra) !! i = Some it').
  { unfold place_effect. simpl. apply list_lookup_insert_eq. exact Hlt. }
  destruct (get_contains_predicate_placed x it' (relative_location_ok _ _ _ it (Some a) Hloc))
    as (pr & Hpr & _).
  simpl in Hpr.
  assert (Hinhand : forall c, c ∈ init -> predicate_name c <> "hand-empty").
  { intros c Hin Hname.
    destruct (init_line_origin _ _ _ HI Hinit Hin) as (_ & _ & Hempty).
    specialize (Hempty Hname). congruence. }
  assert (Hnoin : forall c, c ∈ init' -> predicate_name c <> "in-hand").
  { intros c Hin Hname.
    destruct (init_line_origin _ _ _ HI' Hinit' Hin) as (_ & Hheld & _).
    destruct (Hheld Hname) as (j & itj & Hj & Hitj & Hcj).
    destruct (inv_own _ HI' j Hj) as (itj' & Hitj' & Hiffj).
    assert (itj' = itj) by congruence. subst itj'.
    apply Hiffj in Hcj. simpl in Hcj. discriminate Hcj. }
  assert (Hname_in : predicate_name
                       (get_in_hand_predicate (p_pddl_name (person (world s)))
                          (m_pddl_name it)) = "in-hand").
  { exact (predicate_name_line "in-hand"
             (p_pddl_name (person (world s)) +:+ " " +:+ m_pddl_name it) eq_refl). }
  assert (Hh' : exists h', movable_get_init_conditions
                             (place_effect (world s) a i it loc extra) it' = Ok h'
                  /\ forall c, c ∈ h' <->
                       c = pr \/ (m_type it = Phone /\ m_ringing it = true
                                  /\ c = "phone-ringing " +:+ m_pddl_name it)).
  { destruct (movable_get_init_conditions_total _ i it' HI' Hi Hit') as (h' & Hh').
    exists h'. split; [exact Hh'|].
    destruct (movable_get_init_conditions_elem _ _ _ Hh') as (l & Hl & Hiff').
    rewrite (MovableItem_get_init_conditions_placed
               (place_effect (world s) a i it loc extra) it' a x pr eq_refl Hx Hpr) in Hl.
    inversion Hl; subst l. intros c. rewrite (Hiff' c), list_elem_of_singleton.
    reflexivity. }
  destruct Hh' as (h' & Hh' & Hh'iff).
  assert (Hh : exists h, movable_get_init_conditions (world s) it = Ok h
                 /\ forall c, c ∈ h <->
                      c = get_in_hand_predicate (p_pddl_name (person (world s)))
                            (m_pddl_name it)
                      \/ (m_type it = Phone /\ m_ringing it = true
                          /\ c = "phone-ringing " +:+ m_pddl_name it)).
  { destruct (movable_get_init_conditions_total _ i it HI Hi Hit) as (h & Hh).
    exists h. split; [exact Hh|].
    destruct (movable_get_init_conditions_elem _ _ _ Hh) as (l & Hl & Hiff').
    rewrite (MovableItem_get_init_conditions_held _ _ Hnone) in Hl.
    inversion Hl; subst l. intros c. rewrite (Hiff' c), list_elem_of_singleton.
    reflexivity. }
  destruct Hh as (h & Hh & Hhiff).
  exists init, loc, extra, s', init', pr. rewrite Hw'.
  split; [exact Hinit|].
  split.
  { apply (problem_init_elem _ _ _ Hinit). right. right. exists i, it, h.
    split; [exact Hi|]. split; [exact Hit|]. split; [exact Hh|]. apply Hhiff. left.
    reflexivity. }
  split; [exact Hinhand|]. split; [exact Hact|]. split; [exact Hloc|].
  split; [exact Hinit'|]. split; [exact Hpr|].
  split; [|exact Hnoin].
  intros c. split.
  - intros Hin. pose proof (Hnoin c Hin) as Hnot.
    apply (problem_init_elem _ _ _ Hinit') in Hin.
    destruct Hin as [Hin | [(r0 & a0 & x0 & Hr0 & Ha0 & Hx0 & Hin)
                           | (j & itj & hj & Hj & Hitj & Hhj & Hin)]].
    + apply list_elem_of_singleton in Hin. right. left. exact Hin.
    + right. right. split; [|intros ->; congruence].
      apply (problem_init_elem _ _ _ Hinit). right. left. exists r0, a0, x0. auto.
    + destruct (decide (j = i)) as [->|Hne].
      * assert (itj = it') by congruence. subst itj.
        assert (hj = h') by congruence. subst hj.
        apply Hh'iff in Hin. destruct Hin as [Hin | Hin]; [left; exact Hin|].
        right. right. split; [|intros ->; congruence].
        apply (problem_init_elem _ _ _ Hinit). right. right. exists i, it, h.
        split; [exact Hi|]. split; [exact Hit|]. split; [exact Hh|].
        apply Hhiff. right. exact Hin.
      * right. right. split; [|intros ->; congruence].
        apply (problem_init_elem _ _ _ Hinit). right. right. exists j, itj, hj.
        split; [exact Hj|].
        split; [simpl in Hitj; rewrite list_lookup_insert_ne in Hitj by congruence;
                exact Hitj|].
        split; [|exact Hin].
        rewrite <- Hhj. symmetry. apply movable_get_init_conditions_same; reflexivity.
  - intros [-> | [-> | (Hin & Hne)]].
    + apply (problem_init_elem _ _ _ Hinit'). right. right. exists i, it', h'.
      split; [exact Hi|]. split; [exact Hit'|]. split; [exact Hh'|].
      apply Hh'iff. left. reflexivity.
    + apply (problem_init_elem _ _ _ Hinit'). left. apply list_elem_of_here.
    + apply (problem_init_elem _ _ _ Hinit) in Hin.
      apply (problem_init_elem _ _ _ Hinit').
      destruct Hin as [Hin | [(r0 & a0 & x0 & Hr0 & Ha0 & Hx0 & Hin)
                             | (j & itj & hj & Hj & Hitj & Hhj & Hin)]].
      * unfold Person_get_init_conditions in Hin. rewrite Hp in Hin. inversion Hin.
      * right. left. exists r0, a0, x0. auto.
      * right. right. destruct (decide (j = i)) as [->|Hneq].
        -- assert (itj = it) by congruence. subst itj.
           assert (hj = h) by congruence. subst hj.
           apply Hhiff in Hin. destruct Hin as [Hin | Hin]; [contradiction|].
           exists i, it', h'. split; [exact Hi|]. split; [exact Hit'|].
           split; [exact Hh'|]. apply Hh'iff. right. exact Hin.
        -- exists j, itj, hj. split; [exact Hj|].
           split; [simpl; rewrite list_lookup_insert_ne by congruence; exact Hitj|].
           split; [|exact Hin].
           rewrite <- Hhj. apply movable_get_init_conditions_same; reflexivity.
Qed.

Lemma sample_holding_Inv : Inv (world sample_holding).
Proof. exact (proj1 (reachable_Inv _ _ sample_holding_reachable)). Qed.

Lemma sample_living_room_in : sample_living_room ∈ rooms (world sample_holding).
Proof. apply list_elem_of_In. vm_compute. right. left. reflexivity. Qed.

Lemma sample_table_in : 3 ∈ r_items sample_living_room.
Proof. apply list_elem_of_In. vm_compute. tauto. Qed.

Lemma sample_table_lookup : stationaries (world sample_holding) !! 3 = Some sample_table.
Proof. vm_compute. reflexivity. Qed.

Lemma sample_pen_held : p_item (person (world sample_holding)) = Some 2.
Proof. vm_compute. reflexivity. Qed.

Lemma sample_pen_lookup : movables (world sample_holding) !! 2 = Some sample_pen.
Proof. vm_compute. reflexivity. Qed.

Lemma sample_table_holds_pen : can_hold (s_type sample_table) (m_type sample_pen) = true.
Proof. vm_compute. reflexivity. Qed.

Lemma X10_place_updates_init_witness :
  exists init loc extra s' init' pr,
    problem_init (world sample_holding) = Ok init
    /\ get_in_hand_predicate (p_pddl_name (person (world sample_holding)))
         (m_pddl_name sample_pen) ∈ init
    /\ (forall c, c ∈ init -> predicate_name c <> "hand-empty")
    /\ Container_perform_action 3 sample_holding
       = Ok (Some ("I placed the " +:+ m_shortened_name sample_pen
                     +:+ " I was holding " +:+ loc
                     +:+ " the " +:+ get_full_name_with_room sample_table +:+ "."), s')
    /\ relative_location_of sample_table loc extra
    /\ problem_init (world s') = Ok init'
    /\ get_contains_predicate (s_type sample_table) (s_pddl_name sample_table)
         (m_pddl_name sample_pen) extra = Ok pr
    /\ (forall c, c ∈ init' <->
          c = pr
          \/ c = get_empty_hand_predicate (p_pddl_name (person (world sample_holding)))
          \/ (c ∈ init
              /\ c <> get_in_hand_predicate (p_pddl_name (person (world sample_holding)))
                        (m_pddl_name sample_pen)))
    /\ (forall c, c ∈ init' -> predicate_name c <> "in-hand").
Proof.
  exact (X10_place_updates_init sample_holding sample_living_room 3 sample_table 2
           sample_pen sample_holding_Inv sample_living_room_in sample_table_in
           sample_table_lookup sample_pen_held sample_pen_lookup sample_table_holds_pen).
Defined.
(** ** Queries *)

Lemma queryables_of_elem w : forall items q,
  queryables_of w items = Ok q ->
  forall a, a ∈ q <->
    a ∈ items /\ exists x, stationaries w !! a = Some x /\ is_queryable (s_type x) = true.
Proof.
  induction items as [|b items IH]; intros q H a; simpl in H.
  - inversion H; subst q. split; [intros Ha; inversion Ha | intros (Ha & _); inversion Ha].
  - apply Res_bind_Ok in H. destruct H as (x & Hx & H).
    apply Res_bind_Ok in H. destruct H as (r & Hr & H). inversion H; subst q. clear H.
    unfold deref in Hx. destruct (stationaries w !! b) as [x'|] eqn:Hb; inversion Hx; subst x'.
    specialize (IH r Hr a). rewrite elem_of_cons.
    destruct (is_queryable (s_type x)) eqn:Hq.
    + rewrite elem_of_cons, IH. split.
      * intros [-> | (Ha & Hex)]; [split; [left; reflexivity | eauto] | tauto].
      * intros ([-> | Ha] & Hex); [left; reflexivity | right; tauto].
    + rewrite IH. split; [tauto|].
      intros ([-> | Ha] & Hex); [|tauto].
      destruct Hex as (x' & Hx' & Hq'). congruence.
Qed.

Lemma queryables_of_total w : forall items,
  items_valid w items -> exists q, queryables_of w items = Ok q.
Proof.
  induction items as [|b items IH]; intros Hv; simpl; [eauto|].
  destruct (Hv b (list_elem_of_here _ _)) as (x & Hx & _).
  destruct IH as (q & Hq).
  { intros a Ha. apply Hv, list_elem_of_further, Ha. }
  unfold deref. rewrite Hx, Hq. simpl. eauto.
Qed.

(** A query reads the world and draws from the random source. *)
Lemma movable_generate_query_answer_spec i s r s' :
  movable_generate_query_answer i s = Ok (r, s') ->
  world s' = world s /\ same_env s s' /\ cursor s <= cursor s' <= cursor s + 1.
Proof.
  unfold movable_generate_query_answer. intros H. inv_M.
  match goal with Hx : movables _ !! i = Some ?x |- _ => rename x into it end.
  destruct (m_type it); inv_M;
    try (split; [reflexivity|]; split; [apply same_env_refl | lia]).
  match goal with Hc : coin _ = Ok _ |- _ =>
    apply coin_inv in Hc; destruct Hc as (-> & ->) end.
  destruct (bool_decide _); inv_M;
    (split; [reflexivity|]; split; [apply same_env_with_cursor | simpl; lia]).
Qed.

Lemma Room_generate_query_answer_spec r s qa s' :
  Room_generate_query_answer r s = Ok (qa, s') ->
  world s' = world s /\ same_env s s' /\ cursor s' = cursor s + 1.
Proof.
  unfold Room_generate_query_answer. intros H. inv_M.
  match goal with Hc : random_choice _ _ = Ok _ |- _ =>
    apply random_choice_inv in Hc; destruct Hc as (_ & ->) end.
  inv_M.
  split; [reflexivity|]. split; [apply same_env_with_cursor | simpl; lia].
Qed.

Lemma movable_generate_query_answer_total i s :
  Inv (world s) -> i ∈ movable_items (world s) ->
  exists qa s', movable_generate_query_answer i s = Ok (qa, s').
Proof.
  intros HI Hi. destruct (inv_own _ HI i Hi) as (it & Hit & _).
  assert (Hq : exists qa, MovableItem_generate_query_answer (world s) it = Ok qa).
  { unfold MovableItem_generate_query_answer.
    destruct (m_container it) as [c|] eqn:Hc; [|eauto].
    destruct (inv_placed _ HI i it c Hi Hit Hc) as (x & Hx & _).
    unfold deref. rewrite Hx. simpl. eauto. }
  destruct Hq as (qa & Hq).
  unfold movable_generate_query_answer.
  rewrite (bind_run _ _ _ _ _ (get_movable_run _ _ _ Hit)).
  rewrite (bind_run _ _ _ _ _ (eq_refl : get_world s = Ok (world s, s))). cbv beta.
  destruct (m_type it); try (rewrite Hq; simpl; eauto; fail).
  rewrite (bind_run _ _ _ _ _ (coin_run s)). cbv beta.
  destruct (bool_decide _); [unfold ret; eauto|]. rewrite Hq. simpl. eauto.
Qed.

Lemma Room_generate_query_answer_total g r s :
  Inv (world s) -> r ∈ rooms (world s) ->
  Light ∈ stationary_types g -> furnished g (world s) r ->
  exists qa s', Room_generate_query_answer r s = Ok (qa, s').
Proof.
  intros HI Hr HL Hf.
  destruct (queryables_of_total (world s) (r_items r) (room_items_valid _ _ HI Hr))
    as (q & Hq).
  assert (Hne : exists a, a ∈ q).
  { unfold furnished in Hf.
    assert (Hin : Some Light ∈ Some <$> get_holdable_items g (r_class r)).
    { apply list_elem_of_fmap_2. unfold get_holdable_items. apply list_elem_of_In.
      apply List.filter_In. split; [apply list_elem_of_In, HL | apply room_can_hold_Light]. }
    rewrite <- Hf in Hin. apply list_elem_of_fmap in Hin. destruct Hin as (a & Ha & Hin).
    exists a. apply (queryables_of_elem _ _ _ Hq). split; [exact Hin|].
    unfold stationary_type_at in Ha.
    destruct (stationaries (world s) !! a) as [x|]; [|discriminate Ha].
    simpl in Ha. injection Ha as Ha. exists x. split; [reflexivity|].
    rewrite <- Ha. reflexivity. }
  unfold Room_generate_query_answer.
  rewrite (bind_run _ _ _ _ _ (eq_refl : get_world s = Ok (world s, s))). cbv beta.
  unfold lift at 1. unfold bind at 1. rewrite Hq.
  destruct q as [|d q']; [destruct Hne as (a & Ha); inversion Ha|].
  rewrite (bind_run _ _ _ _ _ (random_choice_run d q' s)).
  set (a := nth _ (d :: q') d).
  assert (Ha : a ∈ d :: q').
  { apply list_elem_of_In, nth_In, Nat.mod_upper_bound. discriminate. }
  apply (queryables_of_elem _ _ _ Hq) in Ha. destruct Ha as (_ & x & Hx & Hqx).
  rewrite (bind_run _ _ _ _ _ (get_stationary_run (with_cursor s (S (cursor s))) a x Hx)).
  unfold stationary_generate_query_answer. unfold s_type in Hqx.
  destruct (s_state x); try discriminate Hqx; simpl; eauto.
Qed.

(** X11. [generate_query_answer] never changes the world: it only draws from
    the random source, at most three times. In a generated world it returns
    a query and an answer whenever the first draw picks a list that is not
    empty; with an empty pool of movable items and the first draw on the
    pool it raises [IndexError], as it does in a world without rooms. *)
Theorem X11_query_answer s0 s :
  reachable s0 s -> Light ∈ stationary_types (globals s) ->
  (forall qa s', DatasetGenerator_generate_query_answer s = Ok (qa, s') ->
     world s' = world s /\ same_env s s' /\ cursor s < cursor s' <= cursor s + 3)
  /\ (rooms (world s) <> [] ->
      movable_items (world s) <> [] \/ rand s (cursor s) mod 2 <> 0 ->
      exists qa s', DatasetGenerator_generate_query_answer s = Ok (qa, s'))
  /\ (movable_items (world s) = [] -> rand s (cursor s) mod 2 = 0 ->
      DatasetGenerator_generate_query_answer s = Raise IndexError)
  /\ (rooms (world s) = [] ->
      DatasetGenerator_generate_query_answer s = Raise IndexError).
Proof.
  intros Hr HL. pose proof (proj1 (reachable_Inv _ _ Hr)) as HI.
  assert (Hpool : rooms (world s) = [] -> movable_items (world s) = [])
    by apply (reachable_pool_rooms _ _ Hr).
  unfold DatasetGenerator_generate_query_answer.
  rewrite (bind_run _ _ _ _ _ (coin_run s)). cbv beta.
  set (s1 := with_cursor s (S (cursor s))).
  rewrite (bind_run _ _ _ _ _ (eq_refl : get_world s1 = Ok (world s1, s1))). cbv beta.
  change (world s1) with (world s).
  split; [|split; [|split]].
  - intros qa s' H. destruct (bool_decide _); inv_M.
    + match goal with Hc : random_choice _ _ = Ok _ |- _ =>
        apply random_choice_inv in Hc; destruct Hc as (_ & ->) end.
      apply movable_generate_query_answer_spec in H. destruct H as (Hw & He & Hc).
      split; [exact Hw|].
      split; [eapply same_env_trans; [|exact He];
              eapply same_env_trans; apply same_env_with_cursor|].
      simpl in Hc. lia.
    + match goal with Hc : random_choice _ _ = Ok _ |- _ =>
        apply random_choice_inv in Hc; destruct Hc as (_ & ->) end.
      apply Room_generate_query_answer_spec in H. destruct H as (Hw & He & Hc).
      split; [exact Hw|].
      split; [eapply same_env_trans; [|exact He];
              eapply same_env_trans; apply same_env_with_cursor|].
      simpl in Hc. lia.
  - intros Hrooms Hcase. destruct (bool_decide (rand s (cursor s) mod 2 = 0)) eqn:Hb.
    + destruct (movable_items (world s)) as [|d l] eqn:Hm.
      { destruct Hcase as [Hcase|Hcase]; [congruence|].
        apply bool_decide_eq_true_1 in Hb. contradiction. }
      rewrite (bind_run _ _ _ _ _ (random_choice_run d l s1)).
      set (i := nth _ (d :: l) d).
      assert (Hin : i ∈ d :: l).
      { apply list_elem_of_In, nth_In, Nat.mod_upper_bound. discriminate. }
      rewrite <- Hm in Hin.
      apply movable_generate_query_answer_total; [exact HI | exact Hin].
    + destruct (rooms (world s)) as [|d l] eqn:Hm; [congruence|].
      rewrite (bind_run _ _ _ _ _ (random_choice_run d l s1)).
      set (r := nth _ (d :: l) d).
      assert (Hin : r ∈ rooms (world s)).
      { rewrite Hm. apply list_elem_of_In, nth_In, Nat.mod_upper_bound. discriminate. }
      apply (Room_generate_query_answer_total (globals s)); [exact HI | exact Hin | exact HL|].
      exact (reachable_furnished _ _ Hr r Hin).
  - intros Hnil Hcoin. rewrite (bool_decide_eq_true_2 _ Hcoin), Hnil. reflexivity.
  - intros Hnil. rewrite Hnil, (Hpool Hnil). destruct (bool_decide _); reflexivity.
Qed.

Lemma sample_generated_Inv : Inv (world sample_generated).
Proof. exact (proj1 (reachable_Inv _ _ sample_generated_reachable)). Qed.

Lemma X11_query_answer_witness :
  (forall qa s', DatasetGenerator_generate_query_answer sample_generated = Ok (qa, s') ->
     world s' = world sample_generated /\ same_env sample_generated s'
     /\ cursor sample_generated < cursor s' <= cursor sample_generated + 3)
  /\ (rooms (world sample_generated) <> [] ->
      movable_items (world sample_generated) <> []
      \/ rand sample_generated (cursor sample_generated) mod 2 <> 0 ->
      exists qa s', DatasetGenerator_generate_query_answer sample_generated = Ok (qa, s'))
  /\ (movable_items (world sample_generated) = [] ->
      rand sample_generated (cursor sample_generated) mod 2 = 0 ->
      DatasetGenerator_generate_query_answer sample_generated = Raise IndexError)
  /\ (rooms (world sample_generated) = [] ->
      DatasetGenerator_generate_query_answer sample_generated = Raise IndexError).
Proof.
  exact (X11_query_answer sample_initial sample_generated sample_generated_reachable
           sample_light_class).
Defined.

(** X12. The answer to [Where is the ...?] and the [:init] of the problem
    agree on a movable item of a well-formed world: either the person holds
    the item, the answer says so and [:init] has [in-hand] for it, or the
    item lies in a container, the answer names that container and [:init]
    has the container's [contains] predicate for the item. *)
Theorem X12_answer_agrees_with_init w i it init :
  Inv w -> i ∈ movable_items w -> movables w !! i = Some it ->
  problem_init w = Ok init ->
  exists a,
    MovableItem_generate_query_answer w it
    = Ok ("Where is the " +:+ m_shortened_name it +:+ "?", a)
    /\ ((p_item (person w) = Some i
         /\ a = "You are holding the " +:+ m_shortened_name it +:+ "."
         /\ get_in_hand_predicate (p_pddl_name (person w)) (m_pddl_name it) ∈ init)
        \/ (exists c cont pr,
              p_item (person w) <> Some i
              /\ m_container it = Some c /\ stationaries w !! c = Some cont
              /\ a = "The " +:+ m_shortened_name it +:+ " is "
                       +:+ fmt (m_relative_location it) +:+ " the "
                       +:+ get_full_name_with_room cont +:+ "."
              /\ get_contains_predicate (s_type cont) (s_pddl_name cont) (m_pddl_name it)
                   (m_extra_location_info it) = Ok pr
              /\ pr ∈ init)).
Proof.
  intros HI Hi Hit Hinit.
  destruct (inv_own _ HI i Hi) as (it0 & Hit0 & Hiff).
  assert (it0 = it) by congruence. subst it0.
  destruct (movable_get_init_conditions_total _ i it HI Hi Hit) as (h & Hh).
  destruct (movable_get_init_conditions_elem _ _ _ Hh) as (l & Hl & Hiff').
  unfold MovableItem_generate_query_answer.
  destruct (m_container it) as [c|] eqn:Hc.
  - destruct (inv_placed _ HI i it c Hi Hit Hc) as (cont & Hcont & _ & Hloc & _).
    destruct (get_contains_predicate_placed cont it Hloc) as (pr & Hpr & _).
    unfold deref. rewrite Hcont. simpl. eexists. split; [reflexivity|]. right.
    exists c, cont, pr. split.
    { intros Hp. apply Hiff in Hp. discriminate Hp. }
    split; [reflexivity|]. split; [exact Hcont|]. split; [reflexivity|].
    split; [exact Hpr|].
    apply (problem_init_elem _ _ _ Hinit). right. right. exists i, it, h.
    split; [exact Hi|]. split; [exact Hit|]. split; [exact Hh|]. apply Hiff'. left.
    rewrite (MovableItem_get_init_conditions_placed _ _ _ _ _ Hc Hcont Hpr) in Hl.
    inversion Hl. apply list_elem_of_here.
  - eexists. split; [reflexivity|]. left.
    split; [apply Hiff; reflexivity|]. split; [reflexivity|].
    apply (problem_init_elem _ _ _ Hinit). right. right. exists i, it, h.
    split; [exact Hi|]. split; [exact Hit|]. split; [exact Hh|]. apply Hiff'. left.
    rewrite (MovableItem_get_init_conditions_held _ _ Hc) in Hl.
    inversion Hl. apply list_elem_of_here.
Qed.

Lemma X12_answer_agrees_with_init_witness :
  exists a,
    MovableItem_generate_query_answer (world sample_generated) sample_item
    = Ok ("Where is the " +:+ m_shortened_name sample_item +:+ "?", a)
    /\ ((p_item (person (world sample_generated)) = Some 1
         /\ a = "You are holding the " +:+ m_shortened_name sample_item +:+ "."
         /\ get_in_hand_predicate (p_pddl_name (person (world sample_generated)))
              (m_pddl_name sample_item) ∈ sample_init)
        \/ (exists c cont pr,
              p_item (person (world sample_generated)) <> Some 1
              /\ m_container sample_item = Some c
              /\ stationaries (world sample_generated) !! c = Some cont
              /\ a = "The " +:+ m_shortened_name sample_item +:+ " is "
                       +:+ fmt (m_relative_location sample_item) +:+ " the "
                       +:+ get_full_name_with_room cont +:+ "."
              /\ get_contains_predicate (s_type cont) (s_pddl_name cont)
                   (m_pddl_name sample_item) (m_extra_location_info sample_item) = Ok pr
              /\ pr ∈ sample_init)).
Proof.
  exact (X12_answer_agrees_with_init (world sample_generated) 1 sample_item sample_init
           sample_generated_Inv sample_pool_1 sample_item_lookup sample_init_eq).
Defined.

(** What [MovableItem.perform_action] does with an empty hand. *)
Lemma MovableItem_perform_action_pick i s it c cont :
  p_item (person (world s)) = None -> movables (world s) !! i = Some it ->
  m_container it = Some c -> stationaries (world s) !! c = Some cont ->
  exists s',
    MovableItem_perform_action i s
    = Ok (Some ("I picked up " +:+ (if m_use_default_article it then "the " else "")
                  +:+ m_shortened_name it +:+ " " +:+ fmt (m_relative_location it)
                  +:+ " the " +:+ get_full_name_with_room cont +:+ "."), s')
    /\ world s' = pick_up_effect (world s) i it.
Proof.
  intros Hp Hit Hc Hcont. unfold MovableItem_perform_action, get_person.
  rewrite (bind_run _ _ _ _ _ (eq_refl : bind get_world _ s = Ok (person (world s), s))).
  rewrite Hp. rewrite (bind_run _ _ _ _ _ (get_movable_run _ _ _ Hit)). rewrite Hc.
  rewrite (bind_run _ _ _ _ _ (get_stationary_run _ _ _ Hcont)).
  eexists. split; reflexivity.
Qed.

(** X13. With an empty hand, picking up an item of the pool narrates the
    container and the place the item is taken from, and the question where
    the item is, asked afterwards, is answered with [You are holding]. *)
Theorem X13_answer_after_pick_up s i it :
  Inv (world s) -> i ∈ movable_items (world s) -> movables (world s) !! i = Some it ->
  p_item (person (world s)) = None ->
  exists c cont s' it',
    m_container it = Some c /\ stationaries (world s) !! c = Some cont
    /\ MovableItem_perform_action i s
       = Ok (Some ("I picked up " +:+ (if m_use_default_article it then "the " else "")
                     +:+ m_shortened_name it +:+ " " +:+ fmt (m_relative_location it)
                     +:+ " the " +:+ get_full_name_with_room cont +:+ "."), s')
    /\ movables (world s') !! i = Some it'
    /\ MovableItem_generate_query_answer (world s) it
       = Ok ("Where is the " +:+ m_shortened_name it +:+ "?",
             "The " +:+ m_shortened_name it +:+ " is " +:+ fmt (m_relative_location it)
               +:+ " the " +:+ get_full_name_with_room cont +:+ ".")
    /\ MovableItem_generate_query_answer (world s') it'
       = Ok ("Where is the " +:+ m_shortened_name it +:+ "?",
             "You are holding the " +:+ m_shortened_name it +:+ ".").
Proof.
  intros HI Hi Hit Hp.
  destruct (inv_own _ HI i Hi) as (it0 & Hit0 & Hiff).
  assert (it0 = it) by congruence. subst it0.
  destruct (m_container it) as [c|] eqn:Hc.
  2: { destruct Hiff as [Hiff _]. specialize (Hiff eq_refl). congruence. }
  destruct (inv_placed _ HI i it c Hi Hit Hc) as (cont & Hcont & _).
  destruct (MovableItem_perform_action_pick i s it c cont Hp Hit Hc Hcont) as (s' & Hact & Hw).
  exists c, cont, s', (with_location it None None (m_extra_location_info it)).
  split; [reflexivity|]. split; [exact Hcont|]. split; [exact Hact|].
  split.
  { rewrite Hw. unfold pick_up_effect. simpl. apply list_lookup_insert_eq.
    eapply lookup_lt_Some. exact Hit. }
  split; [|reflexivity].
  unfold MovableItem_generate_query_answer, deref. rewrite Hc, Hcont. reflexivity.
Qed.

Lemma X13_answer_after_pick_up_witness :
  exists c cont s' it',
    m_container sample_item = Some c
    /\ stationaries (world sample_generated) !! c = Some cont
    /\ MovableItem_perform_action 1 sample_generated
       = Ok (Some ("I picked up "
                     +:+ (if m_use_default_article sample_item then "the " else "")
                     +:+ m_shortened_name sample_item +:+ " "
                     +:+ fmt (m_relative_location sample_item)
                     +:+ " the " +:+ get_full_name_with_room cont +:+ "."), s')
    /\ movables (world s') !! 1 = Some it'
    /\ MovableItem_generate_query_answer (world sample_generated) sample_item
       = Ok ("Where is the " +:+ m_shortened_name sample_item +:+ "?",
             "The " +:+ m_shortened_name sample_item +:+ " is "
               +:+ fmt (m_relative_location sample_item)
               +:+ " the " +:+ get_full_name_with_room cont +:+ ".")
    /\ MovableItem_generate_query_answer (world s') it'
       = Ok ("Where is the " +:+ m_shortened_name sample_item +:+ "?",
             "You are holding the " +:+ m_shortened_name sample_item +:+ ".").
Proof.
  exact (X13_answer_after_pick_up sample_generated 1 sample_item sample_generated_Inv
           sample_pool_1 sample_item_lookup sample_hand).
Defined.

(** X14. When the person holds item [i] and a container of a room accepts it,
    [Container.perform_action] narrates the placement, and the question
    where the item is, asked afterwards, is answered with the location and
    the container of the narration. *)
Theorem X14_answer_after_place s r a x i it :
  Inv (world s) ->
  r ∈ rooms (world s) -> a ∈ r_items r -> stationaries (world s) !! a = Some x ->
  p_item (person (world s)) = Some i -> movables (world s) !! i = Some it ->
  can_hold (s_type x) (m_type it) = true ->
  exists loc extra s' it',
    relative_location_of x loc extra
    /\ Container_perform_action a s
       = Ok (Some ("I placed the " +:+ m_shortened_name it +:+ " I was holding " +:+ loc
                     +:+ " the " +:+ get_full_name_with_room x +:+ "."), s')
    /\ movables (world s') !! i = Some it'
    /\ MovableItem_generate_query_answer (world s) it
       = Ok ("Where is the " +:+ m_shortened_name it +:+ "?",
             "You are holding the " +:+ m_shortened_name it +:+ ".")
    /\ MovableItem_generate_query_answer (world s') it'
       = Ok ("Where is the " +:+ m_shortened_name it +:+ "?",
             "The " +:+ m_shortened_name it +:+ " is " +:+ loc
               +:+ " the " +:+ get_full_name_with_room x +:+ ".").
Proof.
  intros HI Hr Ha Hx Hp Hit Hc.
  destruct (inv_rooms _ HI r a Hr Ha) as (x' & Hx' & _ & Hok).
  assert (x' = x) by congruence. subst x'.
  pose proof (inv_hand _ HI i Hp) as Hi.
  destruct (inv_own _ HI i Hi) as (it0 & Hit0 & Hiff).
  assert (it0 = it) by congruence. subst it0.
  assert (Hnone : m_container it = None) by (apply Hiff, Hp).
  destruct (Container_perform_action_place a s x i it Hx Hok Hp Hit Hc)
    as (loc & extra & s' & Hact & Hloc & Hw').
  exists loc, extra, s', (with_location it (Some a) (Some loc) extra).
  split; [exact Hloc|]. split; [exact Hact|].
  split.
  { rewrite Hw'. unfold place_effect. simpl. apply list_lookup_insert_eq.
    eapply lookup_lt_Some. exact Hit. }
  split.
  { unfold MovableItem_generate_query_answer. rewrite Hnone. reflexivity. }
  unfold MovableItem_generate_query_answer, deref. simpl.
  rewrite Hw'. simpl. rewrite Hx. reflexivity.
Qed.

Lemma X14_answer_after_place_witness :
  exists loc extra s' it',
    relative_location_of sample_table loc extra
    /\ Container_perform_action 3 sample_holding
       = Ok (Some ("I placed the " +:+ m_shortened_name sample_pen
                     +:+ " I was holding " +:+ loc
                     +:+ " the " +:+ get_full_name_with_room sample_table +:+ "."), s')
    /\ movables (world s') !! 2 = Some it'
    /\ MovableItem_generate_query_answer (world sample_holding) sample_pen
       = Ok ("Where is the " +:+ m_shortened_name sample_pen +:+ "?",
             "You are holding the " +:+ m_shortened_name sample_pen +:+ ".")
    /\ MovableItem_generate_query_answer (world s') it'
       = Ok ("Where is the " +:+ m_shortened_name sample_pen +:+ "?",
             "The " +:+ m_shortened_name sample_pen +:+ " is " +:+ loc
               +:+ " the " +:+ get_full_name_with_room sample_table +:+ ".").
Proof.
  exact (X14_answer_after_place sample_holding sample_living_room 3 sample_table 2
           sample_pen sample_holding_Inv sample_living_room_in sample_table_in
           sample_table_lookup sample_pen_held sample_pen_lookup sample_table_holds_pen).
Defined.
(** ** The objects of the problem *)

(** The objects depend on the names and classes only. *)
Lemma problem_objects_ext g w w' :
  rooms w' = rooms w -> movable_items w' = movable_items w ->
  p_pddl_name (person w') = p_pddl_name (person w) ->
  (forall a, stationary_get_pddl_objects <$> stationaries w' !! a
             = stationary_get_pddl_objects <$> stationaries w !! a) ->
  (forall i, movable_get_pddl_objects <$> movables w' !! i
             = movable_get_pddl_objects <$> movables w !! i) ->
  problem_objects g w' = problem_objects g w.
Proof.
  intros Hr Hm Hp Hs Hi. unfold problem_objects, Person_get_pddl_objects.
  rewrite Hr, Hm, Hp.
  rewrite (concat_for_ext (Room_get_pddl_objects w') (Room_get_pddl_objects w)).
  2: { intros r _. unfold Room_get_pddl_objects.
       rewrite (concat_for_ext
                  (fun a => x <~ deref (stationaries w') a ;; Ok (stationary_get_pddl_objects x))
                  (fun a => x <~ deref (stationaries w) a ;; Ok (stationary_get_pddl_objects x)));
         [reflexivity|].
       intros a _. unfold deref. specialize (Hs a).
       destruct (stationaries w' !! a), (stationaries w !! a); simpl in *; congruence. }
  rewrite (concat_for_ext
             (fun a => it <~ deref (movables w') a ;; Ok (movable_get_pddl_objects it))
             (fun a => it <~ deref (movables w) a ;; Ok (movable_get_pddl_objects it)));
    [reflexivity|].
  intros a _. unfold deref. specialize (Hi a).
  destruct (movables w' !! a), (movables w !! a); simpl in *; congruence.
Qed.

(** An action renames nothing and changes no class. *)
Lemma one_action_objects g w w' :
  one_action w w' -> problem_objects g w' = problem_objects g w.
Proof.
  assert (Hmov : forall (l : list MovableItem) i it it' j,
            l !! i = Some it ->
            movable_get_pddl_objects it' = movable_get_pddl_objects it ->
            movable_get_pddl_objects <$> <[i:=it']> l !! j
            = movable_get_pddl_objects <$> l !! j).
  { intros l i it it' j Hit Heq. destruct (decide (i = j)) as [<-|Hne].
    - rewrite list_lookup_insert_eq by (eapply lookup_lt_Some; exact Hit).
      rewrite Hit. simpl. rewrite Heq. reflexivity.
    - rewrite list_lookup_insert_ne by exact Hne. reflexivity. }
  intros [(r & b & _ & _ & H) | (i & _ & H)]; inversion H; subst;
    apply problem_objects_ext; try reflexivity; intros j; simpl.
  - eapply Hmov; [eassumption | reflexivity].
  - destruct (decide (b = j)) as [<-|Hne].
    + rewrite list_lookup_insert_eq by (eapply lookup_lt_Some; eassumption).
      match goal with Hx : stationaries w !! b = Some _ |- _ => rewrite Hx end. simpl.
      unfold stationary_get_pddl_objects, s_type. simpl.
      rewrite (toggles_type _ _ ltac:(eassumption)). reflexivity.
    + rewrite list_lookup_insert_ne by exact Hne. reflexivity.
  - eapply Hmov; [eassumption | reflexivity].
  - eapply Hmov; [eassumption | reflexivity].
Qed.

(** X15. The [:objects] of the problem are fixed by [__init__]: at every
    later timestep the encoder builds the list it built for the initial
    world, so that the problem files of a run differ in [:init] only. *)
Theorem X15_objects_constant s0 u s1 s :
  DatasetGenerator_init s0 = Ok (u, s1) -> reachable s0 s ->
  exists objs,
    problem_objects (globals s1) (world s1) = Ok objs
    /\ problem_objects (globals s) (world s) = Ok objs
    /\ generate_domain_pddl (globals s) = generate_domain_pddl (globals s1).
Proof.
  intros Hinit Hr.
  destruct (problem_objects_total (globals s1) (world s1)
              (proj1 (DatasetGenerator_init_Inv _ _ _ Hinit))) as (objs & Hobjs).
  exists objs. split; [exact Hobjs|].
  induction Hr as [u' s Hinit' | s fuel n s' Hreach IH Hstep].
  - rewrite Hinit in Hinit'. inversion Hinit'; subst. split; [exact Hobjs | reflexivity].
  - destruct IH as (IH1 & IH2).
    apply generate_state_change_spec in Hstep. destruct Hstep as ((_ & _ & Hgl) & Hact).
    rewrite Hgl. split; [|exact IH2].
    rewrite (one_action_objects _ _ _ Hact). exact IH1.
Qed.

Lemma X15_objects_constant_witness :
  exists objs,
    problem_objects (globals sample_generated) (world sample_generated) = Ok objs
    /\ problem_objects (globals sample_ringing) (world sample_ringing) = Ok objs
    /\ generate_domain_pddl (globals sample_ringing)
       = generate_domain_pddl (globals sample_generated).
Proof.
  exact (X15_objects_constant sample_initial tt sample_generated sample_ringing
           sample_generated_eq sample_ringing_reachable).
Defined.
(** ** The description of a list of items *)

Lemma append_empty_r (a : string) : a +:+ EmptyString = a.
Proof.
  induction a as [|c a IH]; [reflexivity|].
  change (String c (a +:+ EmptyString) = String c a). rewrite IH. reflexivity.
Qed.

Lemma item_text name v :
  Py.first_in_aeiou name = Some v ->
  "a" +:+ (if v then "n" else "") +:+ " " +:+ name = with_article name.
Proof.
  unfold with_article, starts_with_vowel, Py.first_in_aeiou.
  destruct name as [|c r]; [discriminate|]. intros H. inversion H; subst v.
  destruct (bool_decide _); reflexivity.
Qed.

Lemma get_item_list_description_from_raises len : forall l i,
  Exists (fun it => m_name it = EmptyString) l ->
  get_item_list_description_from len i l = Raise IndexError.
Proof.
  induction l as [|x l IH]; intros i H; [inversion H|].
  simpl. destruct (Py.first_in_aeiou (m_name x)) as [v|] eqn:Hv; [|reflexivity].
  simpl. apply Exists_cons in H. destruct H as [H | H].
  - rewrite H in Hv. discriminate Hv.
  - rewrite (IH (S i) H). reflexivity.
Qed.

Lemma get_item_list_description_from_long len : forall l i,
  len = i + length l -> 3 <= len ->
  Forall (fun it => m_name it <> EmptyString) l ->
  get_item_list_description_from len i l = Ok (enumeration (map (fun it => with_article (m_name it)) l)).
Proof.
  induction l as [|x l IH]; intros i Hlen H3 Hall; [reflexivity|].
  apply Forall_cons in Hall. destruct Hall as (Hx & Hall).
  cbn [get_item_list_description_from].
  destruct (Py.first_in_aeiou (m_name x)) as [v|] eqn:Hv.
  2: { destruct (m_name x); [congruence | discriminate Hv]. }
  cbn [Res_bind]. rewrite (item_text _ _ Hv).
  cbn [length] in Hlen.
  rewrite (IH (S i) ltac:(lia) H3 Hall). cbn [Res_bind].
  rewrite (bool_decide_eq_false_2 (len = 2 ∧ i = 0)) by lia.
  destruct l as [|y [|z l]]; cbn [length] in Hlen; cbn [map enumeration].
  - rewrite (bool_decide_eq_false_2 (i + 1 < len ∧ _)) by lia.
    rewrite (bool_decide_eq_false_2 (i + 2 = len)) by lia.
    simpl. rewrite append_empty_r. reflexivity.
  - rewrite (bool_decide_eq_true_2 (i + 1 < len ∧ _)) by lia.
    rewrite (bool_decide_eq_true_2 (i + 2 = len)) by lia.
    reflexivity.
  - rewrite (bool_decide_eq_true_2 (i + 1 < len ∧ _)) by lia.
    rewrite (bool_decide_eq_false_2 (i + 2 = len)) by lia.
    reflexivity.
Qed.

(** X16. [get_item_list_description] writes each item with its indefinite
    article and enumerates them: nothing for no item, [x] for one, [x and y]
    for two, and [x, y, and z] with a comma before [and] for three or more.
    It raises [IndexError] when an item has an empty name. *)
Theorem X16_item_list_description l :
  (Forall (fun it => m_name it <> EmptyString) l ->
   get_item_list_description l
   = Ok (item_list_text (map (fun it => with_article (m_name it)) l)))
  /\ (Exists (fun it => m_name it = EmptyString) l ->
      get_item_list_description l = Raise IndexError).
Proof.
  split; [|apply get_item_list_description_from_raises].
  intros Hall. unfold get_item_list_description.
  destruct l as [|x [|y [|z l]]].
  - reflexivity.
  - apply Forall_cons in Hall. destruct Hall as (Hx & _). simpl.
    destruct (Py.first_in_aeiou (m_name x)) as [v|] eqn:Hv.
    2: { destruct (m_name x); [congruence | discriminate Hv]. }
    simpl. rewrite append_empty_r. f_equal. apply (item_text _ _ Hv).
  - apply Forall_cons in Hall. destruct Hall as (Hx & Hall).
    apply Forall_cons in Hall. destruct Hall as (Hy & _). simpl.
    destruct (Py.first_in_aeiou (m_name x)) as [v|] eqn:Hv.
    2: { destruct (m_name x); [congruence | discriminate Hv]. }
    destruct (Py.first_in_aeiou (m_name y)) as [v'|] eqn:Hv'.
    2: { destruct (m_name y); [congruence | discriminate Hv']. }
    simpl. rewrite append_empty_r.
    rewrite <- (item_text _ _ Hv), <- (item_text _ _ Hv'). rewrite !append_assoc.
    reflexivity.
  - rewrite get_item_list_description_from_long; [reflexivity | reflexivity | | exact Hall].
    simpl. lia.
Qed.
(** ** Names are used once *)

Lemma pop_random_Some pool s x rest s' :
  pop_random pool s = Ok (Some (x, rest), s') -> pool ≡ₚ x :: rest.
Proof.
  unfold pop_random. destruct pool as [|p pool]; intros H; inv_M.
  destruct (Py.pop_at _ _) as [[y r]|] eqn:Hpop; inv_M.
  exact (pop_at_inv _ _ _ _ Hpop).
Qed.

Lemma movable_generate_instance_names t s r s' :
  movable_generate_instance t s = Ok (r, s') ->
  match r with
  | None => world s' = world s /\ classes s' = classes s
  | Some a =>
      exists x rest,
        pool_of t (classes s) ≡ₚ x :: rest
        /\ classes s' = with_pool t (classes s) rest
        /\ a = length (movables (world s))
        /\ world s' = with_movables (world s) (movables (world s) ++ [new_movable t x])
  end.
Proof.
  unfold movable_generate_instance. intros H.
  apply bind_Ok in H. destruct H as (c & s1 & Hc & H).
  unfold get_classes in Hc. inversion Hc; subst c s1. clear Hc.
  apply bind_Ok in H. destruct H as (o & s1 & Hp & H).
  pose proof (pop_random_inv _ _ _ _ Hp) as (Hw & (_ & Hcl & _)).
  destruct o as [[x rest]|].
  - apply pop_random_Some in Hp.
    apply bind_Ok in H. destruct H as (u & s2 & Hput & H).
    unfold put_classes in Hput. inversion Hput; subst u s2. clear Hput.
    apply bind_Ok in H. destruct H as (a & s2 & Ha & H).
    apply alloc_movable_inv in Ha. destruct Ha as [-> ->].
    unfold ret in H. inversion H; subst. simpl. exists x, rest. rewrite Hw.
    repeat split; [exact Hp].
  - unfold ret in H. inversion H; subst. split; [exact Hw | exact Hcl].
Qed.

Lemma available_names_pop t c x rest :
  pool_of t c ≡ₚ x :: rest ->
  available_names c ≡ₚ pddl_name_of t x :: available_names (with_pool t c rest).
Proof.
  intros H. unfold available_names, all_movable_types.
  destruct t; simpl in *; rewrite H; simpl; rewrite ?app_nil_r;
    repeat (rewrite <- Permutation_middle); reflexivity.
Qed.

Lemma used_names_alloc w it :
  (forall i, i ∈ movable_items w -> i < length (movables w)) ->
  used_names (with_movable_items (with_movables w (movables w ++ [it]))
                (movable_items w ++ [length (movables w)]))
  = used_names w ++ [m_pddl_name it].
Proof.
  intros Hlt. unfold used_names, movable_name. simpl. rewrite map_app. simpl. f_equal.
  - apply map_ext_in. intros i Hi. apply list_elem_of_In in Hi.
    rewrite lookup_app_l by (apply Hlt, Hi). reflexivity.
  - rewrite list_lookup_middle by reflexivity. reflexivity.
Qed.

(** The names in use together with the names still available are the names
    that were available when generation began. *)
Lemma generate_movables_loop_names t L fuel : forall count s u s',
  (forall i, i ∈ movable_items (world s) -> i < length (movables (world s))) ->
  used_names (world s) ++ available_names (classes s) ≡ₚ L ->
  generate_movables_loop fuel count t s = Ok (u, s') ->
  (forall i, i ∈ movable_items (world s') -> i < length (movables (world s')))
  /\ used_names (world s') ++ available_names (classes s') ≡ₚ L.
Proof.
  induction fuel as [|fuel IH]; intros count s u s' Hlt HL H; simpl in H; [discriminate|].
  apply bind_Ok in H. destruct H as (g & s1 & Hg & H).
  unfold get_globals in Hg. inversion Hg; subst g s1. clear Hg.
  destruct (decide (count * length (movable_types (globals s)) < MAX_ITEMS)).
  2: { unfold ret in H. inversion H; subst. auto. }
  apply bind_Ok in H. destruct H as (o & s1 & Hgen & H).
  apply movable_generate_instance_names in Hgen.
  destruct o as [a|].
  - destruct Hgen as (x & rest & Hpool & Hcl & -> & Hw).
    apply bind_Ok in H. destruct H as (w & s2 & Hgw & H).
    unfold get_world in Hgw. inversion Hgw; subst w s2. clear Hgw.
    apply bind_Ok in H. destruct H as (u' & s2 & Hput & H).
    unfold put_world in Hput. inversion Hput; subst u' s2. clear Hput.
    apply IH in H; [exact H | |]; simpl; rewrite Hw; simpl.
    + intros i Hi. rewrite length_app. simpl. apply elem_of_app in Hi.
      destruct Hi as [Hi|Hi]; [apply Hlt in Hi; lia|].
      apply list_elem_of_singleton in Hi. lia.
    + change (used_names (with_movable_items
                            (with_movables (world s) (movables (world s) ++ [new_movable t x]))
                            (movable_items (world s) ++ [length (movables (world s))]))
                ++ available_names (classes s1) ≡ₚ L).
      rewrite (used_names_alloc _ _ Hlt), Hcl, <- HL.
      rewrite (available_names_pop t (classes s) x rest Hpool).
      rewrite <- app_assoc. simpl. reflexivity.
  - destruct Hgen as (Hw & Hcl). unfold ret in H. inversion H; subst.
    rewrite Hw, Hcl. auto.
Qed.

Lemma generate_movables_names L types : forall s u s',
  (forall i, i ∈ movable_items (world s) -> i < length (movables (world s))) ->
  used_names (world s) ++ available_names (classes s) ≡ₚ L ->
  generate_movables types s = Ok (u, s') ->
  (forall i, i ∈ movable_items (world s') -> i < length (movables (world s')))
  /\ used_names (world s') ++ available_names (classes s') ≡ₚ L.
Proof.
  induction types as [|t types IH]; intros s u s' Hlt HL H.
  - simpl in H. unfold ret in H. inversion H; subst. auto.
  - rewrite generate_movables_cons in H. apply bind_Ok in H.
    destruct H as (u1 & s1 & Hloop & H).
    apply (generate_movables_loop_names _ L _ _ _ _ _ Hlt HL) in Hloop.
    destruct Hloop as (Hlt1 & HL1). exact (IH _ _ _ Hlt1 HL1 H).
Qed.

Lemma DatasetGenerator_init_movables_names s u s1 :
  DatasetGenerator_init_movables s = Ok (u, s1) ->
  used_names (world s1) ++ available_names (classes s1) ≡ₚ available_names (classes s).
Proof.
  unfold DatasetGenerator_init_movables. intros H.
  apply bind_Ok in H. destruct H as (w & s0 & Hgw & H).
  unfold get_world in Hgw. inversion Hgw; subst w s0. clear Hgw.
  apply bind_Ok in H. destruct H as (u' & s2 & Hput & H).
  unfold put_world in Hput. inversion Hput; subst u' s2. clear Hput.
  apply bind_Ok in H. destruct H as (g & s2 & Hg & H).
  unfold get_globals in Hg. inversion Hg; subst g s2. clear Hg.
  apply (generate_movables_names (available_names (classes s))) in H.
  - apply H.
  - simpl. intros i Hi. inversion Hi.
  - reflexivity.
Qed.

(** Placing items renames none. *)
Lemma placed_into_names x c chosen before after i :
  placed_into x c chosen before after ->
  m_pddl_name <$> after !! i = m_pddl_name <$> before !! i.
Proof.
  intros (_ & Hin & Hout). destruct (decide (i ∈ chosen)) as [Hi|Hi].
  - destruct (Hin i Hi) as (it & it' & Hb & Ha & _ & _ & Hn & _).
    rewrite Ha, Hb. simpl. rewrite Hn. reflexivity.
  - rewrite (Hout i Hi). reflexivity.
Qed.

Lemma movable_name_lookup w w' i :
  m_pddl_name <$> movables w' !! i = m_pddl_name <$> movables w !! i ->
  movable_name w' i = movable_name w i.
Proof.
  unfold movable_name. destruct (movables w' !! i), (movables w !! i); simpl; congruence.
Qed.

Lemma stationary_generate_instance_names t parent items s a d items' s' pend :
  GInv (world s) items pend parent ->
  stationary_generate_instance t parent items 2 s = Ok ((a, d, items'), s') ->
  forall i, movable_name (world s') i = movable_name (world s) i.
Proof.
  intros HG H.
  assert (Hcon : Container_generate_instance t parent items 2 s = Ok ((a, d, items'), s') ->
            forall i, movable_name (world s') i = movable_name (world s) i).
  { intros Hc i. apply Container_generate_instance_spec in Hc; [|exact (g_rem_nodup _ _ _ _ HG)].
    destruct Hc as (x & chosen & ms' & _ & Hw & _ & _ & _ & _ & _ & _ & _ & _ & Hpl).
    apply movable_name_lookup. rewrite Hw. simpl.
    exact (placed_into_names _ _ _ _ _ i Hpl). }
  assert (Halloc : forall x s1, world s1 = world s ->
            alloc_stationary x s1 = Ok (a, s') ->
            forall i, movable_name (world s') i = movable_name (world s) i).
  { intros x s1 Hw Ha i. apply alloc_stationary_inv in Ha. destruct Ha as [-> ->].
    unfold movable_name. simpl. rewrite Hw. reflexivity. }
  unfold stationary_generate_instance in H. destruct t; auto; inv_M.
  - match goal with Hc : coin _ = Ok _ |- _ => apply coin_inv in Hc; destruct Hc as [_ ->] end.
    eapply Halloc; try eassumption; reflexivity.
  - match goal with Hc : coin _ = Ok _ |- _ => apply coin_inv in Hc; destruct Hc as [_ ->] end.
    eapply Halloc; try eassumption; reflexivity.
  - match goal with Hc : coin _ = Ok _ |- _ => apply coin_inv in Hc; destruct Hc as [_ ->] end.
    match goal with Hc : random_choice _ _ = Ok _ |- _ =>
      apply random_choice_inv in Hc; destruct Hc as [_ ->] end.
    eapply Halloc; try eassumption; reflexivity.
Qed.

Lemma generate_stationaries_names parent types : forall items s its descs items' s' pend,
  GInv (world s) items pend parent ->
  generate_stationaries parent types items s = Ok ((its, descs, items'), s') ->
  forall i, movable_name (world s') i = movable_name (world s) i.
Proof.
  induction types as [|t types IH]; intros items s its descs items' s' pend HG H i;
    simpl in H.
  - unfold ret in H. inversion H; subst. reflexivity.
  - destruct (room_can_hold (room_class parent) t); simpl in H.
    2: { exact (IH _ _ _ _ _ _ _ HG H i). }
    apply bind_Ok in H. destruct H as ([[a d] items1] & s1 & Hone & H).
    apply bind_Ok in H. destruct H as ([[its1 descs1] items2] & s2 & Hrest & H).
    unfold ret in H. inversion H; subst. clear H.
    pose proof (stationary_generate_instance_names _ _ _ _ _ _ _ _ _ HG Hone i) as H1.
    apply (stationary_generate_instance_GInv _ _ _ _ _ _ _ _ _ HG) in Hone.
    destruct Hone as (HG1 & _).
    rewrite (IH _ _ _ _ _ _ _ HG1 Hrest i). exact H1.
Qed.

(** Generating a room touches the pools of none of the movable classes. *)
Lemma Room_generate_empty_pools t s r s' :
  Room_generate_empty t s = Ok (r, s') ->
  forall t', pool_of t' (classes s') = pool_of t' (classes s).
Proof.
  unfold Room_generate_empty. intros H. apply bind_Ok in H.
  destruct H as (c & s1 & Hc & H). unfold get_classes in Hc. inversion Hc; subst c s1.
  clear Hc. destruct t.
  - destruct (Kitchen_generated (classes s)) eqn:Hk; inv_M; intros []; reflexivity.
  - destruct (LivingRoom_generated (classes s)) eqn:Hk; inv_M; intros []; reflexivity.
  - apply bind_Ok in H. destruct H as (r0 & s2 & Hr & H).
    apply pop_random_inv in Hr as Hr'. destruct Hr' as (_ & (_ & Hcl & _)).
    destruct r0 as [[name rest]|]; inv_M; intros t'.
    + destruct t'; reflexivity.
    + rewrite Hcl. reflexivity.
Qed.

Lemma available_names_pools c c' :
  (forall t, pool_of t c' = pool_of t c) -> available_names c' = available_names c.
Proof.
  intros H. unfold available_names. f_equal. apply map_ext. intros t.
  rewrite H. reflexivity.
Qed.

Lemma Room_generate_with_description_names t items s res items' s' parent0 :
  GInv (world s) items [] parent0 ->
  Room_generate_with_description t items s = Ok ((res, items'), s') ->
  (forall i, movable_name (world s') i = movable_name (world s) i)
  /\ forall t', pool_of t' (classes s') = pool_of t' (classes s).
Proof.
  intros HG H. unfold Room_generate_with_description in H.
  apply bind_Ok in H. destruct H as (r & s1 & Hr & H).
  pose proof (Room_generate_empty_pools _ _ _ _ Hr) as Hpools.
  apply Room_generate_empty_inv in Hr. destruct Hr as (Hw1 & He1).
  destruct r as [parent|].
  2: { unfold ret in H. inversion H; subst. split; [intros i; rewrite Hw1; reflexivity|].
       exact Hpools. }
  apply bind_Ok in H. destruct H as (g & s2 & Hg & H).
  unfold get_globals in Hg. inversion Hg; subst g s2. clear Hg.
  apply bind_Ok in H. destruct H as ([[its descs] items1] & s2 & Hgen & H).
  assert (HG1 : GInv (world s1) items [] parent).
  { rewrite Hw1. destruct HG. split; auto. intros a Ha. inversion Ha. }
  pose proof (generate_stationaries_names _ _ _ _ _ _ _ _ _ HG1 Hgen) as Hnames.
  apply (generate_stationaries_GInv _ _ _ _ _ _ _ _ [] HG1) in Hgen.
  destruct Hgen as (_ & (_ & Hc2 & _) & _).
  apply bind_Ok in H. destruct H as (its' & s3 & Hsh & H).
  apply shuffle_inv in Hsh. destruct Hsh as (_ & Hw3 & (_ & Hc3 & _)).
  apply bind_Ok in H. destruct H as (descs' & s4 & Hsh2 & H).
  apply shuffle_inv in Hsh2. destruct Hsh2 as (_ & Hw4 & (_ & Hc4 & _)).
  apply bind_Ok in H. destruct H as (rd & s5 & Hd & H).
  apply room_description_from_inv in Hd. subst s5.
  unfold ret in H. inversion H; subst. clear H.
  split.
  - intros i. rewrite Hw4, Hw3, Hnames, Hw1. reflexivity.
  - intros t'. rewrite Hc4, Hc3, Hc2. apply Hpools.
Qed.

Lemma generate_rooms_names types remaining s rem' s' parent0 :
  GInv (world s) remaining [] parent0 ->
  generate_rooms types remaining s = Ok (rem', s') ->
  (forall i, movable_name (world s') i = movable_name (world s) i)
  /\ forall t', pool_of t' (classes s') = pool_of t' (classes s).
Proof.
  intros HG H.
  refine (generate_rooms_keeps
            (fun s1 => (forall i, movable_name (world s1) i = movable_name (world s) i)
                       /\ forall t', pool_of t' (classes s1) = pool_of t' (classes s))
            types _ remaining s rem' s' parent0 HG _ H); [|split; reflexivity].
  intros t _ s1 items res items' s2 parent1 HG1 (Hn & Hp) Hroom.
  destruct (Room_generate_with_description_names _ _ _ _ _ _ _ HG1 Hroom) as (Hn2 & Hp2).
  destruct res as [[room rd]|].
  - intros d. split.
    + intros i. rewrite <- Hn, <- Hn2. reflexivity.
    + intros t'. simpl. rewrite Hp2. apply Hp.
  - split.
    + intros i. rewrite Hn2. apply Hn.
    + intros t'. rewrite Hp2. apply Hp.
Qed.

Lemma DatasetGenerator_init_names s0 u s :
  DatasetGenerator_init s0 = Ok (u, s) ->
  used_names (world s) ++ available_names (classes s) ⊆+ available_names (classes s0).
Proof.
  intros Hinit. destruct (DatasetGenerator_init_split _ _ _ Hinit) as (s1 & H1 & H2).
  pose proof (DatasetGenerator_init_movables_names _ _ _ H1) as Hcons.
  pose proof (proj1 (DatasetGenerator_init_movables_spec _ _ _ H1)) as HM.
  destruct (DatasetGenerator_init_rooms_spec _ _ _ HM H2) as (_ & _ & Hnd & Hsub & _).
  destruct (DatasetGenerator_init_rooms_split _ _ _ H2)
    as (rem & s2 & Hgen & _ & Hcl & _ & _ & Hmov).
  destruct (generate_rooms_names _ _ _ _ _ the_kitchen (MInv_GInv _ _ HM) Hgen)
    as (Hnames & Hpools).
  rewrite <- Hcons. rewrite Hcl, (available_names_pools _ _ Hpools).
  apply submseteq_skips_r. unfold used_names.
  rewrite (map_ext (movable_name (world s)) (movable_name (world s1))).
  2: { intros i. rewrite <- Hnames. unfold movable_name. rewrite Hmov. reflexivity. }
  apply (fmap_submseteq (movable_name (world s1))).
  apply NoDup_submseteq; [exact Hnd | exact Hsub].
Qed.

(** An action renames no item. *)
Lemma one_action_names w w' i : one_action w w' -> movable_name w' i = movable_name w i.
Proof.
  assert (Hmov : forall (l : list MovableItem) j it it',
            l !! j = Some it -> m_pddl_name it' = m_pddl_name it ->
            m_pddl_name <$> <[j:=it']> l !! i = m_pddl_name <$> l !! i).
  { intros l j it it' Hit Heq. destruct (decide (j = i)) as [<-|Hne].
    - rewrite list_lookup_insert_eq by (eapply lookup_lt_Some; exact Hit).
      rewrite Hit. simpl. rewrite Heq. reflexivity.
    - rewrite list_lookup_insert_ne by exact Hne. reflexivity. }
  intros [(r & b & _ & _ & H) | (j & _ & H)]; inversion H; subst;
    apply movable_name_lookup; simpl; try reflexivity;
    (eapply Hmov; [eassumption | reflexivity]).
Qed.

(** The names in use and the names left, at every timestep. *)
Lemma reachable_names s0 s :
  reachable s0 s ->
  used_names (world s) ++ available_names (classes s) ⊆+ available_names (classes s0).
Proof.
  induction 1 as [u s Hinit | s fuel n s' Hreach IH Hstep].
  - exact (DatasetGenerator_init_names _ _ _ Hinit).
  - apply generate_state_change_spec in Hstep. destruct Hstep as ((_ & Hcl & _) & Hact).
    destruct (one_action_pools _ _ Hact) as (_ & Hp).
    rewrite Hcl. unfold used_names. rewrite Hp.
    rewrite (map_ext (movable_name (world s')) (movable_name (world s)))
      by (intros i; apply one_action_names; exact Hact).
    exact IH.
Qed.

(** X17. Every name of the pools of the movable classes is used at most once:
    at every timestep of a generated world the names of the items of the
    pool, together with the names the class pools can still give, are among
    the names that the class pools could give before [__init__], counted with
    multiplicity. So when these are pairwise distinct, no two items of the
    world share a name. *)
Theorem X17_names_used_once s0 s :
  reachable s0 s ->
  used_names (world s) ++ available_names (classes s) ⊆+ available_names (classes s0)
  /\ (NoDup (available_names (classes s0)) -> names_distinct (world s)).
Proof.
  intros Hr. pose proof (reachable_names _ _ Hr) as Hsub.
  split; [exact Hsub|].
  intros Hnd. unfold names_distinct.
  apply submseteq_Permutation in Hsub. destruct Hsub as (k & Hk).
  rewrite Hk in Hnd. apply NoDup_app in Hnd. destruct Hnd as (Hnd & _).
  apply NoDup_app in Hnd. apply Hnd.
Qed.

Lemma X17_names_used_once_witness :
  used_names (world sample_ringing) ++ available_names (classes sample_ringing)
    ⊆+ available_names (classes sample_initial)
  /\ (NoDup (available_names (classes sample_initial)) ->
      names_distinct (world sample_ringing)).
Proof. exact (X17_names_used_once sample_initial sample_ringing sample_ringing_reachable). Defined.

(** ** Rooms are named once *)

(** What the generation of the movable items leaves alone in the classes. *)
Section MovableLoops.
Context {A : Type} (f : Classes -> A).
Hypothesis f_pool : forall t c l, f (with_pool t c l) = f c.

Lemma generate_movables_loop_classes t fuel : forall count s u s',
  generate_movables_loop fuel count t s = Ok (u, s') -> f (classes s') = f (classes s).
Proof.
  induction fuel as [|fuel IH]; intros count s u s' H; simpl in H; [discriminate|].
  apply bind_Ok in H. destruct H as (g & s1 & Hg & H).
  unfold get_globals in Hg. inversion Hg; subst g s1. clear Hg.
  destruct (decide (count * length (movable_types (globals s)) < MAX_ITEMS)).
  2: { unfold ret in H. inversion H; subst. reflexivity. }
  apply bind_Ok in H. destruct H as (item & s1 & Hitem & H).
  apply movable_generate_instance_names in Hitem.
  destruct item as [a|].
  - destruct Hitem as (x & rest & _ & Hcl & _ & _).
    apply bind_Ok in H. destruct H as (w & s2 & Hw & H).
    unfold get_world in Hw. inversion Hw; subst w s2. clear Hw.
    apply bind_Ok in H. destruct H as (u1 & s2 & Hput & H).
    unfold put_world in Hput. inversion Hput; subst u1 s2. clear Hput.
    apply IH in H. rewrite H. simpl. rewrite Hcl. apply f_pool.
  - destruct Hitem as (_ & Hcl). unfold ret in H. inversion H; subst.
    rewrite Hcl. reflexivity.
Qed.

Lemma generate_movables_classes types : forall s u s',
  generate_movables types s = Ok (u, s') -> f (classes s') = f (classes s).
Proof.
  induction types as [|t types IH]; intros s u s' H.
  - simpl in H. unfold ret in H. inversion H; subst. reflexivity.
  - rewrite generate_movables_cons in H. apply bind_Ok in H.
    destruct H as (u1 & s1 & Hloop & H).
    apply generate_movables_loop_classes in Hloop. apply IH in H. congruence.
Qed.

Lemma DatasetGenerator_init_movables_classes s u s1 :
  DatasetGenerator_init_movables s = Ok (u, s1) -> f (classes s1) = f (classes s).
Proof.
  unfold DatasetGenerator_init_movables. intros H. inv_M.
  match goal with Hg : generate_movables _ _ = Ok _ |- _ =>
    apply generate_movables_classes in Hg; rewrite Hg end.
  reflexivity.
Qed.
End MovableLoops.

Lemma Room_generate_empty_room_names t s r s' :
  Room_generate_empty t s = Ok (r, s') ->
  match r with
  | None => available_room_names (classes s') = available_room_names (classes s)
  | Some parent =>
      room_class parent = t
      /\ available_room_names (classes s)
         ≡ₚ room_pddl_name parent :: available_room_names (classes s')
  end.
Proof.
  unfold Room_generate_empty. intros H. apply bind_Ok in H.
  destruct H as (c & s1 & Hc & H). unfold get_classes in Hc. inversion Hc; subst c s1.
  clear Hc. destruct t.
  - destruct (Kitchen_generated (classes s)) eqn:Hk; inv_M; [reflexivity|].
    unfold available_room_names. simpl. rewrite Hk. split; reflexivity.
  - destruct (LivingRoom_generated (classes s)) eqn:Hk; inv_M; [reflexivity|].
    unfold available_room_names. simpl. rewrite Hk. split; [reflexivity|].
    simpl. rewrite <- Permutation_middle. reflexivity.
  - apply bind_Ok in H. destruct H as (r0 & s2 & Hr & H).
    apply pop_random_inv in Hr as Hr'. destruct Hr' as (_ & (_ & Hcl & _)).
    destruct r0 as [[name rest]|]; inv_M.
    + apply pop_random_Some in Hr. unfold available_room_names. simpl.
      split; [reflexivity|]. rewrite Hr. simpl.
      rewrite <- !Permutation_middle. reflexivity.
    + rewrite Hcl. reflexivity.
Qed.

Lemma Room_generate_with_description_room_names t items s res items' s' parent0 :
  GInv (world s) items [] parent0 ->
  Room_generate_with_description t items s = Ok ((res, items'), s') ->
  match res with
  | None => available_room_names (classes s') = available_room_names (classes s)
  | Some (room, _) =>
      r_class room = t
      /\ available_room_names (classes s)
         ≡ₚ r_pddl_name room :: available_room_names (classes s')
  end.
Proof.
  intros HG H. unfold Room_generate_with_description in H.
  apply bind_Ok in H. destruct H as (r & s1 & Hr & H).
  pose proof (Room_generate_empty_room_names _ _ _ _ Hr) as Hnames.
  apply Room_generate_empty_inv in Hr. destruct Hr as (Hw1 & He1).
  destruct r as [parent|].
  2: { unfold ret in H. inversion H; subst. exact Hnames. }
  apply bind_Ok in H. destruct H as (g & s2 & Hg & H).
  unfold get_globals in Hg. inversion Hg; subst g s2. clear Hg.
  apply bind_Ok in H. destruct H as ([[its descs] items1] & s2 & Hgen & H).
  assert (HG1 : GInv (world s1) items [] parent).
  { rewrite Hw1. destruct HG. split; auto. intros a Ha. inversion Ha. }
  apply (generate_stationaries_GInv _ _ _ _ _ _ _ _ [] HG1) in Hgen.
  destruct Hgen as (_ & (_ & Hc2 & _) & _).
  apply bind_Ok in H. destruct H as (its' & s3 & Hsh & H).
  apply shuffle_inv in Hsh. destruct Hsh as (_ & _ & (_ & Hc3 & _)).
  apply bind_Ok in H. destruct H as (descs' & s4 & Hsh2 & H).
  apply shuffle_inv in Hsh2. destruct Hsh2 as (_ & _ & (_ & Hc4 & _)).
  apply bind_Ok in H. destruct H as (rd & s5 & Hd & H).
  apply room_description_from_inv in Hd. subst s5.
  unfold ret in H. inversion H; subst. clear H. simpl.
  rewrite Hc4, Hc3, Hc2. exact Hnames.
Qed.

Lemma generate_rooms_room_names L types remaining s rem' s' parent0 :
  GInv (world s) remaining [] parent0 ->
  room_names (world s) ++ available_room_names (classes s) ≡ₚ L ->
  generate_rooms types remaining s = Ok (rem', s') ->
  room_names (world s') ++ available_room_names (classes s') ≡ₚ L.
Proof.
  intros HG HL H.
  refine (generate_rooms_keeps
            (fun s1 => room_names (world s1) ++ available_room_names (classes s1) ≡ₚ L)
            types _ remaining s rem' s' parent0 HG HL H).
  intros t _ s1 items res items' s2 parent1 HG1 HP Hroom.
  pose proof (Room_generate_with_description_room_names _ _ _ _ _ _ _ HG1 Hroom) as Hn.
  apply (Room_generate_with_description_spec _ _ _ _ _ _ _ HG1) in Hroom.
  destruct Hroom as (_ & Hres). destruct res as [[room rd]|].
  - destruct Hres as (_ & Hrooms & _). destruct Hn as (_ & Hn). intros d.
    unfold room_names in *. simpl. rewrite Hrooms, map_app. simpl.
    rewrite <- HP, Hn, <- app_assoc. simpl. reflexivity.
  - destruct Hres as (_ & Hw). rewrite Hn. unfold room_names. rewrite Hw. exact HP.
Qed.

(** The names of the rooms and the names left, at every timestep. *)
Lemma reachable_room_names s0 s :
  reachable s0 s ->
  room_names (world s) ++ available_room_names (classes s)
    ≡ₚ available_room_names (classes s0).
Proof.
  induction 1 as [u s Hinit | s fuel n s' Hreach IH Hstep].
  - destruct (DatasetGenerator_init_split _ _ _ Hinit) as (s1 & H1 & H2).
    pose proof (proj1 (DatasetGenerator_init_movables_spec _ _ _ H1)) as HM.
    pose proof (DatasetGenerator_init_movables_classes available_room_names
                  (fun t c l => eq_refl) _ _ _ H1) as Hc1.
    destruct (DatasetGenerator_init_rooms_split _ _ _ H2)
      as (rem & s2 & Hgen & Hrooms & Hcl & _).
    apply (generate_rooms_room_names (available_room_names (classes s0)) _ _ _ _ _
             the_kitchen (MInv_GInv _ _ HM)) in Hgen.
    + unfold room_names in *. rewrite Hrooms, Hcl. exact Hgen.
    + unfold room_names. rewrite (mi_rooms _ HM), Hc1. reflexivity.
  - apply generate_state_change_spec in Hstep. destruct Hstep as ((_ & Hcl & _) & Hact).
    destruct (one_action_pools _ _ Hact) as (Hp & _).
    unfold room_names in *. rewrite Hcl, Hp. exact IH.
Qed.

(** X18. Every room of a generated world takes its name from its class, and the
    class gives each name once: at every timestep the names of the rooms
    together with the names the room classes can still give are the names
    they could give before [__init__]. So when these are pairwise distinct,
    no two rooms share a name. *)
Theorem X18_room_names_used_once s0 s :
  reachable s0 s ->
  room_names (world s) ++ available_room_names (classes s)
    ≡ₚ available_room_names (classes s0)
  /\ (NoDup (available_room_names (classes s0)) -> NoDup (room_names (world s))).
Proof.
  intros Hr. pose proof (reachable_room_names _ _ Hr) as Hperm.
  split; [exact Hperm|].
  intros Hnd. rewrite <- Hperm in Hnd. apply NoDup_app in Hnd. apply Hnd.
Qed.

Lemma X18_room_names_used_once_witness :
  room_names (world sample_ringing) ++ available_room_names (classes sample_ringing)
    ≡ₚ available_room_names (classes sample_initial)
  /\ (NoDup (available_room_names (classes sample_initial)) ->
      NoDup (room_names (world sample_ringing))).
Proof.
  exact (X18_room_names_used_once sample_initial sample_ringing sample_ringing_reachable).
Defined.
(** ** Names are single symbols *)

Lemma lower_char_space c :
  Ascii.eqb (Py.lower_char c) " " = Ascii.eqb c " ".
Proof. destruct c as [[] [] [] [] [] [] [] []]; reflexivity. Qed.

Lemma alnum_not_space c : Py.is_alnum c = true -> Ascii.eqb (Py.lower_char c) " " = false.
Proof. destruct c as [[] [] [] [] [] [] [] []]; try reflexivity; discriminate. Qed.

Lemma lower_no_space s : no_space (Py.lower s) = no_space s.
Proof.
  induction s as [|c s IH]; [reflexivity|]. simpl. rewrite lower_char_space, IH. reflexivity.
Qed.

Lemma re_sub_no_space s : forall b, no_space (Py.lower (Py.re_sub_run b s)) = true.
Proof.
  induction s as [|c s IH]; intros b; [reflexivity|]. simpl.
  destruct (Py.is_alnum c) eqn:Hc.
  - simpl. rewrite (alnum_not_space _ Hc), IH. reflexivity.
  - destruct b; [apply IH|]. simpl. rewrite IH. reflexivity.
Qed.

(** The names that the constructors build. *)
Lemma pddl_name_of_no_space t x :
  no_space (pddl_name_of t x)
  = match t with Pen | Phone => no_space x | _ => true end.
Proof.
  unfold pddl_name_of. destruct t; simpl; unfold Py.re_sub_non_alnum;
    rewrite ?no_space_app, ?re_sub_no_space, ?lower_no_space, ?andb_true_r; reflexivity.
Qed.

Lemma new_StationaryItem_no_space name parent st :
  no_space (s_pddl_name (new_StationaryItem name parent st))
  = no_space (room_pddl_name parent).
Proof.
  unfold new_StationaryItem, Py.re_sub_non_alnum. simpl.
  rewrite !no_space_app, re_sub_no_space, andb_true_r. reflexivity.
Qed.

Lemma well_named_no_space x :
  well_named x -> no_space (s_pddl_name x) = no_space (room_pddl_name (s_parent x)).
Proof.
  unfold well_named, Py.re_sub_non_alnum. intros ->.
  rewrite !no_space_app, re_sub_no_space, andb_true_r. reflexivity.
Qed.

(** X19. The constructors normalise names: the PDDL name of a book, a food or a
    kitchenware is one symbol whatever the entry of the pool, and the name of
    a stationary item is one symbol exactly when the name of its room is; a
    pen or a phone keeps the spaces of the colour or of the owner's name. *)
Theorem X19_names_normalised :
  (forall x, no_space (pddl_name_of Book x) = true
             /\ no_space (pddl_name_of Food x) = true
             /\ no_space (pddl_name_of Kitchenware x) = true)
  /\ (forall x, no_space (pddl_name_of Pen x) = no_space x
                /\ no_space (pddl_name_of Phone x) = no_space x)
  /\ (forall name parent st,
        no_space (s_pddl_name (new_StationaryItem name parent st))
        = no_space (room_pddl_name parent))
  /\ (forall x b, no_space (Py.lower (Py.re_sub_run b x)) = true).
Proof.
  split.
  { intros x. split; [exact (pddl_name_of_no_space Book x)|].
    split; [exact (pddl_name_of_no_space Food x) | exact (pddl_name_of_no_space Kitchenware x)]. }
  split.
  { intros x. split; [exact (pddl_name_of_no_space Pen x) | exact (pddl_name_of_no_space Phone x)]. }
  split; [apply new_StationaryItem_no_space|].
  intros x b. apply re_sub_no_space.
Qed.
(** ** The names of a generated world *)

Lemma generate_empty_named t parent s c s' :
  generate_empty t parent s = Ok (c, s') ->
  exists x, stationaries (world s') = stationaries (world s) ++ [x] /\ well_named x.
Proof.
  unfold generate_empty. intros H. destruct t; inv_M;
    try (match goal with Hc : randint _ _ _ = Ok _ |- _ =>
           apply randint_inv in Hc; destruct Hc as [_ ->] end);
    try (match goal with Hc : coin _ = Ok _ |- _ =>
           apply coin_inv in Hc; destruct Hc as [_ ->] end);
    apply alloc_stationary_inv in H; destruct H as [-> ->];
    (eexists; split; reflexivity).
Qed.

Lemma place_chosen_stationaries c chosen : forall s u s',
  place_chosen c chosen s = Ok (u, s') -> stationaries (world s') = stationaries (world s).
Proof.
  induction chosen as [|a chosen IH]; intros s u s' H; simpl in H.
  - unfold ret in H. inversion H; subst. reflexivity.
  - inv_M.
    match goal with Hc : generate_relative_location _ _ = Ok (?p, _) |- _ =>
      destruct p as [loc extra]; apply generate_relative_location_inv in Hc;
      destruct Hc as (_ & Hw & _) end.
    inv_M. apply IH in H. rewrite H. simpl. rewrite Hw. reflexivity.
Qed.

Lemma Container_generate_instance_named t parent items max_allowed s c d items' s' :
  Container_generate_instance t parent items max_allowed s = Ok ((c, d, items'), s') ->
  exists x, stationaries (world s') = stationaries (world s) ++ [x] /\ well_named x.
Proof.
  intros H. unfold Container_generate_instance in H.
  apply bind_Ok in H. destruct H as (h & s1 & Hh & H).
  apply holdables_of_inv in Hh. destruct Hh as (-> & _ & _).
  apply bind_Ok in H. destruct H as (h' & s2 & Hsh & H).
  apply shuffle_inv in Hsh. destruct Hsh as (_ & Hw2 & _).
  apply bind_Ok in H. destruct H as ([items1 chosen] & s3 & Hch & H).
  apply lift_Ok in Hch. destruct Hch as [_ ->].
  apply bind_Ok in H. destruct H as (c0 & s4 & Hge & H).
  apply generate_empty_named in Hge. destruct Hge as (x & Hst & Hx).
  apply bind_Ok in H. destruct H as (u & s5 & Hpl & H).
  apply place_chosen_stationaries in Hpl.
  apply bind_Ok in H. destruct H as (chosen' & s6 & Hsh2 & H).
  apply shuffle_inv in Hsh2. destruct Hsh2 as (_ & Hw6 & _).
  apply bind_Ok in H. destruct H as (cont & s7 & Hcont & H).
  apply get_stationary_inv in Hcont. destruct Hcont as [-> _].
  apply bind_Ok in H. destruct H as (ms & s8 & Hms & H).
  apply get_movables_inv in Hms. subst s8.
  apply bind_Ok in H. destruct H as (d0 & s9 & Hd & H).
  apply lift_Ok in Hd. destruct Hd as [_ ->].
  unfold ret in H. inversion H; subst. clear H.
  exists x. split; [|exact Hx]. rewrite Hw6, Hpl, Hst, Hw2. reflexivity.
Qed.

(** Every class builds an item named after its room. *)
Lemma stationary_generate_instance_named t parent items s a d items' s' pend :
  GInv (world s) items pend parent ->
  stationary_generate_instance t parent items 2 s = Ok ((a, d, items'), s') ->
  person (world s') = person (world s)
  /\ exists x, a = length (stationaries (world s))
               /\ stationaries (world s') = stationaries (world s) ++ [x]
               /\ well_named x.
Proof.
  intros HG H.
  assert (Hcon : Container_generate_instance t parent items 2 s = Ok ((a, d, items'), s') ->
            person (world s') = person (world s)
            /\ exists x, a = length (stationaries (world s))
                         /\ stationaries (world s') = stationaries (world s) ++ [x]
                         /\ well_named x).
  { intros Hc. destruct (Container_generate_instance_named _ _ _ _ _ _ _ _ _ Hc)
      as (x & Hst & Hx).
    apply Container_generate_instance_spec in Hc; [|exact (g_rem_nodup _ _ _ _ HG)].
    destruct Hc as (x' & chosen & ms' & -> & Hw & _).
    split; [rewrite Hw; reflexivity|]. exists x. auto. }
  assert (Halloc : forall x s1, world s1 = world s -> well_named x ->
            alloc_stationary x s1 = Ok (a, s') ->
            person (world s') = person (world s)
            /\ exists x, a = length (stationaries (world s))
                         /\ stationaries (world s') = stationaries (world s) ++ [x]
                         /\ well_named x).
  { intros x s1 Hw Hx Ha. apply alloc_stationary_inv in Ha. destruct Ha as [-> ->].
    simpl. rewrite Hw. split; [reflexivity|]. exists x. auto. }
  unfold stationary_generate_instance in H. destruct t; auto; inv_M.
  - match goal with Hc : coin _ = Ok _ |- _ => apply coin_inv in Hc; destruct Hc as [_ ->] end.
    eapply Halloc; try eassumption; reflexivity.
  - match goal with Hc : coin _ = Ok _ |- _ => apply coin_inv in Hc; destruct Hc as [_ ->] end.
    eapply Halloc; try eassumption; reflexivity.
  - match goal with Hc : coin _ = Ok _ |- _ => apply coin_inv in Hc; destruct Hc as [_ ->] end.
    match goal with Hc : random_choice _ _ = Ok _ |- _ =>
      apply random_choice_inv in Hc; destruct Hc as [_ ->] end.
    eapply Halloc; try eassumption; reflexivity.
Qed.

Lemma generate_stationaries_named parent types : forall items s its descs items' s' pend,
  GInv (world s) items pend parent ->
  generate_stationaries parent types items s = Ok ((its, descs, items'), s') ->
  person (world s') = person (world s)
  /\ grows (world s) (world s')
  /\ forall a, a ∈ its -> exists x, stationaries (world s') !! a = Some x /\ well_named x.
Proof.
  induction types as [|t types IH]; intros items s its descs items' s' pend HG H;
    simpl in H.
  - unfold ret in H. inversion H; subst.
    split; [reflexivity|]. split; [apply grows_refl|]. intros a Ha. inversion Ha.
  - destruct (room_can_hold (room_class parent) t); simpl in H.
    2: { exact (IH _ _ _ _ _ _ _ HG H). }
    apply bind_Ok in H. destruct H as ([[a d] items1] & s1 & Hone & H).
    apply bind_Ok in H. destruct H as ([[its1 descs1] items2] & s2 & Hrest & H).
    unfold ret in H. inversion H; subst. clear H.
    destruct (stationary_generate_instance_named _ _ _ _ _ _ _ _ _ HG Hone)
      as (Hp1 & x & Ha & Hst & Hx).
    apply (stationary_generate_instance_GInv _ _ _ _ _ _ _ _ _ HG) in Hone.
    destruct Hone as (HG1 & _).
    destruct (IH _ _ _ _ _ _ _ HG1 Hrest) as (Hp2 & (new & Hgr) & Hall).
    split; [congruence|]. split.
    { exists ([x] ++ new). rewrite Hgr, Hst, <- app_assoc. reflexivity. }
    intros b Hb. apply elem_of_cons in Hb. destruct Hb as [-> | Hb]; [|exact (Hall b Hb)].
    exists x. split; [|exact Hx]. rewrite Hgr, Hst, Ha.
    apply lookup_app_l_Some. apply list_lookup_middle. reflexivity.
Qed.

Lemma Room_generate_with_description_named t items s res items' s' parent0 :
  GInv (world s) items [] parent0 ->
  Room_generate_with_description t items s = Ok ((res, items'), s') ->
  person (world s') = person (world s)
  /\ grows (world s) (world s')
  /\ match res with
     | None => True
     | Some (room, _) =>
         forall a, a ∈ r_items room ->
           exists x, stationaries (world s') !! a = Some x /\ well_named x
     end.
Proof.
  intros HG H. unfold Room_generate_with_description in H.
  apply bind_Ok in H. destruct H as (r & s1 & Hr & H).
  apply Room_generate_empty_inv in Hr. destruct Hr as (Hw1 & He1).
  destruct r as [parent|].
  2: { unfold ret in H. inversion H; subst. rewrite Hw1.
       split; [reflexivity|]. split; [apply grows_refl | exact I]. }
  apply bind_Ok in H. destruct H as (g & s2 & Hg & H).
  unfold get_globals in Hg. inversion Hg; subst g s2. clear Hg.
  apply bind_Ok in H. destruct H as ([[its descs] items1] & s2 & Hgen & H).
  assert (HG1 : GInv (world s1) items [] parent).
  { rewrite Hw1. destruct HG. split; auto. intros a Ha. inversion Ha. }
  destruct (generate_stationaries_named _ _ _ _ _ _ _ _ _ HG1 Hgen) as (Hp & Hgr & Hall).
  apply bind_Ok in H. destruct H as (its' & s3 & Hsh & H).
  apply shuffle_inv in Hsh. destruct Hsh as (Hperm & Hw3 & _).
  apply bind_Ok in H. destruct H as (descs' & s4 & Hsh2 & H).
  apply shuffle_inv in Hsh2. destruct Hsh2 as (_ & Hw4 & _).
  apply bind_Ok in H. destruct H as (rd & s5 & Hd & H).
  apply room_description_from_inv in Hd. subst s5.
  unfold ret in H. inversion H; subst. clear H. simpl.
  rewrite Hw4, Hw3. rewrite <- Hw1.
  split; [exact Hp|]. split; [exact Hgr|].
  intros a Ha. rewrite Hperm in Ha. exact (Hall a Ha).
Qed.

Lemma rooms_well_named_grows w w' :
  grows w w' -> rooms w' = rooms w -> rooms_well_named w -> rooms_well_named w'.
Proof.
  intros (new & Hgr) Hrooms H r a Hr Ha. rewrite Hrooms in Hr.
  destruct (H r a Hr Ha) as (x & Hx & Hn). exists x. split; [|exact Hn].
  rewrite Hgr. apply lookup_app_l_Some. exact Hx.
Qed.

Lemma generate_rooms_named types remaining s rem' s' parent0 :
  GInv (world s) remaining [] parent0 -> rooms_well_named (world s) ->
  generate_rooms types remaining s = Ok (rem', s') ->
  person (world s') = person (world s) /\ rooms_well_named (world s').
Proof.
  intros HG HW H.
  refine (generate_rooms_keeps
            (fun s1 => person (world s1) = person (world s) /\ rooms_well_named (world s1))
            types _ remaining s rem' s' parent0 HG (conj eq_refl HW) H).
  intros t _ s1 items res items' s2 parent1 HG1 (Hp & Hn) Hroom.
  destruct (Room_generate_with_description_named _ _ _ _ _ _ _ HG1 Hroom)
    as (Hp2 & Hgr & Hnew).
  apply (Room_generate_with_description_spec _ _ _ _ _ _ _ HG1) in Hroom.
  destruct Hroom as (_ & Hres). destruct res as [[room rd]|].
  - destruct Hres as (_ & Hrooms & _). intros d. split; [simpl; congruence|].
    intros r a Hr Ha. simpl in Hr. apply elem_of_app in Hr. destruct Hr as [Hr | Hr].
    + apply (rooms_well_named_grows _ _ Hgr Hrooms Hn r a); [|exact Ha].
      exact Hr.
    + apply list_elem_of_singleton in Hr. subst r. exact (Hnew a Ha).
  - destruct Hres as (_ & Hw). split; [congruence|]. rewrite Hw. exact Hn.
Qed.

(** The person is built once, with the name [me]. *)
Lemma generate_movables_loop_person t fuel : forall count s u s',
  generate_movables_loop fuel count t s = Ok (u, s') ->
  person (world s') = person (world s).
Proof.
  induction fuel as [|fuel IH]; intros count s u s' H; simpl in H; [discriminate|].
  apply bind_Ok in H. destruct H as (g & s1 & Hg & H).
  unfold get_globals in Hg. inversion Hg; subst g s1. clear Hg.
  destruct (decide (count * length (movable_types (globals s)) < MAX_ITEMS)).
  2: { unfold ret in H. inversion H; subst. reflexivity. }
  apply bind_Ok in H. destruct H as (item & s1 & Hitem & H).
  apply movable_generate_instance_names in Hitem.
  destruct item as [a|].
  - destruct Hitem as (x & rest & _ & _ & _ & Hw).
    apply bind_Ok in H. destruct H as (w & s2 & Hgw & H).
    unfold get_world in Hgw. inversion Hgw; subst w s2. clear Hgw.
    apply bind_Ok in H. destruct H as (u1 & s2 & Hput & H).
    unfold put_world in Hput. inversion Hput; subst u1 s2. clear Hput.
    apply IH in H. rewrite H. simpl. rewrite Hw. reflexivity.
  - destruct Hitem as (Hw & _). unfold ret in H. inversion H; subst.
    rewrite Hw. reflexivity.
Qed.

Lemma generate_movables_person types : forall s u s',
  generate_movables types s = Ok (u, s') -> person (world s') = person (world s).
Proof.
  induction types as [|t types IH]; intros s u s' H.
  - simpl in H. unfold ret in H. inversion H; subst. reflexivity.
  - rewrite generate_movables_cons in H. apply bind_Ok in H.
    destruct H as (u1 & s1 & Hloop & H).
    apply generate_movables_loop_person in Hloop. apply IH in H. congruence.
Qed.

Lemma DatasetGenerator_init_movables_person s u s1 :
  DatasetGenerator_init_movables s = Ok (u, s1) -> p_pddl_name (person (world s1)) = "me".
Proof.
  unfold DatasetGenerator_init_movables. intros H. inv_M.
  match goal with Hg : generate_movables _ _ = Ok _ |- _ =>
    apply generate_movables_person in Hg; rewrite Hg end.
  reflexivity.
Qed.

Lemma DatasetGenerator_init_rooms_named s1 u s' :
  MInv (world s1) -> DatasetGenerator_init_rooms s1 = Ok (u, s') ->
  person (world s') = person (world s1) /\ rooms_well_named (world s').
Proof.
  intros HM H. unfold DatasetGenerator_init_rooms in H.
  apply bind_Ok in H. destruct H as (g & s0 & Hg & H).
  unfold get_globals in Hg. inversion Hg; subst g s0. clear Hg.
  apply bind_Ok in H. destruct H as (w & s0 & Hgw & H).
  unfold get_world in Hgw. inversion Hgw; subst w s0. clear Hgw.
  apply bind_Ok in H. destruct H as (rem & s2 & Hgen & H).
  apply (generate_rooms_named _ _ _ _ _ the_kitchen (MInv_GInv _ _ HM)) in Hgen.
  2: { intros r a Hr. rewrite (mi_rooms _ HM) in Hr. inversion Hr. }
  destruct Hgen as (Hp & Hn).
  apply bind_Ok in H. destruct H as (w & s0 & Hgw & H).
  unfold get_world in Hgw. inversion Hgw; subst w s0. clear Hgw.
  apply bind_Ok in H. destruct H as (kept & s3 & Hrm & H).
  apply lift_Ok in Hrm. destruct Hrm as [Hrm ->].
  apply bind_Ok in H. destruct H as (kept' & s3 & Hsh & H).
  apply shuffle_inv in Hsh. destruct Hsh as (Hpk & Hw3 & _).
  apply bind_Ok in H. destruct H as (u1' & s4 & Hput & H).
  unfold put_world in Hput. inversion Hput; subst u1' s4. clear Hput.
  apply bind_Ok in H. destruct H as (w & s4 & Hgw & H).
  unfold get_world in Hgw. inversion Hgw; subst w s4. clear Hgw.
  apply bind_Ok in H. destruct H as (rooms' & s5 & Hsh2 & H).
  apply shuffle_inv in Hsh2. destruct Hsh2 as (Hpr & Hw5 & _).
  unfold put_world in H. inversion H; subst. clear H. simpl in *.
  split; [exact Hp|].
  intros r a Hr Ha. simpl in Hr. rewrite Hpr in Hr. exact (Hn r a Hr Ha).
Qed.

Lemma one_action_named w w' :
  one_action w w' ->
  p_pddl_name (person w') = p_pddl_name (person w)
  /\ (rooms_well_named w -> rooms_well_named w').
Proof.
  intros Hact. destruct (one_action_pools _ _ Hact) as (Hrooms & _).
  destruct Hact as [(r & b & _ & _ & H) | (i & _ & H)]; inversion H; subst;
    (split; [reflexivity|]); intros Hn r0 a Hr Ha;
    try (exact (Hn r0 a Hr Ha)).
  simpl in *. destruct (Hn r0 a Hr Ha) as (y & Hy & Hwn).
  destruct (decide (b = a)) as [->|Hne].
  - eexists. split; [apply list_lookup_insert_eq; eapply lookup_lt_Some; eassumption|].
    match goal with Hx : stationaries w !! a = Some ?x0 |- _ =>
      assert (y = x0) by congruence; subst y end.
    exact Hwn.
  - exists y. split; [|exact Hwn]. rewrite list_lookup_insert_ne by exact Hne. exact Hy.
Qed.

Lemma reachable_named s0 s :
  reachable s0 s ->
  p_pddl_name (person (world s)) = "me" /\ rooms_well_named (world s).
Proof.
  induction 1 as [u s Hinit | s fuel n s' Hreach (IHp & IHn) Hstep].
  - destruct (DatasetGenerator_init_split _ _ _ Hinit) as (s1 & H1 & H2).
    pose proof (proj1 (DatasetGenerator_init_movables_spec _ _ _ H1)) as HM.
    destruct (DatasetGenerator_init_rooms_named _ _ _ HM H2) as (Hp & Hn).
    split; [|exact Hn]. rewrite Hp. exact (DatasetGenerator_init_movables_person _ _ _ H1).
  - apply generate_state_change_spec in Hstep. destruct Hstep as (_ & Hact).
    destruct (one_action_named _ _ Hact) as (Hp & Hn).
    split; [congruence | exact (Hn IHn)].
Qed.

Lemma available_names_elem c name :
  name ∈ available_names c -> exists t x, x ∈ pool_of t c /\ name = pddl_name_of t x.
Proof.
  unfold available_names. intros H. apply list_elem_of_In, in_concat in H.
  destruct H as (l & Hl & Hin). apply in_map_iff in Hl. destruct Hl as (t & <- & _).
  apply in_map_iff in Hin. destruct Hin as (x & <- & Hx).
  exists t, x. split; [apply list_elem_of_In, Hx | reflexivity].
Qed.

(** X20. When the colours of the pens and the names of the owners of phones
    and bedrooms that the class pools hold before [__init__] have no space,
    every name of a generated world is one symbol at every timestep: the
    person's, the rooms', those of the stationary items of the rooms and
    those of the movable items of the pool. *)
Theorem X20_generated_names_ok s0 s :
  reachable s0 s ->
  Forall (fun x => no_space x = true) (raw_names (classes s0)) ->
  names_ok (world s) = true.
Proof.
  intros Hr Hraw. rewrite Forall_forall in Hraw.
  pose proof (proj1 (reachable_Inv _ _ Hr)) as HI.
  destruct (reachable_named _ _ Hr) as (Hme & Hnamed).
  pose proof (reachable_names _ _ Hr) as Hused.
  pose proof (reachable_room_names _ _ Hr) as Hrooms.
  assert (Hroom : forall r, r ∈ rooms (world s) -> no_space (r_pddl_name r) = true).
  { intros r Hin.
    assert (Hn : r_pddl_name r ∈ available_room_names (classes s0)).
    { rewrite <- Hrooms. apply elem_of_app. left. unfold room_names.
      apply list_elem_of_In, in_map, list_elem_of_In, Hin. }
    unfold available_room_names in Hn.
    apply elem_of_app in Hn. destruct Hn as [Hn | Hn].
    { destruct (Kitchen_generated (classes s0)); [inversion Hn|].
      apply list_elem_of_singleton in Hn. rewrite Hn. reflexivity. }
    apply elem_of_app in Hn. destruct Hn as [Hn | Hn].
    { destruct (LivingRoom_generated (classes s0)); [inversion Hn|].
      apply list_elem_of_singleton in Hn. rewrite Hn. reflexivity. }
    apply list_elem_of_In, in_map_iff in Hn. destruct Hn as (name & <- & Hname).
    rewrite no_space_app, lower_no_space, andb_true_r. apply Hraw.
    unfold raw_names. rewrite !elem_of_app. right. right.
    apply list_elem_of_In, Hname. }
  unfold names_ok. rewrite Hme. simpl.
  apply andb_true_iff. split.
  - apply forallb_forall. intros r Hin. apply list_elem_of_In in Hin.
    unfold room_names_ok. rewrite (Hroom r Hin). simpl.
    apply forallb_forall. intros a Ha. apply list_elem_of_In in Ha.
    destruct (Hnamed r a Hin Ha) as (x & Hx & Hwn).
    destruct (inv_rooms _ HI r a Hin Ha) as (x' & Hx' & Hpar & _).
    assert (x' = x) by congruence. subst x'.
    unfold stationary_name_ok. rewrite Hx, (well_named_no_space _ Hwn), Hpar.
    exact (Hroom r Hin).
  - apply forallb_forall. intros i Hi.
    assert (Hn : movable_name (world s) i ∈ available_names (classes s0)).
    { refine (elem_of_submseteq _ _ _ _ Hused).
      apply elem_of_app. left. unfold used_names. apply list_elem_of_In, in_map, Hi. }
    apply available_names_elem in Hn. destruct Hn as (t & x & Hx & ->).
    rewrite pddl_name_of_no_space.
    destruct t; try reflexivity; apply Hraw; unfold raw_names;
      rewrite !elem_of_app; auto.
Qed.

Lemma sample_raw_names : Forall (fun x => no_space x = true) (raw_names (classes sample_initial)).
Proof.
  apply Forall_forall. intros x Hx. apply list_elem_of_In in Hx. vm_compute in Hx.
  repeat (destruct Hx as [<- | Hx]; [reflexivity|]). destruct Hx.
Qed.

Lemma X20_generated_names_ok_witness : names_ok (world sample_ringing) = true.
Proof.
  exact (X20_generated_names_ok sample_initial sample_ringing sample_ringing_reachable
           sample_raw_names).
Defined.
(** ** The actions of the domain *)

Lemma domain_actions_for_elem g : forall l actions a,
  domain_actions_for g l = Ok actions -> a ∈ actions ->
  exists t h, t ∈ l /\ item_get_pddl_domain_actions g t = Ok h /\ a ∈ h.
Proof.
  induction l as [|t l IH]; intros actions a H Ha; simpl in H.
  - inversion H; subst. inversion Ha.
  - apply Res_bind_Ok in H. destruct H as (h & Hh & H).
    apply Res_bind_Ok in H. destruct H as (r & Hr & H). inversion H; subst actions.
    apply elem_of_app in Ha. destruct Ha as [Ha | Ha].
    + exists t, h. split; [apply list_elem_of_here|]. auto.
    + destruct (IH _ _ Hr Ha) as (t' & h' & Ht' & Hh' & Ha').
      exists t', h'. split; [apply list_elem_of_further, Ht'|]. auto.
Qed.

Lemma parameter_variable_line v r :
  no_space v = true -> parameter_variable (v +:+ " " +:+ r) = v.
Proof. intros H. unfold parameter_variable. rewrite (split_space_word _ _ H). reflexivity. Qed.

Lemma own_predicates g t p :
  t ∈ item_types g ->
  p ∈ Person_get_pddl_domain_predicates g ++ item_get_pddl_domain_predicates g t ->
  p ∈ domain_predicates g.
Proof.
  intros Ht Hp. apply elem_of_app in Hp. destruct Hp as [Hp | Hp].
  - apply domain_predicates_person, Hp.
  - exact (domain_predicates_item g t p Ht Hp).
Qed.

(** Finds among the predicates of [L] the one that the literal of the goal
    applies. *)
Ltac pick_predicate g t Ht L :=
  match L with
  | ?x :: ?r =>
      first [ exists x; split;
                [ apply (own_predicates g t x Ht); apply list_elem_of_In; simpl; tauto
                | split; vm_compute; reflexivity ]
            | pick_predicate g t Ht r ]
  end.

Ltac check_action g t Ht :=
  split; [apply (bool_decide_unpack _); vm_compute; exact I|];
  split;
  [ intros l v Hl Hv;
    assert (Hc : v ∈ concat (map literal_variables (action_literals _)))
      by (apply list_elem_of_In, in_concat; exists (literal_variables l);
          split; [apply in_map, list_elem_of_In, Hl | apply list_elem_of_In, Hv]);
    clear Hl Hv; apply list_elem_of_In in Hc; apply list_elem_of_In;
    vm_compute in Hc; vm_compute; tauto
  | intros l Hl; apply list_elem_of_In in Hl; unfold action_literals in Hl; simpl in Hl;
    repeat (destruct Hl as [<- | Hl]); try contradiction;
    let L := eval cbv [Person_get_pddl_domain_predicates item_get_pddl_domain_predicates
                       stationary_get_pddl_domain_predicates
                       movable_get_pddl_domain_predicates
                       Sink_get_special_domain_predicates app] in
             (Person_get_pddl_domain_predicates g ++ item_get_pddl_domain_predicates g t) in
    pick_predicate g t Ht L ].

(** X21. Every action of the domain is well formed: its parameters are
    distinct variables, every variable of its preconditions and effects is
    one of its parameters, and every literal applies a predicate that the
    domain declares, to as many arguments as the predicate has parameters. *)
Theorem X21_actions_well_formed g actions a :
  domain_actions g = Ok actions -> a ∈ actions ->
  NoDup (declared_variables a)
  /\ (forall l v, l ∈ action_literals a -> v ∈ literal_variables l ->
        v ∈ declared_variables a)
  /\ (forall l, l ∈ action_literals a ->
        exists p, p ∈ domain_predicates g /\ pred_name p = literal_predicate l
                  /\ length (literal_variables l) = length (pred_parameter_list p)).
Proof.
  intros H Ha. destruct (domain_actions_for_elem _ _ _ _ H Ha) as (t & h & Ht & Hh & Hin).
  clear H Ha actions.
  destruct t as [m | st].
  - simpl in Hh. inversion Hh; subst h. clear Hh.
    destruct m; simpl in Hin; try (inversion Hin; fail).
    apply list_elem_of_singleton in Hin. subst a. check_action g (@inl MovableType StationaryType Phone) Ht.
  - destruct st; simpl in Hh; inversion Hh; subst h; clear Hh;
      apply list_elem_of_In in Hin; simpl in Hin;
      repeat (destruct Hin as [<- | Hin]); try contradiction.
    all: match goal with
         | Ht : inr ?st ∈ _ |- _ => check_action g (@inr MovableType StationaryType st) Ht
         end.
Qed.

Lemma sample_actions_eq : domain_actions sample_globals = Ok sample_actions.
Proof. vm_compute. reflexivity. Qed.

Lemma sample_action_in : sample_action ∈ sample_actions.
Proof. apply list_elem_of_In. vm_compute. left. reflexivity. Qed.

Lemma X21_actions_well_formed_witness :
  NoDup (declared_variables sample_action)
  /\ (forall l v, l ∈ action_literals sample_action -> v ∈ literal_variables l ->
        v ∈ declared_variables sample_action)
  /\ (forall l, l ∈ action_literals sample_action ->
        exists p, p ∈ domain_predicates sample_globals
                  /\ pred_name p = literal_predicate l
                  /\ length (literal_variables l) = length (pred_parameter_list p)).
Proof.
  exact (X21_actions_well_formed sample_globals sample_actions sample_action
           sample_actions_eq sample_action_in).
Defined.
(** ** Shelves and their levels *)

(** X22. A shelf of a room of a well-formed world has between three and ten
    levels and [:init] has [shelf-has-level] for each of them; an item of the
    pool that lies on the shelf lies on one of these levels, named in its
    [contains] predicate; and the level that [generate_relative_location]
    draws for a placement is one of them too, so that the precondition
    [shelf-has-level] of placing on a shelf holds for it. *)
Theorem X22_shelf_levels_declared w init r a x levels :
  Inv w -> problem_init w = Ok init ->
  r ∈ rooms w -> a ∈ r_items r -> stationaries w !! a = Some x ->
  s_state x = IsShelf levels ->
  Shelf_MIN_LEVELS <= levels <= Shelf_MAX_LEVELS
  /\ (forall k, 1 <= k <= levels ->
        "shelf-has-level " +:+ s_pddl_name x +:+ " " +:+ get_level_name k ∈ init)
  /\ (forall i it, i ∈ movable_items w -> movables w !! i = Some it ->
        m_container it = Some a ->
        exists k, 1 <= k <= levels
          /\ Container_get_contains_predicate Shelf (s_pddl_name x) (m_pddl_name it)
               +:+ " " +:+ get_level_name k ∈ init)
  /\ (forall loc extra, relative_location_of x loc extra ->
        exists k, 1 <= k <= levels
          /\ extra !! "pddl_level" = Some (VStr (get_level_name k))).
Proof.
  intros HI Hinit Hr Ha Hx Hst.
  destruct (inv_rooms _ HI r a Hr Ha) as (x' & Hx' & _ & Hok).
  assert (x' = x) by congruence. subst x'.
  split.
  { unfold stationary_ok in Hok. rewrite Hst in Hok. exact Hok. }
  split.
  { intros k Hk. apply (problem_init_elem _ _ _ Hinit). right. left.
    exists r, a, x. split; [exact Hr|]. split; [exact Ha|]. split; [exact Hx|].
    unfold stationary_get_init_conditions. rewrite Hst. apply elem_of_app. right.
    apply list_elem_of_In, in_map_iff. exists (k - 1). split.
    - replace (k - 1 + 1) with k by lia. reflexivity.
    - apply in_seq. lia. }
  split.
  { intros i it Hi Hit Hc.
    destruct (inv_placed _ HI i it a Hi Hit Hc) as (y & Hy & _ & Hloc & _).
    assert (y = x) by congruence. subst y.
    destruct (get_contains_predicate_placed x it Hloc) as (pr & Hpr & Hshape).
    rewrite Hst in Hshape. destruct Hshape as (k & Hk & ->).
    exists k. split; [exact Hk|].
    apply (problem_init_elem _ _ _ Hinit). right. right.
    destruct (movable_get_init_conditions_total _ i it HI Hi Hit) as (h & Hh).
    exists i, it, h. split; [exact Hi|]. split; [exact Hit|]. split; [exact Hh|].
    destruct (movable_get_init_conditions_elem _ _ _ Hh) as (l & Hl & Hiff).
    rewrite (MovableItem_get_init_conditions_placed _ _ _ _ _ Hc Hx Hpr) in Hl.
    inversion Hl; subst l. apply Hiff. left. apply list_elem_of_here. }
  intros loc extra Hloc.
  destruct Hloc as [Hs | lv k Hs Hk | Hs | b Hs]; try congruence.
  assert (lv = levels) by congruence. subst lv.
  exists k. split; [exact Hk|].
  rewrite lookup_insert_ne by discriminate. apply lookup_insert_eq.
Qed.

Lemma sample_holding_init_eq : problem_init (world sample_holding) = Ok sample_holding_init.
Proof. vm_compute. reflexivity. Qed.

Lemma sample_shelf_in : 4 ∈ r_items sample_living_room.
Proof. apply list_elem_of_In. vm_compute. tauto. Qed.

Lemma sample_shelf_lookup :
  stationaries (world sample_holding) !! 4 = Some sample_living_room_shelf.
Proof. vm_compute. reflexivity. Qed.

Lemma sample_shelf_levels : s_state sample_living_room_shelf = IsShelf 4.
Proof. vm_compute. reflexivity. Qed.

Lemma X22_shelf_levels_declared_witness :
  Shelf_MIN_LEVELS <= 4 <= Shelf_MAX_LEVELS
  /\ (forall k, 1 <= k <= 4 ->
        "shelf-has-level " +:+ s_pddl_name sample_living_room_shelf +:+ " "
          +:+ get_level_name k ∈ sample_holding_init)
  /\ (forall i it, i ∈ movable_items (world sample_holding) ->
        movables (world sample_holding) !! i = Some it ->
        m_container it = Some 4 ->
        exists k, 1 <= k <= 4
          /\ Container_get_contains_predicate Shelf (s_pddl_name sample_living_room_shelf)
               (m_pddl_name it)
               +:+ " " +:+ get_level_name k ∈ sample_holding_init)
  /\ (forall loc extra, relative_location_of sample_living_room_shelf loc extra ->
        exists k, 1 <= k <= 4
          /\ extra !! "pddl_level" = Some (VStr (get_level_name k))).
Proof.
  exact (X22_shelf_levels_declared (world sample_holding) sample_holding_init
           sample_living_room 4 sample_living_room_shelf 4 sample_holding_Inv
           sample_holding_init_eq sample_living_room_in sample_shelf_in
           sample_shelf_lookup sample_shelf_levels).
Defined.

(** ** The encoders never raise *)

Lemma domain_actions_for_total g : forall l, exists r, domain_actions_for g l = Ok r.
Proof.
  induction l as [|t l (r & IH)]; simpl; [eauto|].
  rewrite IH. destruct t as [m|[]]; simpl; eauto.
Qed.

(** X23. At every timestep of a generated world both encoders return a text:
    [generate_problem_pddl] finds every container and every shelf level it
    looks up, and [generate_domain_pddl] every entry of [EXTRA_INFO]. *)
Theorem X23_encoders_total s0 s :
  reachable s0 s ->
  (exists text, generate_problem_pddl (globals s) (world s) = Ok text)
  /\ (exists text, generate_domain_pddl (globals s) = Ok text).
Proof.
  intros Hr. pose proof (proj1 (reachable_Inv _ _ Hr)) as HI. split.
  - unfold generate_problem_pddl.
    destruct (problem_objects_total (globals s) _ HI) as (objs & ->).
    destruct (problem_init_total _ HI) as (init & ->). simpl. eauto.
  - unfold generate_domain_pddl, domain_actions.
    destruct (domain_actions_for_total (globals s) (item_types (globals s))) as (r & ->).
    simpl. eauto.
Qed.

Lemma X23_encoders_total_witness :
  (exists text, generate_problem_pddl (globals sample_ringing) (world sample_ringing)
                = Ok text)
  /\ (exists text, generate_domain_pddl (globals sample_ringing) = Ok text).
Proof. exact (X23_encoders_total sample_initial sample_ringing sample_ringing_reachable). Defined.
(** ** Picking up and putting back *)

(** The [:init] depends on the world only through the rooms, the pool, the
    person, the heap of stationary items and the predicates of the items of
    the pool. *)
Lemma problem_init_ext w w' :
  rooms w' = rooms w -> movable_items w' = movable_items w ->
  person w' = person w -> stationaries w' = stationaries w ->
  (forall i, i ∈ movable_items w ->
     (it <~ deref (movables w') i ;; movable_get_init_conditions w' it)
     = (it <~ deref (movables w) i ;; movable_get_init_conditions w it)) ->
  problem_init w' = problem_init w.
Proof.
  intros Hr Hm Hp Hs Hi. unfold problem_init. rewrite Hr, Hm, Hp.
  rewrite (concat_for_ext (Room_get_init_conditions w') (Room_get_init_conditions w)).
  2: { intros r _. unfold Room_get_init_conditions. rewrite Hs. reflexivity. }
  rewrite (concat_for_ext
             (fun a => it <~ deref (movables w') a ;; movable_get_init_conditions w' it)
             (fun a => it <~ deref (movables w) a ;; movable_get_init_conditions w it));
    [reflexivity | exact Hi].
Qed.

(** X24. In a well-formed world with an empty hand, picking up an item that
    lies in a table, a fridge or a sink and putting it back into the same
    container succeeds and gives back the problem text of the start: the
    [:objects] and the [:init] are the lists they were. *)
Theorem X24_pick_up_put_back s i it c x :
  Inv (world s) -> i ∈ movable_items (world s) -> p_item (person (world s)) = None ->
  movables (world s) !! i = Some it -> m_container it = Some c ->
  stationaries (world s) !! c = Some x -> s_type x <> Shelf ->
  exists n1 s1 n2 s2,
    MovableItem_perform_action i s = Ok (Some n1, s1)
    /\ p_item (person (world s1)) = Some i
    /\ Container_perform_action c s1 = Ok (Some n2, s2)
    /\ p_item (person (world s2)) = None
    /\ problem_init (world s2) = problem_init (world s)
    /\ problem_objects (globals s2) (world s2) = problem_objects (globals s) (world s)
    /\ generate_problem_pddl (globals s2) (world s2)
       = generate_problem_pddl (globals s) (world s).
Proof.
  intros HI Hi Hp Hit Hc Hx Hns.
  destruct (inv_placed _ HI i it c Hi Hit Hc) as (x' & Hx' & Hhold & _ & r & Hr & Ha).
  assert (x' = x) by congruence. subst x'.
  destruct (inv_rooms _ HI r c Hr Ha) as (y & Hy & _ & Hok).
  assert (y = x) by congruence. subst y.
  destruct (MovableItem_perform_action_pick i s it c x Hp Hit Hc Hx) as (s1 & Hact1 & Hw1).
  pose proof (MovableItem_perform_action_spec _ _ _ _ Hact1) as ((_ & _ & Hg1) & _).
  set (it1 := with_location it None None (m_extra_location_info it)).
  assert (Hlt : i < length (movables (world s))) by (eapply lookup_lt_Some; exact Hit).
  assert (Hit1 : movables (world s1) !! i = Some it1).
  { rewrite Hw1. unfold pick_up_effect. simpl. apply list_lookup_insert_eq. exact Hlt. }
  assert (Hx1 : stationaries (world s1) !! c = Some x) by (rewrite Hw1; exact Hx).
  assert (Hp1 : p_item (person (world s1)) = Some i) by (rewrite Hw1; reflexivity).
  destruct (Container_perform_action_place c s1 x i it1 Hx1 Hok Hp1 Hit1 Hhold)
    as (loc & extra & s2 & Hact2 & Hloc & Hw2).
  pose proof (Container_perform_action_spec _ _ _ _ Hact2) as ((_ & _ & Hg2) & _).
  assert (Hinit : problem_init (world s2) = problem_init (world s)).
  { apply problem_init_ext; rewrite Hw2, Hw1; try reflexivity.
    - simpl. destruct (person (world s)) as [pi pn]. simpl in Hp. subst pi. reflexivity.
    - intros j Hj. simpl. destruct (decide (j = i)) as [->|Hne].
      + unfold deref. rewrite list_lookup_insert_eq by (rewrite length_insert; exact Hlt).
        rewrite Hit. simpl.
        unfold movable_get_init_conditions, MovableItem_get_init_conditions, deref.
        simpl. rewrite Hc, Hx. simpl.
        unfold get_contains_predicate. destruct (s_type x); try reflexivity.
        congruence.
      + unfold deref. rewrite !list_lookup_insert_ne by congruence.
        destruct (movables (world s) !! j) as [itj|]; [|reflexivity]. simpl.
        apply movable_get_init_conditions_same; reflexivity. }
  assert (Hobjs : problem_objects (globals s2) (world s2)
                  = problem_objects (globals s) (world s)).
  { rewrite Hg2, Hg1. apply problem_objects_ext; rewrite Hw2, Hw1; try reflexivity.
    intros j. simpl. destruct (decide (j = i)) as [->|Hne].
    - rewrite list_lookup_insert_eq by (rewrite length_insert; exact Hlt).
      rewrite Hit. reflexivity.
    - rewrite !list_lookup_insert_ne by congruence. reflexivity. }
  eexists _, s1, _, s2.
  split; [exact Hact1|]. split; [exact Hp1|]. split; [exact Hact2|].
  split; [rewrite Hw2; reflexivity|]. split; [exact Hinit|]. split; [exact Hobjs|].
  unfold generate_problem_pddl. rewrite Hinit, Hobjs. reflexivity.
Qed.

Lemma sample_pool_3 : 3 ∈ movable_items (world sample_generated).
Proof. rewrite sample_pool. apply list_elem_of_In. simpl. tauto. Qed.

Lemma sample_blue_pen_lookup : movables (world sample_generated) !! 3 = Some sample_blue_pen.
Proof. vm_compute. reflexivity. Qed.

Lemma sample_blue_pen_container : m_container sample_blue_pen = Some 3.
Proof. vm_compute. reflexivity. Qed.

Lemma sample_generated_table : stationaries (world sample_generated) !! 3 = Some sample_table.
Proof. vm_compute. reflexivity. Qed.

Lemma sample_table_not_shelf : s_type sample_table <> Shelf.
Proof. vm_compute. discriminate. Qed.

Lemma X24_pick_up_put_back_witness :
  exists n1 s1 n2 s2,
    MovableItem_perform_action 3 sample_generated = Ok (Some n1, s1)
    /\ p_item (person (world s1)) = Some 3
    /\ Container_perform_action 3 s1 = Ok (Some n2, s2)
    /\ p_item (person (world s2)) = None
    /\ problem_init (world s2) = problem_init (world sample_generated)
    /\ problem_objects (globals s2) (world s2)
       = problem_objects (globals sample_generated) (world sample_generated)
    /\ generate_problem_pddl (globals s2) (world s2)
       = generate_problem_pddl (globals sample_generated) (world sample_generated).
Proof.
  exact (X24_pick_up_put_back sample_generated 3 sample_blue_pen 3 sample_table
           sample_generated_Inv sample_pool_3 sample_hand sample_blue_pen_lookup
           sample_blue_pen_container sample_generated_table sample_table_not_shelf).
Defined.
